(** * Channel vocoder DSP engine: model of [src/dsp/vocoder.c] and its properties

    The C source works on IEEE 754 single-precision values ([float]), 16-bit
    PCM samples, a 32-bit noise seed and C strings.  The model keeps these as
    they are:
    - [float] is [spec_float] with the binary32 parameters (24 bits of
      precision, exponent bound 128); [double], used by [atof] and [printf],
      is [spec_float] with the binary64 parameters.  Every arithmetic
      operator of the source is one correctly rounded operation, in the
      order in which the source writes it (no fused multiply-add);
    - integers are [Z], with the wrap-around of [uint32_t] written out;
    - C strings are [string]; the fixed-capacity arrays of the instance are
      lists addressed by index;
    - the functions of the C library that the source calls ([strstr],
      [atof], [atoi], [snprintf], [sqrtf]) are modelled after ISO C; the
      three transcendental functions [logf], [expf], [sinf] are an interface
      ([LibM]) that the properties quantify over. *)

From Stdlib Require Import ZArith List String Ascii Bool Lia.
From Stdlib Require Import Floats.SpecFloat.
From stdpp Require Import list.
Import ListNotations.
Local Open Scope Z_scope.

(** ** Floating-point layer *)

Definition float := spec_float.

Definition fadd : float -> float -> float := SFadd 24 128.
Definition fsub : float -> float -> float := SFsub 24 128.
Definition fmul : float -> float -> float := SFmul 24 128.
Definition fdiv : float -> float -> float := SFdiv 24 128.
Definition fsqrt : float -> float := SFsqrt 24 128.
Definition fabsf : float -> float := SFabs.
Definition flt : float -> float -> bool := SFltb.

Declare Scope f32_scope.
Delimit Scope f32_scope with f32.
Infix "+" := fadd : f32_scope.
Infix "-" := fsub : f32_scope.
Infix "*" := fmul : f32_scope.
Infix "/" := fdiv : f32_scope.
Infix "<" := flt : f32_scope.

(** Conversion of an integer to [float] ([(float)i]): round to nearest even. *)
Definition f32_of_Z (z : Z) : float := binary_normalize 24 128 z 0 false.

(** Conversion [double] to [float]. *)
Definition f32_of_f64 (d : float) : float :=
  match d with
  | S754_finite s m e => binary_round 24 128 s m e
  | _ => d
  end.

(** The [double] nearest to [(-1)^s * n * 10^e10], for [0 <= n]. *)
Definition f64_of_decimal (s : bool) (n e10 : Z) : float :=
  match n with
  | Zpos p =>
      if 0 <=? e10
      then binary_normalize 53 1024 (cond_Zopp s (n * 10 ^ e10)) 0 false
      else SFdiv 53 1024 (S754_finite s p 0)
                         (S754_finite false (Z.to_pos (10 ^ (- e10))) 0)
  | _ => S754_zero s
  end.

(** A decimal [float] constant of the source, [n / d] with [n] and [d]
    exactly representable: one correctly rounded division. *)
Definition f32_lit (n d : Z) : float := fdiv (f32_of_Z n) (f32_of_Z d).

Definition is_nan (x : float) : bool :=
  match x with S754_nan => true | _ => false end.

Definition is_zero (x : float) : bool :=
  match x with S754_zero _ => true | _ => false end.

Definition is_finite (x : float) : bool :=
  match x with S754_zero _ | S754_finite _ _ _ => true | _ => false end.

(** The integer part of a finite value (truncation toward zero). *)
Definition ftrunc (x : float) : Z :=
  match x with
  | S754_finite s m e =>
      cond_Zopp s (if 0 <=? e then Zpos m * 2 ^ e else Zpos m / 2 ^ (- e))
  | _ => 0
  end.

Definition INT_MIN : Z := - 2 ^ 31.
Definition INT_MAX : Z := 2 ^ 31 - 1.

(** [(int)x].  ISO C leaves the conversion undefined when the truncated
    value does not fit (or [x] is a NaN); the module is built for AArch64
    only (scripts/build.sh), where the conversion instruction saturates and
    sends NaN to 0. *)
Definition int_of_float (x : float) : Z :=
  match x with
  | S754_nan => 0
  | S754_infinity s => if s then INT_MIN else INT_MAX
  | _ => Z.max INT_MIN (Z.min INT_MAX (ftrunc x))
  end.

(** Two's complement reading of the low [w] bits. *)
Definition wrap_signed (w : Z) (z : Z) : Z :=
  (z + 2 ^ (w - 1)) mod 2 ^ w - 2 ^ (w - 1).

(** [(int16_t)x]: the 32-bit conversion, of which the low half is stored. *)
Definition int16_of_float (x : float) : Z := wrap_signed 16 (int_of_float x).

Definition f_zero : float := S754_zero false.
Definition f_one : float := f32_of_Z 1.

(** ** The C library on strings *)

Definition code (c : ascii) : Z := Z.of_N (N_of_ascii c).

Definition isspace (c : ascii) : bool :=
  (code c =? 32) || ((9 <=? code c) && (code c <=? 13)).

Definition digit_of (c : ascii) : option Z :=
  if (48 <=? code c) && (code c <=? 57) then Some (code c - 48) else None.

Definition hex_digit_of (c : ascii) : option Z :=
  if (48 <=? code c) && (code c <=? 57) then Some (code c - 48)
  else if (97 <=? code c) && (code c <=? 102) then Some (code c - 87)
  else if (65 <=? code c) && (code c <=? 70) then Some (code c - 55)
  else None.

Definition tolower (c : ascii) : ascii :=
  if (65 <=? code c) && (code c <=? 90)
  then ascii_of_N (Z.to_N (code c + 32)) else c.

Fixpoint skip_space (s : string) : string :=
  match s with
  | String c r => if isspace c then skip_space r else s
  | EmptyString => s
  end.

Definition read_sign (s : string) : bool * string :=
  match s with
  | String "-"%char r => (true, r)
  | String "+"%char r => (false, r)
  | _ => (false, s)
  end.

(** Longest run of digits at the head of [s]: the number read so far, how
    many digits were read, and what follows. *)
Fixpoint read_digits (base : Z) (dig : ascii -> option Z) (s : string)
    (acc cnt : Z) : Z * Z * string :=
  match s with
  | String c r =>
      match dig c with
      | Some d => read_digits base dig r (acc * base + d) (cnt + 1)
      | None => (acc, cnt, s)
      end
  | EmptyString => (acc, cnt, s)
  end.

(** Optional exponent part ([e-3], [P+10]); 0 when there is none. *)
Definition read_exponent (lo up : ascii) (s : string) : Z :=
  match s with
  | String c r =>
      if Ascii.eqb c lo || Ascii.eqb c up then
        let (sg, r') := read_sign r in
        let '(v, cnt, _) := read_digits 10 digit_of r' 0 0 in
        if 0 <? cnt then cond_Zopp sg v else 0
      else 0
  | EmptyString => 0
  end.

(** Digits, optional point and digits: the digits read as one integer, the
    number of digits overall, the number after the point, and the rest. *)
Definition read_mantissa (base : Z) (dig : ascii -> option Z) (s : string)
    : Z * Z * Z * string :=
  let '(n1, c1, r1) := read_digits base dig s 0 0 in
  match r1 with
  | String "."%char r =>
      let '(n2, c2, r2) := read_digits base dig r n1 0 in
      (n2, c1 + c2, c2, r2)
  | _ => (n1, c1, 0, r1)
  end.

Definition strtod_decimal (sg : bool) (s : string) : option float :=
  let '(n, cnt, frac, r) := read_mantissa 10 digit_of s in
  if cnt =? 0 then None
  else Some (f64_of_decimal sg n (read_exponent "e"%char "E"%char r - frac)).

Definition strtod_hex (sg : bool) (s : string) : option float :=
  match s with
  | String "0"%char (String x r0) =>
      if Ascii.eqb (tolower x) "x"%char then
        let '(n, cnt, frac, r) := read_mantissa 16 hex_digit_of r0 in
        if cnt =? 0 then None
        else Some (binary_normalize 53 1024 (cond_Zopp sg n)
                     (read_exponent "p"%char "P"%char r - 4 * frac) sg)
      else None
  | _ => None
  end.

Fixpoint prefix_ci (p s : string) : bool :=
  match p, s with
  | EmptyString, _ => true
  | String a p', String b s' => Ascii.eqb a (tolower b) && prefix_ci p' s'
  | String _ _, EmptyString => false
  end.

(** [atof]: the [double] that the longest valid prefix of [s] denotes
    (decimal, hexadecimal, [inf], [nan]); 0 when there is no such prefix. *)
Definition atof (s : string) : float :=
  let (sg, r) := read_sign (skip_space s) in
  match strtod_hex sg r with
  | Some v => v
  | None =>
      match strtod_decimal sg r with
      | Some v => v
      | None =>
          if prefix_ci "inf"%string r then S754_infinity sg
          else if prefix_ci "nan"%string r then S754_nan
          else S754_zero false
      end
  end.

(** [atoi]: [(int)strtol(s, NULL, 10)]; [strtol] saturates at the bounds of
    [long] and the conversion to [int] keeps the low 32 bits. *)
Definition atoi (s : string) : Z :=
  let (sg, r) := read_sign (skip_space s) in
  let '(v, _, _) := read_digits 10 digit_of r 0 0 in
  wrap_signed 32 (Z.max (- 2 ^ 63) (Z.min (2 ^ 63 - 1) (cond_Zopp sg v))).

(** [strstr]: the suffix of [haystack] that starts at the first occurrence
    of [needle], when there is one. *)
Fixpoint strstr (haystack needle : string) : option string :=
  if String.prefix needle haystack then Some haystack
  else match haystack with
       | String _ rest => strstr rest needle
       | EmptyString => None
       end.

Definition strlen (s : string) : Z := Z.of_nat (String.length s).

Fixpoint drop (n : nat) (s : string) : string :=
  match n, s with
  | S n', String _ r => drop n' r
  | _, _ => s
  end.

(** *** Formatted output *)

Definition digit_char (d : Z) : ascii := ascii_of_N (Z.to_N (48 + d)).

(** The [w] low decimal digits of [n], most significant first. *)
Fixpoint digits_fixed (w : nat) (n : Z) : string :=
  match w with
  | O => EmptyString
  | S w' => (digits_fixed w' (n / 10) ++ String (digit_char (n mod 10)) EmptyString)%string
  end.

(** Number of decimal digits of [n] (1 for [n < 10]). *)
Fixpoint ndigits (fuel : nat) (n : Z) : nat :=
  match fuel with
  | O => 1
  | S f => if n <? 10 then 1%nat else S (ndigits f (n / 10))
  end.

Definition dec_string (n : Z) : string :=
  digits_fixed (ndigits (Z.to_nat (Z.log2 n)) n) n.

(** ["%d"] *)
Definition fmt_d (n : Z) : string :=
  if n <? 0 then String "-"%char (dec_string (- n)) else dec_string n.

(** Nearest integer to [num / den], ties to even, for [0 <= num], [0 < den]. *)
Definition round_half_even (num den : Z) : Z :=
  let q := num / den in
  let r := num mod den in
  match 2 * r ?= den with
  | Lt => q
  | Gt => q + 1
  | Eq => if Z.even q then q else q + 1
  end.

(** The magnitude of [x] in units of [10^-p], rounded to an integer. *)
Definition scaled_decimal (p : nat) (m : positive) (e : Z) : Z :=
  if 0 <=? e then Zpos m * 2 ^ e * 10 ^ Z.of_nat p
  else round_half_even (Zpos m * 10 ^ Z.of_nat p) (2 ^ (- e)).

Definition fixed_string (p : nat) (n : Z) : string :=
  (dec_string (n / 10 ^ Z.of_nat p) ++ String "."%char (digits_fixed p n))%string.

Definition sign_string (s : bool) : string := if s then "-"%string else EmptyString.

(** ["%.pf"] of a [float] argument (promoted to [double] without change of
    value): the exact value rounded to [p] decimals. *)
Definition fmt_f (p : nat) (x : float) : string :=
  match x with
  | S754_nan => "nan"%string
  | S754_infinity s => (sign_string s ++ "inf")%string
  | S754_zero s => (sign_string s ++ fixed_string p 0)%string
  | S754_finite s m e =>
      (sign_string s ++ fixed_string p (scaled_decimal p m e))%string
  end.

(** [snprintf(buf, buf_len, ...)], where [s] is the complete formatted
    text: at most [size - 1] characters of it reach the buffer (none, not
    even the terminator, when [size] is 0), and the return value is the
    length of the complete text, truncated or not. *)
Definition snprintf (buf_len : Z) (s : string) : option string * Z :=
  let size := buf_len mod 2 ^ 64 in
  (if size =? 0 then None
   else Some (substring 0 (Z.to_nat (Z.min (size - 1) (strlen s))) s),
   strlen s).

(** ** The transcendental functions of the C library

    [logf], [expf] and [sinf] reach the engine only through [recalc_bands].
    Their values are whatever the C library of the device returns; the
    model takes them as an interface. *)

Class LibM := {
  logf : float -> float;
  expf : float -> float;
  sinf : float -> float
}.

(** ** Constants of the source *)

Definition SAMPLE_RATE : Z := 44100.
Definition MAX_BANDS : nat := 32.

(** [M_PI], a [double], and its conversion [(float)M_PI]. *)
Definition M_PI : float := f64_of_decimal false 314159265358979323846 (-20).
Definition M_PI_f : float := f32_of_f64 M_PI.

(** ** State-variable bandpass filter *)

Record svf_state_t := { low : float; band : float }.

Local Open Scope f32_scope.

Definition svf_bandpass (s : svf_state_t) (input f q : float)
    : svf_state_t * float :=
  let low' := low s + f * band s in
  let high := input - low' - q * band s in
  let band' := band s + f * high in
  ({| low := low'; band := band' |}, band').

(** ** Envelope follower *)

Record env_state_t := { level : float }.

Definition env_follow (e : env_state_t) (input att rel : float)
    : env_state_t * float :=
  let rect := fabsf input in
  let coeff := if level e < rect then att else rel in
  let level' := level e + coeff * (rect - level e) in
  ({| level := level' |}, level').

Local Close Scope f32_scope.

(** ** Vocoder instance *)

Record vocoder_instance_t := {
  bands : Z;
  freq_low : float;
  freq_high : float;
  attack_ms : float;
  release_ms : float;
  mod_gain : float;
  mix : float;
  carrier_mix : float;
  band_f : list float;
  band_q : list float;
  att_coeff : float;
  rel_coeff : float;
  mod_svf_l : list svf_state_t;
  mod_svf_r : list svf_state_t;
  car_svf_l : list svf_state_t;
  car_svf_r : list svf_state_t;
  mod_env_l : list env_state_t;
  mod_env_r : list env_state_t;
  noise_seed : Z
}.

(** Assignments to one field ([v->field = x]). *)
Definition set_bands (v : vocoder_instance_t) (x : Z) :=
  {| bands := x; freq_low := freq_low v; freq_high := freq_high v;
     attack_ms := attack_ms v; release_ms := release_ms v;
     mod_gain := mod_gain v; mix := mix v; carrier_mix := carrier_mix v;
     band_f := band_f v; band_q := band_q v;
     att_coeff := att_coeff v; rel_coeff := rel_coeff v;
     mod_svf_l := mod_svf_l v; mod_svf_r := mod_svf_r v;
     car_svf_l := car_svf_l v; car_svf_r := car_svf_r v;
     mod_env_l := mod_env_l v; mod_env_r := mod_env_r v;
     noise_seed := noise_seed v |}.

Definition set_freq_low (v : vocoder_instance_t) (x : float) :=
  {| bands := bands v; freq_low := x; freq_high := freq_high v;
     attack_ms := attack_ms v; release_ms := release_ms v;
     mod_gain := mod_gain v; mix := mix v; carrier_mix := carrier_mix v;
     band_f := band_f v; band_q := band_q v;
     att_coeff := att_coeff v; rel_coeff := rel_coeff v;
     mod_svf_l := mod_svf_l v; mod_svf_r := mod_svf_r v;
     car_svf_l := car_svf_l v; car_svf_r := car_svf_r v;
     mod_env_l := mod_env_l v; mod_env_r := mod_env_r v;
     noise_seed := noise_seed v |}.

Definition set_freq_high (v : vocoder_instance_t) (x : float) :=
  {| bands := bands v; freq_low := freq_low v; freq_high := x;
     attack_ms := attack_ms v; release_ms := release_ms v;
     mod_gain := mod_gain v; mix := mix v; carrier_mix := carrier_mix v;
     band_f := band_f v; band_q := band_q v;
     att_coeff := att_coeff v; rel_coeff := rel_coeff v;
     mod_svf_l := mod_svf_l v; mod_svf_r := mod_svf_r v;
     car_svf_l := car_svf_l v; car_svf_r := car_svf_r v;
     mod_env_l := mod_env_l v; mod_env_r := mod_env_r v;
     noise_seed := noise_seed v |}.

Definition set_attack_ms (v : vocoder_instance_t) (x : float) :=
  {| bands := bands v; freq_low := freq_low v; freq_high := freq_high v;
     attack_ms := x; release_ms := release_ms v;
     mod_gain := mod_gain v; mix := mix v; carrier_mix := carrier_mix v;
     band_f := band_f v; band_q := band_q v;
     att_coeff := att_coeff v; rel_coeff := rel_coeff v;
     mod_svf_l := mod_svf_l v; mod_svf_r := mod_svf_r v;
     car_svf_l := car_svf_l v; car_svf_r := car_svf_r v;
     mod_env_l := mod_env_l v; mod_env_r := mod_env_r v;
     noise_seed := noise_seed v |}.

Definition set_release_ms (v : vocoder_instance_t) (x : float) :=
  {| bands := bands v; freq_low := freq_low v; freq_high := freq_high v;
     attack_ms := attack_ms v; release_ms := x;
     mod_gain := mod_gain v; mix := mix v; carrier_mix := carrier_mix v;
     band_f := band_f v; band_q := band_q v;
     att_coeff := att_coeff v; rel_coeff := rel_coeff v;
     mod_svf_l := mod_svf_l v; mod_svf_r := mod_svf_r v;
     car_svf_l := car_svf_l v; car_svf_r := car_svf_r v;
     mod_env_l := mod_env_l v; mod_env_r := mod_env_r v;
     noise_seed := noise_seed v |}.

Definition set_mod_gain (v : vocoder_instance_t) (x : float) :=
  {| bands := bands v; freq_low := freq_low v; freq_high := freq_high v;
     attack_ms := attack_ms v; release_ms := release_ms v;
     mod_gain := x; mix := mix v; carrier_mix := carrier_mix v;
     band_f := band_f v; band_q := band_q v;
     att_coeff := att_coeff v; rel_coeff := rel_coeff v;
     mod_svf_l := mod_svf_l v; mod_svf_r := mod_svf_r v;
     car_svf_l := car_svf_l v; car_svf_r := car_svf_r v;
     mod_env_l := mod_env_l v; mod_env_r := mod_env_r v;
     noise_seed := noise_seed v |}.

Definition set_mix (v : vocoder_instance_t) (x : float) :=
  {| bands := bands v; freq_low := freq_low v; freq_high := freq_high v;
     attack_ms := attack_ms v; release_ms := release_ms v;
     mod_gain := mod_gain v; mix := x; carrier_mix := carrier_mix v;
     band_f := band_f v; band_q := band_q v;
     att_coeff := att_coeff v; rel_coeff := rel_coeff v;
     mod_svf_l := mod_svf_l v; mod_svf_r := mod_svf_r v;
     car_svf_l := car_svf_l v; car_svf_r := car_svf_r v;
     mod_env_l := mod_env_l v; mod_env_r := mod_env_r v;
     noise_seed := noise_seed v |}.

Definition set_carrier_mix (v : vocoder_instance_t) (x : float) :=
  {| bands := bands v; freq_low := freq_low v; freq_high := freq_high v;
     attack_ms := attack_ms v; release_ms := release_ms v;
     mod_gain := mod_gain v; mix := mix v; carrier_mix := x;
     band_f := band_f v; band_q := band_q v;
     att_coeff := att_coeff v; rel_coeff := rel_coeff v;
     mod_svf_l := mod_svf_l v; mod_svf_r := mod_svf_r v;
     car_svf_l := car_svf_l v; car_svf_r := car_svf_r v;
     mod_env_l := mod_env_l v; mod_env_r := mod_env_r v;
     noise_seed := noise_seed v |}.

(** The derived coefficients, written together by [recalc_bands]. *)
Definition set_coeffs (v : vocoder_instance_t)
    (bf bq : list float) (att rel : float) :=
  {| bands := bands v; freq_low := freq_low v; freq_high := freq_high v;
     attack_ms := attack_ms v; release_ms := release_ms v;
     mod_gain := mod_gain v; mix := mix v; carrier_mix := carrier_mix v;
     band_f := bf; band_q := bq;
     att_coeff := att; rel_coeff := rel;
     mod_svf_l := mod_svf_l v; mod_svf_r := mod_svf_r v;
     car_svf_l := car_svf_l v; car_svf_r := car_svf_r v;
     mod_env_l := mod_env_l v; mod_env_r := mod_env_r v;
     noise_seed := noise_seed v |}.

(** The six state arrays. *)
Definition set_filters (v : vocoder_instance_t)
    (ml mr cl cr : list svf_state_t) (el er : list env_state_t) :=
  {| bands := bands v; freq_low := freq_low v; freq_high := freq_high v;
     attack_ms := attack_ms v; release_ms := release_ms v;
     mod_gain := mod_gain v; mix := mix v; carrier_mix := carrier_mix v;
     band_f := band_f v; band_q := band_q v;
     att_coeff := att_coeff v; rel_coeff := rel_coeff v;
     mod_svf_l := ml; mod_svf_r := mr;
     car_svf_l := cl; car_svf_r := cr;
     mod_env_l := el; mod_env_r := er;
     noise_seed := noise_seed v |}.

Definition set_noise_seed (v : vocoder_instance_t) (x : Z) :=
  {| bands := bands v; freq_low := freq_low v; freq_high := freq_high v;
     attack_ms := attack_ms v; release_ms := release_ms v;
     mod_gain := mod_gain v; mix := mix v; carrier_mix := carrier_mix v;
     band_f := band_f v; band_q := band_q v;
     att_coeff := att_coeff v; rel_coeff := rel_coeff v;
     mod_svf_l := mod_svf_l v; mod_svf_r := mod_svf_r v;
     car_svf_l := car_svf_l v; car_svf_r := car_svf_r v;
     mod_env_l := mod_env_l v; mod_env_r := mod_env_r v;
     noise_seed := x |}.

(** The zero bit pattern, as [calloc] and [memset] leave it. *)
Definition svf_zero : svf_state_t := {| low := f_zero; band := f_zero |}.
Definition env_zero : env_state_t := {| level := f_zero |}.

(** Element [b] of a fixed-capacity array.  The source never indexes past
    [bands <= MAX_BANDS]; past the capacity the model reads the zero value
    and writes nothing. *)
Definition at_f (l : list float) (b : nat) : float := default f_zero (l !! b).
Definition at_svf (l : list svf_state_t) (b : nat) : svf_state_t :=
  default svf_zero (l !! b).
Definition at_env (l : list env_state_t) (b : nat) : env_state_t :=
  default env_zero (l !! b).

(** ** Helpers *)

(** Simple fast white noise: the new seed and the sample. *)
Definition noise_sample (seed : Z) : Z * float :=
  let seed' := (seed * 1664525 + 1013904223) mod 2 ^ 32 in
  (seed', fdiv (f32_of_Z (wrap_signed 32 seed')) (f32_of_Z 2147483648)).

Definition clampf (x lo hi : float) : float :=
  if flt x lo then lo else if flt hi x then hi else x.

Definition clampi (x lo hi : Z) : Z :=
  if x <? lo then lo else if hi <? x then hi else x.

(** Snap band count to nearest valid value *)
Definition snap_bands (v : Z) : Z :=
  if v <=? 12 then 8
  else if v <=? 20 then 16
  else if v <=? 28 then 24
  else 32.

(** Clear all filter states *)
Definition clear_filters (v : vocoder_instance_t) : vocoder_instance_t :=
  set_filters v
    (replicate MAX_BANDS svf_zero) (replicate MAX_BANDS svf_zero)
    (replicate MAX_BANDS svf_zero) (replicate MAX_BANDS svf_zero)
    (replicate MAX_BANDS env_zero) (replicate MAX_BANDS env_zero).

Section Recalc.
Context {M : LibM}.
Local Open Scope f32_scope.

(** The body of the loop of [recalc_bands] for [k] more indices from [i]. *)
Fixpoint recalc_loop (k : nat) (i n : Z) (log_low log_high : float)
    (bf bq : list float) : list float * list float :=
  match k with
  | O => (bf, bq)
  | S k' =>
      let t := if (1 <? n)%Z then f32_of_Z i / f32_of_Z (n - 1)
               else f32_lit 5 10 in
      let fc := expf (log_low + t * (log_high - log_low)) in
      let f := f32_of_Z 2 * sinf (M_PI_f * fc / f32_of_Z SAMPLE_RATE) in
      let f := if f_one < f then f_one else f in
      let Q := f_one + f32_lit 5 10 * fsqrt (f32_of_Z n) in
      recalc_loop k' (i + 1)%Z n log_low log_high
        (<[Z.to_nat i := f]> bf) (<[Z.to_nat i := f_one / Q]> bq)
  end.

(** Recalculate per-band coefficients from current parameters *)
Definition recalc_bands (v : vocoder_instance_t) : vocoder_instance_t :=
  let log_low := logf (freq_low v) in
  let log_high := logf (freq_high v) in
  let n := bands v in
  let '(bf, bq) :=
    recalc_loop (Z.to_nat n) 0 n log_low log_high (band_f v) (band_q v) in
  let att_ms := attack_ms v in
  let rel_ms := release_ms v in
  let att_ms := if att_ms < f32_lit 1 10 then f32_lit 1 10 else att_ms in
  let rel_ms := if rel_ms < f32_lit 1 10 then f32_lit 1 10 else rel_ms in
  let sr := f32_of_Z SAMPLE_RATE in
  let neg_one := f32_of_Z (-1) in
  set_coeffs v bf bq
    (f_one - expf (neg_one / (att_ms * f32_lit 1 1000 * sr)))
    (f_one - expf (neg_one / (rel_ms * f32_lit 1 1000 * sr))).
End Recalc.

(** ** Simple JSON extraction *)

Definition dquote : ascii := ascii_of_N 34.

(** [snprintf(search, sizeof(search), "\"%s\":", key)] with the 64-byte
    buffer [search]. *)
Definition json_search (key : string) : string :=
  substring 0 63 (String dquote (key ++ String dquote ":")).

Fixpoint skip_blank (s : string) : string :=
  match s with
  | String c r => if (code c =? 32) || (code c =? 9) then skip_blank r else s
  | EmptyString => s
  end.

(** The text after the first occurrence of ["key":] and the blanks that
    follow it; [None] stands for the return value -1. *)
Definition json_find (json key : string) : option string :=
  match strstr json (json_search key) with
  | None => None
  | Some p => Some (skip_blank (drop (String.length (json_search key)) p))
  end.

Definition json_get_float (json key : string) : option float :=
  match json_find json key with
  | None => None
  | Some p => Some (f32_of_f64 (atof p))
  end.

Definition json_get_int (json key : string) : option Z :=
  match json_find json key with
  | None => None
  | Some p => Some (atoi p)
  end.

(** ** V2 API *)

(** The host: of [host_api_v1_t] the engine reads the mapped memory (bytes)
    and the offset of the audio input in it. *)
Record host_api_v1_t := {
  mapped_memory : list Z;
  audio_in_offset : Z
}.

(** [mic_in[j]]: the little-endian [int16_t] at byte [audio_in_offset + 2j]
    of the mapped memory. *)
Definition mic_in (h : host_api_v1_t) (j : Z) : Z :=
  let a := Z.to_nat (audio_in_offset h + 2 * j) in
  wrap_signed 16 (default 0 (mapped_memory h !! a)
                  + 256 * default 0 (mapped_memory h !! S a)).

Section Api.
Context {M : LibM}.

(** [calloc] succeeded: every byte of the instance is 0, then the
    defaults and the coefficients. *)
Definition v2_create_instance : vocoder_instance_t :=
  recalc_bands
    {| bands := 16;
       freq_low := f32_of_Z 100;
       freq_high := f32_of_Z 8000;
       attack_ms := f32_of_Z 5;
       release_ms := f32_of_Z 50;
       mod_gain := f_one;
       mix := f_one;
       carrier_mix := f32_lit 1 10;
       band_f := replicate MAX_BANDS f_zero;
       band_q := replicate MAX_BANDS f_zero;
       att_coeff := f_zero;
       rel_coeff := f_zero;
       mod_svf_l := replicate MAX_BANDS svf_zero;
       mod_svf_r := replicate MAX_BANDS svf_zero;
       car_svf_l := replicate MAX_BANDS svf_zero;
       car_svf_r := replicate MAX_BANDS svf_zero;
       mod_env_l := replicate MAX_BANDS env_zero;
       mod_env_r := replicate MAX_BANDS env_zero;
       noise_seed := 12345 |}.

Local Open Scope f32_scope.

(** One band of the inner loop of [v2_process_block]. *)
Definition process_band (v : vocoder_instance_t) (b : nat)
    (mod_l mod_r car_noise_l car_noise_r att rel out_l out_r : float)
    : vocoder_instance_t * float * float :=
  let f := at_f (band_f v) b in
  let q := at_f (band_q v) b in
  let '(ml, mod_band_l) := svf_bandpass (at_svf (mod_svf_l v) b) mod_l f q in
  let '(mr, mod_band_r) := svf_bandpass (at_svf (mod_svf_r v) b) mod_r f q in
  let '(el, env_l) := env_follow (at_env (mod_env_l v) b) mod_band_l att rel in
  let '(er, env_r) := env_follow (at_env (mod_env_r v) b) mod_band_r att rel in
  let '(cl, car_band_l) :=
    svf_bandpass (at_svf (car_svf_l v) b) car_noise_l f q in
  let '(cr, car_band_r) :=
    svf_bandpass (at_svf (car_svf_r v) b) car_noise_r f q in
  (set_filters v
     (<[b := ml]> (mod_svf_l v)) (<[b := mr]> (mod_svf_r v))
     (<[b := cl]> (car_svf_l v)) (<[b := cr]> (car_svf_r v))
     (<[b := el]> (mod_env_l v)) (<[b := er]> (mod_env_r v)),
   out_l + car_band_l * env_l,
   out_r + car_band_r * env_r).

(** [for (b = ...; b < n; b++)], [k] bands from [b] on. *)
Fixpoint band_loop (k : nat) (b : nat) (v : vocoder_instance_t)
    (mod_l mod_r car_noise_l car_noise_r att rel out_l out_r : float)
    : vocoder_instance_t * float * float :=
  match k with
  | O => (v, out_l, out_r)
  | S k' =>
      let '(v', out_l', out_r') :=
        process_band v b mod_l mod_r car_noise_l car_noise_r att rel
          out_l out_r in
      band_loop k' (S b) v' mod_l mod_r car_noise_l car_noise_r att rel
        out_l' out_r'
  end.

(** What one frame computes before it is written back: the instance with
    its new seed and filter states, the wet sums after scaling, and the
    dry carrier samples. *)
Record frame_t := {
  fr_inst : vocoder_instance_t;
  fr_ns : float;
  fr_car_l : float;
  fr_car_r : float;
  fr_car_noise_l : float;
  fr_car_noise_r : float;
  fr_out_l : float;
  fr_out_r : float
}.

Definition frame_signals (v : vocoder_instance_t)
    (n : Z) (att rel mod_gain noise_mix : float)
    (in_l in_r mic_l mic_r : Z) : frame_t :=
  let car_l := f32_of_Z in_l / f32_of_Z 32768 in
  let car_r := f32_of_Z in_r / f32_of_Z 32768 in
  let mod_l := f32_of_Z mic_l / f32_of_Z 32768 * mod_gain in
  let mod_r := f32_of_Z mic_r / f32_of_Z 32768 * mod_gain in
  let '(seed', ns) := noise_sample (noise_seed v) in
  let v := set_noise_seed v seed' in
  let car_noise_l := car_l + ns * noise_mix in
  let car_noise_r := car_r + ns * noise_mix in
  let '(v, out_l, out_r) :=
    band_loop (Z.to_nat n) 0 v mod_l mod_r car_noise_l car_noise_r att rel
      f_zero f_zero in
  let scale := f32_of_Z 2 / fsqrt (f32_of_Z n) in
  {| fr_inst := v; fr_ns := ns; fr_car_l := car_l; fr_car_r := car_r;
     fr_car_noise_l := car_noise_l; fr_car_noise_r := car_noise_r;
     fr_out_l := out_l * scale; fr_out_r := out_r * scale |}.

(** Wet/dry mix, clamp, and conversion to the sample that is written. *)
Definition mix_sample (out car wet dry : float) : Z :=
  let mixed := out * wet + car * dry in
  let mixed := clampf mixed (f32_of_Z (-1)) f_one in
  int16_of_float (mixed * f32_of_Z 32767).

(** [for (i = ...; i < frames; i++)], [k] frames from [i] on.  The
    source indexes [audio_inout] and [mic_in] without a bound; past the
    end of the list the model reads 0 and writes nothing. *)
Fixpoint frame_loop (k : nat) (i : Z) (h : host_api_v1_t)
    (v : vocoder_instance_t) (n : Z) (att rel mod_gain wet dry noise_mix : float)
    (audio_inout : list Z) : vocoder_instance_t * list Z :=
  match k with
  | O => (v, audio_inout)
  | S k' =>
      let il := Z.to_nat (i * 2) in
      let ir := Z.to_nat (i * 2 + 1) in
      let fr :=
        frame_signals v n att rel mod_gain noise_mix
          (default 0%Z (audio_inout !! il)) (default 0%Z (audio_inout !! ir))
          (mic_in h (i * 2)) (mic_in h (i * 2 + 1)) in
      let audio_inout :=
        <[ir := mix_sample (fr_out_r fr) (fr_car_r fr) wet dry]>
          (<[il := mix_sample (fr_out_l fr) (fr_car_l fr) wet dry]>
             audio_inout) in
      frame_loop k' (i + 1)%Z h (fr_inst fr) n att rel mod_gain wet dry
        noise_mix audio_inout
  end.

(** [v2_process_block]: [g_host] is the global host binding, [instance]
    the handle ([None] for a null pointer). *)
Definition v2_process_block (g_host : option host_api_v1_t)
    (instance : option vocoder_instance_t) (audio_inout : list Z)
    (frames : Z) : option vocoder_instance_t * list Z :=
  match instance, g_host with
  | Some v, Some h =>
      let wet := mix v in
      let '(v', out) :=
        frame_loop (Z.to_nat frames) 0 h v (bands v)
          (att_coeff v) (rel_coeff v) (mod_gain v) wet (f_one - wet)
          (carrier_mix v) audio_inout in
      (Some v', out)
  | _, _ => (instance, audio_inout)
  end.

Local Close Scope f32_scope.
End Api.

Section Params.
Context {M : LibM}.

(** One [if (json_get_float(val, key, &fv) == 0) v->field = ...;]. *)
Definition restore_float (val key : string) (lo hi : float)
    (set : vocoder_instance_t -> float -> vocoder_instance_t)
    (v : vocoder_instance_t) : vocoder_instance_t :=
  match json_get_float val key with
  | Some fv => set v (clampf fv lo hi)
  | None => v
  end.

Definition restore_bands (val : string) (v : vocoder_instance_t)
    : vocoder_instance_t :=
  match json_get_int val "bands" with
  | Some iv => set_bands v (snap_bands (clampi iv 8 32))
  | None => v
  end.

(** The fields of a state value, applied in the order of the source. *)
Definition restore_fields (val : string) (v : vocoder_instance_t)
    : vocoder_instance_t :=
  let v := restore_bands val v in
  let v := restore_float val "freq_low" (f32_of_Z 80) (f32_of_Z 500)
             set_freq_low v in
  let v := restore_float val "freq_high" (f32_of_Z 2000) (f32_of_Z 12000)
             set_freq_high v in
  let v := restore_float val "attack" (f32_lit 1 10) (f32_of_Z 50)
             set_attack_ms v in
  let v := restore_float val "release" (f32_of_Z 5) (f32_of_Z 500)
             set_release_ms v in
  let v := restore_float val "mod_gain" f_zero (f32_of_Z 3) set_mod_gain v in
  let v := restore_float val "mix" f_zero f_one set_mix v in
  restore_float val "carrier_mix" f_zero f_one set_carrier_mix v.

(** [v2_set_param] on a non-null instance. *)
Definition set_param (v : vocoder_instance_t) (key val : string)
    : vocoder_instance_t :=
  if String.eqb key "state" then
    recalc_bands (clear_filters (restore_fields val v))
  else
    let fv := f32_of_f64 (atof val) in
    if String.eqb key "bands" then
      let new_bands := snap_bands (clampi (int_of_float fv) 8 32) in
      if negb (new_bands =? bands v) then
        recalc_bands (clear_filters (set_bands v new_bands))
      else v
    else if String.eqb key "freq_low" then
      recalc_bands (set_freq_low v (clampf fv (f32_of_Z 80) (f32_of_Z 500)))
    else if String.eqb key "freq_high" then
      recalc_bands
        (set_freq_high v (clampf fv (f32_of_Z 2000) (f32_of_Z 12000)))
    else if String.eqb key "attack" then
      recalc_bands (set_attack_ms v (clampf fv (f32_lit 1 10) (f32_of_Z 50)))
    else if String.eqb key "release" then
      recalc_bands (set_release_ms v (clampf fv (f32_of_Z 5) (f32_of_Z 500)))
    else if String.eqb key "mod_gain" then
      set_mod_gain v (clampf fv f_zero (f32_of_Z 3))
    else if String.eqb key "mix" then
      set_mix v (clampf fv f_zero f_one)
    else if String.eqb key "carrier_mix" then
      set_carrier_mix v (clampf fv f_zero f_one)
    else v.

Definition v2_set_param (instance : option vocoder_instance_t)
    (key val : string) : option vocoder_instance_t :=
  match instance with
  | Some v => Some (set_param v key val)
  | None => None
  end.
End Params.

(** A JSON text written with ['] where the source has an escaped double
    quote. *)
Fixpoint json_text (s : string) : string :=
  match s with
  | String c r =>
      String (if Ascii.eqb c "'"%char then dquote else c) (json_text r)
  | EmptyString => EmptyString
  end.

Definition state_string (v : vocoder_instance_t) : string :=
  (json_text "{'bands':" ++ fmt_d (bands v)
   ++ json_text ",'freq_low':" ++ fmt_f 1 (freq_low v)
   ++ json_text ",'freq_high':" ++ fmt_f 1 (freq_high v)
   ++ json_text ",'attack':" ++ fmt_f 1 (attack_ms v)
   ++ json_text ",'release':" ++ fmt_f 1 (release_ms v)
   ++ json_text ",'mod_gain':" ++ fmt_f 2 (mod_gain v)
   ++ json_text ",'mix':" ++ fmt_f 2 (mix v)
   ++ json_text ",'carrier_mix':" ++ fmt_f 2 (carrier_mix v)
   ++ "}")%string.

Definition ui_hierarchy : string :=
  json_text
    ("{"
     ++ "'modes':null,"
     ++ "'levels':{"
     ++ "'root':{"
     ++ "'children':null,"
     ++ "'knobs':['bands','freq_low','freq_high','attack','release','mod_gain','mix','carrier_mix'],"
     ++ "'params':['bands','freq_low','freq_high','attack','release','mod_gain','mix','carrier_mix']"
     ++ "}"
     ++ "}"
     ++ "}")%string.

Definition chain_params : string :=
  json_text
    ("["
     ++ "{'key':'bands','name':'Bands','type':'enum','options':['8','16','24','32'],'default':'16'},"
     ++ "{'key':'freq_low','name':'Low Freq','type':'float','min':80,'max':500,'default':100,'step':10,'unit':'Hz'},"
     ++ "{'key':'freq_high','name':'High Freq','type':'float','min':2000,'max':12000,'default':8000,'step':100,'unit':'Hz'},"
     ++ "{'key':'attack','name':'Attack','type':'float','min':0.1,'max':50,'default':5,'step':0.5,'unit':'ms'},"
     ++ "{'key':'release','name':'Release','type':'float','min':5,'max':500,'default':50,'step':5,'unit':'ms'},"
     ++ "{'key':'mod_gain','name':'Mod Gain','type':'float','min':0,'max':3,'default':1,'step':0.05},"
     ++ "{'key':'mix','name':'Mix','type':'float','min':0,'max':1,'default':1,'step':0.01},"
     ++ "{'key':'carrier_mix','name':'Unvoiced','type':'float','min':0,'max':1,'default':0.1,'step':0.01}"
     ++ "]")%string.

(** [strcpy] of a constant when it fits with its terminator, else -1. *)
Definition copy_const (s : string) (buf_len : Z) : option string * Z :=
  if strlen s <? buf_len then (Some s, strlen s) else (None, -1).

(** [v2_get_param] on a non-null instance: what the call leaves in [buf]
    ([None] when it writes nothing) and its return value. *)
Definition get_param (v : vocoder_instance_t) (key : string) (buf_len : Z)
    : option string * Z :=
  if String.eqb key "name" then snprintf buf_len "Vocoder"
  else if String.eqb key "bands" then snprintf buf_len (fmt_d (bands v))
  else if String.eqb key "freq_low" then snprintf buf_len (fmt_f 1 (freq_low v))
  else if String.eqb key "freq_high" then
    snprintf buf_len (fmt_f 1 (freq_high v))
  else if String.eqb key "attack" then snprintf buf_len (fmt_f 1 (attack_ms v))
  else if String.eqb key "release" then
    snprintf buf_len (fmt_f 1 (release_ms v))
  else if String.eqb key "mod_gain" then snprintf buf_len (fmt_f 2 (mod_gain v))
  else if String.eqb key "mix" then snprintf buf_len (fmt_f 2 (mix v))
  else if String.eqb key "carrier_mix" then
    snprintf buf_len (fmt_f 2 (carrier_mix v))
  else if String.eqb key "state" then snprintf buf_len (state_string v)
  else if String.eqb key "ui_hierarchy" then copy_const ui_hierarchy buf_len
  else if String.eqb key "chain_params" then copy_const chain_params buf_len
  else (None, -1).

Definition v2_get_param (instance : option vocoder_instance_t)
    (key : string) (buf_len : Z) : option string * Z :=
  match instance with
  | Some v => get_param v key buf_len
  | None => (None, -1)
  end.

(** ** A reference implementation of [LibM]

    Fixed-point evaluation (80 fractional bits) of the usual series, rounded
    once to [float].  It instantiates the interface in the concrete examples;
    no property below depends on it. *)

Module RefLibM.
Definition ONE : Z := 2 ^ 80.
Definition LN2 : Z := 837963523372001241319908.
Definition TWO_PI : Z := 7595904947272677161575987.

Definition fix_of (s : bool) (m : positive) (e : Z) : Z :=
  cond_Zopp s (Z.shiftl (Zpos m) (e + 80)).

Definition to_float (z e : Z) : float := binary_normalize 24 128 z (e - 80) false.

Definition nearest (a b : Z) : Z := (2 * a + b) / (2 * b).

(** [1 + r/1 (1 + r/2 (1 + ... r/k))] *)
Fixpoint exp_series (k : nat) (r acc : Z) : Z :=
  match k with
  | O => acc
  | S k' => exp_series k' r (ONE + r * acc / (ONE * Z.of_nat k))
  end.

Definition ref_expf (x : float) : float :=
  match x with
  | S754_nan => S754_nan
  | S754_infinity s => if s then f_zero else x
  | S754_zero _ => f_one
  | S754_finite s m e =>
      if 8 <=? e then (if s then f_zero else S754_infinity false)
      else
        let v := fix_of s m e in
        let n := nearest v LN2 in
        to_float (exp_series 30 (v - n * LN2) ONE) n
  end.

(** [1/(2k+1) + w (1/(2k+3) + ...)], [j] terms *)
Fixpoint atanh_series (j : nat) (k : Z) (w : Z) : Z :=
  match j with
  | O => 0
  | S j' => ONE / (2 * k + 1) + w * atanh_series j' (k + 1) w / ONE
  end.

Definition ref_logf (x : float) : float :=
  match x with
  | S754_nan => S754_nan
  | S754_infinity s => if s then S754_nan else x
  | S754_zero _ => S754_infinity true
  | S754_finite true _ _ => S754_nan
  | S754_finite false m e =>
      let d := Zpos (digits2_pos m) in
      let y := Z.shiftl (Zpos m) (81 - d) in
      let z := (y - ONE) * ONE / (y + ONE) in
      let l := 2 * (z * atanh_series 40 0 (z * z / ONE) / ONE) in
      to_float (l + (e + d - 1) * LN2) 0
  end.

(** [1 - q/(2*3) (1 - q/(4*5) (1 - ...))] *)
Fixpoint sin_series (j : nat) (q acc : Z) : Z :=
  match j with
  | O => acc
  | S j' =>
      sin_series j' q
        (ONE - q * acc / (ONE * (2 * Z.of_nat j) * (2 * Z.of_nat j + 1)))
  end.

Definition ref_sinf (x : float) : float :=
  match x with
  | S754_finite s m e =>
      if 40 <=? e then S754_nan
      else
        let v := fix_of s m e in
        let r := v - nearest v TWO_PI * TWO_PI in
        to_float (r * sin_series 30 (r * r / ONE) ONE / ONE) 0
  | S754_zero _ => x
  | _ => S754_nan
  end.

Definition libm : LibM :=
  {| logf := ref_logf; expf := ref_expf; sinf := ref_sinf |}.
End RefLibM.

(** ** Vocabulary of the properties *)

(** All per-band filter and envelope state reads as zero. *)
Definition filters_zero (v : vocoder_instance_t) : Prop :=
  mod_svf_l v = replicate MAX_BANDS svf_zero /\
  mod_svf_r v = replicate MAX_BANDS svf_zero /\
  car_svf_l v = replicate MAX_BANDS svf_zero /\
  car_svf_r v = replicate MAX_BANDS svf_zero /\
  mod_env_l v = replicate MAX_BANDS env_zero /\
  mod_env_r v = replicate MAX_BANDS env_zero.

(** [v'] has the filter and envelope state of [v]. *)
Definition same_filters (v v' : vocoder_instance_t) : Prop :=
  mod_svf_l v' = mod_svf_l v /\ mod_svf_r v' = mod_svf_r v /\
  car_svf_l v' = car_svf_l v /\ car_svf_r v' = car_svf_r v /\
  mod_env_l v' = mod_env_l v /\ mod_env_r v' = mod_env_r v.

(** [v'] has the derived coefficients of [v]. *)
Definition same_coeffs (v v' : vocoder_instance_t) : Prop :=
  band_f v' = band_f v /\ band_q v' = band_q v /\
  att_coeff v' = att_coeff v /\ rel_coeff v' = rel_coeff v.

(** The keys that [v2_set_param] recognizes. *)
Definition known_keys : list string :=
  ["state"; "bands"; "freq_low"; "freq_high"; "attack"; "release";
   "mod_gain"; "mix"; "carrier_mix"]%string.

(** One step of the noise generator, in the words of the specification:
    [seed' = (seed * 1664525 + 1013904223) mod 2^32]. *)
Definition lcg_step (seed : Z) : Z := (seed * 1664525 + 1013904223) mod 2 ^ 32.

(** The integer that [v2_set_param] reads from the text of a value. *)
Definition parsed_int (val : string) : Z := int_of_float (f32_of_f64 (atof val)).


(** [v'] has the eight parameters of [v]. *)
Definition same_params (v v' : vocoder_instance_t) : Prop :=
  bands v' = bands v /\ freq_low v' = freq_low v /\
  freq_high v' = freq_high v /\ attack_ms v' = attack_ms v /\
  release_ms v' = release_ms v /\ mod_gain v' = mod_gain v /\
  mix v' = mix v /\ carrier_mix v' = carrier_mix v.

(** A sample of the host: a signed 16-bit integer. *)
Definition int16 (x : Z) : Prop := -32768 <= x <= 32767.

(** The frames of a block: what [frame_signals] computes for frame [i],
    [i + 1], ... from the samples of [audio] and of the host input, each
    frame on the instance that the frame before it left. *)
Fixpoint frame_trace (k : nat) (i : Z) (h : host_api_v1_t)
    (v : vocoder_instance_t) (n : Z) (att rel mod_gain noise_mix : float)
    (audio : list Z) : list frame_t :=
  match k with
  | O => []
  | S k' =>
      let fr :=
        frame_signals v n att rel mod_gain noise_mix
          (default 0 (audio !! Z.to_nat (i * 2)))
          (default 0 (audio !! Z.to_nat (i * 2 + 1)))
          (mic_in h (i * 2)) (mic_in h (i * 2 + 1)) in
      fr :: frame_trace k' (i + 1) h (fr_inst fr) n att rel mod_gain noise_mix
              audio
  end.

(** The frames of [v2_process_block (Some h) (Some v) audio frames]. *)
Definition block_trace (h : host_api_v1_t) (v : vocoder_instance_t)
    (audio : list Z) (frames : Z) : list frame_t :=
  frame_trace (Z.to_nat frames) 0 h v (bands v) (att_coeff v) (rel_coeff v)
    (mod_gain v) (carrier_mix v) audio.

(** A sample scaled by 32767/32768 and truncated toward zero. *)
Definition requantize (c : Z) : Z := Z.quot (c * 32767) 32768.

(** No wet sum of the frames is infinite or a NaN. *)
Definition wet_finite (tr : list frame_t) : bool :=
  forallb (fun fr => is_finite (fr_out_l fr) && is_finite (fr_out_r fr)) tr.

(** ** Sample data for the concrete examples *)

Module Sample.
(** A freshly created instance. *)
Definition fresh : vocoder_instance_t := @v2_create_instance RefLibM.libm.

(** A host whose audio input (at [MOVE_AUDIO_IN_OFFSET = 2048 + 256])
    holds the two frames (16384, -16384), (32767, -32768). *)
Definition host : host_api_v1_t :=
  {| mapped_memory := replicate 2304 0 ++ [0; 64; 0; 192; 255; 127; 0; 128];
     audio_in_offset := 2304 |}.

Definition carrier : list Z := [1000; -1000; 32767; -32768].

(** The instance after it has processed one block of two frames. *)
Definition played : vocoder_instance_t :=
  match fst (v2_process_block (Some host) (Some fresh) carrier 2) with
  | Some v => v
  | None => fresh
  end.
End Sample.


(** [f] holds of every integer from [lo] to [lo + 2^k - 1]. *)
Fixpoint range_all (k : nat) (lo : Z) (f : Z -> bool) : bool :=
  match k with
  | O => f lo
  | S k' => range_all k' lo f && range_all k' (lo + 2 ^ Z.of_nat k') f
  end.

(** [mix_sample] gives [requantize c] on the carrier sample [c] when the
    wet term [out * wet] is a zero and [dry] is 1; the sign of that zero
    can matter only when the dry term is a zero too. *)
Definition mix_zero_ok (c : Z) : bool :=
  let car := fdiv (f32_of_Z c) (f32_of_Z 32768) in
  (mix_sample (S754_zero false) car (S754_zero false) f_one =? requantize c)
  && (if c =? 0
      then mix_sample (S754_zero true) car (S754_zero false) f_one =? requantize c
      else is_finite (fmul car f_one) && negb (is_zero (fmul car f_one))).

(** ** Rounding, arithmetically *)

(** The location of [p / q] between [p / q] (the quotient) and its
    successor, computed from the remainder [r = p mod q]. *)
Definition loc_of_rem (r q : Z) : location :=
  if r =? 0 then loc_Exact else loc_Inexact (Z.compare (2 * r) q).

(** A shift record that holds the quotient and the location of [p / q]. *)
Definition rec_of (p q : Z) (mrs : shr_record) : Prop :=
  shr_m mrs = p / q /\ loc_of_shr_record mrs = loc_of_rem (p mod q) q.

(** The exponent of the last mantissa bit of a binary32 value whose first
    bit has exponent [e - 1]. *)
Definition fexp32 (e : Z) : Z := Z.max (e - 24) (-149).

(** The float with sign [s], mantissa [m] and exponent [e]. *)
Definition pack32 (s : bool) (m e : Z) : float :=
  match m with
  | Z0 => S754_zero s
  | Zpos p => if e <=? 104 then S754_finite s p e else S754_infinity s
  | Zneg _ => S754_nan
  end.

(** Rounding of [(p / q) * 2^e] to binary32, nearest with ties to even:
    the mantissa is cut at the exponent [fexp32], rounded, and cut once
    more when the rounding carried into a 25th bit. *)
Definition round32 (s : bool) (p q e : Z) : float :=
  let k := Z.max 0 (fexp32 (Zdigits2 (p / q) + e) - e) in
  let m1 := round_half_even p (q * 2 ^ k) in
  let e1 := e + k in
  let k2 := Z.max 0 (fexp32 (Zdigits2 m1 + e1) - e1) in
  pack32 s (m1 / 2 ^ k2) (e1 + k2).

(** The value of a finite float in units of [2^-149], the distance between
    the smallest binary32 values; 0 for the values that are not finite. *)
Definition ulps (x : float) : Z :=
  match x with
  | S754_finite s m e => cond_Zopp s (Zpos m * 2 ^ (e + 149))
  | _ => 0
  end.

(** A well-formed binary32 value. *)
Definition valid32 (x : float) : bool := valid_binary 24 128 x.

(** [N / D], in units of [2^-149], rounded to a value with 24 significant
    bits: multiples of [G], a power of two. *)
Definition RN (N D : Z) : Z :=
  let G := 2 ^ Z.max 0 (Zdigits2 (N / D) - 24) in
  G * round_half_even N (D * G).

(** The float of sign [s] and magnitude [u] units of [2^-149]. *)
Definition float_of_ulps (s : bool) (u : Z) : float :=
  let k := Z.max 0 (Zdigits2 u - 24) in
  pack32 s (u / 2 ^ k) (k - 149).

(** [u] units of [2^-149] is a binary32 magnitude: at most 24 significant
    bits. *)
Definition repr (u : Z) : Prop :=
  0 <= u /\ u mod 2 ^ Z.max 0 (Zdigits2 u - 24) = 0.

(** The sign bit of a zero or of a finite value. *)
Definition fsign (x : float) : bool :=
  match x with
  | S754_zero s | S754_finite s _ _ | S754_infinity s => s
  | S754_nan => false
  end.

(** A well-formed finite value (neither an infinity nor a NaN). *)
Definition finite32 (x : float) : bool := valid32 x && is_finite x.

(** The envelope follower run over a sequence of inputs. *)
Fixpoint env_run (e : env_state_t) (xs : list float) (att rel : float)
    : env_state_t :=
  match xs with
  | [] => e
  | x :: xs' => env_run (fst (env_follow e x att rel)) xs' att rel
  end.

(** The largest rectified input of a sequence, in units of [2^-149]. *)
Fixpoint max_rect (xs : list float) : Z :=
  match xs with
  | [] => 0
  | x :: xs' => Z.max (Z.abs (ulps x)) (max_rect xs')
  end.

(** A coefficient strictly between 0 and 1. *)
Definition unit_coeff (c : float) : bool :=
  finite32 c && flt f_zero c && flt c f_one.

(** ** Well-formed instances *)

Definition valid_svf (s : svf_state_t) : bool :=
  valid32 (low s) && valid32 (band s).

Definition valid_env (e : env_state_t) : bool := valid32 (level e).

(** The band coefficients and the filter and envelope states are
    well-formed binary32 values. *)
Definition valid_filters (v : vocoder_instance_t) : bool :=
  forallb valid32 (band_f v) && forallb valid32 (band_q v)
  && forallb valid_svf (mod_svf_l v) && forallb valid_svf (mod_svf_r v)
  && forallb valid_svf (car_svf_l v) && forallb valid_svf (car_svf_r v)
  && forallb valid_env (mod_env_l v) && forallb valid_env (mod_env_r v).

(** An instance as [v2_process_block] expects it: the band count within
    the arrays, and every float that a block reads well formed. *)
Definition valid_instance (v : vocoder_instance_t) : bool :=
  (1 <=? bands v) && (bands v <=? 32)
  && valid32 (mod_gain v) && valid32 (mix v) && valid32 (carrier_mix v)
  && valid32 (att_coeff v) && valid32 (rel_coeff v)
  && valid_filters v.

(** The signals of a frame are well formed. *)
Definition valid_frame (fr : frame_t) : bool :=
  valid32 (fr_out_l fr) && valid32 (fr_out_r fr)
  && valid32 (fr_car_l fr) && valid32 (fr_car_r fr).

(** What the end of a frame stores for the wet sum [out] and the carrier
    [car]: the mixed value is a NaN and 0 is stored, or the clamped value
    lies in [[-1, 1]]; either way the stored sample is the truncated product
    of the clamped value by 32767, between -32767 and 32767. *)
Definition written (out car wet : float) (o : option Z) : Prop :=
  let mixed := fadd (fmul out wet) (fmul car (fsub f_one wet)) in
  let c := clampf mixed (f32_of_Z (-1)) f_one in
  exists z : Z,
    o = Some z /\
    -32767 <= z <= 32767 /\
    z = ftrunc (fmul c (f32_of_Z 32767)) /\
    (is_nan mixed = true \/
     is_finite c = true /\ - 2 ^ 149 <= ulps c <= 2 ^ 149).

(** ** Vocabulary of the printed state *)

Fixpoint all_chars (f : ascii -> bool) (s : string) : bool :=
  match s with
  | EmptyString => true
  | String c r => f c && all_chars f r
  end.

(** A text without a double quote. *)
Definition no_quote (s : string) : bool :=
  all_chars (fun c => negb (Ascii.eqb c dquote)) s.

(** [p] and [s] differ at a position that both have. *)
Fixpoint mismatch (p s : string) : bool :=
  match p, s with
  | String a p', String b s' => if Ascii.eqb a b then mismatch p' s' else true
  | _, _ => false
  end.

(** [pat] starts nowhere in [lit], whatever follows [lit]. *)
Fixpoint lit_no_match (lit pat : string) : bool :=
  match lit with
  | EmptyString => true
  | String _ r => mismatch pat lit && lit_no_match r pat
  end.

(** The sign and the magnitude, in units of [10^-p], that ["%.pf"] prints
    for a zero or a finite value. *)
Definition decimal_of (p : nat) (x : float) : option (bool * Z) :=
  match x with
  | S754_zero s => Some (s, 0)
  | S754_finite s m e => Some (s, scaled_decimal p m e)
  | _ => None
  end.

(** A finite value between the bounds of a clamp. *)
Definition in_range (lo hi x : float) : bool :=
  finite32 x && negb (flt x lo) && negb (flt hi x).

(** What [clampf] with finite bounds can store: a value between the bounds,
    or a NaN, which passes both comparisons. *)
Definition field_ok (lo hi x : float) : bool := is_nan x || in_range lo hi x.

(** The [float] read back from the decimal [(-1)^s * k * 10^-p]. *)
Definition reread (p : nat) (s : bool) (k : Z) : float :=
  f32_of_f64 (f64_of_decimal s k (- Z.of_nat p)).

(** A value rounded to the precision of its printed text: the [float]
    nearest to what ["%.pf"] prints. *)
Definition restored (p : nat) (x : float) : float :=
  match decimal_of p x with
  | Some (s, k) => reread p s k
  | None => x
  end.

(** The decimal [k * 10^-p], within the bounds [klo] and [khi], reads back
    as a value between [lo] and [hi] that prints as [k] again. *)
Definition reread_ok (p : nat) (lo hi : float) (klo khi k : Z) : bool :=
  if (klo <=? k) && (k <=? khi) then
    let y := reread p false k in
    in_range lo hi y
    && match decimal_of p y with
       | Some (false, k') => k' =? k
       | _ => false
       end
  else true.

(** The facts about one field of the state that are settled by
    evaluation: its bounds [lo <= hi] print as [klo] and [khi], and every
    decimal between them passes [reread_ok]. *)
Definition field_table (p : nat) (lo hi : float) (klo khi : Z) (bits : nat)
    : bool :=
  (0 <=? klo) && (khi <? 2 ^ Z.of_nat bits)
  && finite32 lo && finite32 hi
  && (0 <=? ulps lo)
  && (klo * 2 ^ 149 <=? ulps lo * 10 ^ Z.of_nat p)
  && (ulps hi * 10 ^ Z.of_nat p <=? khi * 2 ^ 149)
  && range_all bits 0 (reread_ok p lo hi klo khi).

(** The text of the state with the eight printed numbers [n0] ... [n7]:
    every key is preceded by a brace or a comma and printed as
    [json_search] looks for it. *)
Definition state_text (n0 n1 n2 n3 n4 n5 n6 n7 : string) : string :=
  String "{" (json_search "bands" ++ n0 ++
  String "," (json_search "freq_low" ++ n1 ++
  String "," (json_search "freq_high" ++ n2 ++
  String "," (json_search "attack" ++ n3 ++
  String "," (json_search "release" ++ n4 ++
  String "," (json_search "mod_gain" ++ n5 ++
  String "," (json_search "mix" ++ n6 ++
  String "," (json_search "carrier_mix" ++ n7 ++
  String "}" EmptyString))))))))%string.

(** The parameters of an instance as [v2_create_instance] and
    [v2_set_param] leave them: a band count of the four valid ones, and in
    every float field a value within its clamp (or a NaN, which the clamp
    passes). *)
Definition state_ok (v : vocoder_instance_t) : bool :=
  ((bands v =? 8) || (bands v =? 16) || (bands v =? 24) || (bands v =? 32))
  && field_ok (f32_of_Z 80) (f32_of_Z 500) (freq_low v)
  && field_ok (f32_of_Z 2000) (f32_of_Z 12000) (freq_high v)
  && field_ok (f32_lit 1 10) (f32_of_Z 50) (attack_ms v)
  && field_ok (f32_of_Z 5) (f32_of_Z 500) (release_ms v)
  && field_ok f_zero (f32_of_Z 3) (mod_gain v)
  && field_ok f_zero f_one (mix v)
  && field_ok f_zero f_one (carrier_mix v).

Section Reach.
Context {M : LibM}.

(** The instances that a host can hold: the one that [create_instance]
    returns, and what [set_param] and [process_block] make of them. *)
Inductive reachable : vocoder_instance_t -> Prop :=
| reach_create : reachable v2_create_instance
| reach_set_param (v : vocoder_instance_t) (key val : string) :
    reachable v -> reachable (set_param v key val)
| reach_process_block (v v' : vocoder_instance_t)
    (g_host : option host_api_v1_t) (audio : list Z) (frames : Z) :
    reachable v ->
    fst (v2_process_block g_host (Some v) audio frames) = Some v' ->
    reachable v'.
End Reach.

(** A C library whose [logf], [expf] and [sinf] return well-formed
    values. *)
Definition libm_valid (M : LibM) : Prop :=
  forall x : float,
    valid32 (logf x) = true /\ valid32 (expf x) = true /\
    valid32 (sinf x) = true.

(** ** Silence *)

(** A zero of either sign or a NaN: all that a product with a zero, or a
    sum of such products, can be.  Both are written back as the sample 0. *)
Definition null (x : float) : bool := is_zero x || is_nan x.

Definition null_svf (s : svf_state_t) : bool := null (low s) && null (band s).

Definition null_env (e : env_state_t) : bool := null (level e).

(** The carrier filters hold no signal. *)
Definition car_null (v : vocoder_instance_t) : bool :=
  forallb null_svf (car_svf_l v) && forallb null_svf (car_svf_r v).

(** The modulator filters and the envelopes hold no signal. *)
Definition mod_null (v : vocoder_instance_t) : bool :=
  forallb null_svf (mod_svf_l v) && forallb null_svf (mod_svf_r v)
  && forallb null_env (mod_env_l v) && forallb null_env (mod_env_r v).

(** The instance that a run of frames ends on. *)
Fixpoint trace_end (v : vocoder_instance_t) (tr : list frame_t)
    : vocoder_instance_t :=
  match tr with
  | [] => v
  | fr :: tr' => trace_end (fr_inst fr) tr'
  end.

(** The right channel has the filter and envelope state of the left. *)
Definition stereo_sym (v : vocoder_instance_t) : Prop :=
  mod_svf_r v = mod_svf_l v /\ car_svf_r v = car_svf_l v /\
  mod_env_r v = mod_env_l v.

Section BandValues.
Context {M : LibM}.

(** The frequency coefficient that [recalc_bands] stores for band [i] of
    [n]: [2 sin(pi fc / sr)] at the logarithmically spaced centre
    frequency [fc], cut at 1. *)
Definition band_f_value (n : Z) (log_low log_high : float) (i : Z) : float :=
  let t := if 1 <? n then fdiv (f32_of_Z i) (f32_of_Z (n - 1))
           else f32_lit 5 10 in
  let fc := expf (fadd log_low (fmul t (fsub log_high log_low))) in
  let f := fmul (f32_of_Z 2)
             (sinf (fdiv (fmul M_PI_f fc) (f32_of_Z SAMPLE_RATE))) in
  if flt f_one f then f_one else f.
End BandValues.

(** The reciprocal Q that [recalc_bands] stores for every band. *)
Definition band_q_value (n : Z) : float :=
  fdiv f_one (fadd f_one (fmul (f32_lit 5 10) (fsqrt (f32_of_Z n)))).

(** [l] with [g j] written at every index [j] from [i] to [i + k - 1]. *)
Fixpoint fill {A : Type} (k : nat) (i : Z) (g : Z -> A) (l : list A)
    : list A :=
  match k with
  | O => l
  | S k' => fill k' (i + 1) g (<[Z.to_nat i := g i]> l)
  end.

(** The keys of the eight parameters. *)
Definition param_keys : list string :=
  ["bands"; "freq_low"; "freq_high"; "attack"; "release"; "mod_gain"; "mix";
   "carrier_mix"]%string.

(** [v'] prints every parameter as [v] does. *)
Definition same_texts (v v' : vocoder_instance_t) : Prop :=
  bands v' = bands v /\
  fmt_f 1 (freq_low v') = fmt_f 1 (freq_low v) /\
  fmt_f 1 (freq_high v') = fmt_f 1 (freq_high v) /\
  fmt_f 1 (attack_ms v') = fmt_f 1 (attack_ms v) /\
  fmt_f 1 (release_ms v') = fmt_f 1 (release_ms v) /\
  fmt_f 2 (mod_gain v') = fmt_f 2 (mod_gain v) /\
  fmt_f 2 (mix v') = fmt_f 2 (mix v) /\
  fmt_f 2 (carrier_mix v') = fmt_f 2 (carrier_mix v).

Section CoeffValues.
Context {M : LibM}.

(** The envelope coefficient that [recalc_bands] stores for a time
    constant of [ms] milliseconds, taken as 0.1 when it is below 0.1:
    [1 - exp(-1 / (ms * 0.001 * sr))]. *)
Definition env_coeff_value (ms : float) : float :=
  let ms := if flt ms (f32_lit 1 10) then f32_lit 1 10 else ms in
  fsub f_one
    (expf (fdiv (f32_of_Z (-1))
             (fmul (fmul ms (f32_lit 1 1000)) (f32_of_Z SAMPLE_RATE)))).

(** The coefficients of [v] are the ones that its parameters give: every
    band below the band count has the frequency coefficient and the
    reciprocal Q of its place, and the two envelope coefficients are those
    of the attack and release times. *)
Definition coeffs_current (v : vocoder_instance_t) : Prop :=
  (forall j : nat,
     Z.of_nat j < bands v -> (j < length (band_f v))%nat ->
     band_f v !! j
     = Some (band_f_value (bands v) (logf (freq_low v)) (logf (freq_high v))
               (Z.of_nat j))) /\
  (forall j : nat,
     Z.of_nat j < bands v -> (j < length (band_q v))%nat ->
     band_q v !! j = Some (band_q_value (bands v))) /\
  att_coeff v = env_coeff_value (attack_ms v) /\
  rel_coeff v = env_coeff_value (release_ms v).
End CoeffValues.

(** ** Vocabulary of a state value *)

(** [n] occurs nowhere in [h]. *)
Definition absent (n h : string) : Prop :=
  forall pre post : string, h <> (pre ++ n ++ post)%string.

(** [n] occurs in [h] between [pre] and [post], and at no earlier place. *)
Definition first_at (n h pre post : string) : Prop :=
  h = (pre ++ n ++ post)%string /\
  forall pre' post' : string,
    h = (pre' ++ n ++ post')%string ->
    (String.length pre <= String.length pre')%nat.

(** Spaces and tabs only. *)
Definition blanks (s : string) : bool :=
  all_chars (fun c => (code c =? 32) || (code c =? 9)) s.

(** A decimal number as a text has it: an optional minus sign and the
    digits of [k], the last [p] of them behind a point when [p] is not 0.
    It denotes [(-1)^s * k * 10^-p]. *)
Definition decimal_text (s : bool) (p : nat) (k : Z) : string :=
  (sign_string s ++ match p with
                    | O => dec_string k
                    | S _ => fixed_string p k
                    end)%string.

(** What can follow a number: the end of the text, or a character that
    cannot continue it (no digit, point, exponent or hexadecimal mark). *)
Definition number_end (rest : string) : bool :=
  match rest with
  | EmptyString => true
  | String c _ =>
      match digit_of c with
      | Some _ => false
      | None =>
          negb (Ascii.eqb c "." || Ascii.eqb c "e" || Ascii.eqb c "E"
                || Ascii.eqb c "x" || Ascii.eqb c "X")
      end
  end.

(** The float fields that the state branch of [v2_set_param] restores:
    key, field, and the bounds of the clamp. *)
Definition float_fields
    : list (string * (vocoder_instance_t -> float) * float * float) :=
  [("freq_low"%string, freq_low, f32_of_Z 80, f32_of_Z 500);
   ("freq_high"%string, freq_high, f32_of_Z 2000, f32_of_Z 12000);
   ("attack"%string, attack_ms, f32_lit 1 10, f32_of_Z 50);
   ("release"%string, release_ms, f32_of_Z 5, f32_of_Z 500);
   ("mod_gain"%string, mod_gain, f_zero, f32_of_Z 3);
   ("mix"%string, mix, f_zero, f_one);
   ("carrier_mix"%string, carrier_mix, f_zero, f_one)].

(* ===================================================================== *)
(** * Properties *)

(** ** The model run on sample inputs *)

Example atof_examples :
  atof " 0.1" = S754_finite false 7205759403792794 (-56) /\
  atof "-2.5e2xyz" = S754_finite true 8796093022208000 (-45) /\
  atof "0x1.8p1" = S754_finite false 6755399441055744 (-51) /\
  atof "abc" = S754_zero false /\
  atof "-INFINITY" = S754_infinity true /\
  f32_of_f64 (atof "0.1") = f32_lit 1 10 /\
  atoi "  -42," = -42 /\
  fmt_d (-120) = "-120"%string /\
  fmt_f 1 (f32_lit 1 10) = "0.1"%string /\
  fmt_f 2 (f32_of_Z 3) = "3.00"%string /\
  fmt_f 1 (f32_lit 25 100) = "0.2"%string /\
  fmt_f 1 (f32_lit 8000 1) = "8000.0"%string /\
  snprintf 4 "Vocoder" = (Some "Voc"%string, 7).
Proof. vm_compute. repeat split. Qed.

Example ref_values :
  RefLibM.ref_logf (f32_of_Z 100) = S754_finite false 9657742 (-21) /\
  RefLibM.ref_expf (f32_of_f64 (atof "-0.2267573696"))
    = S754_finite false 13373357 (-24) /\
  RefLibM.ref_sinf (f32_lit 1 2) = S754_finite false 16086852 (-25).
Proof. vm_compute. repeat split. Qed.

(** ** Projections through the helpers *)

Ltac split_recalc :=
  unfold recalc_bands;
  match goal with
  | |- context [recalc_loop ?k ?i ?n ?a ?b ?c ?d] =>
      destruct (recalc_loop k i n a b c d)
  end.

Ltac eval_keys :=
  repeat match goal with
    | |- context [String.eqb ?a ?b] =>
        let r := eval vm_compute in (String.eqb a b) in
        change (String.eqb a b) with r; cbv iota
    end.

Section Projections.
Context {M : LibM}.

Lemma recalc_bands_same_filters v : same_filters v (recalc_bands v).
Proof. split_recalc. repeat split. Qed.

Lemma recalc_bands_bands v : bands (recalc_bands v) = bands v.
Proof. split_recalc. reflexivity. Qed.

Lemma recalc_bands_freq_low v : freq_low (recalc_bands v) = freq_low v.
Proof. split_recalc. reflexivity. Qed.

Lemma recalc_bands_freq_high v : freq_high (recalc_bands v) = freq_high v.
Proof. split_recalc. reflexivity. Qed.

Lemma recalc_bands_attack_ms v : attack_ms (recalc_bands v) = attack_ms v.
Proof. split_recalc. reflexivity. Qed.

Lemma recalc_bands_release_ms v : release_ms (recalc_bands v) = release_ms v.
Proof. split_recalc. reflexivity. Qed.

Lemma recalc_bands_mod_gain v : mod_gain (recalc_bands v) = mod_gain v.
Proof. split_recalc. reflexivity. Qed.

Lemma recalc_bands_mix v : mix (recalc_bands v) = mix v.
Proof. split_recalc. reflexivity. Qed.

Lemma recalc_bands_carrier_mix v : carrier_mix (recalc_bands v) = carrier_mix v.
Proof. split_recalc. reflexivity. Qed.

Lemma recalc_bands_noise_seed v : noise_seed (recalc_bands v) = noise_seed v.
Proof. split_recalc. reflexivity. Qed.

Lemma recalc_bands_filters_zero v :
  filters_zero v -> filters_zero (recalc_bands v).
Proof.
  intros Hz. destruct (recalc_bands_same_filters v) as (A & B & C & D & E & F).
  destruct Hz as (a & b & c & d & e & f).
  unfold filters_zero. rewrite A, B, C, D, E, F. repeat split; assumption.
Qed.

Lemma clear_filters_zero v : filters_zero (clear_filters v).
Proof. repeat split. Qed.
End Projections.

Create Rewrite HintDb vocoder.
#[global] Hint Rewrite @recalc_bands_bands @recalc_bands_freq_low
  @recalc_bands_freq_high @recalc_bands_attack_ms @recalc_bands_release_ms
  @recalc_bands_mod_gain @recalc_bands_mix @recalc_bands_carrier_mix
  @recalc_bands_noise_seed : vocoder.

(** ** Band snapping *)

Lemma snap_clamp_brackets (x : Z) :
  let b := snap_bands (clampi x 8 32) in
  (x <= 12 -> b = 8) /\ (13 <= x <= 20 -> b = 16) /\
  (21 <= x <= 28 -> b = 24) /\ (29 <= x -> b = 32).
Proof.
  unfold snap_bands, clampi.
  repeat match goal with
    | |- context [?a <? ?b] => destruct (Z.ltb_spec a b)
    | |- context [?a <=? ?b] => destruct (Z.leb_spec a b)
    end; repeat split; intros; lia.
Qed.

Lemma snap_clamp_monotone (x y : Z) :
  x <= y -> snap_bands (clampi x 8 32) <= snap_bands (clampi y 8 32).
Proof.
  intros Hxy.
  destruct (snap_clamp_brackets x) as (A & B & C & D).
  destruct (snap_clamp_brackets y) as (A' & B' & C' & D').
  assert (Hx : x <= 12 \/ 13 <= x <= 20 \/ 21 <= x <= 28 \/ 29 <= x) by lia.
  assert (Hy : y <= 12 \/ 13 <= y <= 20 \/ 21 <= y <= 28 \/ 29 <= y) by lia.
  destruct Hx as [Hx|[Hx|[Hx|Hx]]], Hy as [Hy|[Hy|[Hy|Hy]]];
    try lia;
    repeat match goal with
      | H : ?P -> _, H' : ?P |- _ => specialize (H H')
      end; lia.
Qed.

Lemma set_param_bands_stored {M : LibM} v val :
  bands (set_param v "bands" val) = snap_bands (clampi (parsed_int val) 8 32).
Proof.
  unfold set_param, parsed_int. eval_keys.
  destruct (Z.eqb_spec (snap_bands (clampi (int_of_float (f32_of_f64 (atof val))) 8 32))
              (bands v)) as [E|E]; cbn [negb].
  - symmetry. exact E.
  - rewrite recalc_bands_bands. reflexivity.
Qed.

(** C4. [setParameter("bands", x)] stores the snapped value of the integer
    [x] that the value denotes: 8 up to 12, 16 from 13 to 20, 24 from 21 to
    28, 32 above; the stored value is one of 8, 16, 24, 32, does not decrease
    when [x] grows, and 5 gives 8 while 29 gives 32. *)
Theorem set_param_bands_snapped :
  forall (M : LibM) (v : vocoder_instance_t),
    (forall val,
        let x := parsed_int val in
        let b := bands (set_param v "bands" val) in
        (x <= 12 -> b = 8) /\ (13 <= x <= 20 -> b = 16) /\
        (21 <= x <= 28 -> b = 24) /\ (29 <= x -> b = 32) /\
        In b [8; 16; 24; 32]) /\
    (forall v2 val1 val2,
        parsed_int val1 <= parsed_int val2 ->
        bands (set_param v "bands" val1) <= bands (set_param v2 "bands" val2)) /\
    parsed_int "5" = 5 /\ bands (set_param v "bands" "5") = 8 /\
    parsed_int "29" = 29 /\ bands (set_param v "bands" "29") = 32.
Proof.
  intros M v. split; [|split].
  - intros val x b. subst b. rewrite set_param_bands_stored. fold x.
    destruct (snap_clamp_brackets x) as (A & B & C & D).
    repeat split; try assumption.
    assert (Hx : x <= 12 \/ 13 <= x <= 20 \/ 21 <= x <= 28 \/ 29 <= x) by lia.
    cbn [In].
    destruct Hx as [Hx|[Hx|[Hx|Hx]]];
      [rewrite (A Hx)|rewrite (B Hx)|rewrite (C Hx)|rewrite (D Hx)]; auto.
  - intros v2 val1 val2 Hle. rewrite !set_param_bands_stored.
    apply snap_clamp_monotone. exact Hle.
  - rewrite !set_param_bands_stored. vm_compute. repeat split.
Qed.

Lemma set_param_bands_snapped_witness :
  parsed_int "17" <= parsed_int "30" /\
  bands (@set_param RefLibM.libm (@v2_create_instance RefLibM.libm) "bands" "17")
  <= bands (@set_param RefLibM.libm (@v2_create_instance RefLibM.libm) "bands" "30").
Proof.
  split; [vm_compute; discriminate|].
  apply (proj1 (proj2 (set_param_bands_snapped RefLibM.libm
                         (@v2_create_instance RefLibM.libm)))).
  vm_compute; discriminate.
Defined.

(** ** Frame of the parameter setters *)

Lemma unknown_key_eqb (key k : string) :
  ~ In key known_keys -> In k known_keys -> String.eqb key k = false.
Proof.
  intros Hn Hk. apply String.eqb_neq. intros ->. exact (Hn Hk).
Qed.

(** C9. A [setParameter] with key [mod_gain], [mix] or [carrier_mix], or
    with a key that is not recognized, leaves the filter and envelope state,
    the derived coefficients, the noise seed and every parameter other than
    the one that the key names as they were. *)
Theorem set_param_gain_mix_frame :
  forall (M : LibM) (v : vocoder_instance_t) (key val : string),
    key = "mod_gain"%string \/ key = "mix"%string \/
    key = "carrier_mix"%string \/ ~ In key known_keys ->
    let v' := set_param v key val in
    same_filters v v' /\ same_coeffs v v' /\
    noise_seed v' = noise_seed v /\
    bands v' = bands v /\ freq_low v' = freq_low v /\
    freq_high v' = freq_high v /\ attack_ms v' = attack_ms v /\
    release_ms v' = release_ms v /\
    (key <> "mod_gain"%string -> mod_gain v' = mod_gain v) /\
    (key <> "mix"%string -> mix v' = mix v) /\
    (key <> "carrier_mix"%string -> carrier_mix v' = carrier_mix v) /\
    (~ In key known_keys -> v' = v).
Proof.
  intros M v key val [-> | [-> | [-> | Hn]]]; intros v'; subst v';
    unfold set_param.
  - eval_keys. repeat split; intros; try reflexivity; try congruence.
    exfalso. apply H. cbn. tauto.
  - eval_keys. repeat split; intros; try reflexivity; try congruence.
    exfalso. apply H. cbn. tauto.
  - eval_keys. repeat split; intros; try reflexivity; try congruence.
    exfalso. apply H. cbn. tauto.
  - rewrite !(unknown_key_eqb key _ Hn) by (cbn; tauto).
    repeat split; intros; reflexivity.
Qed.

Lemma set_param_gain_mix_frame_witness :
  let v := @v2_create_instance RefLibM.libm in
  @set_param RefLibM.libm v "volume" "0.5" = v /\
  same_filters v (@set_param RefLibM.libm v "mix" "0.5").
Proof.
  intros v. split.
  - apply (set_param_gain_mix_frame RefLibM.libm v "volume" "0.5").
    + right. right. right. cbn. intros H.
      repeat (destruct H as [H|H]; [discriminate H|]). exact H.
    + cbn. intros H.
      repeat (destruct H as [H|H]; [discriminate H|]). exact H.
  - apply (set_param_gain_mix_frame RefLibM.libm v "mix" "0.5").
    right. left. reflexivity.
Defined.

(** ** Reset of the filter state *)

Section Reset.
Context {M : LibM}.

Lemma set_param_state_eq v val :
  set_param v "state" val = recalc_bands (clear_filters (restore_fields val v)).
Proof. unfold set_param. eval_keys. reflexivity. Qed.

Lemma set_param_state_zero v val : filters_zero (set_param v "state" val).
Proof.
  rewrite set_param_state_eq. apply recalc_bands_filters_zero, clear_filters_zero.
Qed.

Lemma set_param_bands_zero v val :
  bands (set_param v "bands" val) <> bands v ->
  filters_zero (set_param v "bands" val).
Proof.
  unfold set_param. eval_keys.
  destruct (Z.eqb_spec (snap_bands (clampi (int_of_float (f32_of_f64 (atof val))) 8 32))
              (bands v)) as [E|E]; cbn [negb].
  - intros H. exfalso. apply H. reflexivity.
  - intros _. apply recalc_bands_filters_zero, clear_filters_zero.
Qed.

End Reset.

(** C1 as stated fails: on an instance that has processed audio, a
    [setParameter("freq_low", "200")] changes [freq_low] and the filter
    state is not zero afterwards. *)
Lemma freq_low_change_keeps_filters :
  let v := Sample.played in
  let v' := @set_param RefLibM.libm v "freq_low" "200" in
  freq_low v' <> freq_low v /\ ~ filters_zero v'.
Proof.
  assert (H1 : freq_low (@set_param RefLibM.libm Sample.played "freq_low" "200")
               = f32_of_Z 200) by (vm_compute; reflexivity).
  assert (H2 : freq_low Sample.played = f32_of_Z 100)
    by (vm_compute; reflexivity).
  assert (H3 : is_zero
                 (band (at_svf (mod_svf_l (@set_param RefLibM.libm Sample.played
                                             "freq_low" "200")) 0))
               = false) by (vm_compute; reflexivity).
  cbv zeta. split.
  - rewrite H1, H2. vm_compute. discriminate.
  - intros (H & _). rewrite H in H3. vm_compute in H3. discriminate H3.
Qed.

(** ** Restoring a state value *)

Section Restore.
Context {M : LibM}.

Lemma set_get_freq_low v : set_freq_low v (freq_low v) = v.
Proof. destruct v; reflexivity. Qed.
Lemma set_get_freq_high v : set_freq_high v (freq_high v) = v.
Proof. destruct v; reflexivity. Qed.
Lemma set_get_attack_ms v : set_attack_ms v (attack_ms v) = v.
Proof. destruct v; reflexivity. Qed.
Lemma set_get_release_ms v : set_release_ms v (release_ms v) = v.
Proof. destruct v; reflexivity. Qed.
Lemma set_get_mod_gain v : set_mod_gain v (mod_gain v) = v.
Proof. destruct v; reflexivity. Qed.
Lemma set_get_mix v : set_mix v (mix v) = v.
Proof. destruct v; reflexivity. Qed.
Lemma set_get_carrier_mix v : set_carrier_mix v (carrier_mix v) = v.
Proof. destruct v; reflexivity. Qed.

Lemma restore_float_set val key lo hi
    (set : vocoder_instance_t -> float -> vocoder_instance_t)
    (get : vocoder_instance_t -> float) v :
  (forall u, set u (get u) = u) ->
  restore_float val key lo hi set v
  = set v (match json_get_float val key with
           | Some fv => clampf fv lo hi
           | None => get v
           end).
Proof.
intros Hsg. unfold restore_float.
destruct (json_get_float val key); [reflexivity|]. symmetry. apply Hsg.
Qed.

Lemma restore_fields_spec v val :
  let u := restore_fields val v in
  bands u = match json_get_int val "bands" with
            | Some iv => snap_bands (clampi iv 8 32)
            | None => bands v
            end /\
  freq_low u = match json_get_float val "freq_low" with
               | Some fv => clampf fv (f32_of_Z 80) (f32_of_Z 500)
               | None => freq_low v
               end /\
  freq_high u = match json_get_float val "freq_high" with
                | Some fv => clampf fv (f32_of_Z 2000) (f32_of_Z 12000)
                | None => freq_high v
                end /\
  attack_ms u = match json_get_float val "attack" with
                | Some fv => clampf fv (f32_lit 1 10) (f32_of_Z 50)
                | None => attack_ms v
                end /\
  release_ms u = match json_get_float val "release" with
                 | Some fv => clampf fv (f32_of_Z 5) (f32_of_Z 500)
                 | None => release_ms v
                 end /\
  mod_gain u = match json_get_float val "mod_gain" with
               | Some fv => clampf fv f_zero (f32_of_Z 3)
               | None => mod_gain v
               end /\
  mix u = match json_get_float val "mix" with
          | Some fv => clampf fv f_zero f_one
          | None => mix v
          end /\
  carrier_mix u = match json_get_float val "carrier_mix" with
                  | Some fv => clampf fv f_zero f_one
                  | None => carrier_mix v
                  end /\
  same_filters v u /\ same_coeffs v u /\ noise_seed u = noise_seed v.
Proof.
unfold restore_fields.
rewrite (restore_float_set val "freq_low" _ _ _ _ _ set_get_freq_low).
rewrite (restore_float_set val "freq_high" _ _ _ _ _ set_get_freq_high).
rewrite (restore_float_set val "attack" _ _ _ _ _ set_get_attack_ms).
rewrite (restore_float_set val "release" _ _ _ _ _ set_get_release_ms).
rewrite (restore_float_set val "mod_gain" _ _ _ _ _ set_get_mod_gain).
rewrite (restore_float_set val "mix" _ _ _ _ _ set_get_mix).
rewrite (restore_float_set val "carrier_mix" _ _ _ _ _ set_get_carrier_mix).
unfold restore_bands.
destruct (json_get_int val "bands"); cbn; repeat split.
Qed.
End Restore.

(** A value that holds three fields, one of them not a number, and is cut
    off before its end: the three fields are applied, the others stay. *)
Example set_param_state_malformed :
  let val := json_text "{'bands':22,'freq_low':oops,'mix' : 3,'mod_gain':+2.5e0" in
  let v := @set_param RefLibM.libm Sample.played "state" val in
  bands v = 24 /\ freq_low v = f32_of_Z 80 /\ mod_gain v = f32_lit 5 2 /\
  mix v = mix Sample.played /\ freq_high v = freq_high Sample.played /\
  attack_ms v = attack_ms Sample.played /\
  release_ms v = release_ms Sample.played /\
  carrier_mix v = carrier_mix Sample.played.
Proof. vm_compute. repeat split. Qed.

(** ** The noise generator in a block *)

Lemma process_band_frame v b ml mr cl cr att rel ol or_ :
  let v' := fst (fst (process_band v b ml mr cl cr att rel ol or_)) in
  noise_seed v' = noise_seed v /\ same_params v v' /\ same_coeffs v v'.
Proof.
  unfold process_band.
  repeat match goal with
    | |- context [svf_bandpass ?s ?i ?f ?q] => destruct (svf_bandpass s i f q)
    | |- context [env_follow ?e ?i ?a ?r] => destruct (env_follow e i a r)
    end.
  cbn. repeat split.
Qed.

Lemma band_loop_frame k : forall b v ml mr cl cr att rel ol or_,
  let v' := fst (fst (band_loop k b v ml mr cl cr att rel ol or_)) in
  noise_seed v' = noise_seed v /\ same_params v v' /\ same_coeffs v v'.
Proof.
  induction k as [|k IH]; intros b v ml mr cl cr att rel ol or_.
  - cbn. repeat split.
  - cbn [band_loop].
    pose proof (process_band_frame v b ml mr cl cr att rel ol or_) as H.
    destruct (process_band v b ml mr cl cr att rel ol or_) as [[v1 o1] o2].
    cbn [fst] in H.
    specialize (IH (S b) v1 ml mr cl cr att rel o1 o2).
    destruct (band_loop k (S b) v1 ml mr cl cr att rel o1 o2) as [[v2 p1] p2].
    cbn [fst] in IH |- *.
    destruct H as (H1 & H2 & H3), IH as (I1 & I2 & I3).
    unfold same_params, same_coeffs in *.
    intuition congruence.
Qed.

Lemma frame_signals_noise v n att rel mod_gain noise_mix in_l in_r mic_l mic_r :
  let fr := frame_signals v n att rel mod_gain noise_mix in_l in_r mic_l mic_r in
  let s := lcg_step (noise_seed v) in
  let ns := fdiv (f32_of_Z (wrap_signed 32 s)) (f32_of_Z (2 ^ 31)) in
  noise_seed (fr_inst fr) = s /\
  fr_ns fr = ns /\
  fr_car_l fr = fdiv (f32_of_Z in_l) (f32_of_Z 32768) /\
  fr_car_r fr = fdiv (f32_of_Z in_r) (f32_of_Z 32768) /\
  fr_car_noise_l fr = fadd (fr_car_l fr) (fmul ns noise_mix) /\
  fr_car_noise_r fr = fadd (fr_car_r fr) (fmul ns noise_mix) /\
  same_params v (fr_inst fr) /\ same_coeffs v (fr_inst fr).
Proof.
  unfold frame_signals, noise_sample. fold (lcg_step (noise_seed v)).
  match goal with
  | |- context [band_loop ?k ?b ?u ?ml ?mr ?cl ?cr ?a ?r ?o1 ?o2] =>
      pose proof (band_loop_frame k b u ml mr cl cr a r o1 o2) as H;
      destruct (band_loop k b u ml mr cl cr a r o1 o2) as [[v1 o1'] o2']
  end.
  cbn [fst] in H. cbn in H |- *. destruct H as (H1 & H2 & H3).
  repeat split; try assumption; try apply H2; try apply H3.
Qed.

Lemma frame_loop_seed h k : forall i v n att rel mg wet dry nm audio,
  noise_seed (fst (frame_loop k i h v n att rel mg wet dry nm audio))
  = Nat.iter k lcg_step (noise_seed v).
Proof.
  induction k as [|k IH]; intros i v n att rel mg wet dry nm audio.
  - reflexivity.
  - cbn [frame_loop]. rewrite IH.
    match goal with
    | |- context [frame_signals ?v ?n ?a ?r ?g ?m ?x ?y ?z ?w] =>
        destruct (frame_signals_noise v n a r g m x y z w) as (Hs & _)
    end.
    rewrite Hs. symmetry. apply Nat.iter_succ_r.
Qed.

(** C8. A block of [frames] frames advances the seed by the [frames]-fold
    iterate of [seed' = (seed * 1664525 + 1013904223) mod 2^32]; in each
    frame the one noise sample is the signed reading of the new seed divided
    by 2^31, and the inner loop filters the left and the right carrier
    sample after the same [noise * carrier_mix] has been added to each. *)
Theorem process_block_noise :
  forall (h : host_api_v1_t) (v : vocoder_instance_t) (audio : list Z)
         (frames : Z),
    option_map noise_seed (fst (v2_process_block (Some h) (Some v) audio frames))
    = Some (Nat.iter (Z.to_nat frames) lcg_step (noise_seed v)) /\
    (forall (k : nat) (i : Z) (u : vocoder_instance_t) (buf : list Z),
        let wet := mix v in
        let fr :=
          frame_signals u (bands v) (att_coeff v) (rel_coeff v) (mod_gain v)
            (carrier_mix v)
            (default 0 (buf !! Z.to_nat (i * 2)))
            (default 0 (buf !! Z.to_nat (i * 2 + 1)))
            (mic_in h (i * 2)) (mic_in h (i * 2 + 1)) in
        let s := lcg_step (noise_seed u) in
        let ns := fdiv (f32_of_Z (wrap_signed 32 s)) (f32_of_Z (2 ^ 31)) in
        frame_loop (S k) i h u (bands v) (att_coeff v) (rel_coeff v)
          (mod_gain v) wet (fsub f_one wet) (carrier_mix v) buf
        = frame_loop k (i + 1) h (fr_inst fr) (bands v) (att_coeff v)
            (rel_coeff v) (mod_gain v) wet (fsub f_one wet) (carrier_mix v)
            (<[Z.to_nat (i * 2 + 1) :=
                 mix_sample (fr_out_r fr) (fr_car_r fr) wet (fsub f_one wet)]>
               (<[Z.to_nat (i * 2) :=
                    mix_sample (fr_out_l fr) (fr_car_l fr) wet (fsub f_one wet)]>
                  buf)) /\
        noise_seed (fr_inst fr) = s /\
        fr_ns fr = ns /\
        fr_car_noise_l fr = fadd (fr_car_l fr) (fmul ns (carrier_mix v)) /\
        fr_car_noise_r fr = fadd (fr_car_r fr) (fmul ns (carrier_mix v)) /\
        (fr_inst fr, fr_out_l fr, fr_out_r fr)
        = (let '(w, o_l, o_r) :=
             band_loop (Z.to_nat (bands v)) 0
               (set_noise_seed u s)
               (fmul (fdiv (f32_of_Z (mic_in h (i * 2))) (f32_of_Z 32768))
                  (mod_gain v))
               (fmul (fdiv (f32_of_Z (mic_in h (i * 2 + 1))) (f32_of_Z 32768))
                  (mod_gain v))
               (fr_car_noise_l fr) (fr_car_noise_r fr)
               (att_coeff v) (rel_coeff v) f_zero f_zero in
           let scale := fdiv (f32_of_Z 2) (fsqrt (f32_of_Z (bands v))) in
           (w, fmul o_l scale, fmul o_r scale))).
Proof.
  intros h v audio frames. split.
  - unfold v2_process_block.
    pose proof (frame_loop_seed h (Z.to_nat frames) 0 v (bands v) (att_coeff v)
                  (rel_coeff v) (mod_gain v) (mix v) (fsub f_one (mix v))
                  (carrier_mix v) audio) as H.
    destruct (frame_loop _ _ _ _ _ _ _ _ _ _ _ _) as [v' out].
    cbn [fst option_map] in *. rewrite H. reflexivity.
  - intros k i u buf wet fr s ns.
    split; [reflexivity|].
    destruct (frame_signals_noise u (bands v) (att_coeff v) (rel_coeff v)
                (mod_gain v) (carrier_mix v)
                (default 0 (buf !! Z.to_nat (i * 2)))
                (default 0 (buf !! Z.to_nat (i * 2 + 1)))
                (mic_in h (i * 2)) (mic_in h (i * 2 + 1)))
      as (A & B & C & D & E & F & _).
    fold fr in A, B, C, D, E, F. fold s in A, B, E, F. fold ns in B, E, F.
    repeat (split; [assumption|]).
    subst fr. unfold frame_signals, noise_sample.
    fold (lcg_step (noise_seed u)). fold s.
    destruct (band_loop _ _ _ _ _ _ _ _ _ _ _) as [[w o1] o2] eqn:Hb.
    cbn. cbn in Hb. rewrite Hb. reflexivity.
Qed.

Example process_block_noise_sample :
  option_map noise_seed
    (fst (v2_process_block (Some Sample.host) (Some Sample.fresh) Sample.carrier 2))
  = Some 71072467 /\
  lcg_step (lcg_step 12345) = 71072467.
Proof. vm_compute. split; reflexivity. Qed.

(** ** Return value of [v2_get_param] *)

(** C2 at a buffer that is too small for the value: with [bands = 16] and
    a buffer of one byte, the call stores the terminator only and returns
    2, the length of the text that did not fit; with four bytes for
    ["name"] it stores ["Voc"] and returns 7.  Neither is -1, and neither
    is the number of bytes written. *)
Theorem get_param_truncated_return :
  get_param Sample.fresh "bands" 1 = (Some ""%string, 2) /\
  get_param Sample.fresh "bands" 0 = (None, 2) /\
  get_param Sample.fresh "name" 4 = (Some "Voc"%string, 7) /\
  snd (get_param Sample.fresh "state" 16) = 122 /\
  snd (get_param Sample.fresh "ui_hierarchy" 16) = -1.
Proof. vm_compute. repeat split. Qed.

(** What [v2_get_param] does return: -1 for a key that is not known and
    for the two constant texts when they do not fit; otherwise the length
    of the complete text, which is the number of characters stored exactly
    when the buffer has room for it and its terminator. *)
Lemma snprintf_fits (buf_len : Z) (s : string) :
  strlen s < buf_len < 2 ^ 64 -> snprintf buf_len s = (Some s, strlen s).
Proof.
  intros [H1 H2]. unfold snprintf.
  assert (H0 : 0 <= strlen s) by (unfold strlen; lia).
  rewrite Z.mod_small by lia.
  destruct (Z.eqb_spec buf_len 0) as [E|E]; [lia|].
  rewrite Z.min_r by lia. unfold strlen. rewrite Nat2Z.id.
  f_equal. f_equal. clear. induction s as [|c s IH]; [reflexivity|].
  cbn. f_equal. exact IH.
Qed.

Lemma get_param_unknown (v : vocoder_instance_t) (key : string) (buf_len : Z) :
  ~ In key ("name" :: "ui_hierarchy" :: "chain_params" :: known_keys)%string ->
  get_param v key buf_len = (None, -1).
Proof.
  intros Hn. unfold get_param.
  repeat match goal with
    | |- context [String.eqb key ?k] =>
        replace (String.eqb key k) with false
          by (symmetry; apply String.eqb_neq; intros ->; apply Hn; cbn; tauto)
    end.
  reflexivity.
Qed.

(** ** What a block writes *)

Lemma frame_loop_lookup h n att rel mg wet dry nm audio0 k :
  forall i v audio,
    0 <= i ->
    length audio = length audio0 ->
    (forall j, (Z.to_nat (i * 2) <= j)%nat -> audio !! j = audio0 !! j) ->
    let out := snd (frame_loop k i h v n att rel mg wet dry nm audio) in
    let tr := frame_trace k i h v n att rel mg nm audio0 in
    length out = length audio0 /\
    (forall j, (j < Z.to_nat (i * 2))%nat -> out !! j = audio !! j) /\
    (forall j, (Z.to_nat (i * 2) + 2 * k <= j)%nat -> out !! j = audio0 !! j) /\
    (forall m fr, tr !! m = Some fr ->
       (Z.to_nat (i * 2) + 2 * m + 1 < length audio0)%nat ->
       out !! (Z.to_nat (i * 2) + 2 * m)%nat
       = Some (mix_sample (fr_out_l fr) (fr_car_l fr) wet dry) /\
       out !! (Z.to_nat (i * 2) + 2 * m + 1)%nat
       = Some (mix_sample (fr_out_r fr) (fr_car_r fr) wet dry)).
Proof.
  induction k as [|k IH]; intros i v audio Hi Hlen Hsame out tr.
  - subst out tr. cbn. split; [exact Hlen|]. split; [reflexivity|]. split.
    + intros j Hj. apply Hsame. lia.
    + intros m fr Hm. rewrite lookup_nil in Hm. discriminate Hm.
  - subst out tr. cbn [frame_loop frame_trace].
    rewrite !(Hsame (Z.to_nat (i * 2))) by lia.
    rewrite !(Hsame (Z.to_nat (i * 2 + 1))) by lia.
    set (fr0 := frame_signals v n att rel mg nm
                  (default 0 (audio0 !! Z.to_nat (i * 2)))
                  (default 0 (audio0 !! Z.to_nat (i * 2 + 1)))
                  (mic_in h (i * 2)) (mic_in h (i * 2 + 1))).
    set (audio1 := <[Z.to_nat (i * 2 + 1) := _]> (<[Z.to_nat (i * 2) := _]> audio)).
    assert (Hi1 : Z.to_nat ((i + 1) * 2) = (Z.to_nat (i * 2) + 2)%nat) by lia.
    assert (Hi2 : Z.to_nat (i * 2 + 1) = (Z.to_nat (i * 2) + 1)%nat) by lia.
    assert (Hlen1 : length audio1 = length audio0)
      by (subst audio1; rewrite !length_insert; exact Hlen).
    assert (Hsame1 : forall j, (Z.to_nat ((i + 1) * 2) <= j)%nat ->
                               audio1 !! j = audio0 !! j).
    { intros j Hj. subst audio1.
      rewrite !list_lookup_insert_ne by lia. apply Hsame. lia. }
    destruct (IH (i + 1) (fr_inst fr0) audio1 ltac:(lia) Hlen1 Hsame1)
      as (L & Before & After & At).
    split; [exact L|]. split; [|split].
    + intros j Hj. rewrite Before by lia. subst audio1.
      rewrite !list_lookup_insert_ne by lia. reflexivity.
    + intros j Hj. apply After. lia.
    + intros m fr Hm Hin. destruct m as [|m].
      * cbn [lookup list_lookup] in Hm. injection Hm as <-.
        rewrite !Nat.add_0_r.
        rewrite !Before by lia. subst audio1. split.
        -- rewrite list_lookup_insert_ne by lia.
           apply list_lookup_insert_eq. lia.
        -- rewrite <- Hi2. apply list_lookup_insert_eq.
           rewrite length_insert. lia.
      * cbn [lookup list_lookup] in Hm.
        destruct (At m fr Hm ltac:(lia)) as [A1 A2].
        rewrite Hi1 in A1, A2.
        replace (Z.to_nat (i * 2) + 2 * S m)%nat
          with (Z.to_nat (i * 2) + 2 + 2 * m)%nat by lia.
        split; assumption.
Qed.

Lemma frame_trace_length h n att rel mg nm audio k :
  forall i v, length (frame_trace k i h v n att rel mg nm audio) = k.
Proof. induction k as [|k IH]; intros i v; cbn; [reflexivity|]. now rewrite IH. Qed.

Lemma frame_trace_carrier h n att rel mg nm audio k :
  forall i v m fr,
    0 <= i ->
    frame_trace k i h v n att rel mg nm audio !! m = Some fr ->
    fr_car_l fr
    = fdiv (f32_of_Z (default 0 (audio !! (Z.to_nat (i * 2) + 2 * m)%nat)))
        (f32_of_Z 32768) /\
    fr_car_r fr
    = fdiv (f32_of_Z (default 0 (audio !! (Z.to_nat (i * 2) + 2 * m + 1)%nat)))
        (f32_of_Z 32768).
Proof.
  induction k as [|k IH]; intros i v m fr Hi Hm.
  - cbn in Hm. rewrite lookup_nil in Hm. discriminate Hm.
  - cbn [frame_trace] in Hm. destruct m as [|m].
    + cbn [lookup list_lookup] in Hm. injection Hm as <-.
      match goal with
      | |- context [frame_signals ?v ?n ?a ?r ?g ?x ?y ?z ?w ?u] =>
          destruct (frame_signals_noise v n a r g x y z w u)
            as (_ & _ & C & D & _)
      end.
      rewrite C, D. rewrite !Nat.add_0_r.
      replace (Z.to_nat (i * 2 + 1)) with (Z.to_nat (i * 2) + 1)%nat by lia.
      split; reflexivity.
    + cbn [lookup list_lookup] in Hm.
      destruct (IH (i + 1) _ m fr ltac:(lia) Hm) as [A B].
      replace (Z.to_nat ((i + 1) * 2)) with (Z.to_nat (i * 2) + 2)%nat in A, B
        by lia.
      replace (Z.to_nat (i * 2) + 2 * S m)%nat
        with (Z.to_nat (i * 2) + 2 + 2 * m)%nat by lia.
      split; assumption.
Qed.

(** ** Dry signal path: [mix = 0] *)

Lemma range_all_spec (k : nat) :
  forall lo f, range_all k lo f = true ->
               forall c, lo <= c < lo + 2 ^ Z.of_nat k -> f c = true.
Proof.
  induction k as [|k IH]; intros lo f H c Hc.
  - cbn in *. replace c with lo by lia. exact H.
  - cbn [range_all] in H. apply andb_prop in H. destruct H as [H1 H2].
    rewrite Nat2Z.inj_succ, Z.pow_succ_r in Hc by lia.
    destruct (Z.lt_ge_cases c (lo + 2 ^ Z.of_nat k)).
    + apply (IH lo f H1). lia.
    + apply (IH _ f H2). lia.
Qed.

Lemma mix_zero_table : range_all 16 (-32768) mix_zero_ok = true.
Proof. vm_compute. reflexivity. Qed.

Lemma requantize_int16 (c : Z) : int16 c -> requantize c = c - Z.sgn c.
Proof.
  intros [Hlo Hhi]. unfold requantize.
  destruct (Z.lt_trichotomy c 0) as [Hc|[Hc|Hc]].
  - rewrite Z.sgn_neg by lia.
    replace (c * 32767) with (- ((- c) * 32767)) by lia.
    rewrite Z.quot_opp_l by lia.
    rewrite Z.quot_div_nonneg by lia.
    assert (- c * 32767 / 32768 = - c - 1); [|lia].
    symmetry. apply Z.div_unique with (r := 32768 + c); lia.
  - subst c. reflexivity.
  - rewrite Z.sgn_pos by lia. rewrite Z.quot_div_nonneg by lia.
    symmetry. apply Z.div_unique with (r := 32768 - c); lia.
Qed.

Lemma fmul_finite_zero (out : float) (s : bool) :
  is_finite out = true ->
  exists b, fmul out (S754_zero s) = fmul (S754_zero b) (S754_zero false).
Proof.
  destruct out as [b| | |b m e]; cbn; intros H; try discriminate H;
    exists (xorb b s); rewrite xorb_false_r; reflexivity.
Qed.

Lemma mix_sample_mix_zero (out : float) (c : Z) (s : bool) :
  is_finite out = true -> int16 c ->
  mix_sample out (fdiv (f32_of_Z c) (f32_of_Z 32768))
    (S754_zero s) (fsub f_one (S754_zero s))
  = requantize c.
Proof.
  intros Hf Hc.
  destruct (fmul_finite_zero out s Hf) as [b Hb].
  assert (Hdry : fsub f_one (S754_zero s) = f_one) by (destruct s; reflexivity).
  transitivity
    (mix_sample (S754_zero b) (fdiv (f32_of_Z c) (f32_of_Z 32768))
       (S754_zero false) f_one).
  { unfold mix_sample. rewrite Hb, Hdry. reflexivity. }
  assert (Hr : -32768 <= c < -32768 + 2 ^ Z.of_nat 16)
    by (change (2 ^ Z.of_nat 16) with 65536; unfold int16 in Hc; lia).
  pose proof (range_all_spec 16 _ _ mix_zero_table c Hr) as H.
  unfold mix_zero_ok in H. cbv zeta in H.
  apply andb_prop in H. destruct H as [H1 H2].
  apply Z.eqb_eq in H1.
  destruct b; [|exact H1].
  destruct (Z.eqb_spec c 0) as [E|E]; [apply Z.eqb_eq; exact H2|].
  rewrite <- H1. unfold mix_sample.
  apply andb_prop in H2. destruct H2 as [Hfin Hnz].
  destruct (fmul (fdiv (f32_of_Z c) (f32_of_Z 32768)) f_one);
    try discriminate Hfin; try discriminate Hnz.
  reflexivity.
Qed.


(** C3 as stated fails: after [setParameter("mix", "0")] a block of two
    frames turns the carrier samples 1000, -1000, 32767, -32768 into 999,
    -999, 32766, -32767. *)
Lemma mix_zero_output_differs :
  let v := @set_param RefLibM.libm Sample.fresh "mix" "0" in
  mix v = f_zero /\
  Sample.carrier = [1000; -1000; 32767; -32768] /\
  snd (v2_process_block (Some Sample.host) (Some v) Sample.carrier 2)
  = [999; -999; 32766; -32767].
Proof. vm_compute. repeat split. Qed.

(** ** Binary digits *)

Lemma digits2_pos_size (p : positive) : digits2_pos p = Pos.size p.
Proof. induction p as [p IH|p IH|]; cbn; congruence. Qed.

Lemma digits2_pos_bounds (p : positive) :
  2 ^ (Zpos (digits2_pos p) - 1) <= Zpos p < 2 ^ Zpos (digits2_pos p).
Proof.
  rewrite digits2_pos_size. split.
  - pose proof (Pos.size_le p) as H.
    assert (H' : 2 ^ Zpos (Pos.size p) <= 2 * Zpos p).
    { rewrite <- Pos2Z.inj_pow. change (2 * Zpos p) with (Zpos p~0).
      apply Pos2Z.pos_le_pos. exact H. }
    replace (Zpos (Pos.size p)) with (Zpos (Pos.size p) - 1 + 1) in H' by lia.
    rewrite Z.pow_add_r, Z.pow_1_r in H' by lia. lia.
  - pose proof (Pos.size_gt p) as H.
    rewrite <- Pos2Z.inj_pow. apply Pos2Z.pos_lt_pos. exact H.
Qed.

Lemma Zdigits2_bounds (m : Z) :
  0 < m -> 2 ^ (Zdigits2 m - 1) <= m < 2 ^ Zdigits2 m.
Proof.
  destruct m as [|p|p]; intros H; try lia. apply digits2_pos_bounds.
Qed.

Lemma Zdigits2_nonneg (m : Z) : 0 <= Zdigits2 m.
Proof. destruct m; cbn; lia. Qed.

Lemma Zdigits2_unique (m d : Z) :
  2 ^ (d - 1) <= m < 2 ^ d -> 0 < m -> Zdigits2 m = d.
Proof.
  intros [Hlo Hhi] Hm.
  destruct (Zdigits2_bounds m Hm) as [Glo Ghi].
  pose proof (Zdigits2_nonneg m) as Hn.
  assert (Hd : 0 <= d).
  { destruct (Z.lt_ge_cases d 0) as [Hneg|]; [|assumption].
    rewrite Z.pow_neg_r in Hhi by assumption. lia. }
  destruct (Z.lt_trichotomy (Zdigits2 m) d) as [Hlt|[Heq|Hgt]]; [|exact Heq|].
  - assert (2 ^ Zdigits2 m <= 2 ^ (d - 1)) by (apply Z.pow_le_mono_r; lia). lia.
  - assert (2 ^ d <= 2 ^ (Zdigits2 m - 1)) by (apply Z.pow_le_mono_r; lia). lia.
Qed.

Lemma Zdigits2_le (m n : Z) : 0 < m -> m < 2 ^ n -> 0 <= n -> Zdigits2 m <= n.
Proof.
  intros Hm Hlt Hn. destruct (Zdigits2_bounds m Hm) as [Glo _].
  destruct (Z.le_gt_cases (Zdigits2 m) n) as [|Hgt]; [assumption|].
  assert (2 ^ n <= 2 ^ (Zdigits2 m - 1)) by (apply Z.pow_le_mono_r; lia). lia.
Qed.

Lemma Zdigits2_ge (m n : Z) : 2 ^ (n - 1) <= m -> 0 < m -> n <= Zdigits2 m.
Proof.
  intros Hlo Hm. destruct (Zdigits2_bounds m Hm) as [_ Ghi].
  pose proof (Zdigits2_nonneg m).
  destruct (Z.le_gt_cases n (Zdigits2 m)) as [|Hgt]; [assumption|].
  assert (2 ^ Zdigits2 m <= 2 ^ (n - 1)) by (apply Z.pow_le_mono_r; lia). lia.
Qed.

(** ** The shift loop of the rounding *)

Lemma iter_pos_nat {A : Type} (f : A -> A) (n : positive) (x : A) :
  SpecFloat.iter_pos f n x = Nat.iter (Pos.to_nat n) f x.
Proof.
  revert x. induction n as [n IH|n IH|]; intros x; cbn [SpecFloat.iter_pos].
  - rewrite !IH. rewrite Pos2Nat.inj_xI.
    replace (S (2 * Pos.to_nat n)) with (Pos.to_nat n + (Pos.to_nat n + 1))%nat by lia.
    rewrite !Nat.iter_add. cbn. reflexivity.
  - rewrite !IH. rewrite Pos2Nat.inj_xO.
    replace (2 * Pos.to_nat n)%nat with (Pos.to_nat n + Pos.to_nat n)%nat by lia.
    rewrite Nat.iter_add. reflexivity.
  - reflexivity.
Qed.

Lemma shr_1_rec (p q : Z) (mrs : shr_record) :
  0 <= p -> 0 < q -> rec_of p q mrs -> rec_of p (2 * q) (shr_1 mrs).
Proof.
  intros Hp Hq [Hm Hl].
  assert (Hr : 0 <= p mod q < q) by (apply Z.mod_pos_bound; lia).
  assert (Hm0 : 0 <= p / q) by (apply Z.div_pos; lia).
  assert (Hdiv : p / (2 * q) = p / q / 2)
    by (rewrite (Z.mul_comm 2 q), Z.div_div by lia; reflexivity).
  assert (Hmod : p mod (2 * q) = (p / q mod 2) * q + p mod q).
  { rewrite (Z.mul_comm 2 q), Z.rem_mul_r by lia. lia. }
  assert (Hb : 0 <= p / q mod 2 < 2) by (apply Z.mod_pos_bound; lia).
  pose proof (Z.div_mod (p / q) 2 ltac:(lia)) as Hdm.
  unfold rec_of. rewrite Hdiv, Hmod.
  unfold loc_of_rem in *.
  destruct mrs as [m r s]. cbn [shr_m] in Hm. subst m.
  destruct (p / q) as [|m|m] eqn:Em; [| |lia].
  - (* quotient 0 *)
    cbn [shr_1 shr_m loc_of_shr_record]. rewrite Z.mod_0_l, Z.mul_0_l, Z.add_0_l by lia.
    split; [reflexivity|].
    destruct r, s; cbn in Hl |- *;
      destruct (Z.eqb_spec (p mod q) 0) as [E|E]; try discriminate Hl;
      try reflexivity;
      injection Hl as Hl; symmetry in Hl; f_equal; symmetry;
      first [apply Z.compare_lt_iff | apply Z.compare_gt_iff | apply Z.compare_eq_iff];
      lia.
  - assert (Hmodm : Zpos m mod 2 = match m with xO _ => 0 | _ => 1 end).
    { destruct m; [rewrite Pos2Z.inj_xI|rewrite Pos2Z.inj_xO|];
        first [ rewrite Z.add_comm, Z.mul_comm, Z.mod_add by lia; reflexivity
              | rewrite Z.mul_comm, Z.mod_mul by lia; reflexivity
              | reflexivity ]. }
    assert (Hdivm : Zpos m / 2 = match m with xH => 0 | xO p' | xI p' => Zpos p' end).
    { rewrite Hmodm in Hdm. destruct m; lia. }
    rewrite Hmodm, Hdivm.
    destruct m as [m'|m'|]; destruct r, s; cbn in Hl |- *;
      destruct (Z.eqb_spec (p mod q) 0) as [E|E]; try discriminate Hl;
      (split; [reflexivity|]);
      try (injection Hl as Hl; symmetry in Hl;
           first [apply Z.compare_eq in Hl | apply Z.compare_gt_iff in Hl
                 | apply -> Z.compare_lt_iff in Hl]);
      repeat match goal with
        | |- context [?a =? 0] => destruct (Z.eqb_spec a 0); try lia
        end;
      try reflexivity; f_equal; symmetry;
      first [apply Z.compare_lt_iff; lia | apply Z.compare_gt_iff; lia
            | apply Z.compare_eq_iff; lia].
Qed.

Lemma iter_shr_1_rec (p q : Z) (n : nat) (mrs : shr_record) :
  0 <= p -> 0 < q -> rec_of p q mrs ->
  rec_of p (q * 2 ^ Z.of_nat n) (Nat.iter n shr_1 mrs).
Proof.
  intros Hp Hq H. induction n as [|n IH].
  - cbn. rewrite Z.mul_1_r. exact H.
  - cbn [Nat.iter]. rewrite Nat2Z.inj_succ, Z.pow_succ_r by lia.
    replace (q * (2 * 2 ^ Z.of_nat n)) with (2 * (q * 2 ^ Z.of_nat n)) by lia.
    apply shr_1_rec; [exact Hp| |exact IH].
    apply Z.mul_pos_pos; [exact Hq|]. apply Z.pow_pos_nonneg; lia.
Qed.

Lemma shr_rec (p q : Z) (mrs : shr_record) (e n : Z) :
  0 <= p -> 0 < q -> rec_of p q mrs ->
  rec_of p (q * 2 ^ Z.max 0 n) (fst (shr mrs e n)) /\
  snd (shr mrs e n) = e + Z.max 0 n.
Proof.
  intros Hp Hq H. unfold shr. destruct n as [|n|n]; cbn [fst snd].
  - rewrite Z.max_l, Z.mul_1_r by lia. split; [exact H|lia].
  - rewrite Z.max_r by lia. split; [|reflexivity].
    rewrite iter_pos_nat.
    pose proof (iter_shr_1_rec p q (Pos.to_nat n) mrs Hp Hq H) as G.
    rewrite positive_nat_Z in G. exact G.
  - rewrite Z.max_l, Z.mul_1_r by lia. split; [exact H|lia].
Qed.

Lemma rec_of_loc (p q : Z) :
  rec_of p q (shr_record_of_loc (p / q) (loc_of_rem (p mod q) q)).
Proof.
  unfold rec_of, loc_of_rem.
  destruct (p mod q =? 0); [split; reflexivity|].
  destruct (2 * (p mod q) ?= q); split; reflexivity.
Qed.

Lemma round_nearest_even_rec (p q : Z) (mrs : shr_record) :
  0 < q -> rec_of p q mrs ->
  round_nearest_even (shr_m mrs) (loc_of_shr_record mrs) = round_half_even p q.
Proof.
  intros Hq [Hm Hl]. rewrite Hm, Hl. unfold loc_of_rem, round_half_even, round_nearest_even.
  destruct (Z.eqb_spec (p mod q) 0) as [E|E].
  - rewrite E, Z.mul_0_r.
    destruct (Z.compare_spec 0 q) as [H|H|H]; first [lia | reflexivity].
  - destruct (2 * (p mod q) ?= q); reflexivity.
Qed.

Lemma fexp32_eq (e : Z) : fexp 24 128 e = fexp32 e.
Proof. reflexivity. Qed.

Lemma round_half_even_nonneg (p q : Z) : 0 <= p -> 0 < q -> 0 <= round_half_even p q.
Proof.
  intros Hp Hq. unfold round_half_even.
  assert (0 <= p / q) by (apply Z.div_pos; lia).
  destruct (2 * (p mod q) ?= q); [destruct (Z.even (p / q))| |]; lia.
Qed.

(** The rounding of the library is [round32]. *)
Lemma binary_round_aux_spec (s : bool) (p q e : Z) :
  0 <= p -> 0 < q ->
  binary_round_aux 24 128 s (p / q) e (loc_of_rem (p mod q) q) = round32 s p q e.
Proof.
  intros Hp Hq. unfold binary_round_aux, shr_fexp, round32.
  rewrite !fexp32_eq.
  set (n1 := fexp32 (Zdigits2 (p / q) + e) - e).
  destruct (shr_rec p q _ e n1 Hp Hq (rec_of_loc p q)) as [R1 E1].
  destruct (shr (shr_record_of_loc (p / q) (loc_of_rem (p mod q) q)) e n1)
    as [mrs' e'] eqn:S1.
  cbn [fst snd] in R1, E1. subst e'.
  assert (Hq1 : 0 < q * 2 ^ Z.max 0 n1).
  { apply Z.mul_pos_pos; [exact Hq|]. apply Z.pow_pos_nonneg; lia. }
  rewrite (round_nearest_even_rec p _ mrs' Hq1 R1).
  set (m1 := round_half_even p (q * 2 ^ Z.max 0 n1)).
  assert (Hm1 : 0 <= m1) by (apply round_half_even_nonneg; assumption).
  rewrite !fexp32_eq.
  set (n2 := fexp32 (Zdigits2 m1 + (e + Z.max 0 n1)) - (e + Z.max 0 n1)).
  assert (R0 : rec_of m1 1 (shr_record_of_loc m1 loc_Exact)).
  { split; cbn; [rewrite Z.div_1_r; reflexivity|].
    rewrite Z.mod_1_r. reflexivity. }
  destruct (shr_rec m1 1 _ (e + Z.max 0 n1) n2 Hm1 ltac:(lia) R0) as [[R2 _] E2].
  destruct (shr (shr_record_of_loc m1 loc_Exact) (e + Z.max 0 n1) n2)
    as [mrs'' e''] eqn:S2.
  cbn [fst snd] in R2, E2. subst e''. rewrite R2, Z.mul_1_l.
  reflexivity.
Qed.

(** ** Digits of shifted numbers *)

Lemma Zdigits2_mul_pow (m j : Z) :
  0 < m -> 0 <= j -> Zdigits2 (m * 2 ^ j) = Zdigits2 m + j.
Proof.
  intros Hm Hj. destruct (Zdigits2_bounds m Hm) as [Hlo Hhi].
  assert (Hd : 1 <= Zdigits2 m).
  { destruct m; cbn in *; lia. }
  assert (Hp : 0 < 2 ^ j) by (apply Z.pow_pos_nonneg; lia).
  apply Zdigits2_unique; [|nia].
  replace (Zdigits2 m + j - 1) with (Zdigits2 m - 1 + j) by lia.
  rewrite !Z.pow_add_r by lia. nia.
Qed.

Lemma Zdigits2_div_pow (m j : Z) :
  0 < m -> 0 <= j -> Zdigits2 (m / 2 ^ j) = Z.max 0 (Zdigits2 m - j).
Proof.
  intros Hm Hj. destruct (Zdigits2_bounds m Hm) as [Hlo Hhi].
  assert (Hd : 1 <= Zdigits2 m) by (destruct m; cbn in *; lia).
  assert (Hp : 0 < 2 ^ j) by (apply Z.pow_pos_nonneg; lia).
  destruct (Z.le_gt_cases (Zdigits2 m) j) as [Hle|Hgt].
  - rewrite Z.max_l by lia.
    assert (2 ^ Zdigits2 m <= 2 ^ j) by (apply Z.pow_le_mono_r; lia).
    rewrite Z.div_small by lia. reflexivity.
  - rewrite Z.max_r by lia.
    assert (Hsplit : 2 ^ Zdigits2 m = 2 ^ (Zdigits2 m - j) * 2 ^ j)
      by (rewrite <- Z.pow_add_r by lia; f_equal; lia).
    assert (Hsplit' : 2 ^ (Zdigits2 m - 1) = 2 ^ (Zdigits2 m - j - 1) * 2 ^ j)
      by (rewrite <- Z.pow_add_r by lia; f_equal; lia).
    assert (Hq : 2 ^ (Zdigits2 m - j - 1) <= m / 2 ^ j).
    { apply Z.div_le_lower_bound; lia. }
    assert (Hq' : m / 2 ^ j < 2 ^ (Zdigits2 m - j)).
    { apply Z.div_lt_upper_bound; lia. }
    assert (0 < 2 ^ (Zdigits2 m - j - 1)) by (apply Z.pow_pos_nonneg; lia).
    apply Zdigits2_unique; lia.
Qed.

(** ** Rounding to the nearest, ties to even *)

Lemma round_half_even_scale (p q c : Z) :
  0 < q -> 0 < c -> round_half_even (p * c) (q * c) = round_half_even p q.
Proof.
  intros Hq Hc. unfold round_half_even.
  rewrite Z.div_mul_cancel_r by lia.
  rewrite Z.mul_mod_distr_r by lia.
  replace (2 * (p mod q * c) ?= q * c) with (2 * (p mod q) ?= q); [reflexivity|].
  destruct (Z.compare_spec (2 * (p mod q)) q) as [H|H|H]; symmetry.
  - apply Z.compare_eq_iff. nia.
  - apply Z.compare_lt_iff. nia.
  - apply Z.compare_gt_iff. nia.
Qed.

Lemma round_half_even_bounds (p q : Z) :
  0 < q -> p / q <= round_half_even p q <= p / q + 1.
Proof.
  intros Hq. unfold round_half_even.
  destruct (2 * (p mod q) ?= q); [destruct (Z.even (p / q))| |]; lia.
Qed.

Lemma round_half_even_exact (p q : Z) :
  0 < q -> p mod q = 0 -> round_half_even p q = p / q.
Proof.
  intros Hq H. unfold round_half_even. rewrite H, Z.mul_0_r.
  destruct (Z.compare_spec 0 q); first [lia | reflexivity].
Qed.

Lemma pow2_pos (n : Z) : 0 <= n -> 0 < 2 ^ n.
Proof. intros. apply Z.pow_pos_nonneg; lia. Qed.

Lemma pow2_split (a b : Z) : 0 <= b <= a -> 2 ^ a = 2 ^ (a - b) * 2 ^ b.
Proof. intros. rewrite <- Z.pow_add_r by lia. f_equal. lia. Qed.

Lemma Zdigits2_pos (m : Z) : 0 < m -> 1 <= Zdigits2 m.
Proof. destruct m; cbn; lia. Qed.

(** The rounding of [m * 2^e], with [m] not shorter than the format asks
    for, in units of [2^-149]. *)
Lemma round32_ulps (s : bool) (m e : Z) :
  0 < m -> -298 <= e -> e <= fexp32 (Zdigits2 m + e) ->
  round32 s m 1 e = float_of_ulps s (RN (m * 2 ^ (e + 298)) (2 ^ 149)).
Proof.
  intros Hm He Hpre.
  pose proof (Zdigits2_pos m Hm) as Hd.
  destruct (Zdigits2_bounds m Hm) as [Hmlo Hmhi].
  remember (Zdigits2 m) as d eqn:Ed. remember (fexp32 (d + e)) as e1 eqn:Ee1.
  assert (He1 : -149 <= e1) by (subst e1; unfold fexp32; lia).
  unfold round32. rewrite Z.div_1_r, Z.mul_1_l. rewrite <- Ed, <- Ee1.
  rewrite (Z.max_r 0 (e1 - e)) by lia.
  remember (e1 - e) as k eqn:Ek. remember (round_half_even m (2 ^ k)) as m1 eqn:Em1.
  replace (e + k) with e1 by lia.
  assert (Hk : 0 <= k) by lia.
  pose proof (pow2_pos k Hk) as Hpk.
  unfold RN.
  assert (HND : Zdigits2 (m * 2 ^ (e + 298) / 2 ^ 149) = Z.max 0 (d + e + 149)).
  { destruct (Z.le_gt_cases 149 (e + 298)) as [Hle|Hgt].
    - rewrite (pow2_split (e + 298) 149) by lia.
      rewrite Z.mul_assoc, Z.div_mul by (pose proof (pow2_pos 149 ltac:(lia)); lia).
      rewrite Zdigits2_mul_pow by lia. rewrite <- Ed. lia.
    - rewrite (pow2_split 149 (e + 298)) by lia.
      rewrite Z.div_mul_cancel_r
        by (pose proof (pow2_pos (149 - (e + 298)) ltac:(lia));
            pose proof (pow2_pos (e + 298) ltac:(lia)); lia).
      rewrite Zdigits2_div_pow by lia. rewrite <- Ed. lia. }
  rewrite HND.
  assert (Hg : Z.max 0 (Z.max 0 (d + e + 149) - 24) = e1 + 149)
    by (subst e1; unfold fexp32; lia).
  rewrite Hg.
  assert (Hr : round_half_even (m * 2 ^ (e + 298)) (2 ^ 149 * 2 ^ (e1 + 149)) = m1).
  { rewrite <- Z.pow_add_r by lia.
    replace (149 + (e1 + 149)) with (k + (e + 298)) by lia.
    rewrite (Z.pow_add_r 2 k (e + 298)) by lia.
    subst m1. apply round_half_even_scale; [exact Hpk|apply pow2_pos; lia]. }
  rewrite Hr.
  assert (Hm1 : 0 <= m1) by (subst m1; apply round_half_even_nonneg; lia).
  pose proof (pow2_pos (e1 + 149) ltac:(lia)) as Hpg.
  unfold float_of_ulps.
  destruct (Z.eq_dec m1 0) as [E0|E0].
  { rewrite E0, Z.mul_0_r. cbn [Zdigits2]. rewrite !Z.div_0_l; [reflexivity| |].
    - pose proof (pow2_pos (Z.max 0 (0 - 24)) ltac:(lia)). lia.
    - pose proof (pow2_pos (Z.max 0 (fexp32 (0 + e1) - e1)) ltac:(lia)). lia. }
  assert (Hm1p : 0 < m1) by lia.
  pose proof (Zdigits2_pos m1 Hm1p) as Hd1.
  rewrite (Z.mul_comm (2 ^ (e1 + 149)) m1).
  rewrite Zdigits2_mul_pow by lia.
  assert (Hk2 : Z.max 0 (fexp32 (Zdigits2 m1 + e1) - e1) = Z.max 0 (Zdigits2 m1 - 24))
    by (unfold fexp32; lia).
  rewrite Hk2.
  assert (Hnorm : 0 < e1 + 149 -> 24 <= Zdigits2 m1).
  { intros Hn. apply Zdigits2_ge; [|exact Hm1p].
    assert (Hdk : d - 1 = 23 + k) by (subst k e1; unfold fexp32 in *; lia).
    rewrite Hdk, Z.pow_add_r in Hmlo by lia.
    assert (2 ^ 23 <= m / 2 ^ k) by (apply Z.div_le_lower_bound; lia).
    pose proof (round_half_even_bounds m (2 ^ k) Hpk) as Hb. rewrite <- Em1 in Hb.
    change (24 - 1) with 23. lia. }
  destruct (Z.eq_dec (e1 + 149) 0) as [Eg|Eg].
  - rewrite Eg, Z.add_0_r. change (2 ^ 0) with 1. rewrite Z.mul_1_r.
    f_equal. lia.
  - specialize (Hnorm ltac:(lia)).
    rewrite !Z.max_r by lia.
    replace (Zdigits2 m1 + (e1 + 149) - 24) with ((e1 + 149) + (Zdigits2 m1 - 24)) by lia.
    rewrite (Z.pow_add_r 2 (e1 + 149) (Zdigits2 m1 - 24)) by lia.
    rewrite (Z.mul_comm m1), Z.div_mul_cancel_l
      by (pose proof (pow2_pos (Zdigits2 m1 - 24) ltac:(lia)); lia).
    f_equal. lia.
Qed.

(** ** Representable magnitudes *)

Lemma Zdigits2_0 : Zdigits2 0 = 0.
Proof. reflexivity. Qed.

Lemma repr_0 : repr 0.
Proof. split; [lia|]. reflexivity. Qed.

Lemma repr_small (u : Z) : 0 <= u < 2 ^ 24 -> repr u.
Proof.
  intros [H0 H1]. split; [exact H0|].
  destruct (Z.eq_dec u 0) as [->|Hn]; [reflexivity|].
  assert (Zdigits2 u <= 24) by (apply Zdigits2_le; lia).
  rewrite Z.max_l by lia. apply Z.mod_1_r.
Qed.

Lemma repr_mul_pow (a g : Z) : 0 <= a <= 2 ^ 24 -> 0 <= g -> repr (a * 2 ^ g).
Proof.
  intros [Ha0 Ha1] Hg. pose proof (pow2_pos g Hg) as Hp.
  split; [nia|].
  destruct (Z.eq_dec a 0) as [->|Hn]; [reflexivity|].
  rewrite Zdigits2_mul_pow by lia.
  destruct (Z.eq_dec a (2 ^ 24)) as [->|Hlt].
  - rewrite <- Z.pow_add_r by lia.
    rewrite Zdigits2_mul_pow with (m := 1) (j := 24 + g) || idtac.
    replace (Zdigits2 (2 ^ 24)) with 25 by reflexivity.
    rewrite Z.max_r by lia.
    replace (24 + g) with (23 + (25 + g - 24)) by lia.
    rewrite Z.pow_add_r by lia. apply Z.mod_mul.
    pose proof (pow2_pos (25 + g - 24) ltac:(lia)). lia.
  - assert (Zdigits2 a <= 24) by (apply Zdigits2_le; lia).
    pose proof (Zdigits2_pos a ltac:(lia)).
    destruct (Z.le_gt_cases (Zdigits2 a + g) 24).
    + rewrite Z.max_l by lia. apply Z.mod_1_r.
    + rewrite Z.max_r by lia.
      replace g with ((24 - Zdigits2 a) + (Zdigits2 a + g - 24)) at 1 by lia.
      rewrite Z.pow_add_r, Z.mul_assoc by lia. apply Z.mod_mul.
      pose proof (pow2_pos (Zdigits2 a + g - 24) ltac:(lia)). lia.
Qed.

(** A representable magnitude with [b > 24] digits is a multiple of
    [2^(b - 24)]. *)
Lemma repr_multiple (u b : Z) :
  repr u -> 2 ^ (b - 1) <= u < 2 ^ b -> 24 <= b ->
  u = u / 2 ^ (b - 24) * 2 ^ (b - 24).
Proof.
  intros [H0 Hm] Hb H24.
  assert (Hu : 0 < u) by (pose proof (pow2_pos (b - 1) ltac:(lia)); lia).
  rewrite (Zdigits2_unique u b Hb Hu) in Hm.
  rewrite Z.max_r in Hm by lia.
  pose proof (pow2_pos (b - 24) ltac:(lia)).
  pose proof (Z.div_mod u (2 ^ (b - 24)) ltac:(lia)). lia.
Qed.

(** ** Rounding between representable magnitudes *)

Lemma round_half_even_le (N D a : Z) :
  0 < D -> N <= a * D -> round_half_even N D <= a.
Proof.
  intros HD H.
  pose proof (Z.div_mod N D ltac:(lia)) as Hdm.
  pose proof (Z.mod_pos_bound N D HD) as Hr.
  assert (Hq : N / D <= a) by (apply Z.div_le_upper_bound; lia).
  unfold round_half_even.
  destruct (Z.compare_spec (2 * (N mod D)) D) as [E|E|E];
    [destruct (Z.even (N / D))| |]; try lia;
    (destruct (Z.eq_dec (N / D) a) as [Ea|Ea]; [|lia]);
    rewrite Ea in Hdm; nia.
Qed.

Lemma round_half_even_ge (N D a : Z) :
  0 < D -> a * D <= N -> a <= round_half_even N D.
Proof.
  intros HD H.
  assert (Hq : a <= N / D) by (apply Z.div_le_lower_bound; lia).
  pose proof (round_half_even_bounds N D HD). lia.
Qed.

(** A value below the middle of [a] and [a + 1] rounds to [a] at most. *)
Lemma round_half_even_below_half (N D a : Z) :
  0 < D -> 2 * N < (2 * a + 1) * D -> round_half_even N D <= a.
Proof.
  intros HD H.
  pose proof (Z.div_mod N D ltac:(lia)) as Hdm.
  pose proof (Z.mod_pos_bound N D HD) as Hr.
  assert (Hq : N / D < a + 1) by (apply Z.div_lt_upper_bound; nia).
  unfold round_half_even.
  destruct (Z.compare_spec (2 * (N mod D)) D) as [E|E|E];
    [destruct (Z.even (N / D))| |]; try lia;
    (destruct (Z.eq_dec (N / D) a) as [Ea|Ea]; [|lia]);
    rewrite Ea in Hdm; nia.
Qed.

Section RoundingFacts.
Variables N D : Z.
Hypothesis HN : 0 <= N.
Hypothesis HD : 0 < D.

Lemma RN_nonneg : 0 <= RN N D.
Proof.
  unfold RN.
  pose proof (pow2_pos (Z.max 0 (Zdigits2 (N / D) - 24)) ltac:(lia)) as HG.
  pose proof (round_half_even_nonneg N (D * 2 ^ Z.max 0 (Zdigits2 (N / D) - 24))
                HN ltac:(nia)).
  nia.
Qed.

(** The integer part of [N / D] and its binade. *)
Lemma quotient_binade :
  24 < Zdigits2 (N / D) ->
  let b := Zdigits2 (N / D) in
  2 ^ (b - 1) * D <= N < 2 ^ b * D.
Proof.
  intros Hb b.
  assert (Hq : 0 < N / D).
  { destruct (N / D) eqn:E; cbn in Hb; try lia.
    pose proof (Z.div_pos N D HN HD). lia. }
  destruct (Zdigits2_bounds (N / D) Hq) as [Hlo Hhi]. fold b in Hlo, Hhi.
  pose proof (Z.div_mod N D ltac:(lia)) as Hdm.
  pose proof (Z.mod_pos_bound N D HD) as Hr.
  split; nia.
Qed.

(** Rounding does not pass a representable magnitude above the value. *)
Lemma RN_le_repr (A : Z) : repr A -> N <= A * D -> RN N D <= A.
Proof.
  intros HA Hle. unfold RN.
  set (b := Zdigits2 (N / D)).
  destruct (Z.le_gt_cases b 24) as [Hb|Hb].
  - rewrite Z.max_l by lia. change (2 ^ 0) with 1.
    rewrite Z.mul_1_r, Z.mul_1_l. apply round_half_even_le; assumption.
  - rewrite Z.max_r by lia.
    destruct (quotient_binade Hb) as [Hlo Hhi]. fold b in Hlo, Hhi.
    pose proof (pow2_pos (b - 24) ltac:(lia)) as HG.
    pose proof (pow2_pos (b - 1) ltac:(lia)) as HP.
    assert (Hsplit : 2 ^ b = 2 ^ 24 * 2 ^ (b - 24))
      by (rewrite <- Z.pow_add_r by lia; f_equal; lia).
    destruct (Z.le_gt_cases (2 ^ b) A) as [Hbig|Hsmall].
    + assert (round_half_even N (D * 2 ^ (b - 24)) <= 2 ^ 24).
      { apply round_half_even_le; nia. }
      nia.
    + assert (HAb : 2 ^ (b - 1) <= A < 2 ^ b) by nia.
      pose proof (repr_multiple A b HA HAb ltac:(lia)) as HAm.
      set (a := A / 2 ^ (b - 24)) in *.
      assert (round_half_even N (D * 2 ^ (b - 24)) <= a).
      { apply round_half_even_le; nia. }
      nia.
Qed.

(** Rounding does not pass a representable magnitude below the value. *)
Lemma RN_ge_repr (A : Z) : repr A -> A * D <= N -> A <= RN N D.
Proof.
  intros HA Hle. unfold RN.
  set (b := Zdigits2 (N / D)).
  destruct (Z.le_gt_cases b 24) as [Hb|Hb].
  - rewrite Z.max_l by lia. change (2 ^ 0) with 1.
    rewrite Z.mul_1_r, Z.mul_1_l. apply round_half_even_ge; assumption.
  - rewrite Z.max_r by lia.
    destruct (quotient_binade Hb) as [Hlo Hhi]. fold b in Hlo, Hhi.
    pose proof (pow2_pos (b - 24) ltac:(lia)) as HG.
    pose proof (pow2_pos (b - 1) ltac:(lia)) as HP.
    assert (Hsplit : 2 ^ (b - 1) = 2 ^ 23 * 2 ^ (b - 24))
      by (rewrite <- Z.pow_add_r by lia; f_equal; lia).
    destruct (Z.le_gt_cases (2 ^ (b - 1)) A) as [Hbig|Hsmall].
    + assert (HAb : 2 ^ (b - 1) <= A < 2 ^ b) by nia.
      pose proof (repr_multiple A b HA HAb ltac:(lia)) as HAm.
      set (a := A / 2 ^ (b - 24)) in *.
      assert (a <= round_half_even N (D * 2 ^ (b - 24))).
      { apply round_half_even_ge; nia. }
      nia.
    + assert (2 ^ 23 <= round_half_even N (D * 2 ^ (b - 24))).
      { apply round_half_even_ge; nia. }
      nia.
Qed.
End RoundingFacts.

Lemma RN_repr_id (A : Z) : repr A -> RN A 1 = A.
Proof.
  intros HA. destruct HA as [H0 Hm].
  pose proof (RN_le_repr A 1 H0 ltac:(lia) A (conj H0 Hm) ltac:(lia)).
  pose proof (RN_ge_repr A 1 H0 ltac:(lia) A (conj H0 Hm) ltac:(lia)).
  lia.
Qed.

Lemma RN_scale (N D c : Z) : 0 < D -> 0 < c -> RN (N * c) (D * c) = RN N D.
Proof.
  intros HD Hc. unfold RN. rewrite Z.div_mul_cancel_r by lia.
  set (G := 2 ^ Z.max 0 (Zdigits2 (N / D) - 24)).
  assert (HG : 0 < G) by (apply pow2_pos; lia).
  replace (D * c * G) with (D * G * c) by lia.
  rewrite round_half_even_scale by nia. reflexivity.
Qed.

(** ** Well-formed floats and their magnitudes *)

Lemma valid_finite (s : bool) (m : positive) (e : Z) :
  valid32 (S754_finite s m e) = true <->
  fexp32 (Zdigits2 (Zpos m) + e) = e /\ e <= 104.
Proof.
  unfold valid32, valid_binary, bounded, canonical_mantissa.
  rewrite fexp32_eq. cbn [Zdigits2].
  rewrite andb_true_iff, Z.eqb_eq, Z.leb_le. reflexivity.
Qed.

Lemma valid_finite_bounds (s : bool) (m : positive) (e : Z) :
  valid32 (S754_finite s m e) = true ->
  -149 <= e <= 104 /\ Zdigits2 (Zpos m) <= 24 /\
  (-149 < e -> Zdigits2 (Zpos m) = 24) /\ Zpos m < 2 ^ 24.
Proof.
  intros H. apply valid_finite in H. destruct H as [Hc He].
  unfold fexp32 in Hc.
  assert (Hd : Zdigits2 (Zpos m) <= 24) by lia.
  repeat split; try lia.
  destruct (Zdigits2_bounds (Zpos m) ltac:(lia)) as [_ Hhi].
  assert (2 ^ Zdigits2 (Zpos m) <= 2 ^ 24)
    by (apply Z.pow_le_mono_r; lia).
  lia.
Qed.

Lemma float_of_ulps_valid (s : bool) (u : Z) :
  0 <= u -> valid32 (float_of_ulps s u) = true.
Proof.
  intros Hu. unfold float_of_ulps.
  set (k := Z.max 0 (Zdigits2 u - 24)).
  pose proof (pow2_pos k ltac:(lia)) as Hk.
  assert (Hq : 0 <= u / 2 ^ k) by (apply Z.div_pos; lia).
  unfold pack32. destruct (u / 2 ^ k) as [|m|m] eqn:Em; try reflexivity.
  destruct (Z.leb_spec (k - 149) 104) as [He|He]; [|reflexivity].
  apply valid_finite. split; [|exact He].
  assert (Hu0 : 0 < u).
  { destruct (Z.eq_dec u 0) as [->|]; [|lia]. rewrite Z.div_0_l in Em by lia.
    discriminate Em. }
  rewrite <- Em, Zdigits2_div_pow by lia.
  pose proof (Zdigits2_pos u Hu0). unfold fexp32. subst k. lia.
Qed.

Lemma float_of_ulps_0 (s : bool) : float_of_ulps s 0 = S754_zero s.
Proof. reflexivity. Qed.

Lemma float_of_ulps_finite (s : bool) (u : Z) :
  repr u -> u < 2 ^ 277 ->
  is_finite (float_of_ulps s u) = true /\
  ulps (float_of_ulps s u) = cond_Zopp s u /\
  fsign (float_of_ulps s u) = s.
Proof.
  intros [Hu Hm] Hlt. unfold float_of_ulps.
  set (k := Z.max 0 (Zdigits2 u - 24)) in *.
  pose proof (pow2_pos k ltac:(lia)) as Hk.
  assert (Hq : 0 <= u / 2 ^ k) by (apply Z.div_pos; lia).
  pose proof (Z.div_mod u (2 ^ k) ltac:(lia)) as Hdm. rewrite Hm in Hdm.
  unfold pack32. destruct (u / 2 ^ k) as [|m|m] eqn:Em; [| |lia].
  - cbn. repeat split. destruct s; cbn; lia.
  - assert (Hu0 : 0 < u) by lia.
    assert (Hd : Zdigits2 u <= 277) by (apply Zdigits2_le; lia).
    destruct (Z.leb_spec (k - 149) 104) as [He|He]; [|subst k; lia].
    cbn. repeat split.
    replace (k - 149 + 149) with k by lia.
    destruct s; cbn [cond_Zopp]; lia.
Qed.

Lemma float_of_ulps_inv (s : bool) (m : positive) (e : Z) :
  valid32 (S754_finite s m e) = true ->
  float_of_ulps s (Zpos m * 2 ^ (e + 149)) = S754_finite s m e.
Proof.
  intros H. destruct (valid_finite_bounds s m e H) as (He & Hd & Hn & Hm).
  unfold float_of_ulps.
  rewrite Zdigits2_mul_pow by lia.
  assert (Hk : Z.max 0 (Zdigits2 (Zpos m) + (e + 149) - 24) = e + 149).
  { destruct (Z.eq_dec e (-149)) as [->|Hne]; [lia|].
    rewrite Hn by lia. lia. }
  rewrite Hk, Z.div_mul by (pose proof (pow2_pos (e + 149) ltac:(lia)); lia).
  unfold pack32. replace (e + 149 - 149) with e by lia.
  destruct (Z.leb_spec e 104); [reflexivity|lia].
Qed.

Lemma valid_repr (x : float) :
  valid32 x = true -> repr (Z.abs (ulps x)) /\ Z.abs (ulps x) < 2 ^ 277.
Proof.
  destruct x as [s| | |s m e]; intros H; cbn [ulps];
    try (split; [apply repr_0|reflexivity]).
  destruct (valid_finite_bounds s m e H) as (He & Hd & Hn & Hm).
  pose proof (pow2_pos (e + 149) ltac:(lia)) as Hp.
  assert (Habs : Z.abs (cond_Zopp s (Zpos m * 2 ^ (e + 149)))
                 = Zpos m * 2 ^ (e + 149)) by (destruct s; cbn [cond_Zopp]; lia).
  rewrite Habs. split.
  - apply repr_mul_pow; lia.
  - assert (2 ^ (e + 149) <= 2 ^ 253) by (apply Z.pow_le_mono_r; lia).
    change (2 ^ 277) with (2 ^ 24 * 2 ^ 253). nia.
Qed.

Lemma float_of_ulps_abs (x : float) :
  valid32 x = true -> is_finite x = true ->
  float_of_ulps (fsign x) (Z.abs (ulps x)) = x.
Proof.
  destruct x as [s| | |s m e]; intros H Hf; try discriminate Hf.
  - reflexivity.
  - cbn [ulps fsign].
    pose proof (pow2_pos (e + 149)
                  ltac:(destruct (valid_finite_bounds s m e H); lia)) as Hp.
    replace (Z.abs (cond_Zopp s (Zpos m * 2 ^ (e + 149))))
      with (Zpos m * 2 ^ (e + 149)) by (destruct s; cbn [cond_Zopp]; lia).
    apply float_of_ulps_inv. exact H.
Qed.

Lemma ulps_sign (x : float) :
  is_finite x = true ->
  ulps x = cond_Zopp (fsign x) (Z.abs (ulps x)).
Proof.
  destruct x as [s| | |s m e]; intros Hf; try discriminate Hf.
  - destruct s; reflexivity.
  - cbn [ulps fsign]. destruct s; cbn [cond_Zopp]; lia.
Qed.

Lemma RN_repr (N D : Z) : 0 <= N -> 0 < D -> repr (RN N D).
Proof.
  intros HN HD. unfold RN.
  set (b := Zdigits2 (N / D)).
  set (g := Z.max 0 (b - 24)).
  pose proof (pow2_pos g ltac:(lia)) as HG.
  rewrite Z.mul_comm. apply repr_mul_pow; [|lia].
  split; [apply round_half_even_nonneg; nia|].
  apply round_half_even_le; [nia|].
  destruct (Z.le_gt_cases b 24) as [Hb|Hb].
  - assert (Hg : g = 0) by lia. rewrite Hg. change (2 ^ 0) with 1.
    assert (Hq : 0 <= N / D) by (apply Z.div_pos; lia).
    assert (N / D < 2 ^ 24).
    { destruct (Z.eq_dec (N / D) 0) as [E|E]; [rewrite E; reflexivity|].
      destruct (Zdigits2_bounds (N / D) ltac:(lia)) as [_ Hhi]. fold b in Hhi.
      assert (2 ^ b <= 2 ^ 24) by (apply Z.pow_le_mono_r; lia). lia. }
    pose proof (Z.div_mod N D ltac:(lia)).
    pose proof (Z.mod_pos_bound N D HD). nia.
  - destruct (quotient_binade N D HN HD Hb) as [_ Hhi]. fold b in Hhi.
    assert (Hg : g = b - 24) by lia. rewrite Hg.
    assert (Hsplit : 2 ^ b = 2 ^ 24 * 2 ^ (b - 24))
      by (rewrite <- Z.pow_add_r by lia; f_equal; lia).
    nia.
Qed.

(** ** The operations, in units of [2^-149] *)

Lemma RN_0 (D : Z) : 0 < D -> RN 0 D = 0.
Proof.
  intros HD. unfold RN. rewrite Z.div_0_l by lia. cbn [Zdigits2].
  rewrite Z.max_l by lia. change (2 ^ 0) with 1. rewrite Z.mul_1_r, Z.mul_1_l.
  rewrite round_half_even_exact; [apply Z.div_0_l; lia|lia|apply Z.mod_0_l; lia].
Qed.

Lemma binary_round_aux_exact (s : bool) (m e : Z) :
  0 <= m -> binary_round_aux 24 128 s m e loc_Exact = round32 s m 1 e.
Proof.
  intros Hm. rewrite <- (binary_round_aux_spec s m 1 e Hm ltac:(lia)).
  rewrite Z.div_1_r, Z.mod_1_r. reflexivity.
Qed.

Lemma Zdigits2_mul_ge (a b : Z) :
  0 < a -> 0 < b -> Zdigits2 a + Zdigits2 b - 1 <= Zdigits2 (a * b).
Proof.
  intros Ha Hb.
  destruct (Zdigits2_bounds a Ha) as [Hla _].
  destruct (Zdigits2_bounds b Hb) as [Hlb _].
  pose proof (Zdigits2_pos a Ha). pose proof (Zdigits2_pos b Hb).
  apply Zdigits2_ge; [|nia].
  replace (Zdigits2 a + Zdigits2 b - 1 - 1)
    with ((Zdigits2 a - 1) + (Zdigits2 b - 1)) by lia.
  rewrite Z.pow_add_r by lia.
  pose proof (pow2_pos (Zdigits2 a - 1) ltac:(lia)).
  pose proof (pow2_pos (Zdigits2 b - 1) ltac:(lia)). nia.
Qed.

Lemma abs_ulps_finite (s : bool) (m : positive) (e : Z) :
  -149 <= e ->
  Z.abs (ulps (S754_finite s m e)) = Zpos m * 2 ^ (e + 149).
Proof.
  intros He. pose proof (pow2_pos (e + 149) ltac:(lia)).
  cbn [ulps]. destruct s; cbn [cond_Zopp]; lia.
Qed.

(** The product is the exact product rounded once. *)
Lemma fmul_spec (x y : float) :
  valid32 x = true -> valid32 y = true ->
  is_finite x = true -> is_finite y = true ->
  fmul x y
  = float_of_ulps (xorb (fsign x) (fsign y))
      (RN (Z.abs (ulps x) * Z.abs (ulps y)) (2 ^ 149)).
Proof.
  intros Vx Vy Fx Fy.
  assert (HD : 0 < 2 ^ 149) by (apply pow2_pos; lia).
  destruct x as [sx| | |sx mx ex]; try discriminate Fx;
    destruct y as [sy| | |sy my ey]; try discriminate Fy;
    cbn [fsign];
    try (cbn [ulps Z.abs Z.mul]; rewrite ?Z.mul_0_r, RN_0 by exact HD;
         reflexivity).
  destruct (valid_finite_bounds sx mx ex Vx) as (Hex & Hdx & Hnx & Hmx).
  destruct (valid_finite_bounds sy my ey Vy) as (Hey & Hdy & Hny & Hmy).
  rewrite !abs_ulps_finite by lia.
  unfold fmul, SFmul.
  rewrite binary_round_aux_exact by lia.
  rewrite Pos2Z.inj_mul.
  rewrite round32_ulps.
  - f_equal. f_equal.
    replace (ex + ey + 298) with ((ex + 149) + (ey + 149)) by lia.
    rewrite Z.pow_add_r by lia. ring.
  - lia.
  - lia.
  - pose proof (Zdigits2_mul_ge (Zpos mx) (Zpos my) ltac:(lia) ltac:(lia)) as Hd.
    pose proof (Zdigits2_pos (Zpos mx) ltac:(lia)).
    pose proof (Zdigits2_pos (Zpos my) ltac:(lia)).
    unfold fexp32.
    destruct (Z.eq_dec ex (-149)) as [Ex|Ex];
      destruct (Z.eq_dec ey (-149)) as [Ey|Ey];
      try (rewrite Hnx in Hd by lia); try (rewrite Hny in Hd by lia); lia.
Qed.

Lemma pos_iter_xO (m d : positive) :
  Zpos (Pos.iter xO m d) = Zpos m * 2 ^ Zpos d.
Proof.
  induction d as [|d IH] using Pos.peano_ind.
  - cbn [Pos.iter]. rewrite Pos2Z.inj_xO. lia.
  - rewrite Pos.iter_succ, Pos2Z.inj_xO, IH, Pos2Z.inj_succ, Z.pow_succ_r by lia.
    lia.
Qed.

Lemma shl_align_spec (m : positive) (e e' : Z) :
  let r := shl_align m e e' in
  snd r = Z.min e e' /\ Zpos (fst r) = Zpos m * 2 ^ (e - Z.min e e').
Proof.
  unfold shl_align. destruct (e' - e) as [|d|d] eqn:E; cbn [fst snd].
  - rewrite Z.min_l by lia. rewrite Z.sub_diag. split; lia.
  - rewrite Z.min_l by lia. rewrite Z.sub_diag. split; lia.
  - rewrite Z.min_r by lia. split; [reflexivity|].
    rewrite pos_iter_xO. f_equal. f_equal. lia.
Qed.

(** Rounding of [m * 2^e] for any [e >= -149], after the mantissa has been
    lengthened to the format. *)
Lemma binary_round_spec (s : bool) (m : positive) (e : Z) :
  -149 <= e ->
  binary_round 24 128 s m e = float_of_ulps s (RN (Zpos m * 2 ^ (e + 149)) 1).
Proof.
  intros He. unfold binary_round. rewrite fexp32_eq.
  change (Zpos (digits2_pos m)) with (Zdigits2 (Zpos m)).
  set (e' := fexp32 (Zdigits2 (Zpos m) + e)).
  destruct (shl_align_spec m e e') as [Hs Hf].
  destruct (shl_align m e e') as [mz ez]. cbn [fst snd] in Hs, Hf.
  assert (He' : -149 <= e') by (unfold e', fexp32; lia).
  rewrite binary_round_aux_exact by lia.
  assert (Hdz : Zdigits2 (Zpos mz) + ez = Zdigits2 (Zpos m) + e).
  { rewrite Hf, Zdigits2_mul_pow by lia. lia. }
  rewrite round32_ulps.
  - f_equal.
    rewrite <- (RN_scale (Zpos m * 2 ^ (e + 149)) 1 (2 ^ 149))
      by (try apply pow2_pos; lia).
    rewrite Z.mul_1_l. f_equal. rewrite Hf, <- !Z.mul_assoc, <- !Z.pow_add_r by lia.
    f_equal. f_equal. lia.
  - lia.
  - lia.
  - rewrite Hdz. fold e'. lia.
Qed.

Lemma binary_normalize_spec (z e : Z) :
  -149 <= e ->
  binary_normalize 24 128 z e false
  = float_of_ulps (z <? 0) (RN (Z.abs z * 2 ^ (e + 149)) 1).
Proof.
  intros He. unfold binary_normalize. destruct z as [|p|p].
  - cbn [Z.abs Z.mul]. rewrite RN_0 by lia. reflexivity.
  - apply binary_round_spec. exact He.
  - apply binary_round_spec. exact He.
Qed.

(** [(float)z] is [z], rounded. *)
Lemma f32_of_Z_spec (z : Z) :
  f32_of_Z z = float_of_ulps (z <? 0) (RN (Z.abs z * 2 ^ 149) 1).
Proof. unfold f32_of_Z. apply (binary_normalize_spec z 0). lia. Qed.

Lemma aligned_sum (sx sy : bool) (mx my : positive) (ex ey : Z) (sg : Z) :
  -149 <= ex -> -149 <= ey -> (sg = 1 \/ sg = -1) ->
  let ez := Z.min ex ey in
  (cond_Zopp sx (Zpos (fst (shl_align mx ex ez)))
   + sg * cond_Zopp sy (Zpos (fst (shl_align my ey ez)))) * 2 ^ (ez + 149)
  = ulps (S754_finite sx mx ex) + sg * ulps (S754_finite sy my ey).
Proof.
  intros Hex Hey Hsg ez.
  destruct (shl_align_spec mx ex ez) as [_ Hx].
  destruct (shl_align_spec my ey ez) as [_ Hy].
  rewrite Hx, Hy. cbn [ulps].
  assert (Hmx : Z.min ex ez = ez) by (subst ez; lia).
  assert (Hmy : Z.min ey ez = ez) by (subst ez; lia).
  rewrite Hmx, Hmy.
  assert (Hpx : 2 ^ (ex + 149) = 2 ^ (ex - ez) * 2 ^ (ez + 149))
    by (rewrite <- Z.pow_add_r by (subst ez; lia); f_equal; lia).
  assert (Hpy : 2 ^ (ey + 149) = 2 ^ (ey - ez) * 2 ^ (ez + 149))
    by (rewrite <- Z.pow_add_r by (subst ez; lia); f_equal; lia).
  rewrite Hpx, Hpy.
  destruct sx, sy; cbn [cond_Zopp]; ring.
Qed.

Lemma float_of_ulps_self (x : float) :
  valid32 x = true -> is_finite x = true -> is_zero x = false ->
  float_of_ulps (ulps x <? 0) (RN (Z.abs (ulps x)) 1) = x.
Proof.
  intros V F Z0. destruct (valid_repr x V) as [Hr _].
  rewrite RN_repr_id by exact Hr.
  rewrite <- (float_of_ulps_abs x V F) at 3. f_equal.
  destruct x as [s| | |s m e]; try discriminate F; try discriminate Z0.
  destruct (valid_finite_bounds s m e V) as (He & _).
  pose proof (pow2_pos (e + 149) ltac:(lia)).
  cbn [ulps fsign]. destruct s; cbn [cond_Zopp].
  - apply Z.ltb_lt. lia.
  - apply Z.ltb_ge. lia.
Qed.

(** The sum is the exact sum rounded once (unless both terms are zeros,
    where the sign of the zero follows its own rule). *)
Lemma fadd_spec (x y : float) :
  valid32 x = true -> valid32 y = true ->
  is_finite x = true -> is_finite y = true ->
  is_zero x && is_zero y = false ->
  fadd x y
  = float_of_ulps (ulps x + ulps y <? 0) (RN (Z.abs (ulps x + ulps y)) 1).
Proof.
  intros Vx Vy Fx Fy Hz.
  destruct x as [sx| | |sx mx ex]; try discriminate Fx;
    destruct y as [sy| | |sy my ey]; try discriminate Fy;
    try discriminate Hz.
  - change (ulps (S754_zero sx)) with 0. rewrite Z.add_0_l.
    rewrite float_of_ulps_self by (assumption || reflexivity). reflexivity.
  - change (ulps (S754_zero sy)) with 0. rewrite Z.add_0_r.
    rewrite float_of_ulps_self by (assumption || reflexivity). reflexivity.
  - destruct (valid_finite_bounds sx mx ex Vx) as (Hex & _).
    destruct (valid_finite_bounds sy my ey Vy) as (Hey & _).
    unfold fadd, SFadd.
    rewrite binary_normalize_spec by lia.
    pose proof (aligned_sum sx sy mx my ex ey 1 ltac:(lia) ltac:(lia)
                  ltac:(lia)) as Hs.
    cbv zeta in Hs. rewrite !Z.mul_1_l in Hs.
    pose proof (pow2_pos (Z.min ex ey + 149) ltac:(lia)) as Hp.
    set (z := cond_Zopp sx _ + cond_Zopp sy _) in *.
    rewrite <- Hs. f_equal.
    + destruct (Z.ltb_spec z 0), (Z.ltb_spec (z * 2 ^ (Z.min ex ey + 149)) 0);
        try reflexivity; nia.
    + f_equal. rewrite Z.abs_mul. f_equal. lia.
Qed.

Lemma fsub_spec (x y : float) :
  valid32 x = true -> valid32 y = true ->
  is_finite x = true -> is_finite y = true ->
  is_zero x && is_zero y = false ->
  fsub x y
  = float_of_ulps (ulps x - ulps y <? 0) (RN (Z.abs (ulps x - ulps y)) 1).
Proof.
  intros Vx Vy Fx Fy Hz.
  destruct x as [sx| | |sx mx ex]; try discriminate Fx;
    destruct y as [sy| | |sy my ey]; try discriminate Fy;
    try discriminate Hz.
  - change (ulps (S754_zero sx)) with 0. rewrite Z.sub_0_l.
    assert (Vn : valid32 (S754_finite (negb sy) my ey) = true) by exact Vy.
    replace (- ulps (S754_finite sy my ey)) with (ulps (S754_finite (negb sy) my ey))
      by (cbn [ulps]; destruct sy; cbn [negb cond_Zopp]; lia).
    rewrite (float_of_ulps_self (S754_finite (negb sy) my ey) Vn eq_refl eq_refl).
    reflexivity.
  - change (ulps (S754_zero sy)) with 0. rewrite Z.sub_0_r.
    rewrite float_of_ulps_self by (assumption || reflexivity). reflexivity.
  - destruct (valid_finite_bounds sx mx ex Vx) as (Hex & _).
    destruct (valid_finite_bounds sy my ey Vy) as (Hey & _).
    unfold fsub, SFsub.
    rewrite binary_normalize_spec by lia.
    pose proof (aligned_sum sx sy mx my ex ey (-1) ltac:(lia) ltac:(lia)
                  ltac:(lia)) as Hs.
    cbv zeta in Hs.
    pose proof (pow2_pos (Z.min ex ey + 149) ltac:(lia)) as Hp.
    set (a := cond_Zopp sx _) in *. set (b := cond_Zopp sy _) in *.
    replace (ulps (S754_finite sx mx ex) - ulps (S754_finite sy my ey))
      with ((a - b) * 2 ^ (Z.min ex ey + 149)) by lia.
    f_equal.
    + destruct (Z.ltb_spec (a - b) 0),
        (Z.ltb_spec ((a - b) * 2 ^ (Z.min ex ey + 149)) 0);
        try reflexivity; nia.
    + f_equal. rewrite Z.abs_mul. f_equal. lia.
Qed.

(** ** Order *)

Lemma magnitude_compare (s1 s2 : bool) (m1 m2 : positive) (e1 e2 : Z) :
  valid32 (S754_finite s1 m1 e1) = true ->
  valid32 (S754_finite s2 m2 e2) = true ->
  match e1 ?= e2 with
  | Lt => Lt
  | Gt => Gt
  | Eq => Pos.compare_cont Eq m1 m2
  end
  = (Zpos m1 * 2 ^ (e1 + 149) ?= Zpos m2 * 2 ^ (e2 + 149)).
Proof.
  intros V1 V2.
  destruct (valid_finite_bounds s1 m1 e1 V1) as (He1 & Hd1 & Hn1 & Hm1).
  destruct (valid_finite_bounds s2 m2 e2 V2) as (He2 & Hd2 & Hn2 & Hm2).
  assert (Hlt : forall ma mb ea eb,
             -149 <= ea -> ea < eb -> Zpos ma < 2 ^ 24 ->
             Zdigits2 (Zpos mb) = 24 ->
             Zpos ma * 2 ^ (ea + 149) < Zpos mb * 2 ^ (eb + 149)).
  { intros ma mb ea eb Hea Hab Hma Hdb.
    destruct (Zdigits2_bounds (Zpos mb) ltac:(lia)) as [Hlo _].
    rewrite Hdb in Hlo. change (2 ^ (24 - 1)) with (2 ^ 23) in Hlo.
    replace (eb + 149) with ((eb - ea - 1) + (1 + (ea + 149))) by lia.
    rewrite (Z.pow_add_r 2 (eb - ea - 1) (1 + (ea + 149))) by lia.
    rewrite (Z.pow_add_r 2 1 (ea + 149)) by lia. change (2 ^ 1) with 2.
    pose proof (pow2_pos (eb - ea - 1) ltac:(lia)) as HA.
    pose proof (pow2_pos (ea + 149) ltac:(lia)) as HB.
    set (A := 2 ^ (eb - ea - 1)) in *. set (B := 2 ^ (ea + 149)) in *.
    change (2 ^ 24) with 16777216 in Hma. change (2 ^ 23) with 8388608 in Hlo.
    assert (Zpos ma * B < 16777216 * B) by (apply Z.mul_lt_mono_pos_r; lia).
    assert (16777216 * B <= 2 * Zpos mb * B)
      by (apply Z.mul_le_mono_nonneg_r; lia).
    assert (2 * Zpos mb * B * 1 <= 2 * Zpos mb * B * A)
      by (apply Z.mul_le_mono_nonneg_l; lia).
    lia. }
  destruct (Z.compare_spec e1 e2) as [E|E|E]; symmetry.
  - subst e2. rewrite <- Zmult_compare_compat_r
      by (pose proof (pow2_pos (e1 + 149) ltac:(lia)); lia).
    reflexivity.
  - apply Z.compare_lt_iff. apply Hlt; lia.
  - apply Z.compare_gt_iff. apply Hlt; lia.
Qed.

Lemma SFcompare_ulps (x y : float) :
  valid32 x = true -> valid32 y = true ->
  is_finite x = true -> is_finite y = true ->
  SFcompare x y = Some (ulps x ?= ulps y).
Proof.
  intros Vx Vy Fx Fy.
  destruct x as [sx| | |sx mx ex]; try discriminate Fx;
    destruct y as [sy| | |sy my ey]; try discriminate Fy.
  - reflexivity.
  - destruct (valid_finite_bounds sy my ey Vy) as (He & _).
    pose proof (pow2_pos (ey + 149) ltac:(lia)).
    cbn [SFcompare ulps]. f_equal. symmetry.
    destruct sy; cbn [cond_Zopp];
      [apply Z.compare_gt_iff | apply Z.compare_lt_iff]; lia.
  - destruct (valid_finite_bounds sx mx ex Vx) as (He & _).
    pose proof (pow2_pos (ex + 149) ltac:(lia)).
    cbn [SFcompare ulps]. f_equal. symmetry.
    destruct sx; cbn [cond_Zopp];
      [apply Z.compare_lt_iff | apply Z.compare_gt_iff]; lia.
  - destruct (valid_finite_bounds sx mx ex Vx) as (Hex & _).
    destruct (valid_finite_bounds sy my ey Vy) as (Hey & _).
    pose proof (pow2_pos (ex + 149) ltac:(lia)).
    pose proof (pow2_pos (ey + 149) ltac:(lia)).
    pose proof (magnitude_compare sx sy mx my ex ey Vx Vy) as Hc.
    cbn [SFcompare ulps]. f_equal.
    destruct sx, sy; cbn [cond_Zopp].
    + rewrite Z.compare_opp, (Z.compare_antisym (Zpos mx * 2 ^ (ex + 149))), <- Hc.
      destruct (ex ?= ey); reflexivity.
    + symmetry. apply Z.compare_lt_iff. lia.
    + symmetry. apply Z.compare_gt_iff. lia.
    + exact Hc.
Qed.

Lemma flt_ulps (x y : float) :
  valid32 x = true -> valid32 y = true ->
  is_finite x = true -> is_finite y = true ->
  flt x y = (ulps x <? ulps y).
Proof.
  intros Vx Vy Fx Fy. unfold flt, SFltb.
  rewrite (SFcompare_ulps x y Vx Vy Fx Fy). unfold Z.ltb.
  destruct (ulps x ?= ulps y); reflexivity.
Qed.

(** ** Conversion to an integer *)

Lemma ftrunc_ulps (x : float) :
  valid32 x = true -> ftrunc x = Z.quot (ulps x) (2 ^ 149).
Proof.
  intros V. destruct x as [s| | |s m e]; try reflexivity.
  destruct (valid_finite_bounds s m e V) as (He & _).
  pose proof (pow2_pos (e + 149) ltac:(lia)) as Hp.
  assert (HD : 0 < 2 ^ 149) by (apply pow2_pos; lia).
  cbn [ftrunc ulps].
  assert (Hq : Zpos m * 2 ^ (e + 149) / 2 ^ 149
               = if 0 <=? e then Zpos m * 2 ^ e else Zpos m / 2 ^ (- e)).
  { destruct (Z.leb_spec 0 e) as [H0|H0].
    - rewrite Z.pow_add_r, Z.mul_assoc, Z.div_mul by lia. reflexivity.
    - rewrite (pow2_split 149 (e + 149)) by lia.
      rewrite Z.div_mul_cancel_r
        by (pose proof (pow2_pos (149 - (e + 149)) ltac:(lia)); lia).
      f_equal. f_equal. lia. }
  rewrite <- Hq.
  destruct s; cbn [cond_Zopp].
  - rewrite Z.quot_opp_l by lia. rewrite Z.quot_div_nonneg by lia. reflexivity.
  - rewrite Z.quot_div_nonneg by lia. reflexivity.
Qed.

Lemma wrap_signed_16_small (z : Z) : -32768 <= z <= 32767 -> wrap_signed 16 z = z.
Proof.
  intros H. unfold wrap_signed. change (2 ^ (16 - 1)) with 32768.
  change (2 ^ 16) with 65536. rewrite Z.mod_small by lia. lia.
Qed.

Lemma wrap_signed_16_range (z : Z) : -32768 <= wrap_signed 16 z <= 32767.
Proof.
  unfold wrap_signed. change (2 ^ (16 - 1)) with 32768.
  change (2 ^ 16) with 65536.
  pose proof (Z.mod_pos_bound (z + 32768) 65536 ltac:(lia)). lia.
Qed.

(** ** The clamp and the conversion of [v2_process_block] *)

Lemma ulps_one : ulps f_one = 2 ^ 149.
Proof. reflexivity. Qed.

Lemma ulps_minus_one : ulps (f32_of_Z (-1)) = - 2 ^ 149.
Proof. reflexivity. Qed.

Lemma ulps_32767 : ulps (f32_of_Z 32767) = 32767 * 2 ^ 149.
Proof. reflexivity. Qed.

(** The clamp of a well-formed value that is not a NaN is a finite value
    between -1 and 1. *)
Lemma clampf_unit (m : float) :
  valid32 m = true -> is_nan m = false ->
  let c := clampf m (f32_of_Z (-1)) f_one in
  valid32 c = true /\ is_finite c = true /\
  - 2 ^ 149 <= ulps c <= 2 ^ 149.
Proof.
  intros V Hn. unfold clampf.
  assert (Vlo : valid32 (f32_of_Z (-1)) = true) by reflexivity.
  assert (Vhi : valid32 f_one = true) by reflexivity.
  assert (HP : 0 < 2 ^ 149) by (apply pow2_pos; lia).
  destruct m as [s|s| |s mm e]; try discriminate Hn.
  - assert (E1 : flt (S754_zero s) (f32_of_Z (-1)) = false) by reflexivity.
    assert (E2 : flt f_one (S754_zero s) = false) by reflexivity.
    rewrite E1, E2. cbv zeta. cbn [ulps]. repeat split; try reflexivity; lia.
  - destruct s.
    + assert (E1 : flt (S754_infinity true) (f32_of_Z (-1)) = true) by reflexivity.
      rewrite E1. cbv zeta. rewrite ulps_minus_one.
      repeat split; try reflexivity; lia.
    + assert (E1 : flt (S754_infinity false) (f32_of_Z (-1)) = false) by reflexivity.
      assert (E2 : flt f_one (S754_infinity false) = true) by reflexivity.
      rewrite E1, E2. cbv zeta. rewrite ulps_one.
      repeat split; try reflexivity; lia.
  - rewrite (flt_ulps _ _ V Vlo eq_refl eq_refl).
    rewrite (flt_ulps _ _ Vhi V eq_refl eq_refl).
    rewrite ulps_one, ulps_minus_one.
    destruct (Z.ltb_spec (ulps (S754_finite s mm e)) (- 2 ^ 149)) as [H1|H1].
    { cbv zeta. repeat split; try reflexivity; rewrite ?ulps_minus_one; lia. }
    destruct (Z.ltb_spec (2 ^ 149) (ulps (S754_finite s mm e))) as [H2|H2].
    { cbv zeta. repeat split; try reflexivity; rewrite ?ulps_one; lia. }
    cbv zeta. repeat split; try assumption.
Qed.

(** Scaling by 32767 keeps a value of [[-1, 1]] within 32767, and its
    integer part is what the conversion to [int16_t] stores. *)
Lemma scale_convert (c : float) :
  valid32 c = true -> is_finite c = true ->
  - 2 ^ 149 <= ulps c <= 2 ^ 149 ->
  let p := fmul c (f32_of_Z 32767) in
  is_finite p = true /\
  int16_of_float p = ftrunc p /\
  -32767 <= ftrunc p <= 32767.
Proof.
  intros V F Hc p.
  assert (V2 : valid32 (f32_of_Z 32767) = true) by reflexivity.
  assert (HP : 0 < 2 ^ 149) by (apply pow2_pos; lia).
  assert (Hp : p = float_of_ulps (xorb (fsign c) (fsign (f32_of_Z 32767)))
                     (RN (Z.abs (ulps c) * Z.abs (ulps (f32_of_Z 32767))) (2 ^ 149)))
    by (apply fmul_spec; auto).
  rewrite ulps_32767 in Hp.
  set (N := Z.abs (ulps c) * Z.abs (32767 * 2 ^ 149)) in Hp.
  assert (HN : 0 <= N) by (subst N; lia).
  assert (HA : repr (32767 * 2 ^ 149)) by (apply repr_mul_pow; lia).
  assert (Hle : RN N (2 ^ 149) <= 32767 * 2 ^ 149).
  { apply RN_le_repr; try assumption. subst N. nia. }
  pose proof (RN_nonneg N (2 ^ 149) HN HP) as H0.
  pose proof (RN_repr N (2 ^ 149) HN HP) as Hr.
  assert (Hlt : RN N (2 ^ 149) < 2 ^ 277).
  { assert (32767 * 2 ^ 149 < 2 ^ 277);
      [|lia]. change (2 ^ 277) with (2 ^ 128 * 2 ^ 149).
    assert (32767 < 2 ^ 128) by reflexivity. nia. }
  destruct (float_of_ulps_finite (xorb (fsign c) (fsign (f32_of_Z 32767)))
              _ Hr Hlt) as (Fp & Up & _).
  rewrite <- Hp in Fp, Up.
  assert (Vp : valid32 p = true) by (rewrite Hp; apply float_of_ulps_valid; lia).
  assert (Habs : Z.abs (ulps p) <= 32767 * 2 ^ 149).
  { rewrite Up. destruct (xorb _ _); cbn [cond_Zopp]; lia. }
  assert (Ht : -32767 <= ftrunc p <= 32767).
  { rewrite (ftrunc_ulps p Vp).
    destruct (Z.le_gt_cases 0 (ulps p)) as [Hpos|Hneg].
    - rewrite Z.quot_div_nonneg by lia. split.
      + pose proof (Z.div_pos (ulps p) (2 ^ 149) Hpos HP). lia.
      + apply Z.div_le_upper_bound; lia.
    - replace (ulps p) with (- (- ulps p)) by lia.
      rewrite Z.quot_opp_l by lia. rewrite Z.quot_div_nonneg by lia.
      assert (0 <= - ulps p / 2 ^ 149) by (apply Z.div_pos; lia).
      assert (- ulps p / 2 ^ 149 <= 32767)
        by (apply Z.div_le_upper_bound; lia).
      lia. }
  split; [exact Fp|]. split; [|exact Ht].
  unfold int16_of_float, int_of_float.
  destruct p as [s| | |s mp ep]; try discriminate Fp.
  - reflexivity.
  - unfold INT_MIN, INT_MAX.
    assert (- 2 ^ 31 = -2147483648) by reflexivity.
    assert (2 ^ 31 - 1 = 2147483647) by reflexivity.
    rewrite Z.min_r by lia. rewrite Z.max_r by lia.
    apply wrap_signed_16_small. lia.
Qed.

(** What [mix_sample] stores: always a 16-bit sample; and when the mixed
    value is a well-formed float, either the mixed value is a NaN and 0 is
    stored, or the clamped value lies in [[-1, 1]] and its product by 32767,
    truncated, is stored as it is, within -32767 and 32767. *)
Lemma mix_sample_bounds (out car wet dry : float) :
  let mixed := fadd (fmul out wet) (fmul car dry) in
  let c := clampf mixed (f32_of_Z (-1)) f_one in
  -32768 <= mix_sample out car wet dry <= 32767 /\
  (valid32 mixed = true ->
   -32767 <= mix_sample out car wet dry <= 32767 /\
   (is_nan mixed = true /\ mix_sample out car wet dry = 0 \/
    is_nan mixed = false /\ is_finite c = true /\
    - 2 ^ 149 <= ulps c <= 2 ^ 149 /\
    mix_sample out car wet dry = ftrunc (fmul c (f32_of_Z 32767)))).
Proof.
  intros mixed c. split.
  - apply wrap_signed_16_range.
  - intros V. unfold mix_sample. fold mixed. fold c.
    destruct (is_nan mixed) eqn:En.
    + assert (Hc : c = S754_nan).
      { subst c. destruct mixed; try discriminate En. reflexivity. }
      rewrite Hc.
      change (int16_of_float (fmul S754_nan (f32_of_Z 32767))) with 0.
      split; [lia|]. left. split; reflexivity.
    + destruct (clampf_unit mixed V En) as (Vc & Fc & Hc). fold c in Vc, Fc, Hc.
      destruct (scale_convert c Vc Fc Hc) as (Fp & Ep & Hp).
      rewrite Ep. split; [exact Hp|]. right. repeat split; try assumption; lia.
Qed.

(** ** Results of the operations on finite values *)

Lemma finite32_split (x : float) :
  finite32 x = true <-> valid32 x = true /\ is_finite x = true.
Proof. unfold finite32. apply andb_true_iff. Qed.

Lemma float_of_ulps_RN (s : bool) (N D : Z) :
  0 <= N -> 0 < D -> RN N D < 2 ^ 277 ->
  finite32 (float_of_ulps s (RN N D)) = true /\
  ulps (float_of_ulps s (RN N D)) = cond_Zopp s (RN N D).
Proof.
  intros HN HD Hlt.
  pose proof (RN_nonneg N D HN HD) as H0.
  destruct (float_of_ulps_finite s (RN N D) (RN_repr N D HN HD) Hlt) as (F & U & _).
  split; [|exact U]. apply finite32_split. split; [|exact F].
  apply float_of_ulps_valid. exact H0.
Qed.

Lemma fmul_ulps (x y : float) :
  finite32 x = true -> finite32 y = true ->
  RN (Z.abs (ulps x) * Z.abs (ulps y)) (2 ^ 149) < 2 ^ 277 ->
  finite32 (fmul x y) = true /\
  Z.abs (ulps (fmul x y)) = RN (Z.abs (ulps x) * Z.abs (ulps y)) (2 ^ 149) /\
  (0 <= ulps x -> 0 <= ulps y -> 0 <= ulps (fmul x y)) /\
  (0 <= ulps x -> ulps y <= 0 -> ulps (fmul x y) <= 0).
Proof.
  intros Hx Hy Hlt.
  apply finite32_split in Hx, Hy. destruct Hx as [Vx Fx], Hy as [Vy Fy].
  assert (HD : 0 < 2 ^ 149) by (apply pow2_pos; lia).
  rewrite (fmul_spec x y Vx Vy Fx Fy).
  set (N := Z.abs (ulps x) * Z.abs (ulps y)) in *.
  assert (HN : 0 <= N) by (subst N; lia).
  pose proof (RN_nonneg N _ HN HD) as H0.
  destruct (float_of_ulps_RN (xorb (fsign x) (fsign y)) N _ HN HD Hlt) as [F U].
  split; [exact F|]. rewrite U.
  assert (Hz : N = 0 -> RN N (2 ^ 149) = 0) by (intros ->; apply RN_0; lia).
  assert (Sx : 0 < ulps x -> fsign x = false).
  { destruct x as [?| | |[|] ? ?]; cbn; intros; try reflexivity; try lia. }
  assert (Sy : 0 < ulps y -> fsign y = false).
  { destruct y as [?| | |[|] ? ?]; cbn; intros; try reflexivity; try lia. }
  assert (Sy' : ulps y < 0 -> fsign y = true).
  { destruct y as [?| | |[|] ? ?]; cbn; intros; try reflexivity; try lia. }
  split; [destruct (xorb _ _); cbn [cond_Zopp]; lia|]. split.
  - intros Px Py.
    destruct (Z.eq_dec (ulps x) 0) as [Ex|Ex];
      [rewrite Hz by (subst N; rewrite Ex; reflexivity);
       destruct (xorb _ _); reflexivity|].
    destruct (Z.eq_dec (ulps y) 0) as [Ey|Ey];
      [rewrite Hz by (subst N; rewrite Ey; lia);
       destruct (xorb _ _); reflexivity|].
    rewrite Sx, Sy by lia. cbn. exact H0.
  - intros Px Py.
    destruct (Z.eq_dec (ulps x) 0) as [Ex|Ex];
      [rewrite Hz by (subst N; rewrite Ex; reflexivity);
       destruct (xorb _ _); cbn; lia|].
    destruct (Z.eq_dec (ulps y) 0) as [Ey|Ey];
      [rewrite Hz by (subst N; rewrite Ey; lia);
       destruct (xorb _ _); cbn; lia|].
    rewrite Sx, Sy' by lia. cbn. lia.
Qed.

Lemma zero_ulps (x : float) : is_zero x = true -> ulps x = 0.
Proof. destruct x; try discriminate; reflexivity. Qed.

Lemma fadd_ulps (x y : float) :
  finite32 x = true -> finite32 y = true ->
  RN (Z.abs (ulps x + ulps y)) 1 < 2 ^ 277 ->
  finite32 (fadd x y) = true /\
  ulps (fadd x y)
  = (if ulps x + ulps y <? 0 then - RN (Z.abs (ulps x + ulps y)) 1
     else RN (Z.abs (ulps x + ulps y)) 1).
Proof.
  intros Hx Hy Hlt.
  apply finite32_split in Hx, Hy. destruct Hx as [Vx Fx], Hy as [Vy Fy].
  destruct (is_zero x && is_zero y) eqn:Ez.
  - apply andb_prop in Ez. destruct Ez as [Zx Zy].
    rewrite (zero_ulps x Zx), (zero_ulps y Zy). cbn [Z.add Z.abs Z.ltb Z.compare].
    rewrite RN_0 by lia.
    destruct x as [[|]| | |]; try discriminate Zx;
      destruct y as [[|]| | |]; try discriminate Zy; split; reflexivity.
  - rewrite (fadd_spec x y Vx Vy Fx Fy Ez).
    destruct (float_of_ulps_RN (ulps x + ulps y <? 0) (Z.abs (ulps x + ulps y)) 1
                ltac:(lia) ltac:(lia) Hlt) as [F U].
    split; [exact F|]. rewrite U.
    destruct (ulps x + ulps y <? 0); reflexivity.
Qed.

Lemma fsub_ulps (x y : float) :
  finite32 x = true -> finite32 y = true ->
  RN (Z.abs (ulps x - ulps y)) 1 < 2 ^ 277 ->
  finite32 (fsub x y) = true /\
  ulps (fsub x y)
  = (if ulps x - ulps y <? 0 then - RN (Z.abs (ulps x - ulps y)) 1
     else RN (Z.abs (ulps x - ulps y)) 1).
Proof.
  intros Hx Hy Hlt.
  apply finite32_split in Hx, Hy. destruct Hx as [Vx Fx], Hy as [Vy Fy].
  destruct (is_zero x && is_zero y) eqn:Ez.
  - apply andb_prop in Ez. destruct Ez as [Zx Zy].
    rewrite (zero_ulps x Zx), (zero_ulps y Zy). cbn [Z.sub Z.add Z.opp Z.abs Z.ltb Z.compare].
    rewrite RN_0 by lia.
    destruct x as [[|]| | |]; try discriminate Zx;
      destruct y as [[|]| | |]; try discriminate Zy; split; reflexivity.
  - rewrite (fsub_spec x y Vx Vy Fx Fy Ez).
    destruct (float_of_ulps_RN (ulps x - ulps y <? 0) (Z.abs (ulps x - ulps y)) 1
                ltac:(lia) ltac:(lia) Hlt) as [F U].
    split; [exact F|]. rewrite U.
    destruct (ulps x - ulps y <? 0); reflexivity.
Qed.

Lemma fabsf_ulps (x : float) :
  finite32 x = true ->
  finite32 (fabsf x) = true /\ ulps (fabsf x) = Z.abs (ulps x).
Proof.
  intros Hx. apply finite32_split in Hx. destruct Hx as [Vx Fx].
  destruct x as [s| | |s m e]; try discriminate Fx.
  - split; reflexivity.
  - destruct (valid_finite_bounds s m e Vx) as (He & _).
    split; [exact (proj2 (finite32_split (S754_finite false m e)) (conj Vx Fx))|].
    rewrite abs_ulps_finite by lia. reflexivity.
Qed.

Lemma finite_ulps_bound (x : float) :
  finite32 x = true -> repr (Z.abs (ulps x)) /\ Z.abs (ulps x) < 2 ^ 277.
Proof. intros H. apply finite32_split in H. apply valid_repr, H. Qed.

(** The largest binary32 value below 1 is [1 - 2^-24]. *)
Lemma below_one (c : float) :
  finite32 c = true -> 0 <= ulps c < 2 ^ 149 -> ulps c <= 2 ^ 149 - 2 ^ 125.
Proof.
  intros H Hc. apply finite32_split in H. destruct H as [V F].
  destruct c as [s| | |s m e]; try discriminate F.
  - cbn [ulps]. assert (2 ^ 125 < 2 ^ 149) by reflexivity. lia.
  - destruct (valid_finite_bounds s m e V) as (He & Hd & Hn & Hm).
    pose proof (pow2_pos (e + 149) ltac:(lia)) as Hp.
    destruct s; cbn [ulps cond_Zopp] in *; [lia|].
    destruct (Z.le_gt_cases (-24) e) as [Hge|Hlt].
    + replace (e + 149) with ((e + 24) + 125) in * by lia.
      rewrite Z.pow_add_r in * by lia.
      change (2 ^ 149) with (2 ^ 24 * 2 ^ 125) in *.
      assert (HP : 0 < 2 ^ 125) by reflexivity.
      assert (Zpos m * 2 ^ (e + 24) < 2 ^ 24) by nia.
      nia.
    + assert (2 ^ (e + 149) <= 2 ^ 124) by (apply Z.pow_le_mono_r; lia).
      change (2 ^ 149 - 2 ^ 125) with (2 ^ 24 * 2 ^ 124 + (2 ^ 148 - 2 ^ 125)).
      assert (0 < 2 ^ 148 - 2 ^ 125) by reflexivity.
      nia.
Qed.

(** A value below the middle of the representable [F = f * 2^g] and its
    successor rounds to [F] at most. *)
Lemma RN_below_half (N D f g : Z) :
  0 <= N -> 0 < D -> 0 <= g -> 2 ^ 23 <= f < 2 ^ 24 ->
  2 * N < (2 * f + 1) * 2 ^ g * D ->
  RN N D <= f * 2 ^ g.
Proof.
  intros HN HD Hg Hf Hlt.
  pose proof (pow2_pos g Hg) as HG.
  assert (H23 : 0 < 2 ^ 23) by reflexivity.
  assert (HF : repr (f * 2 ^ g)) by (apply repr_mul_pow; lia).
  destruct (Z.le_gt_cases N (f * 2 ^ g * D)) as [Hle|Hgt].
  { apply RN_le_repr; assumption. }
  unfold RN.
  assert (Hq : f * 2 ^ g <= N / D) by (apply Z.div_le_lower_bound; nia).
  assert (Hq' : N / D < (f + 1) * 2 ^ g).
  { apply Z.div_lt_upper_bound; [lia|]. nia. }
  assert (Hb : Zdigits2 (N / D) = 24 + g).
  { apply Zdigits2_unique; [|nia].
    replace (24 + g - 1) with (23 + g) by lia.
    rewrite !Z.pow_add_r by lia. nia. }
  rewrite Hb. rewrite Z.max_r by lia.
  replace (24 + g - 24) with g by lia.
  assert (round_half_even N (D * 2 ^ g) <= f).
  { apply round_half_even_below_half; nia. }
  nia.
Qed.

(** When rounding moved a magnitude up, it moved it from below the next
    multiple of the grid to that multiple. *)
Lemma RN_up_shape (R : Z) :
  0 <= R -> R < RN R 1 ->
  exists f g, 0 <= g /\ 2 ^ 23 <= f < 2 ^ 24 /\
              f * 2 ^ g <= R /\ RN R 1 = (f + 1) * 2 ^ g.
Proof.
  intros HR Hup. unfold RN in *. rewrite Z.div_1_r, Z.mul_1_l in *.
  destruct (Z.le_gt_cases (Zdigits2 R) 24) as [Hb|Hb].
  - rewrite Z.max_l in Hup by lia. change (2 ^ 0) with 1 in Hup.
    rewrite Z.mul_1_l in Hup.
    rewrite round_half_even_exact in Hup by (try apply Z.mod_1_r; lia).
    rewrite Z.div_1_r in Hup. lia.
  - rewrite Z.max_r in * by lia.
    set (g := Zdigits2 R - 24) in *.
    pose proof (pow2_pos g ltac:(lia)) as HG.
    assert (HRp : 0 < R) by (destruct R; cbn in Hb; lia).
    destruct (Zdigits2_bounds R HRp) as [Hlo Hhi].
    replace (Zdigits2 R - 1) with (23 + g) in Hlo by lia.
    replace (Zdigits2 R) with (24 + g) in Hhi by lia.
    rewrite Z.pow_add_r in Hlo, Hhi by lia.
    pose proof (Z.div_mod R (2 ^ g) ltac:(lia)) as Hdm.
    pose proof (Z.mod_pos_bound R (2 ^ g) HG) as Hr.
    pose proof (round_half_even_bounds R (2 ^ g) HG) as Hb2.
    exists (R / 2 ^ g), g.
    assert (2 ^ 23 <= R / 2 ^ g) by (apply Z.div_le_lower_bound; lia).
    assert (R / 2 ^ g < 2 ^ 24) by (apply Z.div_lt_upper_bound; lia).
    repeat split; try lia.
    assert (round_half_even R (2 ^ g) = R / 2 ^ g + 1) by nia.
    nia.
Qed.

(** ** The envelope follower *)

Lemma unit_coeff_ulps (c : float) :
  unit_coeff c = true -> finite32 c = true /\ 0 < ulps c <= 2 ^ 149 - 2 ^ 125.
Proof.
  unfold unit_coeff. rewrite !andb_true_iff. intros [[Hf H0] H1].
  pose proof (proj1 (finite32_split c) Hf) as [V F].
  rewrite (flt_ulps f_zero c eq_refl V eq_refl F) in H0.
  rewrite (flt_ulps c f_one V eq_refl F eq_refl) in H1.
  change (ulps f_zero) with 0 in H0. rewrite ulps_one in H1.
  apply Z.ltb_lt in H0, H1.
  split; [exact Hf|]. split; [exact H0|]. apply below_one; [exact Hf|lia].
Qed.

(** A coefficient below 1 shrinks a difference enough that adding it back
    does not pass the target. *)
Lemma shrunk_difference (C R : Z) :
  0 < C <= 2 ^ 149 - 2 ^ 125 -> 0 <= R ->
  RN (C * RN R 1) (2 ^ 149) <= R.
Proof.
  intros HC HR.
  assert (HD : 0 < 2 ^ 149) by (apply pow2_pos; lia).
  pose proof (RN_nonneg R 1 HR ltac:(lia)) as H0.
  pose proof (RN_repr R 1 HR ltac:(lia)) as Hr.
  assert (Hle : RN (C * RN R 1) (2 ^ 149) <= RN R 1).
  { assert (C <= 2 ^ 149) by (assert (0 < 2 ^ 125) by reflexivity; lia).
    apply RN_le_repr; try assumption; nia. }
  destruct (Z.le_gt_cases (RN R 1) R) as [Hdown|Hup]; [lia|].
  destruct (RN_up_shape R HR Hup) as (f & g & Hg & Hf & HfR & Heq).
  rewrite Heq.
  transitivity (f * 2 ^ g); [|exact HfR].
  pose proof (pow2_pos g Hg) as HG.
  apply RN_below_half; try assumption; nia.
Qed.

Lemma env_follow_step (e : env_state_t) (x att rel : float) :
  finite32 (level e) = true -> 0 <= ulps (level e) ->
  finite32 x = true ->
  unit_coeff att = true -> unit_coeff rel = true ->
  let r := env_follow e x att rel in
  snd r = level (fst r) /\
  finite32 (level (fst r)) = true /\
  0 <= ulps (level (fst r)) <= Z.max (ulps (level e)) (Z.abs (ulps x)).
Proof.
  intros Hl HL Hx Ha Hr.
  destruct (unit_coeff_ulps att Ha) as [Fa Ca].
  destruct (unit_coeff_ulps rel Hr) as [Fr Cr].
  destruct (fabsf_ulps x Hx) as [Frect Urect].
  destruct (finite_ulps_bound (level e) Hl) as [ReprL BoundL].
  destruct (finite_ulps_bound (fabsf x) Frect) as [ReprR BoundR].
  rewrite Urect in ReprR, BoundR.
  pose proof (proj1 (finite32_split _) Hl) as [Vl Fl].
  pose proof (proj1 (finite32_split _) Frect) as [Vrect Frect'].
  assert (HD : 0 < 2 ^ 149) by (apply pow2_pos; lia).
  assert (H125 : 0 < 2 ^ 125) by reflexivity.
  unfold env_follow. cbn [fst snd level].
  split; [reflexivity|].
  rewrite (flt_ulps (level e) (fabsf x) Vl Vrect Fl Frect').
  remember (fabsf x) as rect eqn:Erect.
  remember (ulps (level e)) as L eqn:EL.
  remember (Z.abs (ulps x)) as R eqn:ER.
  rewrite Z.abs_eq in ReprL, BoundL by lia.
  assert (HR : 0 <= R) by lia.
  rewrite Z.abs_eq in ReprR, BoundR by lia.
  rewrite Urect.
  destruct (Z.ltb_spec L R) as [Hlt|Hge].
  - (* rising: the attack coefficient *)
    remember (ulps att) as C eqn:EC.
    assert (HDd : RN (R - L) 1 <= R)
      by (apply RN_le_repr; try assumption; lia).
    pose proof (RN_nonneg (R - L) 1 ltac:(lia) ltac:(lia)) as HDd0.
    assert (Pre1 : RN (Z.abs (ulps rect - ulps (level e))) 1 < 2 ^ 277).
    { rewrite Urect, <- EL, Z.abs_eq by lia. lia. }
    destruct (fsub_ulps rect (level e) Frect Hl Pre1) as [Fd Ud].
    rewrite Urect, <- EL, Z.abs_eq in Ud by lia.
    destruct (Z.ltb_spec (R - L) 0) as [Hneg|_] in Ud; [lia|].
    remember (fsub rect (level e)) as d eqn:Ed.
    pose proof (shrunk_difference C (R - L) Ca ltac:(lia)) as HP.
    pose proof (RN_nonneg (C * RN (R - L) 1) _ ltac:(nia) HD) as HP0.
    assert (Pre2 : RN (Z.abs (ulps att) * Z.abs (ulps d)) (2 ^ 149) < 2 ^ 277).
    { rewrite Ud, <- EC, !Z.abs_eq by lia. lia. }
    destruct (fmul_ulps att d Fa Fd Pre2) as (Fp & Up & Spos & _).
    rewrite Ud, <- EC in Up, Spos.
    rewrite (Z.abs_eq C), (Z.abs_eq (RN (R - L) 1)) in Up by lia.
    specialize (Spos ltac:(lia) ltac:(lia)).
    rewrite Z.abs_eq in Up by exact Spos.
    remember (fmul att d) as p eqn:Ep.
    assert (HS : RN (L + RN (C * RN (R - L) 1) (2 ^ 149)) 1 <= R)
      by (apply RN_le_repr; try assumption; lia).
    assert (Pre3 : RN (Z.abs (ulps (level e) + ulps p)) 1 < 2 ^ 277).
    { rewrite Up, <- EL, Z.abs_eq by lia. lia. }
    destruct (fadd_ulps (level e) p Hl Fp Pre3) as [Fn Un].
    rewrite Up, <- EL, Z.abs_eq in Un by lia.
    destruct (Z.ltb_spec (L + RN (C * RN (R - L) 1) (2 ^ 149)) 0) as [Hneg|_] in Un;
      [lia|].
    split; [exact Fn|]. rewrite Un.
    pose proof (RN_nonneg (L + RN (C * RN (R - L) 1) (2 ^ 149)) 1
                  ltac:(lia) ltac:(lia)).
    lia.
  - (* falling: the release coefficient *)
    remember (ulps rel) as C eqn:EC.
    assert (HDd : RN (L - R) 1 <= L)
      by (apply RN_le_repr; try assumption; lia).
    pose proof (RN_nonneg (L - R) 1 ltac:(lia) ltac:(lia)) as HDd0.
    assert (Habs : Z.abs (R - L) = L - R) by lia.
    assert (Pre1 : RN (Z.abs (ulps rect - ulps (level e))) 1 < 2 ^ 277).
    { rewrite Urect, <- EL, Habs. lia. }
    destruct (fsub_ulps rect (level e) Frect Hl Pre1) as [Fd Ud].
    rewrite Urect, <- EL, Habs in Ud.
    remember (fsub rect (level e)) as d eqn:Ed.
    assert (Ud' : ulps d = - RN (L - R) 1).
    { rewrite Ud. destruct (Z.ltb_spec (R - L) 0) as [Hneg|Hz]; [reflexivity|].
      replace (L - R) with 0 by lia. rewrite RN_0 by lia. reflexivity. }
    clear Ud.
    assert (HC : C <= 2 ^ 149) by lia.
    assert (HP : RN (C * RN (L - R) 1) (2 ^ 149) <= RN (L - R) 1).
    { apply RN_le_repr; try assumption; try nia.
      apply RN_repr; lia. }
    pose proof (RN_nonneg (C * RN (L - R) 1) _ ltac:(nia) HD) as HP0.
    assert (Pre2 : RN (Z.abs (ulps rel) * Z.abs (ulps d)) (2 ^ 149) < 2 ^ 277).
    { rewrite Ud', <- EC, Z.abs_opp, !Z.abs_eq by lia. lia. }
    destruct (fmul_ulps rel d Fr Fd Pre2) as (Fp & Up & _ & Sneg).
    rewrite Ud', <- EC in Up, Sneg.
    rewrite Z.abs_opp, (Z.abs_eq C), (Z.abs_eq (RN (L - R) 1)) in Up by lia.
    specialize (Sneg ltac:(lia) ltac:(lia)).
    rewrite Z.abs_neq in Up by exact Sneg.
    remember (fmul rel d) as p eqn:Ep.
    remember (RN (C * RN (L - R) 1) (2 ^ 149)) as P eqn:EP.
    assert (Up' : ulps p = - P) by lia.
    assert (Hs : Z.abs (L + - P) = L - P) by lia.
    assert (HS : RN (L - P) 1 <= L)
      by (apply RN_le_repr; try assumption; lia).
    assert (Pre3 : RN (Z.abs (ulps (level e) + ulps p)) 1 < 2 ^ 277).
    { rewrite Up', <- EL, Hs. lia. }
    destruct (fadd_ulps (level e) p Hl Fp Pre3) as [Fn Un].
    rewrite Up', <- EL, Hs in Un.
    destruct (Z.ltb_spec (L + - P) 0) as [Hneg|_] in Un; [lia|].
    split; [exact Fn|]. rewrite Un.
    pose proof (RN_nonneg (L - P) 1 ltac:(lia) ltac:(lia)). lia.
Qed.

Lemma env_run_bounds (att rel : float) (xs : list float) :
  unit_coeff att = true -> unit_coeff rel = true ->
  forall (e : env_state_t) (B : Z),
    finite32 (level e) = true -> 0 <= ulps (level e) <= B ->
    forallb finite32 xs = true ->
    let l := level (env_run e xs att rel) in
    finite32 l = true /\ 0 <= ulps l <= Z.max B (max_rect xs).
Proof.
  intros Ha Hr. induction xs as [|x xs IH]; intros e B Hl HB Hxs.
  - cbn. split; [exact Hl|lia].
  - cbn [forallb] in Hxs. apply andb_prop in Hxs. destruct Hxs as [Hx Hxs].
    destruct (env_follow_step e x att rel Hl ltac:(lia) Hx Ha Hr) as (_ & F1 & U1).
    cbn [env_run max_rect].
    destruct (IH (fst (env_follow e x att rel)) (Z.max B (Z.abs (ulps x)))
                F1 ltac:(lia) Hxs) as [F2 U2].
    split; [exact F2|]. lia.
Qed.

(** C10, for finite inputs: starting from the zeroed state, with attack
    and release coefficients strictly between 0 and 1, after any sequence
    [xs] of finite inputs (and so after every update, [xs] being any prefix
    of a longer run) the stored level is a finite number, is not below
    zero, and is at most the largest rectified input of [xs].  Levels and
    inputs are compared through [ulps], their values in units of 2^-149. *)
Theorem env_follow_level_bounds (att rel : float) (xs : list float) :
  unit_coeff att = true -> unit_coeff rel = true ->
  forallb finite32 xs = true ->
  let l := level (env_run env_zero xs att rel) in
  finite32 l = true /\ flt l f_zero = false /\ 0 <= ulps l <= max_rect xs.
Proof.
  intros Ha Hr Hxs l.
  assert (H0 : 0 <= max_rect xs).
  { clear. induction xs as [|x xs IH]; cbn [max_rect]; lia. }
  destruct (env_run_bounds att rel xs Ha Hr env_zero 0 eq_refl
              ltac:(change (ulps (level env_zero)) with 0; lia) Hxs) as [F U].
  fold l in F, U.
  pose proof (proj1 (finite32_split l) F) as [V Fin].
  split; [exact F|]. split; [|lia].
  rewrite (flt_ulps l f_zero V eq_refl Fin eq_refl).
  change (ulps f_zero) with 0. apply Z.ltb_ge. lia.
Qed.

(** The coefficients of a fresh instance on the inputs 0.5, -0.25, 0. *)
Lemma env_follow_level_bounds_witness :
  let att := att_coeff Sample.fresh in
  let rel := rel_coeff Sample.fresh in
  let xs := [f32_lit 1 2; f32_lit (-1) 4; f_zero] in
  let l := level (env_run env_zero xs att rel) in
  finite32 l = true /\ flt l f_zero = false /\ 0 <= ulps l <= max_rect xs.
Proof.
  intros att rel xs.
  apply (env_follow_level_bounds att rel xs); vm_compute; reflexivity.
Defined.

(** C10 as stated fails on an input that is not a number: whatever the
    coefficients, one update with NaN makes the level NaN, which is not
    [>= 0].  Such an input is reachable: [setParameter("mod_gain", "nan")]
    stores NaN (the clamp passes it), and the next block leaves NaN in the
    envelope level of band 0 although the coefficients are the ones
    [recalc_bands] produced, strictly between 0 and 1. *)
Lemma env_follow_nan_level :
  (forall att rel : float,
     level (env_run env_zero [S754_nan] att rel) = S754_nan) /\
  let v := @set_param RefLibM.libm Sample.fresh "mod_gain" "nan" in
  let v' := fst (v2_process_block (Some Sample.host) (Some v)
                   Sample.carrier 2) in
  mod_gain v = S754_nan /\
  unit_coeff (att_coeff v) = true /\ unit_coeff (rel_coeff v) = true /\
  option_map (fun w => level (at_env (mod_env_l w) 0)) v' = Some S754_nan.
Proof.
  split.
  - intros att rel. cbn. destruct att, rel; reflexivity.
  - vm_compute. repeat split.
Qed.

(** ** Division *)

Lemma new_location_rem (q r : Z) :
  0 < q -> 0 <= r < q -> new_location q r = loc_of_rem r q.
Proof.
  intros Hq Hr. unfold new_location, loc_of_rem.
  destruct (Z.even q) eqn:Ev.
  - reflexivity.
  - unfold new_location_odd. destruct (r =? 0); [reflexivity|]. f_equal.
    assert (Ho : Z.odd q = true) by (rewrite <- Z.negb_even, Ev; reflexivity).
    apply Z.odd_spec in Ho. destruct Ho as [t Ht].
    destruct (Z.compare_spec (2 * r + 1) q), (Z.compare_spec (2 * r) q);
      first [reflexivity | lia].
Qed.

Lemma Zdigits2_quot_pow (p q j : Z) :
  0 < q -> 0 < p / q -> 0 <= j ->
  Zdigits2 (p * 2 ^ j / q) = Zdigits2 (p / q) + j.
Proof.
  intros Hq Hpq Hj.
  destruct (Zdigits2_bounds (p / q) Hpq) as [Hlo Hhi].
  pose proof (Zdigits2_pos _ Hpq) as Hd.
  pose proof (pow2_pos j Hj) as Hpj.
  remember (Zdigits2 (p / q)) as d eqn:Ed.
  assert (Hlo' : 2 ^ (d - 1) * q <= p).
  { pose proof (Z.mul_div_le p q Hq). nia. }
  assert (Hhi' : p < 2 ^ d * q).
  { pose proof (Z.div_mod p q ltac:(lia)).
    pose proof (Z.mod_pos_bound p q Hq). nia. }
  assert (Hlow : 2 ^ (d + j - 1) <= p * 2 ^ j / q).
  { apply Z.div_le_lower_bound; [exact Hq|].
    replace (d + j - 1) with ((d - 1) + j) by lia.
    rewrite (Z.pow_add_r 2 (d - 1) j) by lia. nia. }
  apply Zdigits2_unique.
  - split; [exact Hlow|].
    apply Z.div_lt_upper_bound; [exact Hq|].
    rewrite (Z.pow_add_r 2 d j) by lia. nia.
  - pose proof (pow2_pos (d + j - 1) ltac:(lia)). lia.
Qed.

(** The rounding of [(p / q) * 2^e], the quotient not shorter than the
    format asks for, in units of [2^-149]. *)
Lemma round32_quot_ulps (s : bool) (p q e : Z) :
  0 <= p -> 0 < q -> -298 <= e -> e <= fexp32 (Zdigits2 (p / q) + e) ->
  round32 s p q e = float_of_ulps s (RN (p * 2 ^ (e + 298)) (q * 2 ^ 149)).
Proof.
  intros Hp Hq He Hpre.
  assert (Hm : 0 <= p / q) by (apply Z.div_pos; lia).
  pose proof (Zdigits2_nonneg (p / q)) as Hd.
  remember (Zdigits2 (p / q)) as d eqn:Ed.
  remember (fexp32 (d + e)) as e1 eqn:Ee1.
  assert (He1 : -149 <= e1) by (subst e1; unfold fexp32; lia).
  assert (HD149 : 0 < 2 ^ 149) by (apply pow2_pos; lia).
  unfold round32. rewrite <- Ed, <- Ee1.
  rewrite (Z.max_r 0 (e1 - e)) by lia.
  remember (e1 - e) as k eqn:Ek.
  remember (round_half_even p (q * 2 ^ k)) as m1 eqn:Em1.
  replace (e + k) with e1 by lia.
  assert (Hk : 0 <= k) by lia.
  pose proof (pow2_pos k Hk) as Hpk.
  unfold RN.
  assert (HND : Zdigits2 (p * 2 ^ (e + 298) / (q * 2 ^ 149)) = Z.max 0 (d + e + 149)).
  { destruct (Z.le_gt_cases 149 (e + 298)) as [Hle|Hgt].
    - rewrite (pow2_split (e + 298) 149) by lia.
      rewrite Z.mul_assoc, Z.div_mul_cancel_r by lia.
      destruct (Z.eq_dec (p / q) 0) as [E0|E0].
      + rewrite E0 in Ed. cbn in Ed. subst d.
        assert (e = -149) by (subst e1; unfold fexp32 in *; lia). subst e.
        change (2 ^ (-149 + 298 - 149)) with 1. rewrite Z.mul_1_r, E0.
        reflexivity.
      + rewrite Zdigits2_quot_pow by lia. rewrite <- Ed. lia.
    - rewrite (pow2_split 149 (e + 298)) by lia.
      rewrite (Z.mul_assoc q).
      rewrite Z.div_mul_cancel_r
        by (pose proof (pow2_pos (149 - (e + 298)) ltac:(lia));
            pose proof (pow2_pos (e + 298) ltac:(lia)); nia).
      rewrite <- Z.div_div
        by (pose proof (pow2_pos (149 - (e + 298)) ltac:(lia)); lia).
      destruct (Z.eq_dec (p / q) 0) as [E0|E0].
      + rewrite E0 in Ed |- *. cbn in Ed. subst d.
        rewrite Z.div_0_l
          by (pose proof (pow2_pos (149 - (e + 298)) ltac:(lia)); lia).
        cbn. lia.
      + rewrite Zdigits2_div_pow by lia. rewrite <- Ed. lia. }
  rewrite HND.
  assert (Hg : Z.max 0 (Z.max 0 (d + e + 149) - 24) = e1 + 149)
    by (subst e1; unfold fexp32; lia).
  rewrite Hg.
  assert (Hr : round_half_even (p * 2 ^ (e + 298)) (q * 2 ^ 149 * 2 ^ (e1 + 149))
               = m1).
  { rewrite <- Z.mul_assoc, <- Z.pow_add_r by lia.
    replace (149 + (e1 + 149)) with (k + (e + 298)) by lia.
    rewrite (Z.pow_add_r 2 k (e + 298)) by lia.
    rewrite Z.mul_assoc.
    subst m1. apply round_half_even_scale; [nia|apply pow2_pos; lia]. }
  rewrite Hr.
  assert (Hm1 : 0 <= m1) by (subst m1; apply round_half_even_nonneg; nia).
  pose proof (pow2_pos (e1 + 149) ltac:(lia)) as Hpg.
  unfold float_of_ulps.
  destruct (Z.eq_dec m1 0) as [E0|E0].
  { rewrite E0, Z.mul_0_r. cbn [Zdigits2]. rewrite !Z.div_0_l; [reflexivity| |].
    - pose proof (pow2_pos (Z.max 0 (0 - 24)) ltac:(lia)). lia.
    - pose proof (pow2_pos (Z.max 0 (fexp32 (0 + e1) - e1)) ltac:(lia)). lia. }
  assert (Hm1p : 0 < m1) by lia.
  pose proof (Zdigits2_pos m1 Hm1p) as Hd1.
  rewrite (Z.mul_comm (2 ^ (e1 + 149)) m1).
  rewrite Zdigits2_mul_pow by lia.
  assert (Hk2 : Z.max 0 (fexp32 (Zdigits2 m1 + e1) - e1) = Z.max 0 (Zdigits2 m1 - 24))
    by (unfold fexp32; lia).
  rewrite Hk2.
  assert (Hnorm : 0 < e1 + 149 -> 24 <= Zdigits2 m1).
  { intros Hn. apply Zdigits2_ge; [|exact Hm1p].
    assert (Hdk : d - 1 = 23 + k) by (subst k e1; unfold fexp32 in *; lia).
    assert (Hpos : 0 < p / q).
    { destruct (Z.eq_dec (p / q) 0) as [E|E]; [|lia].
      rewrite E in Ed. cbn in Ed. lia. }
    destruct (Zdigits2_bounds (p / q) Hpos) as [Hmlo _].
    rewrite <- Ed, Hdk, Z.pow_add_r in Hmlo by lia.
    assert (2 ^ 23 <= p / (q * 2 ^ k)).
    { rewrite <- Z.div_div by lia. apply Z.div_le_lower_bound; lia. }
    pose proof (round_half_even_bounds p (q * 2 ^ k) ltac:(nia)) as Hb.
    rewrite <- Em1 in Hb.
    change (24 - 1) with 23. lia. }
  destruct (Z.eq_dec (e1 + 149) 0) as [Eg|Eg].
  - rewrite Eg, Z.add_0_r. change (2 ^ 0) with 1. rewrite Z.mul_1_r.
    f_equal. lia.
  - specialize (Hnorm ltac:(lia)).
    rewrite !Z.max_r by lia.
    replace (Zdigits2 m1 + (e1 + 149) - 24) with ((e1 + 149) + (Zdigits2 m1 - 24)) by lia.
    rewrite (Z.pow_add_r 2 (e1 + 149) (Zdigits2 m1 - 24)) by lia.
    rewrite (Z.mul_comm m1), Z.div_mul_cancel_l
      by (pose proof (pow2_pos (Zdigits2 m1 - 24) ltac:(lia)); lia).
    f_equal. lia.
Qed.

Lemma div_eucl_pair (a b : Z) : Z.div_eucl a b = (a / b, a mod b).
Proof. unfold Z.div, Z.modulo. destruct (Z.div_eucl a b); reflexivity. Qed.

(** The quotient of two nonzero finite values is the exact quotient
    rounded once. *)
Lemma fdiv_spec (x y : float) :
  valid32 x = true -> valid32 y = true ->
  is_finite x = true -> is_finite y = true ->
  is_zero x = false -> is_zero y = false ->
  fdiv x y
  = float_of_ulps (xorb (fsign x) (fsign y))
      (RN (Z.abs (ulps x) * 2 ^ 149) (Z.abs (ulps y))).
Proof.
  intros Vx Vy Fx Fy Zx Zy.
  destruct x as [sx| | |sx mx ex]; try discriminate;
    destruct y as [sy| | |sy my ey]; try discriminate.
  cbn [fsign].
  destruct (valid_finite_bounds sx mx ex Vx) as (Hex & Hdx & Hnx & Hmx).
  destruct (valid_finite_bounds sy my ey Vy) as (Hey & Hdy & Hny & Hmy).
  rewrite !abs_ulps_finite by lia.
  unfold fdiv, SFdiv, SFdiv_core_binary. rewrite fexp32_eq.
  remember (Zdigits2 (Zpos mx)) as d1 eqn:Ed1.
  remember (Zdigits2 (Zpos my)) as d2 eqn:Ed2.
  remember (Z.min (fexp32 (d1 + ex - (d2 + ey))) (ex - ey)) as e' eqn:Ee'.
  remember (ex - ey - e') as sh eqn:Esh.
  assert (Hsh : 0 <= sh) by lia.
  assert (Hm' : match sh with
                | 0 => Zpos mx
                | Zpos _ => Z.shiftl (Zpos mx) sh
                | Zneg _ => 0
                end = Zpos mx * 2 ^ sh).
  { destruct sh as [|ps|ps]; [change (2 ^ 0) with 1; lia| |lia].
    apply Z.shiftl_mul_pow2. lia. }
  rewrite Hm'. rewrite div_eucl_pair.
  pose proof (pow2_pos sh Hsh) as Hps.
  rewrite new_location_rem
    by (try apply Z.mod_pos_bound; lia).
  rewrite binary_round_aux_spec by lia.
  assert (He' : -253 <= e') by (subst e'; unfold fexp32; lia).
  pose proof (Zdigits2_pos (Zpos mx) ltac:(lia)) as Hd1.
  pose proof (Zdigits2_pos (Zpos my) ltac:(lia)) as Hd2.
  rewrite <- Ed1 in Hd1. rewrite <- Ed2 in Hd2.
  rewrite round32_quot_ulps; try lia.
  - f_equal.
    rewrite <- (RN_scale (Zpos mx * 2 ^ sh * 2 ^ (e' + 298)) (Zpos my * 2 ^ 149)
                  (2 ^ (ey + 149)))
      by (try apply pow2_pos; lia).
    rewrite <- (RN_scale (Zpos mx * 2 ^ (ex + 149) * 2 ^ 149)
                  (Zpos my * 2 ^ (ey + 149)) (2 ^ 149))
      by (try apply Z.mul_pos_pos; try apply pow2_pos; lia).
    f_equal; [|ring].
    rewrite <- !Z.mul_assoc. f_equal.
    rewrite <- !Z.pow_add_r by lia. f_equal. lia.
  - (* the quotient is long enough *)
    destruct (Zdigits2_bounds (Zpos mx) ltac:(lia)) as [Hlo1 _].
    destruct (Zdigits2_bounds (Zpos my) ltac:(lia)) as [_ Hhi2].
    rewrite <- Ed1 in Hlo1. rewrite <- Ed2 in Hhi2.
    assert (Hdq : d1 + sh - d2 <= Zdigits2 (Zpos mx * 2 ^ sh / Zpos my)).
    { destruct (Z.le_gt_cases (d1 + sh - d2) 0) as [Hle|Hgt].
      - pose proof (Zdigits2_nonneg (Zpos mx * 2 ^ sh / Zpos my)). lia.
      - assert (Hq : 2 ^ (d1 + sh - d2 - 1) <= Zpos mx * 2 ^ sh / Zpos my).
        { apply Z.div_le_lower_bound; [lia|].
          pose proof (pow2_pos (d1 + sh - d2 - 1) ltac:(lia)) as Hpp.
          assert (Hsplit : 2 ^ (d1 - 1) * 2 ^ sh
                           = 2 ^ (d1 + sh - d2 - 1) * 2 ^ d2).
          { rewrite <- !Z.pow_add_r by lia. f_equal. lia. }
          nia. }
        apply Zdigits2_ge; [exact Hq|].
        pose proof (pow2_pos (d1 + sh - d2 - 1) ltac:(lia)). lia. }
    unfold fexp32 in *. lia.
Qed.

(** ** The operations give well-formed values *)

Lemma float_of_ulps_RN_valid (s : bool) (N D : Z) :
  0 <= N -> 0 < D -> valid32 (float_of_ulps s (RN N D)) = true.
Proof.
  intros HN HD. apply float_of_ulps_valid. apply RN_nonneg; assumption.
Qed.

Lemma fmul_valid (x y : float) :
  valid32 x = true -> valid32 y = true -> valid32 (fmul x y) = true.
Proof.
  intros Vx Vy.
  destruct (is_finite x) eqn:Fx; [destruct (is_finite y) eqn:Fy|].
  - rewrite fmul_spec by assumption.
    apply float_of_ulps_RN_valid; [|apply pow2_pos]; lia.
  - destruct x, y; try discriminate; reflexivity.
  - destruct x, y; try discriminate; reflexivity.
Qed.

Lemma fadd_valid (x y : float) :
  valid32 x = true -> valid32 y = true -> valid32 (fadd x y) = true.
Proof.
  intros Vx Vy.
  destruct (is_finite x && is_finite y && negb (is_zero x && is_zero y)) eqn:E.
  - apply andb_prop in E. destruct E as [E Hz]. apply andb_prop in E.
    destruct E as [Fx Fy]. apply negb_true_iff in Hz.
    rewrite fadd_spec by assumption.
    apply float_of_ulps_RN_valid; lia.
  - destruct x as [sx| | |sx mx ex], y as [sy| | |sy my ey];
      try discriminate E; try reflexivity; try assumption;
      repeat match goal with s : bool |- _ => destruct s end; reflexivity.
Qed.

Lemma fsub_valid (x y : float) :
  valid32 x = true -> valid32 y = true -> valid32 (fsub x y) = true.
Proof.
  intros Vx Vy.
  destruct (is_finite x && is_finite y && negb (is_zero x && is_zero y)) eqn:E.
  - apply andb_prop in E. destruct E as [E Hz]. apply andb_prop in E.
    destruct E as [Fx Fy]. apply negb_true_iff in Hz.
    rewrite fsub_spec by assumption.
    apply float_of_ulps_RN_valid; lia.
  - destruct x as [sx| | |sx mx ex], y as [sy| | |sy my ey];
      try discriminate E; try reflexivity; try assumption;
      repeat match goal with s : bool |- _ => destruct s end; reflexivity.
Qed.

Lemma fdiv_valid (x y : float) :
  valid32 x = true -> valid32 y = true -> valid32 (fdiv x y) = true.
Proof.
  intros Vx Vy.
  destruct (is_finite x && is_finite y && negb (is_zero x) && negb (is_zero y))
    eqn:E.
  - rewrite !andb_true_iff, !negb_true_iff in E.
    destruct E as [[[Fx Fy] Zx] Zy].
    rewrite fdiv_spec by assumption.
    apply float_of_ulps_RN_valid.
    + pose proof (pow2_pos 149 ltac:(lia)). lia.
    + destruct y as [sy| | |sy my ey]; try discriminate.
      destruct (valid_finite_bounds sy my ey Vy) as (Hey & _).
      rewrite abs_ulps_finite by lia.
      pose proof (pow2_pos (ey + 149) ltac:(lia)). lia.
  - destruct x as [sx| | |sx mx ex], y as [sy| | |sy my ey];
      try discriminate E; reflexivity.
Qed.

Lemma f32_of_Z_valid (z : Z) : valid32 (f32_of_Z z) = true.
Proof.
  rewrite f32_of_Z_spec. apply float_of_ulps_RN_valid; [|lia].
  pose proof (pow2_pos 149 ltac:(lia)). lia.
Qed.

Lemma fabsf_valid (x : float) : valid32 x = true -> valid32 (fabsf x) = true.
Proof. destruct x; intros H; try reflexivity. exact H. Qed.

(** ** Well-formed values through a block *)

Create HintDb wf discriminated.
#[local] Hint Resolve fadd_valid fsub_valid fmul_valid fdiv_valid fabsf_valid
  f32_of_Z_valid : wf.

Lemma forallb_lookup {A : Type} (f : A -> bool) (l : list A) :
  forall (b : nat) (x : A),
    forallb f l = true -> l !! b = Some x -> f x = true.
Proof.
  induction l as [|a l IH]; intros b x H E.
  - rewrite lookup_nil in E. discriminate E.
  - cbn [forallb] in H. apply andb_prop in H. destruct H as [Ha Hl].
    destruct b as [|b]; cbn in E.
    + injection E as <-. exact Ha.
    + exact (IH b x Hl E).
Qed.

Lemma forallb_default {A : Type} (f : A -> bool) (d : A) (l : list A) (b : nat) :
  forallb f l = true -> f d = true -> f (default d (l !! b)) = true.
Proof.
  intros Hl Hd. destruct (l !! b) as [x|] eqn:E; cbn [default];
    [exact (forallb_lookup f l b x Hl E)|exact Hd].
Qed.

Lemma forallb_insert {A : Type} (f : A -> bool) (l : list A) :
  forall (b : nat) (x : A),
    forallb f l = true -> f x = true -> forallb f (<[b := x]> l) = true.
Proof.
  induction l as [|a l IH]; intros b x H Hx.
  - reflexivity.
  - cbn [forallb] in H. apply andb_prop in H. destruct H as [Ha Hl].
    destruct b as [|b]; cbn.
    + rewrite Hx. exact Hl.
    + rewrite Ha. apply IH; assumption.
Qed.

Lemma svf_bandpass_valid (s : svf_state_t) (input f q : float) :
  valid_svf s = true -> valid32 input = true ->
  valid32 f = true -> valid32 q = true ->
  valid_svf (fst (svf_bandpass s input f q)) = true /\
  valid32 (snd (svf_bandpass s input f q)) = true.
Proof.
  unfold valid_svf, svf_bandpass. intros H Hi Hf Hq.
  apply andb_prop in H. destruct H as [Hl Hb].
  cbn [fst snd low band]. rewrite andb_true_iff.
  repeat split; auto 12 with wf.
Qed.

Lemma env_follow_valid (e : env_state_t) (input att rel : float) :
  valid_env e = true -> valid32 input = true ->
  valid32 att = true -> valid32 rel = true ->
  valid_env (fst (env_follow e input att rel)) = true /\
  valid32 (snd (env_follow e input att rel)) = true.
Proof.
  unfold valid_env, env_follow. intros He Hi Ha Hr.
  cbn [fst snd level].
  destruct (flt (level e) (fabsf input)); split; auto 8 with wf.
Qed.

Lemma fsqrt_bands_valid (n : Z) :
  1 <= n <= 32 -> valid32 (fsqrt (f32_of_Z n)) = true.
Proof.
  intros Hn.
  apply (range_all_spec 5 1 (fun n => valid32 (fsqrt (f32_of_Z n))));
    [vm_compute; reflexivity|cbn; lia].
Qed.

Lemma valid_filters_split (v : vocoder_instance_t) :
  valid_filters v = true <->
  (forallb valid32 (band_f v) = true /\ forallb valid32 (band_q v) = true) /\
  (forallb valid_svf (mod_svf_l v) = true /\
   forallb valid_svf (mod_svf_r v) = true /\
   forallb valid_svf (car_svf_l v) = true /\
   forallb valid_svf (car_svf_r v) = true) /\
  (forallb valid_env (mod_env_l v) = true /\
   forallb valid_env (mod_env_r v) = true).
Proof. unfold valid_filters. rewrite !andb_true_iff. tauto. Qed.

Lemma process_band_valid (v : vocoder_instance_t) (b : nat)
    (ml mr cl cr att rel ol or_ : float) :
  valid_filters v = true ->
  valid32 ml = true -> valid32 mr = true ->
  valid32 cl = true -> valid32 cr = true ->
  valid32 att = true -> valid32 rel = true ->
  valid32 ol = true -> valid32 or_ = true ->
  let r := process_band v b ml mr cl cr att rel ol or_ in
  valid_filters (fst (fst r)) = true /\
  valid32 (snd (fst r)) = true /\ valid32 (snd r) = true.
Proof.
  intros Hv Hml Hmr Hcl Hcr Ha Hr Hol Hor.
  apply valid_filters_split in Hv.
  destruct Hv as ((Hf & Hq) & (S1 & S2 & S3 & S4) & (E1 & E2)).
  pose proof (forallb_default valid32 f_zero (band_f v) b Hf eq_refl) as Vf.
  pose proof (forallb_default valid32 f_zero (band_q v) b Hq eq_refl) as Vq.
  pose proof (forallb_default valid_svf svf_zero _ b S1 eq_refl) as V1.
  pose proof (forallb_default valid_svf svf_zero _ b S2 eq_refl) as V2.
  pose proof (forallb_default valid_svf svf_zero _ b S3 eq_refl) as V3.
  pose proof (forallb_default valid_svf svf_zero _ b S4 eq_refl) as V4.
  pose proof (forallb_default valid_env env_zero _ b E1 eq_refl) as W1.
  pose proof (forallb_default valid_env env_zero _ b E2 eq_refl) as W2.
  unfold process_band. fold (at_f (band_f v) b) in Vf. fold (at_f (band_q v) b) in Vq.
  fold (at_svf (mod_svf_l v) b) in V1. fold (at_svf (mod_svf_r v) b) in V2.
  fold (at_svf (car_svf_l v) b) in V3. fold (at_svf (car_svf_r v) b) in V4.
  fold (at_env (mod_env_l v) b) in W1. fold (at_env (mod_env_r v) b) in W2.
  destruct (svf_bandpass_valid _ ml _ _ V1 Hml Vf Vq) as [A1 B1].
  destruct (svf_bandpass (at_svf (mod_svf_l v) b) ml _ _) as [s1 o1].
  destruct (svf_bandpass_valid _ mr _ _ V2 Hmr Vf Vq) as [A2 B2].
  destruct (svf_bandpass (at_svf (mod_svf_r v) b) mr _ _) as [s2 o2].
  cbn [fst snd] in A1, B1, A2, B2.
  destruct (env_follow_valid _ o1 att rel W1 B1 Ha Hr) as [A5 B5].
  destruct (env_follow (at_env (mod_env_l v) b) o1 att rel) as [e1 l1].
  destruct (env_follow_valid _ o2 att rel W2 B2 Ha Hr) as [A6 B6].
  destruct (env_follow (at_env (mod_env_r v) b) o2 att rel) as [e2 l2].
  destruct (svf_bandpass_valid _ cl _ _ V3 Hcl Vf Vq) as [A3 B3].
  destruct (svf_bandpass (at_svf (car_svf_l v) b) cl _ _) as [s3 o3].
  destruct (svf_bandpass_valid _ cr _ _ V4 Hcr Vf Vq) as [A4 B4].
  destruct (svf_bandpass (at_svf (car_svf_r v) b) cr _ _) as [s4 o4].
  cbn [fst snd] in *.
  split; [|split; auto with wf].
  apply valid_filters_split. cbn.
  repeat split; try assumption; apply forallb_insert; assumption.
Qed.

Lemma band_loop_valid (ml mr cl cr att rel : float) (k : nat) :
  valid32 ml = true -> valid32 mr = true ->
  valid32 cl = true -> valid32 cr = true ->
  valid32 att = true -> valid32 rel = true ->
  forall (b : nat) (v : vocoder_instance_t) (ol or_ : float),
    valid_filters v = true -> valid32 ol = true -> valid32 or_ = true ->
    let r := band_loop k b v ml mr cl cr att rel ol or_ in
    valid_filters (fst (fst r)) = true /\
    valid32 (snd (fst r)) = true /\ valid32 (snd r) = true.
Proof.
  intros Hml Hmr Hcl Hcr Ha Hr.
  induction k as [|k IH]; intros b v ol or_ Hv Hol Hor.
  - cbn. repeat split; assumption.
  - cbn [band_loop].
    pose proof (process_band_valid v b ml mr cl cr att rel ol or_
                  Hv Hml Hmr Hcl Hcr Ha Hr Hol Hor) as H.
    destruct (process_band v b ml mr cl cr att rel ol or_) as [[v1 o1] o2].
    cbn [fst snd] in H. destruct H as (H1 & H2 & H3).
    exact (IH (S b) v1 o1 o2 H1 H2 H3).
Qed.

Lemma frame_signals_valid (v : vocoder_instance_t) (n : Z)
    (att rel mg nm : float) (in_l in_r mic_l mic_r : Z) :
  valid_filters v = true -> 1 <= n <= 32 ->
  valid32 att = true -> valid32 rel = true ->
  valid32 mg = true -> valid32 nm = true ->
  let fr := frame_signals v n att rel mg nm in_l in_r mic_l mic_r in
  valid_filters (fr_inst fr) = true /\ valid_frame fr = true.
Proof.
  intros Hv Hn Ha Hr Hg Hm.
  unfold frame_signals, noise_sample.
  match goal with
  | |- context [band_loop ?k ?b ?u ?a1 ?a2 ?a3 ?a4 ?a5 ?a6 ?o1 ?o2] =>
      pose proof (band_loop_valid a1 a2 a3 a4 a5 a6 k
                    ltac:(auto 8 with wf) ltac:(auto 8 with wf)
                    ltac:(auto 8 with wf) ltac:(auto 8 with wf) Ha Hr
                    b u o1 o2 Hv eq_refl eq_refl) as H;
      destruct (band_loop k b u a1 a2 a3 a4 a5 a6 o1 o2) as [[v1 o1'] o2']
  end.
  cbn [fst snd] in H. destruct H as (H1 & H2 & H3).
  cbn [fr_inst]. split; [exact H1|].
  unfold valid_frame. cbn [fr_out_l fr_out_r fr_car_l fr_car_r].
  pose proof (fsqrt_bands_valid n Hn) as Hs.
  rewrite !andb_true_iff. repeat split; auto 8 with wf.
Qed.

Lemma frame_trace_valid (h : host_api_v1_t) (n : Z) (att rel mg nm : float)
    (audio : list Z) (k : nat) :
  1 <= n <= 32 ->
  valid32 att = true -> valid32 rel = true ->
  valid32 mg = true -> valid32 nm = true ->
  forall (i : Z) (v : vocoder_instance_t),
    valid_filters v = true ->
    forallb valid_frame (frame_trace k i h v n att rel mg nm audio) = true.
Proof.
  intros Hn Ha Hr Hg Hm. induction k as [|k IH]; intros i v Hv.
  - reflexivity.
  - cbn [frame_trace forallb].
    match goal with
    | |- context [frame_signals v n att rel mg nm ?a ?b ?c ?d] =>
        destruct (frame_signals_valid v n att rel mg nm a b c d
                    Hv Hn Ha Hr Hg Hm) as [H1 H2]
    end.
    rewrite H2. cbn [andb]. apply IH. exact H1.
Qed.

Lemma mix_sample_written (out car wet : float) :
  valid32 out = true -> valid32 car = true -> valid32 wet = true ->
  written out car wet (Some (mix_sample out car wet (fsub f_one wet))).
Proof.
  intros Ho Hc Hw. unfold written.
  assert (V : valid32 (fadd (fmul out wet) (fmul car (fsub f_one wet))) = true)
    by (assert (valid32 f_one = true) by reflexivity; auto 8 with wf).
  destruct (mix_sample_bounds out car wet (fsub f_one wet)) as [_ H].
  destruct (H V) as [Hr Hcase]. clear H.
  eexists. split; [reflexivity|]. split; [exact Hr|].
  destruct Hcase as [[Hn Hz]|(Hn & Hf & Hu & Hz)].
  - split; [|left; exact Hn]. rewrite Hz.
    destruct (fadd (fmul out wet) (fmul car (fsub f_one wet)));
      try discriminate Hn. reflexivity.
  - split; [exact Hz|]. right. split; assumption.
Qed.

(** C5.  On a well-formed instance a block of [frames] frames keeps the
    length of the buffer and the samples behind the block, and writes
    frame [m] at the positions [2 m] and [2 m + 1] its carrier samples were
    read from.  Each written sample lies between -32767 and 32767, within
    the signed 16-bit bounds, because it is the truncated product by 32767
    of the mixed value clamped to [[-1, 1]] (or 0 when the mixed value is a
    NaN, which the clamp passes): the conversion does not wrap. *)
Theorem process_block_sample_bounds (h : host_api_v1_t)
    (v : vocoder_instance_t) (audio : list Z) (frames : Z) :
  0 <= frames -> 2 * frames <= Z.of_nat (length audio) ->
  valid_instance v = true ->
  let out := snd (v2_process_block (Some h) (Some v) audio frames) in
  let tr := block_trace h v audio frames in
  length out = length audio /\
  (forall j : nat, 2 * frames <= Z.of_nat j -> out !! j = audio !! j) /\
  (forall (j : nat) (z : Z),
     Z.of_nat j < 2 * frames -> out !! j = Some z -> -32768 <= z <= 32767) /\
  forall m : nat, Z.of_nat m < frames ->
    exists fr : frame_t,
      tr !! m = Some fr /\
      fr_car_l fr
      = fdiv (f32_of_Z (default 0 (audio !! (2 * m)%nat))) (f32_of_Z 32768) /\
      fr_car_r fr
      = fdiv (f32_of_Z (default 0 (audio !! (2 * m + 1)%nat))) (f32_of_Z 32768) /\
      written (fr_out_l fr) (fr_car_l fr) (mix v) (out !! (2 * m)%nat) /\
      written (fr_out_r fr) (fr_car_r fr) (mix v) (out !! (2 * m + 1)%nat).
Proof.
  intros Hfr Hlen Hv out tr.
  unfold valid_instance in Hv. rewrite !andb_true_iff in Hv.
  destruct Hv as (((((((B1 & B2) & Vg) & Vm) & Vc) & Va) & Vr) & Vf).
  apply Z.leb_le in B1, B2.
  pose proof (frame_loop_lookup h (bands v) (att_coeff v) (rel_coeff v)
                (mod_gain v) (mix v) (fsub f_one (mix v))
                (carrier_mix v) audio (Z.to_nat frames) 0 v audio
                ltac:(lia) eq_refl ltac:(reflexivity)) as H.
  pose proof (frame_trace_valid h (bands v) (att_coeff v) (rel_coeff v)
                (mod_gain v) (carrier_mix v) audio (Z.to_nat frames)
                ltac:(lia) Va Vr Vg Vc 0 v Vf) as Hval.
  fold (block_trace h v audio frames) in H, Hval. fold tr in H, Hval.
  assert (Hout : out = snd (frame_loop (Z.to_nat frames) 0 h v (bands v)
                   (att_coeff v) (rel_coeff v) (mod_gain v) (mix v)
                   (fsub f_one (mix v)) (carrier_mix v) audio)).
  { subst out. unfold v2_process_block.
    destruct (frame_loop _ _ _ _ _ _ _ _ _ _ _ _); reflexivity. }
  rewrite <- Hout in H. cbn zeta in H.
  destruct H as (L & _ & After & At).
  assert (Hframe : forall m : nat, Z.of_nat m < frames ->
            exists fr : frame_t,
              tr !! m = Some fr /\ valid_frame fr = true /\
              out !! (2 * m)%nat
              = Some (mix_sample (fr_out_l fr) (fr_car_l fr) (mix v)
                        (fsub f_one (mix v))) /\
              out !! (2 * m + 1)%nat
              = Some (mix_sample (fr_out_r fr) (fr_car_r fr) (mix v)
                        (fsub f_one (mix v)))).
  { intros m Hm.
    assert (Hlt : (m < length tr)%nat).
    { subst tr. unfold block_trace. rewrite frame_trace_length. lia. }
    destruct (lookup_lt_is_Some_2 tr m Hlt) as [fr Efr].
    exists fr. split; [exact Efr|].
    split; [exact (forallb_lookup valid_frame tr m fr Hval Efr)|].
    exact (At m fr Efr ltac:(cbn; lia)). }
  split; [exact L|]. split; [|split].
  - intros j Hj. apply After. cbn. lia.
  - intros j z Hj Ez.
    destruct (Hframe (j / 2)%nat) as (fr & _ & _ & El & Er).
    { pose proof (Nat.div_mod_eq j 2). pose proof (Nat.mod_upper_bound j 2). lia. }
    pose proof (Nat.div_mod_eq j 2) as Hdm.
    pose proof (Nat.mod_upper_bound j 2 ltac:(lia)) as Hmod.
    destruct (Nat.eq_dec (j mod 2)%nat 0%nat) as [E0|E1].
    + replace (2 * (j / 2))%nat with j in El by lia.
      rewrite El in Ez. injection Ez as <-.
      apply mix_sample_bounds.
    + replace (2 * (j / 2) + 1)%nat with j in Er by lia.
      rewrite Er in Ez. injection Ez as <-.
      apply mix_sample_bounds.
  - intros m Hm. destruct (Hframe m Hm) as (fr & Efr & Vfr & El & Er).
    exists fr. split; [exact Efr|].
    destruct (frame_trace_carrier h (bands v) (att_coeff v) (rel_coeff v)
                (mod_gain v) (carrier_mix v) audio (Z.to_nat frames) 0 v m fr
                ltac:(lia) Efr) as [Cl Cr].
    cbn [Z.mul Z.to_nat Nat.add] in Cl, Cr.
    split; [exact Cl|]. split; [exact Cr|].
    unfold valid_frame in Vfr. rewrite !andb_true_iff in Vfr.
    destruct Vfr as (((V1 & V2) & V3) & V4).
    rewrite El, Er. split; apply mix_sample_written; assumption.
Qed.

Lemma process_block_sample_bounds_witness :
  let out := snd (v2_process_block (Some Sample.host) (Some Sample.fresh)
                    Sample.carrier 2) in
  length out = length Sample.carrier /\
  forall (j : nat) (z : Z),
    Z.of_nat j < 2 * 2 -> out !! j = Some z -> -32768 <= z <= 32767.
Proof.
  intros out.
  assert (Hv : valid_instance Sample.fresh = true) by (vm_compute; reflexivity).
  pose proof (process_block_sample_bounds Sample.host Sample.fresh
                Sample.carrier 2 ltac:(lia) ltac:(cbn; lia) Hv) as H.
  split; [exact (proj1 H)|exact (proj1 (proj2 (proj2 H)))].
Defined.

(** ** Printing and reading back *)

Lemma append_assoc_string (a b c : string) :
  ((a ++ b) ++ c = a ++ (b ++ c))%string.
Proof. induction a as [|x a IH]; cbn; [reflexivity|]. now rewrite IH. Qed.

Lemma all_chars_append (f : ascii -> bool) (a b : string) :
  all_chars f (a ++ b) = all_chars f a && all_chars f b.
Proof.
  induction a as [|x a IH]; cbn; [reflexivity|].
  rewrite IH. apply andb_assoc.
Qed.

Lemma strstr_cons (c : ascii) (s needle : string) :
  strstr (String c s) needle
  = if String.prefix needle (String c s) then Some (String c s)
    else strstr s needle.
Proof. reflexivity. Qed.

Lemma json_search_head (key : string) :
  exists p : string, json_search key = String dquote p.
Proof. eexists. unfold json_search. cbn [substring]. reflexivity. Qed.

(** A printed number is passed over in the search for a quoted key. *)
Lemma strstr_skip_number (t r key : string) :
  no_quote t = true ->
  strstr (t ++ r) (json_search key) = strstr r (json_search key).
Proof.
  destruct (json_search_head key) as [p ->].
  induction t as [|c t IH]; intros H; [reflexivity|].
  cbn [no_quote all_chars] in H. apply andb_prop in H. destruct H as [Hc Ht].
  cbn [append]. rewrite strstr_cons. cbn [String.prefix].
  destruct (ascii_dec dquote c) as [E|E].
  - subst c. rewrite Ascii.eqb_refl in Hc. discriminate Hc.
  - apply IH. exact Ht.
Qed.

Lemma mismatch_prefix (p s X : string) :
  mismatch p s = true -> String.prefix p (s ++ X) = false.
Proof.
  revert s. induction p as [|a p IH]; intros s H; [discriminate H|].
  destruct s as [|b s]; [discriminate H|].
  cbn [mismatch] in H. cbn [append String.prefix].
  destruct (ascii_dec a b) as [E|E]; [|reflexivity].
  subst b. rewrite Ascii.eqb_refl in H. apply IH. exact H.
Qed.

(** A constant text in which the key does not start is passed over. *)
Lemma strstr_skip_literal (lit X pat : string) :
  lit_no_match lit pat = true -> strstr (lit ++ X) pat = strstr X pat.
Proof.
  induction lit as [|c lit IH]; intros H; [reflexivity|].
  cbn [lit_no_match] in H. apply andb_prop in H. destruct H as [Hm Hl].
  cbn [append]. rewrite strstr_cons.
  change (String c (lit ++ X)) with (String c lit ++ X)%string.
  rewrite (mismatch_prefix pat (String c lit) X Hm). apply IH. exact Hl.
Qed.

Lemma prefix_append (p X : string) : String.prefix p (p ++ X) = true.
Proof.
  induction p as [|a p IH]; [destruct X; reflexivity|].
  cbn. destruct (ascii_dec a a) as [_|N]; [exact IH|contradiction].
Qed.

Lemma strstr_found (p X : string) : strstr (p ++ X) p = Some (p ++ X)%string.
Proof.
  destruct (p ++ X)%string as [|c s] eqn:E.
  - destruct p; [reflexivity|discriminate E].
  - rewrite strstr_cons, <- E, prefix_append. reflexivity.
Qed.

Lemma drop_append (p X : string) : drop (String.length p) (p ++ X) = X.
Proof. induction p as [|a p IH]; [destruct X; reflexivity|exact IH]. Qed.

(** *** Digits *)

Lemma digit_char_cases (d : Z) :
  0 <= d < 10 ->
  In (digit_char d)
    ["0"; "1"; "2"; "3"; "4"; "5"; "6"; "7"; "8"; "9"]%char.
Proof.
  intros H.
  assert (E : d = 0 \/ d = 1 \/ d = 2 \/ d = 3 \/ d = 4 \/ d = 5 \/ d = 6
              \/ d = 7 \/ d = 8 \/ d = 9) by lia.
  repeat (destruct E as [-> | E]; [cbn; tauto|]). subst d. cbn. tauto.
Qed.

Lemma digit_of_digit_char (d : Z) :
  0 <= d < 10 -> digit_of (digit_char d) = Some d.
Proof.
  intros H.
  assert (E : d = 0 \/ d = 1 \/ d = 2 \/ d = 3 \/ d = 4 \/ d = 5 \/ d = 6
              \/ d = 7 \/ d = 8 \/ d = 9) by lia.
  repeat (destruct E as [-> | E]; [reflexivity|]). subst d. reflexivity.
Qed.

Lemma digit_char_no_quote (d : Z) :
  negb (Ascii.eqb (digit_char (d mod 10)) dquote) = true.
Proof.
  pose proof (digit_char_cases (d mod 10) (Z.mod_pos_bound d 10 ltac:(lia))) as H.
  cbn [In] in H.
  repeat (destruct H as [<- | H]; [reflexivity|]). contradiction.
Qed.

Lemma no_quote_digits_fixed (w : nat) :
  forall n : Z, no_quote (digits_fixed w n) = true.
Proof.
  induction w as [|w IH]; intros n; [reflexivity|].
  cbn [digits_fixed]. unfold no_quote in *. rewrite all_chars_append, IH.
  cbn. rewrite digit_char_no_quote. reflexivity.
Qed.

Lemma no_quote_fmt_f (p : nat) (x : float) : no_quote (fmt_f p x) = true.
Proof.
  assert (Hs : forall s, no_quote (sign_string s) = true)
    by (intros []; reflexivity).
  assert (Hf : forall n, no_quote (fixed_string p n) = true).
  { intros n. unfold fixed_string, dec_string, no_quote.
    rewrite all_chars_append. cbn [all_chars].
    fold (no_quote (digits_fixed p n)).
    match goal with |- context [digits_fixed ?w ?m] =>
      fold (no_quote (digits_fixed w m)) end.
    rewrite !no_quote_digits_fixed. reflexivity. }
  unfold no_quote in *.
  destruct x as [s|s| |s m e]; cbn [fmt_f]; rewrite ?all_chars_append, ?Hs, ?Hf;
    reflexivity.
Qed.

Lemma read_digits_fixed (w : nat) :
  forall (n : Z) (r : string) (acc cnt : Z),
    read_digits 10 digit_of (digits_fixed w n ++ r) acc cnt
    = read_digits 10 digit_of r
        (acc * 10 ^ Z.of_nat w + n mod 10 ^ Z.of_nat w) (cnt + Z.of_nat w).
Proof.
  induction w as [|w IH]; intros n r acc cnt.
  - cbn [digits_fixed append Z.of_nat]. change (10 ^ 0) with 1.
    rewrite Z.mod_1_r. f_equal; lia.
  - cbn [digits_fixed]. rewrite append_assoc_string. cbn [append].
    rewrite IH. cbn [read_digits].
    rewrite digit_of_digit_char by (apply Z.mod_pos_bound; lia).
    rewrite Nat2Z.inj_succ, Z.pow_succ_r by lia.
    rewrite (Z.rem_mul_r n 10 (10 ^ Z.of_nat w))
      by (try apply Z.pow_nonzero; lia).
    f_equal; lia.
Qed.

Lemma ndigits_spec (fuel : nat) :
  forall n : Z, 0 <= n < 10 ^ (Z.of_nat fuel + 1) ->
    (1 <= ndigits fuel n)%nat /\ n < 10 ^ Z.of_nat (ndigits fuel n).
Proof.
  induction fuel as [|fuel IH]; intros n Hn.
  - cbn in *. split; lia.
  - cbn [ndigits]. destruct (Z.ltb_spec n 10) as [Hlt|Hge].
    + split; [lia|]. exact Hlt.
    + assert (Hq : 0 <= n / 10 < 10 ^ (Z.of_nat fuel + 1)).
      { split; [apply Z.div_pos; lia|].
        apply Z.div_lt_upper_bound; [lia|].
        rewrite <- Z.pow_succ_r by lia.
        replace (Z.succ (Z.of_nat fuel + 1)) with (Z.of_nat (S fuel) + 1) by lia.
        lia. }
      destruct (IH (n / 10) Hq) as [H1 H2]. split; [lia|].
      rewrite Nat2Z.inj_succ, Z.pow_succ_r by lia.
      pose proof (Z.div_mod n 10 ltac:(lia)).
      pose proof (Z.mod_pos_bound n 10 ltac:(lia)). lia.
Qed.

Lemma dec_string_spec (q : Z) :
  0 <= q ->
  exists w : nat,
    dec_string q = digits_fixed (S w) q /\ q < 10 ^ Z.of_nat (S w).
Proof.
  intros Hq. unfold dec_string.
  set (fuel := Z.to_nat (Z.log2 q)).
  assert (Hb : 0 <= q < 10 ^ (Z.of_nat fuel + 1)).
  { split; [exact Hq|]. destruct (Z.eq_dec q 0) as [->|Hn]; [reflexivity|].
    destruct (Z.log2_spec q ltac:(lia)) as [_ Hhi].
    pose proof (Z.log2_nonneg q).
    unfold fuel. rewrite Z2Nat.id by lia.
    assert (2 ^ (Z.log2 q + 1) <= 10 ^ (Z.log2 q + 1))
      by (apply Z.pow_le_mono_l; lia).
    replace (Z.succ (Z.log2 q)) with (Z.log2 q + 1) in Hhi by lia. lia. }
  destruct (ndigits_spec fuel q Hb) as [H1 H2].
  destruct (ndigits fuel q) as [|w]; [lia|].
  exists w. split; [reflexivity|exact H2].
Qed.

Lemma digits_fixed_head (w : nat) :
  forall (n : Z) (c0 : ascii) (Y : string),
    (c0 = "."%char \/ exists d0 : Z, 0 <= d0 < 10 /\ c0 = digit_char d0) ->
    exists (d : Z) (c2 : ascii) (t : string),
      0 <= d < 10 /\
      (digits_fixed (S w) n ++ String c0 Y)%string
      = String (digit_char d) (String c2 t) /\
      (c2 = "."%char \/ exists d2 : Z, 0 <= d2 < 10 /\ c2 = digit_char d2).
Proof.
  induction w as [|w IH]; intros n c0 Y H0.
  - exists (n mod 10), c0, Y. split; [apply Z.mod_pos_bound; lia|].
    split; [reflexivity|exact H0].
  - change (digits_fixed (S (S w)) n)
      with (digits_fixed (S w) (n / 10)
            ++ String (digit_char (n mod 10)) EmptyString)%string.
    rewrite append_assoc_string. cbn [append].
    apply IH. right. exists (n mod 10).
    split; [apply Z.mod_pos_bound; lia|reflexivity].
Qed.

Ltac digit_cases d H :=
  let E := fresh "E" in
  assert (E : d = 0 \/ d = 1 \/ d = 2 \/ d = 3 \/ d = 4 \/ d = 5 \/ d = 6
              \/ d = 7 \/ d = 8 \/ d = 9) by lia;
  clear H;
  repeat (destruct E as [-> | E]); [..|subst d].

Lemma digit_head_facts (d : Z) (t : string) :
  0 <= d < 10 ->
  let s := String (digit_char d) t in
  skip_space s = s /\ skip_blank s = s /\ read_sign s = (false, s).
Proof. intros H. digit_cases d H; repeat split; reflexivity. Qed.

Lemma strtod_hex_digits (sg : bool) (d : Z) (c2 : ascii) (t : string) :
  0 <= d < 10 ->
  (c2 = "."%char \/ exists d2 : Z, 0 <= d2 < 10 /\ c2 = digit_char d2) ->
  strtod_hex sg (String (digit_char d) (String c2 t)) = None.
Proof.
  intros H [->|(d2 & H2 & ->)].
  - digit_cases d H; reflexivity.
  - digit_cases d H; try reflexivity.
    digit_cases d2 H2; reflexivity.
Qed.

Lemma read_digits_stop (c : ascii) (r : string) (acc cnt : Z) :
  c = ","%char \/ c = "}"%char \/ c = "."%char ->
  read_digits 10 digit_of (String c r) acc cnt = (acc, cnt, String c r).
Proof. intros [->|[->| ->]]; reflexivity. Qed.

Lemma atof_minus (b : string) :
  atof (String "-" b)
  = match strtod_hex true b with
    | Some v => v
    | None =>
        match strtod_decimal true b with
        | Some v => v
        | None =>
            if prefix_ci "inf" b then S754_infinity true
            else if prefix_ci "nan" b then S754_nan
            else S754_zero false
        end
    end.
Proof. reflexivity. Qed.

(** The text that ["%.pf"] prints for the magnitude [k] units of [10^-p],
    followed by a comma or a closing brace, reads back as [k * 10^-p]. *)
Lemma atof_fixed (s : bool) (p : nat) (k : Z) (c : ascii) (r : string) :
  0 <= k -> c = ","%char \/ c = "}"%char ->
  let t := (sign_string s ++ fixed_string p k ++ String c r)%string in
  skip_blank t = t /\ atof t = f64_of_decimal s k (- Z.of_nat p).
Proof.
  intros Hk Hc t.
  assert (Hp : 0 < 10 ^ Z.of_nat p) by (apply Z.pow_pos_nonneg; lia).
  assert (Hq : 0 <= k / 10 ^ Z.of_nat p) by (apply Z.div_pos; lia).
  destruct (dec_string_spec (k / 10 ^ Z.of_nat p) Hq) as (w & Ew & Hw).
  set (body := (fixed_string p k ++ String c r)%string).
  assert (Eb : body = (digits_fixed (S w) (k / 10 ^ Z.of_nat p)
                       ++ String "."%char (digits_fixed p k ++ String c r))%string).
  { unfold body, fixed_string. rewrite Ew, append_assoc_string. reflexivity. }
  destruct (digits_fixed_head w (k / 10 ^ Z.of_nat p) "."%char
              (digits_fixed p k ++ String c r)%string ltac:(left; reflexivity))
    as (d & c2 & t' & Hd & Eh & H2).
  destruct (digit_head_facts d (String c2 t') Hd) as (F1 & F2 & F3).
  pose proof (strtod_hex_digits s d c2 t' Hd H2) as Fhex.
  rewrite <- Eh, <- Eb in F1, F2, F3, Fhex.
  assert (Fdec : strtod_decimal s body
                 = Some (f64_of_decimal s k (- Z.of_nat p))).
  { unfold strtod_decimal, read_mantissa. rewrite Eb.
    rewrite read_digits_fixed.
    rewrite read_digits_stop by tauto.
    rewrite read_digits_fixed.
    rewrite read_digits_stop by tauto.
    rewrite (Z.mod_small (k / 10 ^ Z.of_nat p)) by lia.
    replace ((0 * 10 ^ Z.of_nat (S w) + k / 10 ^ Z.of_nat p) * 10 ^ Z.of_nat p
             + k mod 10 ^ Z.of_nat p)
      with k by (pose proof (Z.div_mod k (10 ^ Z.of_nat p) ltac:(lia)); lia).
    assert (Hcnt : (0 + Z.of_nat (S w) + (0 + Z.of_nat p) =? 0) = false)
      by (apply Z.eqb_neq; lia).
    rewrite Hcnt.
    assert (He : read_exponent "e" "E" (String c r) = 0)
      by (destruct Hc as [->| ->]; reflexivity).
    rewrite He. repeat f_equal; lia. }
  subst t. fold body. destruct s; cbn [sign_string append].
  - split; [reflexivity|].
    rewrite atof_minus, Fhex, Fdec. reflexivity.
  - split; [exact F2|].
    unfold atof. rewrite F1, F3, Fhex, Fdec. reflexivity.
Qed.

Lemma atof_nan (c : ascii) (r : string) :
  let t := ("nan" ++ String c r)%string in
  skip_blank t = t /\ atof t = S754_nan.
Proof. split; reflexivity. Qed.

(** ** One field of the state, printed and read back *)

Lemma scaled_decimal_ulps (p : nat) (s : bool) (m : positive) (e : Z) :
  valid32 (S754_finite s m e) = true ->
  scaled_decimal p m e
  = round_half_even (Zpos m * 2 ^ (e + 149) * 10 ^ Z.of_nat p) (2 ^ 149).
Proof.
  intros V. destruct (valid_finite_bounds s m e V) as (He & _).
  assert (Hp : 0 < 10 ^ Z.of_nat p) by (apply Z.pow_pos_nonneg; lia).
  unfold scaled_decimal. destruct (Z.leb_spec 0 e) as [H0|H0].
  - rewrite (Z.pow_add_r 2 e 149) by lia.
    replace (Zpos m * (2 ^ e * 2 ^ 149) * 10 ^ Z.of_nat p)
      with (Zpos m * 2 ^ e * 10 ^ Z.of_nat p * 2 ^ 149) by ring.
    rewrite round_half_even_exact.
    + rewrite Z.div_mul; [reflexivity|]. pose proof (pow2_pos 149 ltac:(lia)). lia.
    + apply pow2_pos. lia.
    + apply Z.mod_mul. pose proof (pow2_pos 149 ltac:(lia)). lia.
  - replace (2 ^ 149) with (2 ^ (- e) * 2 ^ (e + 149))
      by (rewrite <- Z.pow_add_r by lia; f_equal; lia).
    replace (Zpos m * 2 ^ (e + 149) * 10 ^ Z.of_nat p)
      with (Zpos m * 10 ^ Z.of_nat p * 2 ^ (e + 149)) by ring.
    rewrite round_half_even_scale; [reflexivity| |]; apply pow2_pos; lia.
Qed.

Lemma fmt_f_decimal (p : nat) (x : float) (s : bool) (k : Z) :
  decimal_of p x = Some (s, k) ->
  fmt_f p x = (sign_string s ++ fixed_string p k)%string.
Proof.
  destruct x as [sx|sx| |sx m e]; intros H; try discriminate H;
    injection H as <- <-; reflexivity.
Qed.

Lemma clampf_in_range (lo hi x : float) :
  in_range lo hi x = true -> clampf x lo hi = x.
Proof.
  unfold in_range, clampf. rewrite !andb_true_iff, !negb_true_iff.
  intros [[_ H1] H2]. rewrite H1, H2. reflexivity.
Qed.

Lemma field_table_split (p : nat) (lo hi : float) (klo khi : Z) (bits : nat) :
  field_table p lo hi klo khi bits = true ->
  0 <= klo /\ finite32 lo = true /\ finite32 hi = true /\ 0 <= ulps lo /\
  klo * 2 ^ 149 <= ulps lo * 10 ^ Z.of_nat p /\
  ulps hi * 10 ^ Z.of_nat p <= khi * 2 ^ 149 /\
  forall k : Z, klo <= k <= khi ->
    in_range lo hi (reread p false k) = true /\
    decimal_of p (reread p false k) = Some (false, k).
Proof.
  unfold field_table. rewrite !andb_true_iff.
  intros (((((((H1 & H2) & H3) & H4) & H5) & H6) & H7) & H8).
  apply Z.leb_le in H1, H5, H6, H7. apply Z.ltb_lt in H2.
  repeat split; try assumption.
  - pose proof (range_all_spec bits 0 _ H8 k ltac:(lia)) as Hk.
    unfold reread_ok in Hk.
    destruct (Z.leb_spec klo k), (Z.leb_spec k khi); try lia.
    cbn [andb] in Hk. apply andb_prop in Hk. apply Hk.
  - pose proof (range_all_spec bits 0 _ H8 k ltac:(lia)) as Hk.
    unfold reread_ok in Hk.
    destruct (Z.leb_spec klo k), (Z.leb_spec k khi); try lia.
    cbn [andb] in Hk. apply andb_prop in Hk. destruct Hk as [_ Hk].
    destruct (decimal_of p (reread p false k)) as [[[] k']|];
      try discriminate Hk.
    apply Z.eqb_eq in Hk. subst k'. reflexivity.
Qed.

(** A finite value between the bounds prints a decimal between the printed
    bounds, with a minus sign only when it is the negative zero. *)
Lemma in_range_decimal (p : nat) (lo hi : float) (klo khi : Z) (bits : nat)
    (x : float) :
  field_table p lo hi klo khi bits = true ->
  in_range lo hi x = true ->
  (exists s : bool, x = S754_zero s) \/
  (exists k : Z, decimal_of p x = Some (false, k) /\ klo <= k <= khi).
Proof.
  intros Ht Hx.
  destruct (field_table_split p lo hi klo khi bits Ht)
    as (K0 & Flo & Fhi & Ulo & Blo & Bhi & _).
  unfold in_range in Hx. rewrite !andb_true_iff, !negb_true_iff in Hx.
  destruct Hx as [[Fx H1] H2].
  apply finite32_split in Fx, Flo, Fhi.
  destruct Fx as [Vx Fx], Flo as [Vlo Flo], Fhi as [Vhi Fhi].
  rewrite (flt_ulps x lo Vx Vlo Fx Flo) in H1.
  rewrite (flt_ulps hi x Vhi Vx Fhi Fx) in H2.
  apply Z.ltb_ge in H1, H2.
  destruct x as [s| | |s m e]; try discriminate Fx; [left; exists s; reflexivity|].
  right. destruct (valid_finite_bounds s m e Vx) as (He & _).
  pose proof (pow2_pos (e + 149) ltac:(lia)) as Hpe.
  pose proof (pow2_pos 149 ltac:(lia)) as HD.
  assert (Hp : 0 < 10 ^ Z.of_nat p) by (apply Z.pow_pos_nonneg; lia).
  cbn [ulps] in H1, H2.
  destruct s; cbn [cond_Zopp] in H1, H2; [lia|].
  exists (scaled_decimal p m e). split; [reflexivity|].
  rewrite (scaled_decimal_ulps p false m e Vx).
  split.
  - apply round_half_even_ge; [exact HD|]. nia.
  - apply round_half_even_le; [exact HD|]. nia.
Qed.

Lemma reread_zero (p : nat) (s : bool) : reread p s 0 = S754_zero s.
Proof. reflexivity. Qed.

Lemma clampf_nan (lo hi : float) : clampf S754_nan lo hi = S754_nan.
Proof. unfold clampf. destruct lo, hi; reflexivity. Qed.

(** A field that holds a NaN or a value between its bounds, printed with
    [p] decimals and followed by a comma or a brace, is found again by
    [atof] and the clamp as the [float] nearest to the printed decimal; that
    value prints the same text. *)
Lemma field_round_trip (p : nat) (lo hi : float) (klo khi : Z) (bits : nat)
    (x : float) (c : ascii) (r : string) :
  field_table p lo hi klo khi bits = true ->
  field_ok lo hi x = true ->
  c = ","%char \/ c = "}"%char ->
  let t := (fmt_f p x ++ String c r)%string in
  let y := clampf (f32_of_f64 (atof t)) lo hi in
  skip_blank t = t /\ y = restored p x /\
  fmt_f p y = fmt_f p x /\ field_ok lo hi y = true.
Proof.
  intros Ht Hx Hc t y.
  unfold field_ok in Hx. apply orb_prop in Hx.
  destruct Hx as [Hn|Hr].
  - destruct x; try discriminate Hn.
    destruct (atof_nan c r) as [S A].
    subst y t. cbn [fmt_f]. rewrite S, A. cbn [f32_of_f64].
    rewrite clampf_nan. repeat split; reflexivity.
  - destruct (field_table_split p lo hi klo khi bits Ht)
      as (K0 & _ & _ & _ & _ & _ & Htab).
    destruct (in_range_decimal p lo hi klo khi bits x Ht Hr)
      as [[s ->]|(k & Hd & Hk)].
    + destruct (atof_fixed s p 0 c r ltac:(lia) Hc) as [S A].
      subst y t. cbn [fmt_f]. rewrite append_assoc_string, S, A.
      change (f32_of_f64 (f64_of_decimal s 0 (- Z.of_nat p))) with (S754_zero s).
      rewrite (clampf_in_range lo hi (S754_zero s) Hr).
      repeat split; try reflexivity.
      unfold field_ok. rewrite Hr. apply orb_true_r.
    + destruct (atof_fixed false p k c r ltac:(lia) Hc) as [S A].
      destruct (Htab k Hk) as [Ry Dy].
      subst y t. rewrite (fmt_f_decimal p x false k Hd).
      rewrite append_assoc_string, S, A.
      fold (reread p false k).
      rewrite (clampf_in_range lo hi _ Ry).
      split; [reflexivity|]. split; [unfold restored; rewrite Hd; reflexivity|].
      split; [exact (fmt_f_decimal p _ false k Dy)|].
      unfold field_ok. rewrite Ry. apply orb_true_r.
Qed.

(** ** The state, printed and read back *)

Lemma state_string_text (v : vocoder_instance_t) :
  state_string v
  = state_text (fmt_d (bands v)) (fmt_f 1 (freq_low v)) (fmt_f 1 (freq_high v))
      (fmt_f 1 (attack_ms v)) (fmt_f 1 (release_ms v)) (fmt_f 2 (mod_gain v))
      (fmt_f 2 (mix v)) (fmt_f 2 (carrier_mix v)).
Proof. reflexivity. Qed.

Lemma strstr_skip_char (c : ascii) (X key : string) :
  Ascii.eqb c dquote = false ->
  strstr (String c X) (json_search key) = strstr X (json_search key).
Proof.
  intros Hc. destruct (json_search_head key) as [p ->].
  rewrite strstr_cons. cbn [String.prefix].
  destruct (ascii_dec dquote c) as [E|E]; [|reflexivity].
  subst c. rewrite Ascii.eqb_refl in Hc. discriminate Hc.
Qed.

Ltac find_key :=
  unfold json_find, state_text;
  repeat first
    [ rewrite strstr_found
    | rewrite strstr_skip_char by reflexivity
    | rewrite strstr_skip_literal by reflexivity
    | rewrite strstr_skip_number by assumption ];
  rewrite drop_append; reflexivity.

Section Find.
Variables n0 n1 n2 n3 n4 n5 n6 n7 : string.
Hypothesis Q0 : no_quote n0 = true.
Hypothesis Q1 : no_quote n1 = true.
Hypothesis Q2 : no_quote n2 = true.
Hypothesis Q3 : no_quote n3 = true.
Hypothesis Q4 : no_quote n4 = true.
Hypothesis Q5 : no_quote n5 = true.
Hypothesis Q6 : no_quote n6 = true.

Let text := state_text n0 n1 n2 n3 n4 n5 n6 n7.
Let tail7 := (n7 ++ String "}" EmptyString)%string.
Let tail6 := (n6 ++ String "," (json_search "carrier_mix" ++ tail7))%string.
Let tail5 := (n5 ++ String "," (json_search "mix" ++ tail6))%string.
Let tail4 := (n4 ++ String "," (json_search "mod_gain" ++ tail5))%string.
Let tail3 := (n3 ++ String "," (json_search "release" ++ tail4))%string.
Let tail2 := (n2 ++ String "," (json_search "attack" ++ tail3))%string.
Let tail1 := (n1 ++ String "," (json_search "freq_high" ++ tail2))%string.
Let tail0 := (n0 ++ String "," (json_search "freq_low" ++ tail1))%string.

Lemma find_bands : json_find text "bands" = Some (skip_blank tail0).
Proof using Type. subst text. find_key. Qed.

Lemma find_freq_low : json_find text "freq_low" = Some (skip_blank tail1).
Proof using Q0. clear Q1 Q2 Q3 Q4 Q5 Q6. subst text. find_key. Qed.

Lemma find_freq_high : json_find text "freq_high" = Some (skip_blank tail2).
Proof using Q0 Q1. clear Q2 Q3 Q4 Q5 Q6. subst text. find_key. Qed.

Lemma find_attack : json_find text "attack" = Some (skip_blank tail3).
Proof using Q0 Q1 Q2. clear Q3 Q4 Q5 Q6. subst text. find_key. Qed.

Lemma find_release : json_find text "release" = Some (skip_blank tail4).
Proof using Q0 Q1 Q2 Q3. clear Q4 Q5 Q6. subst text. find_key. Qed.

Lemma find_mod_gain : json_find text "mod_gain" = Some (skip_blank tail5).
Proof using Q0 Q1 Q2 Q3 Q4. clear Q5 Q6. subst text. find_key. Qed.

Lemma find_mix : json_find text "mix" = Some (skip_blank tail6).
Proof using Q0 Q1 Q2 Q3 Q4 Q5. clear Q6. subst text. find_key. Qed.

Lemma find_carrier_mix :
  json_find text "carrier_mix" = Some (skip_blank tail7).
Proof using Q0 Q1 Q2 Q3 Q4 Q5 Q6. subst text. find_key. Qed.
End Find.

(** The six tables: every decimal that a field within its clamp can print
    reads back, unclamped, as a value that prints the same decimal. *)
Lemma table_freq_low :
  field_table 1 (f32_of_Z 80) (f32_of_Z 500) 800 5000 13 = true.
Proof. vm_compute. reflexivity. Qed.

Lemma table_freq_high :
  field_table 1 (f32_of_Z 2000) (f32_of_Z 12000) 20000 120000 17 = true.
Proof. vm_compute. reflexivity. Qed.

Lemma table_attack :
  field_table 1 (f32_lit 1 10) (f32_of_Z 50) 1 500 9 = true.
Proof. vm_compute. reflexivity. Qed.

Lemma table_release :
  field_table 1 (f32_of_Z 5) (f32_of_Z 500) 50 5000 13 = true.
Proof. vm_compute. reflexivity. Qed.

Lemma table_mod_gain : field_table 2 f_zero (f32_of_Z 3) 0 300 9 = true.
Proof. vm_compute. reflexivity. Qed.

Lemma table_mix : field_table 2 f_zero f_one 0 100 7 = true.
Proof. vm_compute. reflexivity. Qed.

(** One [json_get_float] and clamp of the state branch, on a text in which
    the key is followed by the printed field. *)
Lemma get_field (text key : string) (p : nat) (lo hi : float) (klo khi : Z)
    (bits : nat) (x : float) (c : ascii) (r : string) :
  json_find text key = Some (skip_blank (fmt_f p x ++ String c r)) ->
  field_table p lo hi klo khi bits = true ->
  field_ok lo hi x = true ->
  c = ","%char \/ c = "}"%char ->
  match json_get_float text key with
  | Some fv => clampf fv lo hi
  | None => x
  end = restored p x /\
  fmt_f p (restored p x) = fmt_f p x /\
  field_ok lo hi (restored p x) = true.
Proof.
  intros Hfind Ht Hx Hc.
  destruct (field_round_trip p lo hi klo khi bits x c r Ht Hx Hc)
    as (S & Y & F & K).
  unfold json_get_float. rewrite Hfind, S, Y.
  rewrite Y in F, K. repeat split; assumption.
Qed.

Lemma bands_text (n : Z) (X : string) :
  n = 8 \/ n = 16 \/ n = 24 \/ n = 32 ->
  no_quote (fmt_d n) = true /\
  snap_bands (clampi (atoi (skip_blank (fmt_d n ++ String "," X))) 8 32) = n.
Proof. intros [->|[->|[->| ->]]]; split; reflexivity. Qed.

Lemma state_ok_split (v : vocoder_instance_t) :
  state_ok v = true <->
  (bands v = 8 \/ bands v = 16 \/ bands v = 24 \/ bands v = 32) /\
  field_ok (f32_of_Z 80) (f32_of_Z 500) (freq_low v) = true /\
  field_ok (f32_of_Z 2000) (f32_of_Z 12000) (freq_high v) = true /\
  field_ok (f32_lit 1 10) (f32_of_Z 50) (attack_ms v) = true /\
  field_ok (f32_of_Z 5) (f32_of_Z 500) (release_ms v) = true /\
  field_ok f_zero (f32_of_Z 3) (mod_gain v) = true /\
  field_ok f_zero f_one (mix v) = true /\
  field_ok f_zero f_one (carrier_mix v) = true.
Proof.
  unfold state_ok. rewrite !andb_true_iff, !orb_true_iff, !Z.eqb_eq. tauto.
Qed.

(** The fields that the state branch stores when it is given the state
    text of the instance itself. *)
Lemma restore_fields_state (v : vocoder_instance_t) :
  state_ok v = true ->
  let u := restore_fields (state_string v) v in
  (bands u = bands v /\
   freq_low u = restored 1 (freq_low v) /\
   freq_high u = restored 1 (freq_high v) /\
   attack_ms u = restored 1 (attack_ms v) /\
   release_ms u = restored 1 (release_ms v) /\
   mod_gain u = restored 2 (mod_gain v) /\
   mix u = restored 2 (mix v) /\
   carrier_mix u = restored 2 (carrier_mix v)) /\
  state_string u = state_string v /\ state_ok u = true.
Proof.
  intros Hok u. apply state_ok_split in Hok.
  destruct Hok as (Hb & H1 & H2 & H3 & H4 & H5 & H6 & H7).
  pose proof (restore_fields_spec v (state_string v)) as R. cbn zeta in R.
  fold u in R. destruct R as (Rb & R1 & R2 & R3 & R4 & R5 & R6 & R7 & _).
  rewrite state_string_text in Rb, R1, R2, R3, R4, R5, R6, R7.
  pose proof (no_quote_fmt_f 1 (freq_low v)) as Q1.
  pose proof (no_quote_fmt_f 1 (freq_high v)) as Q2.
  pose proof (no_quote_fmt_f 1 (attack_ms v)) as Q3.
  pose proof (no_quote_fmt_f 1 (release_ms v)) as Q4.
  pose proof (no_quote_fmt_f 2 (mod_gain v)) as Q5.
  pose proof (no_quote_fmt_f 2 (mix v)) as Q6.
  destruct (bands_text (bands v) EmptyString Hb) as [Q0 _].
  unfold json_get_int in Rb. rewrite find_bands in Rb.
  match type of Rb with
  | context [skip_blank (fmt_d (bands v) ++ String "," ?X)] =>
      destruct (bands_text (bands v) X Hb) as [_ Eb]
  end.
  rewrite Eb in Rb.
  pose proof (find_freq_low (fmt_d (bands v)) (fmt_f 1 (freq_low v))
                (fmt_f 1 (freq_high v)) (fmt_f 1 (attack_ms v))
                (fmt_f 1 (release_ms v)) (fmt_f 2 (mod_gain v))
                (fmt_f 2 (mix v)) (fmt_f 2 (carrier_mix v))
                Q0) as G1.
  pose proof (find_freq_high (fmt_d (bands v)) (fmt_f 1 (freq_low v))
                (fmt_f 1 (freq_high v)) (fmt_f 1 (attack_ms v))
                (fmt_f 1 (release_ms v)) (fmt_f 2 (mod_gain v))
                (fmt_f 2 (mix v)) (fmt_f 2 (carrier_mix v))
                Q0 Q1) as G2.
  pose proof (find_attack (fmt_d (bands v)) (fmt_f 1 (freq_low v))
                (fmt_f 1 (freq_high v)) (fmt_f 1 (attack_ms v))
                (fmt_f 1 (release_ms v)) (fmt_f 2 (mod_gain v))
                (fmt_f 2 (mix v)) (fmt_f 2 (carrier_mix v))
                Q0 Q1 Q2) as G3.
  pose proof (find_release (fmt_d (bands v)) (fmt_f 1 (freq_low v))
                (fmt_f 1 (freq_high v)) (fmt_f 1 (attack_ms v))
                (fmt_f 1 (release_ms v)) (fmt_f 2 (mod_gain v))
                (fmt_f 2 (mix v)) (fmt_f 2 (carrier_mix v))
                Q0 Q1 Q2 Q3) as G4.
  pose proof (find_mod_gain (fmt_d (bands v)) (fmt_f 1 (freq_low v))
                (fmt_f 1 (freq_high v)) (fmt_f 1 (attack_ms v))
                (fmt_f 1 (release_ms v)) (fmt_f 2 (mod_gain v))
                (fmt_f 2 (mix v)) (fmt_f 2 (carrier_mix v))
                Q0 Q1 Q2 Q3 Q4) as G5.
  pose proof (find_mix (fmt_d (bands v)) (fmt_f 1 (freq_low v))
                (fmt_f 1 (freq_high v)) (fmt_f 1 (attack_ms v))
                (fmt_f 1 (release_ms v)) (fmt_f 2 (mod_gain v))
                (fmt_f 2 (mix v)) (fmt_f 2 (carrier_mix v))
                Q0 Q1 Q2 Q3 Q4 Q5) as G6.
  pose proof (find_carrier_mix (fmt_d (bands v)) (fmt_f 1 (freq_low v))
                (fmt_f 1 (freq_high v)) (fmt_f 1 (attack_ms v))
                (fmt_f 1 (release_ms v)) (fmt_f 2 (mod_gain v))
                (fmt_f 2 (mix v)) (fmt_f 2 (carrier_mix v))
                Q0 Q1 Q2 Q3 Q4 Q5 Q6) as G7.
  cbv zeta in G1, G2, G3, G4, G5, G6, G7.
  destruct (get_field _ _ _ _ _ _ _ _ _ _ _ G1 table_freq_low H1
              ltac:(left; reflexivity)) as (E1 & F1 & K1).
  destruct (get_field _ _ _ _ _ _ _ _ _ _ _ G2 table_freq_high H2
              ltac:(left; reflexivity)) as (E2 & F2 & K2).
  destruct (get_field _ _ _ _ _ _ _ _ _ _ _ G3 table_attack H3
              ltac:(left; reflexivity)) as (E3 & F3 & K3).
  destruct (get_field _ _ _ _ _ _ _ _ _ _ _ G4 table_release H4
              ltac:(left; reflexivity)) as (E4 & F4 & K4).
  destruct (get_field _ _ _ _ _ _ _ _ _ _ _ G5 table_mod_gain H5
              ltac:(left; reflexivity)) as (E5 & F5 & K5).
  destruct (get_field _ _ _ _ _ _ _ _ _ _ _ G6 table_mix H6
              ltac:(left; reflexivity)) as (E6 & F6 & K6).
  destruct (get_field _ _ _ _ _ _ _ _ _ _ _ G7 table_mix H7
              ltac:(right; reflexivity)) as (E7 & F7 & K7).
  rewrite E1 in R1. rewrite E2 in R2. rewrite E3 in R3. rewrite E4 in R4.
  rewrite E5 in R5. rewrite E6 in R6. rewrite E7 in R7.
  split; [repeat split; assumption|]. split.
  - rewrite !state_string_text, Rb, R1, R2, R3, R4, R5, R6, R7.
    rewrite F1, F2, F3, F4, F5, F6, F7. reflexivity.
  - apply state_ok_split. rewrite Rb, R1, R2, R3, R4, R5, R6, R7.
    repeat split; assumption.
Qed.

(** ** Conversions give well-formed values *)

(** Rounding gives a well-formed value whenever the quotient is not
    shorter than the format asks for. *)
Lemma round32_valid (s : bool) (p q e : Z) :
  0 <= p -> 0 < q -> e <= fexp32 (Zdigits2 (p / q) + e) ->
  valid32 (round32 s p q e) = true.
Proof.
  intros Hp Hq Hpre.
  assert (Hm : 0 <= p / q) by (apply Z.div_pos; lia).
  pose proof (Zdigits2_nonneg (p / q)) as Hd.
  remember (Zdigits2 (p / q)) as d eqn:Ed.
  remember (fexp32 (d + e)) as e1 eqn:Ee1.
  assert (He1 : -149 <= e1) by (subst e1; unfold fexp32; lia).
  unfold round32. rewrite <- Ed, <- Ee1.
  rewrite (Z.max_r 0 (e1 - e)) by lia.
  remember (e1 - e) as k eqn:Ek.
  remember (round_half_even p (q * 2 ^ k)) as m1 eqn:Em1.
  replace (e + k) with e1 by lia.
  assert (Hk : 0 <= k) by lia.
  pose proof (pow2_pos k Hk) as Hpk.
  assert (Hm1 : 0 <= m1) by (subst m1; apply round_half_even_nonneg; nia).
  pose proof (round_half_even_bounds p (q * 2 ^ k) ltac:(nia)) as Hb.
  rewrite <- Em1, <- Z.div_div in Hb by lia.
  assert (Hdk : d - k <= 24) by (subst k e1; unfold fexp32; lia).
  assert (Ht : p / q / 2 ^ k < 2 ^ 24).
  { destruct (Z.eq_dec (p / q) 0) as [E0|E0].
    - rewrite E0, Z.div_0_l by lia. reflexivity.
    - destruct (Zdigits2_bounds (p / q) ltac:(lia)) as [_ Hhi].
      rewrite <- Ed in Hhi.
      apply Z.div_lt_upper_bound; [exact Hpk|].
      assert (2 ^ d <= 2 ^ (k + 24)) by (apply Z.pow_le_mono_r; lia).
      rewrite Z.pow_add_r in H by lia. lia. }
  destruct (Z.eq_dec m1 0) as [E0|E0].
  { rewrite E0. rewrite Z.div_0_l; [reflexivity|].
    pose proof (pow2_pos (Z.max 0 (fexp32 (Zdigits2 0 + e1) - e1)) ltac:(lia)).
    lia. }
  assert (Hm1p : 0 < m1) by lia.
  pose proof (Zdigits2_pos m1 Hm1p) as Hd1.
  assert (Hnorm : -149 < e1 -> 2 ^ 23 <= m1).
  { intros Hn.
    assert (Hdk' : d - 1 = 23 + k) by (subst k e1; unfold fexp32 in *; lia).
    assert (Hpos : 0 < p / q).
    { destruct (Z.eq_dec (p / q) 0) as [E|E]; [|lia].
      rewrite E in Ed. cbn in Ed. lia. }
    destruct (Zdigits2_bounds (p / q) Hpos) as [Hmlo _].
    rewrite <- Ed, Hdk', Z.pow_add_r in Hmlo by lia.
    assert (2 ^ 23 <= p / q / 2 ^ k) by (apply Z.div_le_lower_bound; lia).
    lia. }
  destruct (Z.eq_dec m1 (2 ^ 24)) as [Etop|Etop].
  - (* the rounding carried into a 25th bit *)
    rewrite Etop. change (Zdigits2 (2 ^ 24)) with 25.
    assert (Hk2 : Z.max 0 (fexp32 (25 + e1) - e1) = 1) by (unfold fexp32; lia).
    rewrite Hk2. change (2 ^ 24 / 2 ^ 1) with (Zpos 8388608).
    unfold pack32. destruct (Z.leb_spec (e1 + 1) 104) as [Hle|Hgt]; [|reflexivity].
    apply valid_finite. split; [|exact Hle].
    change (Zdigits2 (Zpos 8388608)) with 24. unfold fexp32. lia.
  - assert (Hlt : m1 < 2 ^ 24) by lia.
    pose proof (Zdigits2_le m1 24 Hm1p Hlt ltac:(lia)) as Hd24.
    assert (Hk2 : Z.max 0 (fexp32 (Zdigits2 m1 + e1) - e1) = 0)
      by (unfold fexp32; lia).
    rewrite Hk2. change (2 ^ 0) with 1. rewrite Z.div_1_r, Z.add_0_r.
    unfold pack32. destruct m1 as [|pm|pm]; try lia.
    destruct (Z.leb_spec e1 104) as [Hle|Hgt]; [|reflexivity].
    apply valid_finite. split; [|exact Hle].
    destruct (Z.eq_dec e1 (-149)) as [Emin|Emin].
    + unfold fexp32. lia.
    + specialize (Hnorm ltac:(lia)).
      pose proof (Zdigits2_ge (Zpos pm) 24 Hnorm ltac:(lia)).
      unfold fexp32. lia.
Qed.

Lemma binary_round_valid (s : bool) (m : positive) (e : Z) :
  valid32 (binary_round 24 128 s m e) = true.
Proof.
  unfold binary_round. rewrite fexp32_eq.
  change (Zpos (digits2_pos m)) with (Zdigits2 (Zpos m)).
  set (e' := fexp32 (Zdigits2 (Zpos m) + e)).
  destruct (shl_align_spec m e e') as [Hs Hf].
  destruct (shl_align m e e') as [mz ez]. cbn [fst snd] in Hs, Hf.
  rewrite binary_round_aux_exact by lia.
  apply round32_valid; try lia.
  rewrite Z.div_1_r, Hf.
  rewrite Zdigits2_mul_pow by lia.
  replace (Zdigits2 (Zpos m) + (e - Z.min e e') + ez)
    with (Zdigits2 (Zpos m) + e) by lia.
  fold e'. lia.
Qed.

Lemma f32_of_f64_atof_valid (val : string) :
  valid32 (f32_of_f64 (atof val)) = true.
Proof.
  destruct (atof val) as [s|s| |s m e]; try reflexivity.
  apply binary_round_valid.
Qed.

(** What a clamp to finite bounds stores. *)
Lemma clampf_field_ok (lo hi x : float) :
  in_range lo hi lo = true -> in_range lo hi hi = true ->
  valid32 x = true ->
  field_ok lo hi (clampf x lo hi) = true.
Proof.
  intros Hlo Hhi Vx. unfold clampf, field_ok.
  destruct (flt x lo) eqn:E1; [rewrite Hlo; apply orb_true_r|].
  destruct (flt hi x) eqn:E2; [rewrite Hhi; apply orb_true_r|].
  unfold in_range in Hlo, Hhi |- *.
  rewrite !andb_true_iff in Hlo, Hhi.
  destruct Hlo as [[Flo _] _], Hhi as [[Fhi _] _].
  apply finite32_split in Flo, Fhi.
  destruct Flo as [Vlo Flo], Fhi as [Vhi Fhi].
  rewrite E1, E2. unfold finite32. rewrite Vx.
  destruct x as [s|s| |s m e]; try reflexivity.
  exfalso. destruct s.
  - destruct lo as [sl| | |sl ml el]; try discriminate Flo;
      cbn in E1; discriminate E1.
  - destruct hi as [sh| | |sh mh eh]; try discriminate Fhi;
      cbn in E2; discriminate E2.
Qed.

(** ** The parameters of a reachable instance *)

Lemma state_ok_same_params (v v' : vocoder_instance_t) :
  same_params v v' -> state_ok v = true -> state_ok v' = true.
Proof.
  intros (E0 & E1 & E2 & E3 & E4 & E5 & E6 & E7).
  unfold state_ok. rewrite E0, E1, E2, E3, E4, E5, E6, E7. exact id.
Qed.

Lemma state_string_same_params (v v' : vocoder_instance_t) :
  same_params v v' -> state_string v' = state_string v.
Proof.
  intros (E0 & E1 & E2 & E3 & E4 & E5 & E6 & E7).
  unfold state_string. rewrite E0, E1, E2, E3, E4, E5, E6, E7. reflexivity.
Qed.

Lemma snap_bands_valid (x : Z) :
  let b := snap_bands (clampi x 8 32) in
  b = 8 \/ b = 16 \/ b = 24 \/ b = 32.
Proof.
  destruct (snap_clamp_brackets x) as (H1 & H2 & H3 & H4). intros b.
  fold b in H1, H2, H3, H4.
  destruct (Z.le_gt_cases x 12); [left; auto|].
  destruct (Z.le_gt_cases x 20); [right; left; apply H2; lia|].
  destruct (Z.le_gt_cases x 28); [right; right; left; apply H3; lia|].
  right; right; right. apply H4. lia.
Qed.

Lemma json_get_float_valid (val key : string) (fv : float) :
  json_get_float val key = Some fv -> valid32 fv = true.
Proof.
  unfold json_get_float. destruct (json_find val key); [|discriminate].
  intros H. injection H as <-. apply f32_of_f64_atof_valid.
Qed.

Lemma frame_loop_params (h : host_api_v1_t) (k : nat) :
  forall i v n att rel mg wet dry nm audio,
    same_params v (fst (frame_loop k i h v n att rel mg wet dry nm audio)).
Proof.
  induction k as [|k IH]; intros i v n att rel mg wet dry nm audio.
  - repeat split.
  - cbn [frame_loop].
    match goal with
    | |- context [frame_signals ?v ?n ?a ?r ?g ?m ?x ?y ?z ?w] =>
        destruct (frame_signals_noise v n a r g m x y z w)
          as (_ & _ & _ & _ & _ & _ & Hp & _);
        pose proof (IH (i + 1) (fr_inst (frame_signals v n a r g m x y z w))
                      n att rel mg wet dry nm
                      (<[Z.to_nat (i * 2 + 1) :=
                           mix_sample
                             (fr_out_r (frame_signals v n a r g m x y z w))
                             (fr_car_r (frame_signals v n a r g m x y z w))
                             wet dry]>
                         (<[Z.to_nat (i * 2) :=
                              mix_sample
                                (fr_out_l (frame_signals v n a r g m x y z w))
                                (fr_car_l (frame_signals v n a r g m x y z w))
                                wet dry]> audio))) as Hq
    end.
    unfold same_params in *.
    destruct Hp as (A0 & A1 & A2 & A3 & A4 & A5 & A6 & A7).
    destruct Hq as (B0 & B1 & B2 & B3 & B4 & B5 & B6 & B7).
    rewrite B0, B1, B2, B3, B4, B5, B6, B7. repeat split; assumption.
Qed.

Lemma process_block_params (g_host : option host_api_v1_t)
    (v v' : vocoder_instance_t) (audio : list Z) (frames : Z) :
  fst (v2_process_block g_host (Some v) audio frames) = Some v' ->
  same_params v v'.
Proof.
  unfold v2_process_block. destruct g_host as [h|].
  - pose proof (frame_loop_params h (Z.to_nat frames) 0 v (bands v)
                  (att_coeff v) (rel_coeff v) (mod_gain v) (mix v)
                  (fsub f_one (mix v)) (carrier_mix v) audio) as H.
    destruct (frame_loop _ _ _ _ _ _ _ _ _ _ _ _) as [u out].
    cbn [fst] in *. intros E. injection E as <-. exact H.
  - cbn [fst]. intros E. injection E as <-. repeat split.
Qed.

Section Reachable.
Context {M : LibM}.

Lemma same_params_recalc (u : vocoder_instance_t) :
  same_params u (recalc_bands u).
Proof. unfold same_params. autorewrite with vocoder. repeat split. Qed.

Lemma state_ok_recalc (u : vocoder_instance_t) :
  state_ok u = true -> state_ok (recalc_bands u) = true.
Proof. apply state_ok_same_params, same_params_recalc. Qed.

Lemma create_state_ok : state_ok v2_create_instance = true.
Proof. unfold v2_create_instance. apply state_ok_recalc. vm_compute. reflexivity. Qed.

Ltac clamp_ok :=
  apply clampf_field_ok;
  [reflexivity | reflexivity
  | first [apply f32_of_f64_atof_valid
          | eapply json_get_float_valid; eassumption]].

Lemma restore_fields_ok (val : string) (v : vocoder_instance_t) :
  state_ok v = true -> state_ok (restore_fields val v) = true.
Proof.
  intros Hok. apply state_ok_split in Hok.
  destruct Hok as (Hb & H1 & H2 & H3 & H4 & H5 & H6 & H7).
  pose proof (restore_fields_spec v val) as R. cbn zeta in R.
  destruct R as (Rb & R1 & R2 & R3 & R4 & R5 & R6 & R7 & _).
  apply state_ok_split. rewrite Rb, R1, R2, R3, R4, R5, R6, R7.
  split; [destruct (json_get_int val "bands");
          [apply snap_bands_valid|exact Hb]|].
  repeat split;
    match goal with
    | |- context [json_get_float ?a ?b] =>
        destruct (json_get_float a b) eqn:?; [clamp_ok|assumption]
    end.
Qed.

Lemma set_param_state_ok (v : vocoder_instance_t) (key val : string) :
  state_ok v = true -> state_ok (set_param v key val) = true.
Proof.
  intros Hok. unfold set_param.
  destruct (String.eqb key "state").
  { apply state_ok_recalc.
    apply (state_ok_same_params (restore_fields val v)); [repeat split|].
    apply restore_fields_ok. exact Hok. }
  pose proof Hok as Hok'. apply state_ok_split in Hok'.
  destruct Hok' as (Hb & H1 & H2 & H3 & H4 & H5 & H6 & H7).
  destruct (String.eqb key "bands").
  { match goal with |- context [negb ?c] => destruct c end; cbn [negb];
      [exact Hok|].
    apply state_ok_recalc. apply state_ok_split. cbn.
    split; [apply snap_bands_valid|]. repeat split; assumption. }
  repeat match goal with
    | |- context [String.eqb key ?k] =>
        destruct (String.eqb key k);
        [try apply state_ok_recalc; apply state_ok_split; cbn;
         repeat split; first [assumption | clamp_ok]|]
    end.
  exact Hok.
Qed.

Lemma reachable_state_ok (v : vocoder_instance_t) :
  reachable v -> state_ok v = true.
Proof.
  induction 1 as [|v key val _ IH|v v' g audio frames _ IH E].
  - apply create_state_ok.
  - apply set_param_state_ok. exact IH.
  - exact (state_ok_same_params v v' (process_block_params g v v' audio frames E) IH).
Qed.
End Reachable.

(** C7.  For every reachable instance and a buffer that holds the whole
    state text, [getParameter("state")] followed by
    [setParameter("state", <that text>)] stores the band count unchanged
    and, in each float field, the [float] nearest to the decimal that was
    printed for it (one decimal for [freq_low], [freq_high], [attack] and
    [release], two for [mod_gain], [mix] and [carrier_mix]); the state text
    of the instance is the same afterwards, digit for digit. *)
Theorem state_round_trip (M : LibM) (v : vocoder_instance_t) (buf_len : Z) :
  reachable v ->
  strlen (state_string v) < buf_len < 2 ^ 64 ->
  exists s : string,
    get_param v "state" buf_len = (Some s, strlen s) /\
    let v' := set_param v "state" s in
    (bands v' = bands v /\
     freq_low v' = restored 1 (freq_low v) /\
     freq_high v' = restored 1 (freq_high v) /\
     attack_ms v' = restored 1 (attack_ms v) /\
     release_ms v' = restored 1 (release_ms v) /\
     mod_gain v' = restored 2 (mod_gain v) /\
     mix v' = restored 2 (mix v) /\
     carrier_mix v' = restored 2 (carrier_mix v)) /\
    get_param v' "state" buf_len = (Some s, strlen s).
Proof.
  intros Hr Hlen. pose proof (reachable_state_ok v Hr) as Hok.
  assert (Hget : forall u, get_param u "state" buf_len
                           = snprintf buf_len (state_string u)).
  { intros u. unfold get_param. eval_keys. reflexivity. }
  exists (state_string v). split.
  - rewrite Hget. apply snprintf_fits. exact Hlen.
  - cbn zeta. rewrite set_param_state_eq.
    destruct (restore_fields_state v Hok) as (F & S & _). cbn zeta in F, S.
    set (u := restore_fields (state_string v) v) in *.
    assert (P : same_params u (recalc_bands (clear_filters u))).
    { unfold same_params. autorewrite with vocoder. repeat split. }
    split.
    + destruct P as (E0 & E1 & E2 & E3 & E4 & E5 & E6 & E7).
      rewrite E0, E1, E2, E3, E4, E5, E6, E7. exact F.
    + rewrite Hget, (state_string_same_params u _ P), S.
      apply snprintf_fits. exact Hlen.
Qed.

Lemma state_round_trip_witness :
  exists s : string,
    get_param Sample.fresh "state" 256 = (Some s, strlen s) /\
    let v' := @set_param RefLibM.libm Sample.fresh "state" s in
    (bands v' = bands Sample.fresh /\
     freq_low v' = restored 1 (freq_low Sample.fresh) /\
     freq_high v' = restored 1 (freq_high Sample.fresh) /\
     attack_ms v' = restored 1 (attack_ms Sample.fresh) /\
     release_ms v' = restored 1 (release_ms Sample.fresh) /\
     mod_gain v' = restored 2 (mod_gain Sample.fresh) /\
     mix v' = restored 2 (mix Sample.fresh) /\
     carrier_mix v' = restored 2 (carrier_mix Sample.fresh)) /\
    get_param v' "state" 256 = (Some s, strlen s).
Proof.
  apply (state_round_trip RefLibM.libm Sample.fresh 256).
  - apply (@reach_create RefLibM.libm).
  - split; [vm_compute; reflexivity|reflexivity].
Defined.

Example state_string_fresh :
  state_string Sample.fresh
  = json_text
      "{'bands':16,'freq_low':100.0,'freq_high':8000.0,'attack':5.0,'release':50.0,'mod_gain':1.00,'mix':1.00,'carrier_mix':0.10}".
Proof. vm_compute. reflexivity. Qed.

(** ** Reachable instances are well formed *)

Lemma field_ok_valid (lo hi x : float) :
  field_ok lo hi x = true -> valid32 x = true.
Proof.
  unfold field_ok, in_range, finite32. intros H. apply orb_prop in H.
  destruct H as [H|H].
  - destruct x; try discriminate H. reflexivity.
  - rewrite !andb_true_iff in H. tauto.
Qed.

Lemma valid_instance_split (v : vocoder_instance_t) :
  valid_instance v = true <->
  1 <= bands v <= 32 /\
  (valid32 (mod_gain v) = true /\ valid32 (mix v) = true /\
   valid32 (carrier_mix v) = true) /\
  (valid32 (att_coeff v) = true /\ valid32 (rel_coeff v) = true) /\
  valid_filters v = true.
Proof.
  unfold valid_instance. rewrite !andb_true_iff, Z.leb_le, Z.leb_le. tauto.
Qed.

Lemma state_ok_valid (v : vocoder_instance_t) :
  state_ok v = true ->
  1 <= bands v <= 32 /\
  (valid32 (mod_gain v) = true /\ valid32 (mix v) = true /\
   valid32 (carrier_mix v) = true) /\
  valid32 (attack_ms v) = true /\ valid32 (release_ms v) = true.
Proof.
  intros H. apply state_ok_split in H.
  destruct H as (Hb & _ & _ & H3 & H4 & H5 & H6 & H7).
  split; [lia|].
  repeat split; eapply field_ok_valid; eassumption.
Qed.

Lemma frame_loop_filters (h : host_api_v1_t) (n : Z)
    (att rel mg wet dry nm : float) (k : nat) :
  1 <= n <= 32 ->
  valid32 att = true -> valid32 rel = true ->
  valid32 mg = true -> valid32 nm = true ->
  forall i v audio,
    valid_filters v = true ->
    let v' := fst (frame_loop k i h v n att rel mg wet dry nm audio) in
    same_coeffs v v' /\ valid_filters v' = true.
Proof.
  intros Hn Ha Hr Hg Hm.
  induction k as [|k IH]; intros i v audio Hv.
  - split; [repeat split|exact Hv].
  - cbn [frame_loop].
    match goal with
    | |- context [frame_signals v n att rel mg nm ?x ?y ?z ?w] =>
        destruct (frame_signals_noise v n att rel mg nm x y z w)
          as (_ & _ & _ & _ & _ & _ & _ & Hc);
        destruct (frame_signals_valid v n att rel mg nm x y z w
                    Hv Hn Ha Hr Hg Hm) as [Hf _];
        set (fr := frame_signals v n att rel mg nm x y z w) in *
    end.
    match goal with
    | |- context [frame_loop k ?j h ?u n att rel mg wet dry nm ?a] =>
        destruct (IH j u a Hf) as [Hc' Hf']
    end.
    split; [|exact Hf'].
    unfold same_coeffs in *.
    destruct Hc as (A0 & A1 & A2 & A3), Hc' as (B0 & B1 & B2 & B3).
    rewrite B0, B1, B2, B3. repeat split; assumption.
Qed.

Lemma process_block_valid (g_host : option host_api_v1_t)
    (v v' : vocoder_instance_t) (audio : list Z) (frames : Z) :
  valid_instance v = true ->
  fst (v2_process_block g_host (Some v) audio frames) = Some v' ->
  valid_instance v' = true.
Proof.
  intros Hv E.
  pose proof (process_block_params g_host v v' audio frames E) as P.
  apply valid_instance_split in Hv.
  destruct Hv as (Hb & (Vg & Vm & Vc) & (Va & Vr) & Vf).
  unfold v2_process_block in E. destruct g_host as [h|].
  - pose proof (frame_loop_filters h (bands v) (att_coeff v) (rel_coeff v)
                  (mod_gain v) (mix v) (fsub f_one (mix v)) (carrier_mix v)
                  (Z.to_nat frames) Hb Va Vr Vg Vc 0 v audio Vf) as H.
    destruct (frame_loop _ _ _ _ _ _ _ _ _ _ _ _) as [u out].
    cbn [fst] in *. injection E as <-. destruct H as [C F].
    destruct P as (E0 & _ & _ & _ & _ & E5 & E6 & E7).
    destruct C as (_ & _ & C2 & C3).
    apply valid_instance_split. rewrite E0, E5, E6, E7, C2, C3.
    repeat split; try assumption; lia.
  - cbn [fst] in E. injection E as <-.
    apply valid_instance_split. repeat split; try assumption; lia.
Qed.

Section WellFormed.
Context {M : LibM}.
Hypothesis HM : libm_valid M.

Lemma logf_valid (x : float) : valid32 (logf x) = true.
Proof using HM. apply HM. Qed.

Lemma expf_valid (x : float) : valid32 (expf x) = true.
Proof using HM. apply HM. Qed.

Lemma sinf_valid (x : float) : valid32 (sinf x) = true.
Proof using HM. apply HM. Qed.

Lemma recalc_loop_valid (n : Z) (ll lh : float) (k : nat) :
  1 <= n <= 32 ->
  forall (i : Z) (bf bq : list float),
    forallb valid32 bf = true -> forallb valid32 bq = true ->
    let r := recalc_loop k i n ll lh bf bq in
    forallb valid32 (fst r) = true /\ forallb valid32 (snd r) = true.
Proof using HM.
  intros Hn. induction k as [|k IH]; intros i bf bq Hf Hq.
  - split; assumption.
  - cbn [recalc_loop]. apply IH.
    + apply forallb_insert; [exact Hf|].
      match goal with |- context [flt f_one ?f] =>
        assert (Vf : valid32 f = true)
          by (apply fmul_valid; [apply f32_of_Z_valid|apply sinf_valid]);
        destruct (flt f_one f); [reflexivity|exact Vf]
      end.
    + apply forallb_insert; [exact Hq|].
      pose proof (fsqrt_bands_valid n Hn).
      assert (valid32 f_one = true) by reflexivity.
      auto 8 with wf.
Qed.

Lemma recalc_valid_instance (v : vocoder_instance_t) :
  state_ok v = true -> valid_filters v = true ->
  valid_instance (recalc_bands v) = true.
Proof using HM.
  intros Hok Hf.
  destruct (state_ok_valid v Hok) as (Hb & (Vg & Vm & Vc) & Va & Vr).
  apply valid_filters_split in Hf. destruct Hf as ((Ff & Fq) & Fs & Fe).
  unfold recalc_bands.
  match goal with
  | |- context [recalc_loop ?k ?i ?n ?a ?b ?c ?d] =>
      destruct (recalc_loop_valid n a b k Hb i c d Ff Fq) as [Rf Rq];
      destruct (recalc_loop k i n a b c d) as [bf bq]
  end.
  cbn [fst snd] in Rf, Rq.
  apply valid_instance_split. cbn.
  split; [lia|]. split; [repeat split; assumption|]. split.
  - assert (valid32 f_one = true) by reflexivity.
    split; apply fsub_valid; try assumption; apply expf_valid.
  - apply valid_filters_split. cbn. repeat split; try assumption; tauto.
Qed.

Lemma state_ok_recalc_inv (u : vocoder_instance_t) :
  state_ok (recalc_bands u) = true -> state_ok u = true.
Proof using Type.
  apply state_ok_same_params. unfold same_params.
  autorewrite with vocoder. repeat split.
Qed.

Lemma set_param_valid (v : vocoder_instance_t) (key val : string) :
  state_ok v = true -> valid_instance v = true ->
  valid_instance (set_param v key val) = true.
Proof using HM.
  intros Hok Hv.
  pose proof (set_param_state_ok v key val Hok) as Hok'.
  pose proof Hv as Hv'. apply valid_instance_split in Hv'.
  destruct Hv' as (Hb & (Vg & Vm & Vc) & (Va & Vr) & Vf).
  pose proof Vf as Vf'. apply valid_filters_split in Vf'.
  destruct Vf' as ((Ff & Fq) & Fs & Fe).
  unfold set_param in Hok' |- *.
  destruct (String.eqb key "state").
  { apply recalc_valid_instance; [exact (state_ok_recalc_inv _ Hok')|].
    destruct (restore_fields_spec v val)
      as (_ & _ & _ & _ & _ & _ & _ & _ & _ & (C0 & C1 & _) & _).
    apply valid_filters_split. cbn. rewrite C0, C1.
    repeat split; try assumption; reflexivity. }
  destruct (String.eqb key "bands").
  { match goal with |- context [negb ?c] => destruct c end; cbn [negb] in *;
      [exact Hv|].
    apply recalc_valid_instance; [exact (state_ok_recalc_inv _ Hok')|].
    apply valid_filters_split. cbn.
    repeat split; try assumption; reflexivity. }
  repeat match goal with
    | |- context [String.eqb key ?k] =>
        destruct (String.eqb key k);
        [first
           [ apply recalc_valid_instance;
             [exact (state_ok_recalc_inv _ Hok')|exact Vf]
           | destruct (state_ok_valid _ Hok') as (_ & (Wg & Wm & Wc) & _);
             apply valid_instance_split;
             repeat split;
             first [ exact Wg | exact Wm | exact Wc | exact Va | exact Vr
                   | exact Vf | exact (proj1 Hb) | exact (proj2 Hb) ] ]|]
    end.
  exact Hv.
Qed.

(** Every reachable instance is one that [v2_process_block] expects. *)
Lemma reachable_valid_instance (v : vocoder_instance_t) :
  reachable v -> valid_instance v = true.
Proof using HM.
  induction 1 as [|v key val Hr IH|v v' g audio frames _ IH E].
  - unfold v2_create_instance. apply recalc_valid_instance;
      vm_compute; reflexivity.
  - apply set_param_valid; [apply reachable_state_ok; exact Hr|exact IH].
  - exact (process_block_valid g v v' audio frames IH E).
Qed.
End WellFormed.

(** The reference library returns well-formed values. *)
Lemma ref_libm_valid : libm_valid RefLibM.libm.
Proof.
  assert (T : forall z e, valid32 (RefLibM.to_float z e) = true).
  { intros z e. unfold RefLibM.to_float, binary_normalize.
    destruct z; [reflexivity| |]; apply binary_round_valid. }
  intros x. cbn [logf expf sinf RefLibM.libm]. repeat split.
  - destruct x as [s|s| |s m e]; cbn [RefLibM.ref_logf]; try reflexivity;
      destruct s; try reflexivity. apply T.
  - destruct x as [s|s| |s m e]; cbn [RefLibM.ref_expf]; try reflexivity.
    + destruct s; reflexivity.
    + destruct (8 <=? e); [destruct s; reflexivity|apply T].
  - destruct x as [s|s| |s m e]; cbn [RefLibM.ref_sinf]; try reflexivity.
    destruct (40 <=? e); [reflexivity|apply T].
Qed.

(** ** Silence in, silence out *)

Lemma fmul_null_l (x y : float) : null x = true -> null (fmul x y) = true.
Proof. destruct x, y; intros H; try discriminate H; reflexivity. Qed.

Lemma fmul_null_r (x y : float) : null y = true -> null (fmul x y) = true.
Proof. destruct x, y; intros H; try discriminate H; reflexivity. Qed.

Lemma fadd_null (x y : float) :
  null x = true -> null y = true -> null (fadd x y) = true.
Proof.
  destruct x as [[]| | |], y as [[]| | |]; intros H1 H2;
    try discriminate H1; try discriminate H2; reflexivity.
Qed.

Lemma fsub_null (x y : float) :
  null x = true -> null y = true -> null (fsub x y) = true.
Proof.
  destruct x as [[]| | |], y as [[]| | |]; intros H1 H2;
    try discriminate H1; try discriminate H2; reflexivity.
Qed.

Lemma fabsf_null (x : float) : null x = true -> null (fabsf x) = true.
Proof. destruct x; intros H; try discriminate H; reflexivity. Qed.

Lemma mix_sample_null (out car wet dry : float) :
  null (fmul out wet) = true -> null (fmul car dry) = true ->
  mix_sample out car wet dry = 0.
Proof.
  intros H1 H2. unfold mix_sample.
  pose proof (fadd_null _ _ H1 H2) as H.
  destruct (fadd (fmul out wet) (fmul car dry)) as [[]| | |];
    try discriminate H; reflexivity.
Qed.

Lemma svf_bandpass_null (s : svf_state_t) (input f q : float) :
  null_svf s = true -> null input = true ->
  null_svf (fst (svf_bandpass s input f q)) = true /\
  null (snd (svf_bandpass s input f q)) = true.
Proof.
  unfold null_svf, svf_bandpass. intros H Hi.
  apply andb_prop in H. destruct H as [Hl Hb]. cbn [fst snd low band].
  assert (L : null (fadd (low s) (fmul f (band s))) = true)
    by (apply fadd_null; [exact Hl|apply fmul_null_r; exact Hb]).
  assert (B : null (fadd (band s)
                      (fmul f (fsub (fsub input (fadd (low s) (fmul f (band s))))
                                 (fmul q (band s))))) = true).
  { apply fadd_null; [exact Hb|]. apply fmul_null_r.
    apply fsub_null; [apply fsub_null; assumption|].
    apply fmul_null_r. exact Hb. }
  rewrite L, B. split; reflexivity.
Qed.

Lemma env_follow_null (e : env_state_t) (input att rel : float) :
  null_env e = true -> null input = true ->
  null_env (fst (env_follow e input att rel)) = true /\
  null (snd (env_follow e input att rel)) = true.
Proof.
  unfold null_env, env_follow. intros He Hi. cbn [fst snd level].
  assert (H : forall c, null (fadd (level e)
                           (fmul c (fsub (fabsf input) (level e)))) = true).
  { intros c. apply fadd_null; [exact He|]. apply fmul_null_r.
    apply fsub_null; [apply fabsf_null; exact Hi|exact He]. }
  split; apply H.
Qed.

Lemma trace_end_cons (v : vocoder_instance_t) (fr : frame_t)
    (tr : list frame_t) :
  trace_end v (fr :: tr) = trace_end (fr_inst fr) tr.
Proof. reflexivity. Qed.

(** The instance that [frame_loop] returns is the one that the last frame
    of the run leaves. *)
Lemma frame_loop_end h n att rel mg wet dry nm audio0 k :
  forall i v audio,
    0 <= i ->
    (forall j, (Z.to_nat (i * 2) <= j)%nat -> audio !! j = audio0 !! j) ->
    fst (frame_loop k i h v n att rel mg wet dry nm audio)
    = trace_end v (frame_trace k i h v n att rel mg nm audio0).
Proof.
  induction k as [|k IH]; intros i v audio Hi Hsame; [reflexivity|].
  cbn [frame_loop frame_trace]. rewrite trace_end_cons.
  rewrite !(Hsame (Z.to_nat (i * 2))) by lia.
  rewrite !(Hsame (Z.to_nat (i * 2 + 1))) by lia.
  apply IH; [lia|].
  intros j Hj. rewrite !list_lookup_insert_ne by lia. apply Hsame. lia.
Qed.

(** What every frame of a run keeps, it keeps to the end of the run. *)
Lemma frame_trace_invariant (I : vocoder_instance_t -> Prop)
    (Q : frame_t -> Prop) h n att rel mg nm audio (hi : Z) :
  (forall v i, 0 <= i < hi -> I v ->
     let fr := frame_signals v n att rel mg nm
                 (default 0 (audio !! Z.to_nat (i * 2)))
                 (default 0 (audio !! Z.to_nat (i * 2 + 1)))
                 (mic_in h (i * 2)) (mic_in h (i * 2 + 1)) in
     I (fr_inst fr) /\ Q fr) ->
  forall k i v,
    0 <= i -> i + Z.of_nat k <= hi -> I v ->
    let tr := frame_trace k i h v n att rel mg nm audio in
    I (trace_end v tr) /\ forall m fr, tr !! m = Some fr -> Q fr.
Proof.
  intros Hstep. induction k as [|k IH]; intros i v Hi Hk Hv; cbv zeta.
  - split; [exact Hv|]. intros m fr Hm. cbn [frame_trace] in Hm.
    rewrite lookup_nil in Hm. discriminate Hm.
  - cbn [frame_trace]. rewrite trace_end_cons.
    destruct (Hstep v i ltac:(lia) Hv) as [Hi1 Hq].
    destruct (IH (i + 1) _ ltac:(lia) ltac:(lia) Hi1) as [He Hall].
    split; [exact He|].
    intros [|m] fr Hm; cbn [lookup list_lookup] in Hm.
    + injection Hm as <-. exact Hq.
    + exact (Hall m fr Hm).
Qed.

Lemma car_null_split (v : vocoder_instance_t) :
  car_null v = true <->
  forallb null_svf (car_svf_l v) = true /\ forallb null_svf (car_svf_r v) = true.
Proof. unfold car_null. apply andb_true_iff. Qed.

Lemma mod_null_split (v : vocoder_instance_t) :
  mod_null v = true <->
  (forallb null_svf (mod_svf_l v) = true /\
   forallb null_svf (mod_svf_r v) = true) /\
  forallb null_env (mod_env_l v) = true /\
  forallb null_env (mod_env_r v) = true.
Proof. unfold mod_null. rewrite !andb_true_iff. tauto. Qed.

Lemma process_band_car_null (v : vocoder_instance_t) (b : nat)
    (ml mr cl cr att rel ol or_ : float) :
  car_null v = true -> null cl = true -> null cr = true ->
  null ol = true -> null or_ = true ->
  let r := process_band v b ml mr cl cr att rel ol or_ in
  car_null (fst (fst r)) = true /\
  null (snd (fst r)) = true /\ null (snd r) = true.
Proof.
  intros Hv Hcl Hcr Hol Hor. apply car_null_split in Hv.
  destruct Hv as [Hl Hr]. cbv zeta.
  pose proof (forallb_default null_svf svf_zero _ b Hl eq_refl) as Al.
  pose proof (forallb_default null_svf svf_zero _ b Hr eq_refl) as Ar.
  fold (at_svf (car_svf_l v) b) in Al. fold (at_svf (car_svf_r v) b) in Ar.
  unfold process_band.
  destruct (svf_bandpass (at_svf (mod_svf_l v) b) ml _ _) as [s1 o1].
  destruct (svf_bandpass (at_svf (mod_svf_r v) b) mr _ _) as [s2 o2].
  destruct (env_follow (at_env (mod_env_l v) b) o1 att rel) as [e1 l1].
  destruct (env_follow (at_env (mod_env_r v) b) o2 att rel) as [e2 l2].
  destruct (svf_bandpass_null _ cl (at_f (band_f v) b) (at_f (band_q v) b)
              Al Hcl) as [A3 B3].
  destruct (svf_bandpass (at_svf (car_svf_l v) b) cl _ _) as [s3 o3].
  destruct (svf_bandpass_null _ cr (at_f (band_f v) b) (at_f (band_q v) b)
              Ar Hcr) as [A4 B4].
  destruct (svf_bandpass (at_svf (car_svf_r v) b) cr _ _) as [s4 o4].
  cbn [fst snd] in *. split; [|split].
  - apply car_null_split. cbn. split; apply forallb_insert; assumption.
  - apply fadd_null; [exact Hol|apply fmul_null_l; exact B3].
  - apply fadd_null; [exact Hor|apply fmul_null_l; exact B4].
Qed.

Lemma process_band_mod_null (v : vocoder_instance_t) (b : nat)
    (ml mr cl cr att rel ol or_ : float) :
  mod_null v = true -> null ml = true -> null mr = true ->
  null ol = true -> null or_ = true ->
  let r := process_band v b ml mr cl cr att rel ol or_ in
  mod_null (fst (fst r)) = true /\
  null (snd (fst r)) = true /\ null (snd r) = true.
Proof.
  intros Hv Hml Hmr Hol Hor. apply mod_null_split in Hv.
  destruct Hv as ((Hl & Hr) & El & Er). cbv zeta.
  pose proof (forallb_default null_svf svf_zero _ b Hl eq_refl) as Al.
  pose proof (forallb_default null_svf svf_zero _ b Hr eq_refl) as Ar.
  pose proof (forallb_default null_env env_zero _ b El eq_refl) as Bl.
  pose proof (forallb_default null_env env_zero _ b Er eq_refl) as Br.
  fold (at_svf (mod_svf_l v) b) in Al. fold (at_svf (mod_svf_r v) b) in Ar.
  fold (at_env (mod_env_l v) b) in Bl. fold (at_env (mod_env_r v) b) in Br.
  unfold process_band.
  destruct (svf_bandpass_null _ ml (at_f (band_f v) b) (at_f (band_q v) b)
              Al Hml) as [A1 B1].
  destruct (svf_bandpass (at_svf (mod_svf_l v) b) ml _ _) as [s1 o1].
  destruct (svf_bandpass_null _ mr (at_f (band_f v) b) (at_f (band_q v) b)
              Ar Hmr) as [A2 B2].
  destruct (svf_bandpass (at_svf (mod_svf_r v) b) mr _ _) as [s2 o2].
  cbn [fst snd] in A1, B1, A2, B2.
  destruct (env_follow_null _ o1 att rel Bl B1) as [A5 B5].
  destruct (env_follow (at_env (mod_env_l v) b) o1 att rel) as [e1 l1].
  destruct (env_follow_null _ o2 att rel Br B2) as [A6 B6].
  destruct (env_follow (at_env (mod_env_r v) b) o2 att rel) as [e2 l2].
  destruct (svf_bandpass (at_svf (car_svf_l v) b) cl _ _) as [s3 o3].
  destruct (svf_bandpass (at_svf (car_svf_r v) b) cr _ _) as [s4 o4].
  cbn [fst snd] in *. split; [|split].
  - apply mod_null_split. cbn.
    repeat split; apply forallb_insert; assumption.
  - apply fadd_null; [exact Hol|apply fmul_null_r; exact B5].
  - apply fadd_null; [exact Hor|apply fmul_null_r; exact B6].
Qed.

Lemma band_loop_null (N : vocoder_instance_t -> bool)
    (ml mr cl cr att rel : float) :
  (forall v b ol or_, N v = true -> null ol = true -> null or_ = true ->
     let r := process_band v b ml mr cl cr att rel ol or_ in
     N (fst (fst r)) = true /\
     null (snd (fst r)) = true /\ null (snd r) = true) ->
  forall (k b : nat) (v : vocoder_instance_t) (ol or_ : float),
    N v = true -> null ol = true -> null or_ = true ->
    let r := band_loop k b v ml mr cl cr att rel ol or_ in
    N (fst (fst r)) = true /\
    null (snd (fst r)) = true /\ null (snd r) = true.
Proof.
  intros Hstep. induction k as [|k IH]; intros b v ol or_ Hv Hol Hor; cbv zeta.
  - cbn. repeat split; assumption.
  - cbn [band_loop].
    pose proof (Hstep v b ol or_ Hv Hol Hor) as H. cbv zeta in H.
    destruct (process_band v b ml mr cl cr att rel ol or_) as [[v1 o1] o2].
    cbn [fst snd] in H. destruct H as (H1 & H2 & H3).
    exact (IH (S b) v1 o1 o2 H1 H2 H3).
Qed.

(** A frame on a silent carrier with the noise switched off. *)
Lemma frame_signals_car_null (v : vocoder_instance_t) (n : Z)
    (att rel mg nm : float) (mic_l mic_r : Z) :
  car_null v = true -> null nm = true ->
  let fr := frame_signals v n att rel mg nm 0 0 mic_l mic_r in
  car_null (fr_inst fr) = true /\
  (null (fr_out_l fr) = true /\ null (fr_out_r fr) = true) /\
  null (fr_car_l fr) = true /\ null (fr_car_r fr) = true.
Proof.
  intros Hv Hm. unfold frame_signals, noise_sample.
  match goal with
  | |- context [band_loop ?k0 ?b0 ?u0 ?a1 ?a2 ?a3 ?a4 ?a5 ?a6 ?p1 ?p2] =>
      pose proof (band_loop_null car_null a1 a2 a3 a4 a5 a6) as H;
      specialize (H (fun w c x y Nv Ho1 Ho2 =>
                       process_band_car_null w c a1 a2 a3 a4 a5 a6 x y Nv
                         ltac:(apply fadd_null;
                               [reflexivity|apply fmul_null_r; exact Hm])
                         ltac:(apply fadd_null;
                               [reflexivity|apply fmul_null_r; exact Hm])
                         Ho1 Ho2)
                    k0 b0 u0 p1 p2 Hv eq_refl eq_refl);
      cbv zeta in H;
      destruct (band_loop k0 b0 u0 a1 a2 a3 a4 a5 a6 p1 p2) as [[v1 q1] q2]
  end.
  cbn [fst snd] in H. destruct H as (H1 & H2 & H3).
  cbn [fr_inst fr_out_l fr_out_r fr_car_l fr_car_r].
  split; [exact H1|]. split; [split; apply fmul_null_l; assumption|].
  split; reflexivity.
Qed.

(** A frame on a silent modulator. *)
Lemma frame_signals_mod_null (v : vocoder_instance_t) (n : Z)
    (att rel mg nm : float) (in_l in_r : Z) :
  mod_null v = true ->
  let fr := frame_signals v n att rel mg nm in_l in_r 0 0 in
  mod_null (fr_inst fr) = true /\
  null (fr_out_l fr) = true /\ null (fr_out_r fr) = true.
Proof.
  intros Hv. unfold frame_signals, noise_sample.
  match goal with
  | |- context [band_loop ?k0 ?b0 ?u0 ?a1 ?a2 ?a3 ?a4 ?a5 ?a6 ?p1 ?p2] =>
      pose proof (band_loop_null mod_null a1 a2 a3 a4 a5 a6) as H;
      specialize (H (fun w c x y Nv Ho1 Ho2 =>
                       process_band_mod_null w c a1 a2 a3 a4 a5 a6 x y Nv
                         ltac:(apply fmul_null_l; reflexivity)
                         ltac:(apply fmul_null_l; reflexivity)
                         Ho1 Ho2)
                    k0 b0 u0 p1 p2 Hv eq_refl eq_refl);
      cbv zeta in H;
      destruct (band_loop k0 b0 u0 a1 a2 a3 a4 a5 a6 p1 p2) as [[v1 q1] q2]
  end.
  cbn [fst snd] in H. destruct H as (H1 & H2 & H3).
  cbn [fr_inst fr_out_l fr_out_r].
  split; [exact H1|]. split; apply fmul_null_l; assumption.
Qed.

Lemma block_sample_index (j : nat) (frames : Z) :
  Z.of_nat j < 2 * frames ->
  Z.of_nat (j / 2) < frames /\
  (j = (0 + 2 * (j / 2))%nat \/ j = (0 + 2 * (j / 2) + 1)%nat).
Proof.
  intros Hj. pose proof (Nat.div_mod_eq j 2) as Hdm.
  pose proof (Nat.mod_upper_bound j 2 ltac:(lia)) as Hmod. lia.
Qed.

(** Silence in, silence out.  When the carrier filters hold no signal
    (as after [clear_filters]) and the noise is switched off
    ([carrier_mix] zero), a block of zero carrier samples is written back
    as it is and leaves the carrier filters without signal, whatever the
    modulator input, the other parameters and the modulator state are. *)
Theorem silent_carrier_block (h : host_api_v1_t) (v : vocoder_instance_t)
    (audio : list Z) (frames : Z) :
  0 <= frames -> 2 * frames <= Z.of_nat (length audio) ->
  car_null v = true -> null (carrier_mix v) = true ->
  (forall j : nat, Z.of_nat j < 2 * frames -> audio !! j = Some 0) ->
  let r := v2_process_block (Some h) (Some v) audio frames in
  snd r = audio /\
  exists v' : vocoder_instance_t, fst r = Some v' /\ car_null v' = true.
Proof.
  intros Hfr Hlen Hv Hm Hz. cbv zeta. unfold v2_process_block.
  pose proof (frame_loop_lookup h (bands v) (att_coeff v) (rel_coeff v)
                (mod_gain v) (mix v) (fsub f_one (mix v))
                (carrier_mix v) audio (Z.to_nat frames) 0 v audio
                ltac:(lia) eq_refl ltac:(reflexivity)) as H.
  pose proof (frame_loop_end h (bands v) (att_coeff v) (rel_coeff v)
                (mod_gain v) (mix v) (fsub f_one (mix v))
                (carrier_mix v) audio (Z.to_nat frames) 0 v audio
                ltac:(lia) ltac:(reflexivity)) as He.
  destruct (frame_trace_invariant
              (fun u => car_null u = true)
              (fun fr => (null (fr_out_l fr) = true /\ null (fr_out_r fr) = true)
                         /\ null (fr_car_l fr) = true /\ null (fr_car_r fr) = true)
              h (bands v) (att_coeff v) (rel_coeff v) (mod_gain v)
              (carrier_mix v) audio frames) with (k := Z.to_nat frames)
              (i := 0) (v := v) as [Iend Hall]; try lia; try assumption.
  { intros u i Hi Hu.
    rewrite (Hz (Z.to_nat (i * 2))), (Hz (Z.to_nat (i * 2 + 1))) by lia.
    cbn [default]. apply frame_signals_car_null; assumption. }
  destruct (frame_loop _ _ _ _ _ _ _ _ _ _ _ _) as [v' out].
  cbn [fst snd] in *. destruct H as (L & _ & After & At).
  split; [|exists v'; split; [reflexivity|rewrite He; exact Iend]].
  apply list_eq. intros j.
  destruct (Z.lt_ge_cases (Z.of_nat j) (2 * frames)) as [Hj|Hj].
  - destruct (block_sample_index j frames Hj) as [Hm2 Hpar].
    assert (Hlt : (j / 2 < length (frame_trace (Z.to_nat frames) 0 h v (bands v)
                     (att_coeff v) (rel_coeff v) (mod_gain v) (carrier_mix v)
                     audio))%nat) by (rewrite frame_trace_length; lia).
    destruct (lookup_lt_is_Some_2 _ _ Hlt) as [fr Efr].
    destruct (Hall _ fr Efr) as ((O1 & O2) & C1 & C2).
    destruct (At _ fr Efr ltac:(change (Z.to_nat (0 * 2)) with 0%nat; lia))
      as [Al Ar].
    change (Z.to_nat (0 * 2)) with 0%nat in Al, Ar.
    rewrite (Hz j Hj).
    destruct Hpar as [E|E].
    + rewrite <- E in Al. rewrite Al. f_equal. apply mix_sample_null; apply fmul_null_l; assumption.
    + rewrite <- E in Ar. rewrite Ar. f_equal.
      apply mix_sample_null; apply fmul_null_l; assumption.
  - apply After. cbn. lia.
Qed.

Lemma silent_carrier_block_witness :
  let v := @set_param RefLibM.libm Sample.fresh "carrier_mix" "0" in
  snd (v2_process_block (Some Sample.host) (Some v) [0; 0; 0; 0] 2)
  = [0; 0; 0; 0].
Proof.
  intros v.
  assert (Hz : forall j : nat, Z.of_nat j < 2 * 2 ->
                               [0; 0; 0; 0] !! j = Some 0)
    by (intros [|[|[|[|j]]]] Hj; try reflexivity; lia).
  exact (proj1 (silent_carrier_block Sample.host v [0; 0; 0; 0] 2
                  ltac:(lia) ltac:(cbn; lia) ltac:(vm_compute; reflexivity)
                  ltac:(vm_compute; reflexivity) Hz)).
Defined.

(** No modulator, no sound.  With [mix] at 1 (fully wet), when the
    modulator filters and envelopes hold no signal and the host input is
    silent, every sample of the block is written as 0, whatever the
    carrier: the carrier is heard only through the envelope of the
    modulator.  The modulator state stays without signal. *)
Theorem silent_modulator_block (h : host_api_v1_t) (v : vocoder_instance_t)
    (audio : list Z) (frames : Z) :
  0 <= frames -> 2 * frames <= Z.of_nat (length audio) ->
  mod_null v = true -> mix v = f_one ->
  (forall j : Z, 0 <= j < 2 * frames -> mic_in h j = 0) ->
  let r := v2_process_block (Some h) (Some v) audio frames in
  length (snd r) = length audio /\
  (forall (j : nat) (c : Z),
     audio !! j = Some c ->
     snd r !! j = Some (if Z.of_nat j <? 2 * frames then 0 else c)) /\
  exists v' : vocoder_instance_t, fst r = Some v' /\ mod_null v' = true.
Proof.
  intros Hfr Hlen Hv Hmix Hz. cbv zeta. unfold v2_process_block.
  pose proof (frame_loop_lookup h (bands v) (att_coeff v) (rel_coeff v)
                (mod_gain v) (mix v) (fsub f_one (mix v))
                (carrier_mix v) audio (Z.to_nat frames) 0 v audio
                ltac:(lia) eq_refl ltac:(reflexivity)) as H.
  pose proof (frame_loop_end h (bands v) (att_coeff v) (rel_coeff v)
                (mod_gain v) (mix v) (fsub f_one (mix v))
                (carrier_mix v) audio (Z.to_nat frames) 0 v audio
                ltac:(lia) ltac:(reflexivity)) as He.
  destruct (frame_trace_invariant
              (fun u => mod_null u = true)
              (fun fr => null (fr_out_l fr) = true /\ null (fr_out_r fr) = true)
              h (bands v) (att_coeff v) (rel_coeff v) (mod_gain v)
              (carrier_mix v) audio frames) with (k := Z.to_nat frames)
              (i := 0) (v := v) as [Iend Hall]; try lia; try assumption.
  { intros u i Hi Hu.
    rewrite (Hz (i * 2)), (Hz (i * 2 + 1)) by lia.
    apply frame_signals_mod_null; assumption. }
  destruct (frame_loop _ _ _ _ _ _ _ _ _ _ _ _) as [v' out].
  cbn [fst snd] in *. destruct H as (L & _ & After & At).
  split; [exact L|].
  split; [|exists v'; split; [reflexivity|rewrite He; exact Iend]].
  intros j c Hc.
  destruct (Z.ltb_spec (Z.of_nat j) (2 * frames)) as [Hj|Hj].
  - destruct (block_sample_index j frames Hj) as [Hm2 Hpar].
    assert (Hlt : (j / 2 < length (frame_trace (Z.to_nat frames) 0 h v (bands v)
                     (att_coeff v) (rel_coeff v) (mod_gain v) (carrier_mix v)
                     audio))%nat) by (rewrite frame_trace_length; lia).
    destruct (lookup_lt_is_Some_2 _ _ Hlt) as [fr Efr].
    destruct (Hall _ fr Efr) as (O1 & O2).
    destruct (At _ fr Efr ltac:(change (Z.to_nat (0 * 2)) with 0%nat; lia))
      as [Al Ar].
    change (Z.to_nat (0 * 2)) with 0%nat in Al, Ar. rewrite Hmix in Al, Ar.
    destruct Hpar as [E|E].
    + rewrite <- E in Al. rewrite Al. f_equal.
      apply mix_sample_null; [apply fmul_null_l|apply fmul_null_r];
        first [assumption|reflexivity].
    + rewrite <- E in Ar. rewrite Ar. f_equal.
      apply mix_sample_null; [apply fmul_null_l|apply fmul_null_r];
        first [assumption|reflexivity].
  - rewrite After by (cbn; lia). exact Hc.
Qed.

Lemma silent_modulator_block_witness :
  let h := {| mapped_memory := []; audio_in_offset := 2304 |} in
  snd (v2_process_block (Some h) (Some Sample.fresh) Sample.carrier 2)
  = [0; 0; 0; 0].
Proof.
  intros h.
  assert (Hmic : forall j : Z, 0 <= j < 2 * 2 -> mic_in h j = 0)
    by (intros j _; unfold mic_in, h; cbn [mapped_memory];
        rewrite !lookup_nil; reflexivity).
  destruct (silent_modulator_block h Sample.fresh Sample.carrier 2
              ltac:(lia) ltac:(cbn; lia) ltac:(vm_compute; reflexivity)
              ltac:(vm_compute; reflexivity) Hmic)
    as (L & Hout & _).
  cbv zeta in L, Hout.
  pose proof (Hout 0%nat 1000 eq_refl) as H0.
  pose proof (Hout 1%nat (-1000) eq_refl) as H1.
  pose proof (Hout 2%nat 32767 eq_refl) as H2.
  pose proof (Hout 3%nat (-32768) eq_refl) as H3.
  change (Z.of_nat 0 <? 2 * 2) with true in H0.
  change (Z.of_nat 1 <? 2 * 2) with true in H1.
  change (Z.of_nat 2 <? 2 * 2) with true in H2.
  change (Z.of_nat 3 <? 2 * 2) with true in H3.
  destruct (snd (v2_process_block (Some h) (Some Sample.fresh) Sample.carrier 2))
    as [|a [|b [|c [|d [|e l]]]]]; try discriminate L.
  cbn [lookup list_lookup] in H0, H1, H2, H3.
  injection H0 as ->. injection H1 as ->. injection H2 as ->.
  injection H3 as ->. reflexivity.
Defined.

(** ** Two equal channels stay equal *)

Lemma process_band_sym (v : vocoder_instance_t) (b : nat)
    (md cr att rel o : float) :
  stereo_sym v ->
  let r := process_band v b md md cr cr att rel o o in
  stereo_sym (fst (fst r)) /\ snd (fst r) = snd r.
Proof.
  intros (E1 & E2 & E3). cbv zeta. unfold process_band.
  destruct v as [nb fl fh am rm mg mx cm bf bq ac rc ml mr cl cr_ el er sd].
  cbn in E1, E2, E3. subst mr cr_ er. cbn.
  repeat match goal with
    | |- context [svf_bandpass ?s ?i ?f ?q] => destruct (svf_bandpass s i f q)
    | |- context [env_follow ?e ?i ?a ?r] => destruct (env_follow e i a r)
    end.
  cbn. repeat split.
Qed.

Lemma band_loop_sym (md cr att rel : float) (k : nat) :
  forall (b : nat) (v : vocoder_instance_t) (o : float),
    stereo_sym v ->
    let r := band_loop k b v md md cr cr att rel o o in
    stereo_sym (fst (fst r)) /\ snd (fst r) = snd r.
Proof.
  induction k as [|k IH]; intros b v o Hv; cbv zeta.
  - cbn. split; [exact Hv|reflexivity].
  - cbn [band_loop].
    pose proof (process_band_sym v b md cr att rel o Hv) as H. cbv zeta in H.
    destruct (process_band v b md md cr cr att rel o o) as [[v1 o1] o2].
    cbn [fst snd] in H. destruct H as [H1 <-].
    exact (IH (S b) v1 o1 H1).
Qed.

Lemma frame_signals_sym (v : vocoder_instance_t) (n : Z)
    (att rel mg nm : float) (c m : Z) :
  stereo_sym v ->
  let fr := frame_signals v n att rel mg nm c c m m in
  stereo_sym (fr_inst fr) /\
  fr_out_l fr = fr_out_r fr /\ fr_car_l fr = fr_car_r fr.
Proof.
  intros Hv. cbv zeta. unfold frame_signals, noise_sample.
  match goal with
  | |- context [band_loop ?k0 ?b0 ?u0 ?a1 ?a1 ?a3 ?a3 ?a5 ?a6 ?p1 ?p1] =>
      pose proof (band_loop_sym a1 a3 a5 a6 k0 b0 u0 p1 Hv) as H;
      cbv zeta in H;
      destruct (band_loop k0 b0 u0 a1 a1 a3 a3 a5 a6 p1 p1) as [[v1 q1] q2]
  end.
  cbn [fst snd] in H. destruct H as [H1 <-].
  cbn [fr_inst fr_out_l fr_out_r fr_car_l fr_car_r].
  split; [exact H1|split; reflexivity].
Qed.

(** Mono in, mono out.  When the two channels of the instance are in the
    same state (as they are at creation and after every reset) and every
    frame of the block carries the same sample on the left and on the
    right, in the carrier and in the host input, the block is written back
    with equal left and right samples and the two channels are still in
    the same state: the one noise sample of a frame goes to both. *)
Theorem mono_block (h : host_api_v1_t) (v : vocoder_instance_t)
    (audio : list Z) (frames : Z) :
  0 <= frames -> 2 * frames <= Z.of_nat (length audio) ->
  stereo_sym v ->
  (forall i : Z, 0 <= i < frames ->
     audio !! Z.to_nat (i * 2 + 1) = audio !! Z.to_nat (i * 2) /\
     mic_in h (i * 2 + 1) = mic_in h (i * 2)) ->
  let r := v2_process_block (Some h) (Some v) audio frames in
  (forall i : Z, 0 <= i < frames ->
     snd r !! Z.to_nat (i * 2 + 1) = snd r !! Z.to_nat (i * 2)) /\
  exists v' : vocoder_instance_t, fst r = Some v' /\ stereo_sym v'.
Proof.
  intros Hfr Hlen Hv Hin. cbv zeta. unfold v2_process_block.
  pose proof (frame_loop_lookup h (bands v) (att_coeff v) (rel_coeff v)
                (mod_gain v) (mix v) (fsub f_one (mix v))
                (carrier_mix v) audio (Z.to_nat frames) 0 v audio
                ltac:(lia) eq_refl ltac:(reflexivity)) as H.
  pose proof (frame_loop_end h (bands v) (att_coeff v) (rel_coeff v)
                (mod_gain v) (mix v) (fsub f_one (mix v))
                (carrier_mix v) audio (Z.to_nat frames) 0 v audio
                ltac:(lia) ltac:(reflexivity)) as He.
  destruct (frame_trace_invariant stereo_sym
              (fun fr => fr_out_l fr = fr_out_r fr /\ fr_car_l fr = fr_car_r fr)
              h (bands v) (att_coeff v) (rel_coeff v) (mod_gain v)
              (carrier_mix v) audio frames) with (k := Z.to_nat frames)
              (i := 0) (v := v) as [Iend Hall]; try lia; try assumption.
  { intros u i Hi Hu. destruct (Hin i Hi) as [Ea Em]. rewrite Ea, Em.
    apply frame_signals_sym. exact Hu. }
  destruct (frame_loop _ _ _ _ _ _ _ _ _ _ _ _) as [v' out].
  cbn [fst snd] in *. destruct H as (L & _ & After & At).
  split; [|exists v'; split; [reflexivity|rewrite He; exact Iend]].
  intros i Hi.
  assert (Hlt : (Z.to_nat i < length (frame_trace (Z.to_nat frames) 0 h v
                   (bands v) (att_coeff v) (rel_coeff v) (mod_gain v)
                   (carrier_mix v) audio))%nat)
    by (rewrite frame_trace_length; lia).
  destruct (lookup_lt_is_Some_2 _ _ Hlt) as [fr Efr].
  destruct (Hall _ fr Efr) as [Eo Ec].
  destruct (At _ fr Efr ltac:(change (Z.to_nat (0 * 2)) with 0%nat; lia))
    as [Al Ar].
  change (Z.to_nat (0 * 2)) with 0%nat in Al, Ar.
  replace (Z.to_nat (i * 2)) with (0 + 2 * Z.to_nat i)%nat by lia.
  replace (Z.to_nat (i * 2 + 1)) with (0 + 2 * Z.to_nat i + 1)%nat by lia.
  rewrite Al, Ar, Eo, Ec. reflexivity.
Qed.


(** ** What a block leaves alone *)

Lemma get_param_same_params (v v' : vocoder_instance_t) (key : string)
    (buf_len : Z) :
  same_params v v' -> get_param v' key buf_len = get_param v key buf_len.
Proof.
  intros P. pose proof (state_string_same_params v v' P) as S.
  destruct P as (E0 & E1 & E2 & E3 & E4 & E5 & E6 & E7).
  unfold get_param. rewrite E0, E1, E2, E3, E4, E5, E6, E7, S. reflexivity.
Qed.

(** Processing audio never alters the settings: after a block of any
    length, on any input and with or without a host, the eight parameters
    and the derived coefficients are what they were, and every
    [getParameter] query gives the answer it gave before. *)
Theorem process_block_keeps_settings (g_host : option host_api_v1_t)
    (v : vocoder_instance_t) (audio : list Z) (frames : Z) :
  exists v' : vocoder_instance_t,
    fst (v2_process_block g_host (Some v) audio frames) = Some v' /\
    same_params v v' /\ same_coeffs v v' /\
    forall (key : string) (buf_len : Z),
      get_param v' key buf_len = get_param v key buf_len.
Proof.
  unfold v2_process_block. destruct g_host as [h|].
  - pose proof (frame_loop_end h (bands v) (att_coeff v) (rel_coeff v)
                  (mod_gain v) (mix v) (fsub f_one (mix v))
                  (carrier_mix v) audio (Z.to_nat frames) 0 v audio
                  ltac:(lia) ltac:(reflexivity)) as He.
    destruct (frame_trace_invariant
                (fun u => same_params v u /\ same_coeffs v u)
                (fun _ => True)
                h (bands v) (att_coeff v) (rel_coeff v) (mod_gain v)
                (carrier_mix v) audio (Z.of_nat (Z.to_nat frames)))
      with (k := Z.to_nat frames) (i := 0) (v := v) as [[P C] _]; try lia.
    { intros u i _ [Pu Cu].
      match goal with
      | |- context [frame_signals u ?n ?a ?r ?g ?m ?x ?y ?z ?w] =>
          destruct (frame_signals_noise u n a r g m x y z w)
            as (_ & _ & _ & _ & _ & _ & Pf & Cf)
      end.
      cbv zeta. split; [|exact I]. unfold same_params, same_coeffs in *.
      destruct Pu as (A0 & A1 & A2 & A3 & A4 & A5 & A6 & A7).
      destruct Pf as (B0 & B1 & B2 & B3 & B4 & B5 & B6 & B7).
      destruct Cu as (C0 & C1 & C2 & C3), Cf as (D0 & D1 & D2 & D3).
      rewrite B0, B1, B2, B3, B4, B5, B6, B7, D0, D1, D2, D3.
      repeat split; assumption. }
    { split; repeat split. }
    destruct (frame_loop _ _ _ _ _ _ _ _ _ _ _ _) as [v' out].
    cbn [fst] in *. exists v'. rewrite He.
    split; [reflexivity|]. split; [exact P|]. split; [exact C|].
    intros key buf_len. apply get_param_same_params. exact P.
  - exists v. cbn [fst]. split; [reflexivity|].
    split; [repeat split|]. split; [repeat split|reflexivity].
Qed.

(** ** The noise generator *)

Lemma lcg_step_back (s : Z) :
  0 <= s < 2 ^ 32 ->
  ((lcg_step s - 1013904223) * 4276115653) mod 2 ^ 32 = s.
Proof.
  intros Hs. unfold lcg_step.
  rewrite <- Z.mul_mod_idemp_l by lia.
  rewrite Zminus_mod_idemp_l.
  replace (s * 1664525 + 1013904223 - 1013904223) with (s * 1664525) by lia.
  rewrite Z.mul_mod_idemp_l by lia.
  replace (s * 1664525 * 4276115653) with (s * (1664525 * 4276115653)) by lia.
  rewrite <- Z.mul_mod_idemp_r by lia.
  change ((1664525 * 4276115653) mod 2 ^ 32) with 1.
  rewrite Z.mul_1_r. apply Z.mod_small. exact Hs.
Qed.

(** The seed update [seed * 1664525 + 1013904223] is a permutation of the
    32-bit values: two different seeds never meet, and every value is
    the successor of one seed.  The generator can therefore not fall into a
    short cycle that it did not start in. *)
Theorem noise_seed_permutation :
  (forall s : Z, 0 <= fst (noise_sample s) < 2 ^ 32) /\
  (forall s t : Z, 0 <= s < 2 ^ 32 -> 0 <= t < 2 ^ 32 ->
     fst (noise_sample s) = fst (noise_sample t) -> s = t) /\
  (forall t : Z, 0 <= t < 2 ^ 32 ->
     exists s : Z, 0 <= s < 2 ^ 32 /\ fst (noise_sample s) = t).
Proof.
  assert (E : forall s, fst (noise_sample s) = lcg_step s) by reflexivity.
  setoid_rewrite E. clear E.
  split; [|split].
  - intros s. apply Z.mod_pos_bound. reflexivity.
  - intros s t Hs Ht E.
    rewrite <- (lcg_step_back s Hs), <- (lcg_step_back t Ht), E. reflexivity.
  - intros t Ht. exists (((t - 1013904223) * 4276115653) mod 2 ^ 32).
    split; [apply Z.mod_pos_bound; reflexivity|].
    unfold lcg_step. rewrite Z.add_mod, Z.mul_mod_idemp_l by lia.
    replace ((t - 1013904223) * 4276115653 * 1664525)
      with ((t - 1013904223) * (4276115653 * 1664525)) by lia.
    rewrite <- Z.mul_mod_idemp_r by lia.
    change ((4276115653 * 1664525) mod 2 ^ 32) with 1.
    rewrite Z.mul_1_r, <- Z.add_mod by lia.
    replace (t - 1013904223 + 1013904223) with t by lia.
    apply Z.mod_small. exact Ht.
Qed.

(** The noise sample is a finite value between -1 and 1, both included:
    the seed that steps to [2^31 - 1] gives exactly 1, because the
    conversion to [float] rounds [2^31 - 1] up to [2^31]. *)
Theorem noise_sample_range :
  (forall seed : Z,
     let ns := snd (noise_sample seed) in
     finite32 ns = true /\ - 2 ^ 149 <= ulps ns <= 2 ^ 149) /\
  noise_sample 2801121056 = (2147483647, f_one).
Proof.
  split; [|vm_compute; reflexivity].
  intros seed. unfold noise_sample. cbn [snd].
  set (z := wrap_signed 32 _).
  assert (Hz : - 2 ^ 31 <= z < 2 ^ 31).
  { unfold z, wrap_signed. change (32 - 1) with 31.
    pose proof (Z.mod_pos_bound
                  ((seed * 1664525 + 1013904223) mod 2 ^ 32 + 2 ^ 31) (2 ^ 32)
                  ltac:(reflexivity)).
    change (2 ^ 32) with (2 * 2 ^ 31) in *. lia. }
  assert (HD : 0 < 2 ^ 149) by (apply pow2_pos; lia).
  assert (H31 : 0 < 2 ^ 31) by reflexivity.
  assert (R180 : repr (2 ^ 31 * 2 ^ 149)).
  { replace (2 ^ 31 * 2 ^ 149) with (1 * 2 ^ 180) by reflexivity.
    apply repr_mul_pow; [change (2 ^ 24) with 16777216; lia|lia]. }
  pose proof (f32_of_Z_valid z) as Vx.
  assert (Ux : RN (Z.abs z * 2 ^ 149) 1 <= 2 ^ 31 * 2 ^ 149).
  { apply (RN_le_repr (Z.abs z * 2 ^ 149) 1 ltac:(nia) ltac:(lia) _ R180).
    nia. }
  assert (Hx := f32_of_Z_spec z).
  destruct (float_of_ulps_RN (z <? 0) (Z.abs z * 2 ^ 149) 1
              ltac:(nia) ltac:(lia)) as [Fx Ex].
  { assert (2 ^ 31 * 2 ^ 149 < 2 ^ 277) by reflexivity. lia. }
  rewrite <- Hx in Fx, Ex.
  apply finite32_split in Fx. destruct Fx as [_ Fx].
  assert (Ax : Z.abs (ulps (f32_of_Z z)) <= 2 ^ 31 * 2 ^ 149).
  { rewrite Ex.
    pose proof (RN_nonneg (Z.abs z * 2 ^ 149) 1 ltac:(nia) ltac:(lia)).
    destruct (z <? 0); cbn [cond_Zopp]; lia. }
  assert (Vy : valid32 (f32_of_Z 2147483648) = true) by reflexivity.
  assert (Uy : ulps (f32_of_Z 2147483648) = 2 ^ 31 * 2 ^ 149) by reflexivity.
  destruct (is_zero (f32_of_Z z)) eqn:Zx.
  - destruct (f32_of_Z z) as [s| | |]; try discriminate Zx.
    assert (E : fdiv (S754_zero s) (f32_of_Z 2147483648)
                = S754_zero (xorb s false)) by reflexivity.
    rewrite E. split; [reflexivity|]. cbn [ulps]. lia.
  - rewrite (fdiv_spec _ _ Vx Vy Fx eq_refl Zx eq_refl).
    rewrite Uy. rewrite (Z.abs_eq (2 ^ 31 * 2 ^ 149)) by lia.
    assert (R1 : repr (2 ^ 149)).
    { replace (2 ^ 149) with (1 * 2 ^ 149) by reflexivity.
      apply repr_mul_pow; [change (2 ^ 24) with 16777216; lia|lia]. }
    assert (Uq : RN (Z.abs (ulps (f32_of_Z z)) * 2 ^ 149) (2 ^ 31 * 2 ^ 149)
                 <= 2 ^ 149).
    { apply (RN_le_repr (Z.abs (ulps (f32_of_Z z)) * 2 ^ 149)
               (2 ^ 31 * 2 ^ 149) ltac:(nia) ltac:(lia) _ R1).
      nia. }
    pose proof (RN_nonneg (Z.abs (ulps (f32_of_Z z)) * 2 ^ 149)
                  (2 ^ 31 * 2 ^ 149) ltac:(nia) ltac:(lia)) as Nq.
    destruct (float_of_ulps_RN
                (xorb (fsign (f32_of_Z z)) (fsign (f32_of_Z 2147483648)))
                (Z.abs (ulps (f32_of_Z z)) * 2 ^ 149) (2 ^ 31 * 2 ^ 149)
                ltac:(nia) ltac:(lia)) as [Fq Eq].
    { assert (2 ^ 149 < 2 ^ 277) by reflexivity. lia. }
    split; [exact Fq|]. rewrite Eq.
    destruct (xorb _ _); cbn [cond_Zopp]; lia.
Qed.

(** ** The envelope follower does not overshoot *)

(** One update moves the level toward the rectified input and never past
    it: below the input the level rises, and stays at or below the input;
    at or above the input it falls, and stays at or above the input.  This
    holds for the rounded arithmetic of the source, for every finite input
    and every coefficient strictly between 0 and 1. *)
Theorem env_follow_toward (e : env_state_t) (x att rel : float) :
  finite32 (level e) = true -> 0 <= ulps (level e) ->
  finite32 x = true ->
  unit_coeff att = true -> unit_coeff rel = true ->
  let l' := snd (env_follow e x att rel) in
  finite32 l' = true /\
  (ulps (level e) < Z.abs (ulps x) ->
   ulps (level e) <= ulps l' <= Z.abs (ulps x)) /\
  (Z.abs (ulps x) <= ulps (level e) ->
   Z.abs (ulps x) <= ulps l' <= ulps (level e)).
Proof.
  intros Hl HL Hx Ha Hr.
  destruct (unit_coeff_ulps att Ha) as [Fa Ca].
  destruct (unit_coeff_ulps rel Hr) as [Fr Cr].
  destruct (fabsf_ulps x Hx) as [Frect Urect].
  destruct (finite_ulps_bound (level e) Hl) as [ReprL BoundL].
  destruct (finite_ulps_bound (fabsf x) Frect) as [ReprR BoundR].
  rewrite Urect in ReprR, BoundR.
  pose proof (proj1 (finite32_split _) Hl) as [Vl Fl].
  pose proof (proj1 (finite32_split _) Frect) as [Vrect Frect'].
  assert (HD : 0 < 2 ^ 149) by (apply pow2_pos; lia).
  assert (H125 : 0 < 2 ^ 125) by reflexivity.
  unfold env_follow. cbn [fst snd level].
  rewrite (flt_ulps (level e) (fabsf x) Vl Vrect Fl Frect').
  remember (fabsf x) as rect eqn:Erect.
  remember (ulps (level e)) as L eqn:EL.
  remember (Z.abs (ulps x)) as R eqn:ER.
  rewrite Z.abs_eq in ReprL, BoundL by lia.
  assert (HR : 0 <= R) by lia.
  rewrite Z.abs_eq in ReprR, BoundR by lia.
  rewrite Urect.
  destruct (Z.ltb_spec L R) as [Hlt|Hge].
  - (* rising: the attack coefficient *)
    remember (ulps att) as C eqn:EC.
    assert (HDd : RN (R - L) 1 <= R)
      by (apply RN_le_repr; try assumption; lia).
    pose proof (RN_nonneg (R - L) 1 ltac:(lia) ltac:(lia)) as HDd0.
    assert (Pre1 : RN (Z.abs (ulps rect - ulps (level e))) 1 < 2 ^ 277).
    { rewrite Urect, <- EL, Z.abs_eq by lia. lia. }
    destruct (fsub_ulps rect (level e) Frect Hl Pre1) as [Fd Ud].
    rewrite Urect, <- EL, Z.abs_eq in Ud by lia.
    destruct (Z.ltb_spec (R - L) 0) as [Hneg|_] in Ud; [lia|].
    remember (fsub rect (level e)) as d eqn:Ed.
    pose proof (shrunk_difference C (R - L) Ca ltac:(lia)) as HP.
    pose proof (RN_nonneg (C * RN (R - L) 1) _ ltac:(nia) HD) as HP0.
    assert (Pre2 : RN (Z.abs (ulps att) * Z.abs (ulps d)) (2 ^ 149) < 2 ^ 277).
    { rewrite Ud, <- EC, !Z.abs_eq by lia. lia. }
    destruct (fmul_ulps att d Fa Fd Pre2) as (Fp & Up & Spos & _).
    rewrite Ud, <- EC in Up, Spos.
    rewrite (Z.abs_eq C), (Z.abs_eq (RN (R - L) 1)) in Up by lia.
    specialize (Spos ltac:(lia) ltac:(lia)).
    rewrite Z.abs_eq in Up by exact Spos.
    remember (fmul att d) as p eqn:Ep.
    assert (HS : RN (L + RN (C * RN (R - L) 1) (2 ^ 149)) 1 <= R)
      by (apply RN_le_repr; try assumption; lia).
    assert (HS' : L <= RN (L + RN (C * RN (R - L) 1) (2 ^ 149)) 1)
      by (apply RN_ge_repr; try assumption; lia).
    assert (Pre3 : RN (Z.abs (ulps (level e) + ulps p)) 1 < 2 ^ 277).
    { rewrite Up, <- EL, Z.abs_eq by lia. lia. }
    destruct (fadd_ulps (level e) p Hl Fp Pre3) as [Fn Un].
    rewrite Up, <- EL, Z.abs_eq in Un by lia.
    destruct (Z.ltb_spec (L + RN (C * RN (R - L) 1) (2 ^ 149)) 0) as [Hneg|_] in Un;
      [lia|].
    split; [exact Fn|]. rewrite Un. split; intros; lia.
  - (* falling: the release coefficient *)
    remember (ulps rel) as C eqn:EC.
    assert (HDd : RN (L - R) 1 <= L)
      by (apply RN_le_repr; try assumption; lia).
    pose proof (RN_nonneg (L - R) 1 ltac:(lia) ltac:(lia)) as HDd0.
    assert (Habs : Z.abs (R - L) = L - R) by lia.
    assert (Pre1 : RN (Z.abs (ulps rect - ulps (level e))) 1 < 2 ^ 277).
    { rewrite Urect, <- EL, Habs. lia. }
    destruct (fsub_ulps rect (level e) Frect Hl Pre1) as [Fd Ud].
    rewrite Urect, <- EL, Habs in Ud.
    remember (fsub rect (level e)) as d eqn:Ed.
    assert (Ud' : ulps d = - RN (L - R) 1).
    { rewrite Ud. destruct (Z.ltb_spec (R - L) 0) as [Hneg|Hz]; [reflexivity|].
      replace (L - R) with 0 by lia. rewrite RN_0 by lia. reflexivity. }
    clear Ud.
    pose proof (shrunk_difference C (L - R) Cr ltac:(lia)) as HP.
    pose proof (RN_nonneg (C * RN (L - R) 1) _ ltac:(nia) HD) as HP0.
    assert (Pre2 : RN (Z.abs (ulps rel) * Z.abs (ulps d)) (2 ^ 149) < 2 ^ 277).
    { rewrite Ud', <- EC, Z.abs_opp, !Z.abs_eq by lia. lia. }
    destruct (fmul_ulps rel d Fr Fd Pre2) as (Fp & Up & _ & Sneg).
    rewrite Ud', <- EC in Up, Sneg.
    rewrite Z.abs_opp, (Z.abs_eq C), (Z.abs_eq (RN (L - R) 1)) in Up by lia.
    specialize (Sneg ltac:(lia) ltac:(lia)).
    rewrite Z.abs_neq in Up by exact Sneg.
    remember (fmul rel d) as p eqn:Ep.
    remember (RN (C * RN (L - R) 1) (2 ^ 149)) as P eqn:EP.
    assert (Up' : ulps p = - P) by lia.
    assert (Hs : Z.abs (L + - P) = L - P) by lia.
    assert (HS : RN (L - P) 1 <= L)
      by (apply RN_le_repr; try assumption; lia).
    assert (HS' : R <= RN (L - P) 1)
      by (apply RN_ge_repr; try assumption; lia).
    assert (Pre3 : RN (Z.abs (ulps (level e) + ulps p)) 1 < 2 ^ 277).
    { rewrite Up', <- EL, Hs. lia. }
    destruct (fadd_ulps (level e) p Hl Fp Pre3) as [Fn Un].
    rewrite Up', <- EL, Hs in Un.
    destruct (Z.ltb_spec (L + - P) 0) as [Hneg|_] in Un; [lia|].
    split; [exact Fn|]. rewrite Un. split; intros; lia.
Qed.

Lemma env_follow_toward_witness :
  let e := {| level := f32_lit 1 4 |} in
  let l' := snd (env_follow e (f32_lit (-1) 2) (att_coeff Sample.fresh)
                   (rel_coeff Sample.fresh)) in
  ulps (f32_lit 1 4) <= ulps l' <= Z.abs (ulps (f32_lit (-1) 2)).
Proof.
  intros e l'.
  apply (env_follow_toward e (f32_lit (-1) 2) (att_coeff Sample.fresh)
           (rel_coeff Sample.fresh)); vm_compute; first [reflexivity|discriminate].
Defined.

(** ** The coefficients that [recalc_bands] stores *)

Lemma fill_length {A : Type} (g : Z -> A) (k : nat) :
  forall (i : Z) (l : list A), length (fill k i g l) = length l.
Proof.
  induction k as [|k IH]; intros i l; [reflexivity|].
  cbn [fill]. rewrite IH, length_insert. reflexivity.
Qed.

Lemma fill_lookup {A : Type} (g : Z -> A) (k : nat) :
  forall (i : Z) (l : list A) (j : nat),
    0 <= i ->
    fill k i g l !! j
    = if (Z.to_nat i <=? j)%nat && (j <? Z.to_nat i + k)%nat
         && (j <? length l)%nat
      then Some (g (Z.of_nat j)) else l !! j.
Proof.
  induction k as [|k IH]; intros i l j Hi.
  - cbn [fill].
    destruct (Nat.leb_spec (Z.to_nat i) j), (Nat.ltb_spec j (Z.to_nat i + 0));
      try reflexivity; lia.
  - cbn [fill]. rewrite IH by lia. rewrite length_insert.
    destruct (Nat.leb_spec (Z.to_nat (i + 1)) j),
             (Nat.ltb_spec j (Z.to_nat (i + 1) + k)),
             (Nat.leb_spec (Z.to_nat i) j),
             (Nat.ltb_spec j (Z.to_nat i + S k)),
             (Nat.ltb_spec j (length l));
      cbn [andb]; try lia; try reflexivity;
      try (rewrite list_lookup_insert_ne by lia; reflexivity);
      try (rewrite list_insert_ge by lia; reflexivity).
    assert (j = Z.to_nat i) by lia. subst j.
    rewrite list_lookup_insert_eq by lia. rewrite Z2Nat.id by lia. reflexivity.
Qed.

Lemma fill_fill {A : Type} (g : Z -> A) (k : nat) (i : Z) (l : list A) :
  0 <= i -> fill k i g (fill k i g l) = fill k i g l.
Proof.
  intros Hi. apply list_eq. intros j.
  rewrite (fill_lookup g k i (fill k i g l)) by exact Hi.
  rewrite fill_length. rewrite (fill_lookup g k i l j Hi).
  destruct ((Z.to_nat i <=? j)%nat && (j <? Z.to_nat i + k)%nat
            && (j <? length l)%nat); reflexivity.
Qed.

Section Coefficients.
Context {M : LibM}.

Lemma recalc_loop_fill (n : Z) (ll lh : float) (k : nat) :
  forall (i : Z) (bf bq : list float),
    recalc_loop k i n ll lh bf bq
    = (fill k i (band_f_value n ll lh) bf,
       fill k i (fun _ => band_q_value n) bq).
Proof.
  induction k as [|k IH]; intros i bf bq; [reflexivity|].
  cbn [recalc_loop fill]. rewrite IH. reflexivity.
Qed.

Lemma band_f_value_le_one (n : Z) (ll lh : float) (i : Z) :
  flt f_one (band_f_value n ll lh i) = false.
Proof.
  unfold band_f_value. cbv zeta.
  match goal with |- context [if flt f_one ?f then _ else _] =>
    destruct (flt f_one f) eqn:E; [reflexivity|exact E]
  end.
Qed.

(** Recomputing the coefficients twice is recomputing them once: they
    are a function of the parameters alone. *)
Lemma recalc_twice (v : vocoder_instance_t) :
  recalc_bands (recalc_bands v) = recalc_bands v.
Proof.
  unfold recalc_bands. rewrite !recalc_loop_fill.
  cbn [bands freq_low freq_high attack_ms release_ms band_f band_q set_coeffs].
  rewrite !fill_fill by lia. reflexivity.
Qed.

(** What [recalc_bands] stores.  For every band below the band count it
    writes the frequency coefficient of that band, which is never greater
    than 1, and one and the same reciprocal Q; the entries from the band
    count on, and the lengths of the two arrays, stay as they were.  The
    result is a function of the parameters alone: recomputing once more
    changes nothing. *)
Theorem recalc_bands_coefficients (v : vocoder_instance_t) :
  let u := recalc_bands v in
  let n := bands v in
  (length (band_f u) = length (band_f v) /\
   length (band_q u) = length (band_q v)) /\
  (forall j : nat,
     Z.of_nat j < n -> (j < length (band_f v))%nat ->
     (j < length (band_q v))%nat ->
     band_f u !! j
     = Some (band_f_value n (logf (freq_low v)) (logf (freq_high v))
               (Z.of_nat j)) /\
     flt f_one (at_f (band_f u) j) = false /\
     band_q u !! j = Some (band_q_value n)) /\
  (forall j : nat,
     n <= Z.of_nat j ->
     band_f u !! j = band_f v !! j /\ band_q u !! j = band_q v !! j) /\
  recalc_bands u = u.
Proof.
  cbv zeta. split; [|split; [|split]]; [| | |apply recalc_twice];
    unfold recalc_bands; rewrite recalc_loop_fill;
    cbn [band_f band_q set_coeffs]; rewrite ?fill_length.
  3: { intros j Hj. rewrite !fill_lookup by lia.
       change (Z.to_nat 0) with 0%nat.
       destruct (Nat.ltb_spec j (0 + Z.to_nat (bands v))); [lia|].
       rewrite !andb_false_r. cbn [andb]. split; reflexivity. }
  1: split; reflexivity.
  intros j Hj Lf Lq. unfold at_f. rewrite !fill_lookup by lia.
  change (Z.to_nat 0) with 0%nat.
  destruct (Nat.leb_spec 0 j), (Nat.ltb_spec j (0 + Z.to_nat (bands v))),
           (Nat.ltb_spec j (length (band_f v))),
           (Nat.ltb_spec j (length (band_q v))); try lia.
  cbn [andb default]. repeat split. apply band_f_value_le_one.
Qed.

End Coefficients.

(** ** Loading a saved state *)

Lemma get_field_any (text key : string) (p : nat) (lo hi : float)
    (klo khi : Z) (bits : nat) (x d : float) (c : ascii) (r : string) :
  json_find text key = Some (skip_blank (fmt_f p x ++ String c r)) ->
  field_table p lo hi klo khi bits = true ->
  field_ok lo hi x = true ->
  c = ","%char \/ c = "}"%char ->
  match json_get_float text key with
  | Some fv => clampf fv lo hi
  | None => d
  end = restored p x /\
  fmt_f p (restored p x) = fmt_f p x /\
  field_ok lo hi (restored p x) = true.
Proof.
  intros Hfind Ht Hx Hc.
  destruct (field_round_trip p lo hi klo khi bits x c r Ht Hx Hc)
    as (S & Y & F & K).
  unfold json_get_float. rewrite Hfind, S, Y.
  rewrite Y in F, K. repeat split; assumption.
Qed.

(** The fields that the state branch stores in any instance [w] when it is
    given the state text of [v]. *)
Lemma restore_fields_transfer (v w : vocoder_instance_t) :
  state_ok v = true ->
  let u := restore_fields (state_string v) w in
  (bands u = bands v /\
   freq_low u = restored 1 (freq_low v) /\
   freq_high u = restored 1 (freq_high v) /\
   attack_ms u = restored 1 (attack_ms v) /\
   release_ms u = restored 1 (release_ms v) /\
   mod_gain u = restored 2 (mod_gain v) /\
   mix u = restored 2 (mix v) /\
   carrier_mix u = restored 2 (carrier_mix v)) /\
  state_string u = state_string v /\ state_ok u = true /\
  (same_filters w u /\ same_coeffs w u /\ noise_seed u = noise_seed w).
Proof.
  intros Hok u. apply state_ok_split in Hok.
  destruct Hok as (Hb & H1 & H2 & H3 & H4 & H5 & H6 & H7).
  pose proof (restore_fields_spec w (state_string v)) as R. cbn zeta in R.
  fold u in R. destruct R as (Rb & R1 & R2 & R3 & R4 & R5 & R6 & R7 & Rest).
  rewrite state_string_text in Rb, R1, R2, R3, R4, R5, R6, R7.
  pose proof (no_quote_fmt_f 1 (freq_low v)) as Q1.
  pose proof (no_quote_fmt_f 1 (freq_high v)) as Q2.
  pose proof (no_quote_fmt_f 1 (attack_ms v)) as Q3.
  pose proof (no_quote_fmt_f 1 (release_ms v)) as Q4.
  pose proof (no_quote_fmt_f 2 (mod_gain v)) as Q5.
  pose proof (no_quote_fmt_f 2 (mix v)) as Q6.
  destruct (bands_text (bands v) EmptyString Hb) as [Q0 _].
  unfold json_get_int in Rb. rewrite find_bands in Rb.
  match type of Rb with
  | context [skip_blank (fmt_d (bands v) ++ String "," ?X)] =>
      destruct (bands_text (bands v) X Hb) as [_ Eb]
  end.
  rewrite Eb in Rb.
  pose proof (find_freq_low (fmt_d (bands v)) (fmt_f 1 (freq_low v))
                (fmt_f 1 (freq_high v)) (fmt_f 1 (attack_ms v))
                (fmt_f 1 (release_ms v)) (fmt_f 2 (mod_gain v))
                (fmt_f 2 (mix v)) (fmt_f 2 (carrier_mix v))
                Q0) as G1.
  pose proof (find_freq_high (fmt_d (bands v)) (fmt_f 1 (freq_low v))
                (fmt_f 1 (freq_high v)) (fmt_f 1 (attack_ms v))
                (fmt_f 1 (release_ms v)) (fmt_f 2 (mod_gain v))
                (fmt_f 2 (mix v)) (fmt_f 2 (carrier_mix v))
                Q0 Q1) as G2.
  pose proof (find_attack (fmt_d (bands v)) (fmt_f 1 (freq_low v))
                (fmt_f 1 (freq_high v)) (fmt_f 1 (attack_ms v))
                (fmt_f 1 (release_ms v)) (fmt_f 2 (mod_gain v))
                (fmt_f 2 (mix v)) (fmt_f 2 (carrier_mix v))
                Q0 Q1 Q2) as G3.
  pose proof (find_release (fmt_d (bands v)) (fmt_f 1 (freq_low v))
                (fmt_f 1 (freq_high v)) (fmt_f 1 (attack_ms v))
                (fmt_f 1 (release_ms v)) (fmt_f 2 (mod_gain v))
                (fmt_f 2 (mix v)) (fmt_f 2 (carrier_mix v))
                Q0 Q1 Q2 Q3) as G4.
  pose proof (find_mod_gain (fmt_d (bands v)) (fmt_f 1 (freq_low v))
                (fmt_f 1 (freq_high v)) (fmt_f 1 (attack_ms v))
                (fmt_f 1 (release_ms v)) (fmt_f 2 (mod_gain v))
                (fmt_f 2 (mix v)) (fmt_f 2 (carrier_mix v))
                Q0 Q1 Q2 Q3 Q4) as G5.
  pose proof (find_mix (fmt_d (bands v)) (fmt_f 1 (freq_low v))
                (fmt_f 1 (freq_high v)) (fmt_f 1 (attack_ms v))
                (fmt_f 1 (release_ms v)) (fmt_f 2 (mod_gain v))
                (fmt_f 2 (mix v)) (fmt_f 2 (carrier_mix v))
                Q0 Q1 Q2 Q3 Q4 Q5) as G6.
  pose proof (find_carrier_mix (fmt_d (bands v)) (fmt_f 1 (freq_low v))
                (fmt_f 1 (freq_high v)) (fmt_f 1 (attack_ms v))
                (fmt_f 1 (release_ms v)) (fmt_f 2 (mod_gain v))
                (fmt_f 2 (mix v)) (fmt_f 2 (carrier_mix v))
                Q0 Q1 Q2 Q3 Q4 Q5 Q6) as G7.
  cbv zeta in G1, G2, G3, G4, G5, G6, G7.
  destruct (get_field_any _ _ _ _ _ _ _ _ _ (freq_low w) _ _ G1 table_freq_low H1
              ltac:(left; reflexivity)) as (E1 & F1 & K1).
  destruct (get_field_any _ _ _ _ _ _ _ _ _ (freq_high w) _ _ G2 table_freq_high
              H2 ltac:(left; reflexivity)) as (E2 & F2 & K2).
  destruct (get_field_any _ _ _ _ _ _ _ _ _ (attack_ms w) _ _ G3 table_attack H3
              ltac:(left; reflexivity)) as (E3 & F3 & K3).
  destruct (get_field_any _ _ _ _ _ _ _ _ _ (release_ms w) _ _ G4 table_release
              H4 ltac:(left; reflexivity)) as (E4 & F4 & K4).
  destruct (get_field_any _ _ _ _ _ _ _ _ _ (mod_gain w) _ _ G5 table_mod_gain H5
              ltac:(left; reflexivity)) as (E5 & F5 & K5).
  destruct (get_field_any _ _ _ _ _ _ _ _ _ (mix w) _ _ G6 table_mix H6
              ltac:(left; reflexivity)) as (E6 & F6 & K6).
  destruct (get_field_any _ _ _ _ _ _ _ _ _ (carrier_mix w) _ _ G7 table_mix H7
              ltac:(right; reflexivity)) as (E7 & F7 & K7).
  rewrite E1 in R1. rewrite E2 in R2. rewrite E3 in R3. rewrite E4 in R4.
  rewrite E5 in R5. rewrite E6 in R6. rewrite E7 in R7.
  split; [repeat split; assumption|]. split; [|split; [|exact Rest]].
  - rewrite !state_string_text, Rb, R1, R2, R3, R4, R5, R6, R7.
    rewrite F1, F2, F3, F4, F5, F6, F7. reflexivity.
  - apply state_ok_split. rewrite Rb, R1, R2, R3, R4, R5, R6, R7.
    repeat split; assumption.
Qed.

Lemma instance_ext (v v' : vocoder_instance_t) :
  same_params v v' -> same_coeffs v v' -> same_filters v v' ->
  noise_seed v' = noise_seed v -> v' = v.
Proof.
  destruct v, v'. unfold same_params, same_coeffs, same_filters. cbn.
  intros (? & ? & ? & ? & ? & ? & ? & ?) (? & ? & ? & ?)
         (? & ? & ? & ? & ? & ?) ?.
  subst. reflexivity.
Qed.

Section Load.
Context {M : LibM}.

Lemma clear_recalc_commute (x : vocoder_instance_t) :
  clear_filters (recalc_bands x) = recalc_bands (clear_filters x).
Proof.
  unfold recalc_bands.
  cbn [bands freq_low freq_high attack_ms release_ms band_f band_q
       clear_filters set_filters].
  destruct (recalc_loop _ _ _ _ _ _ _). reflexivity.
Qed.

Lemma reset_twice (x : vocoder_instance_t) :
  recalc_bands (clear_filters (recalc_bands (clear_filters x)))
  = recalc_bands (clear_filters x).
Proof. rewrite clear_recalc_commute, recalc_twice. reflexivity. Qed.

(** A saved state loads into any instance.  The state text of a
    reachable instance [v], given to [setParameter("state", ...)] on any
    instance [w] at all, leaves [w] with the band count of [v], with the
    value of every float parameter of [v] at the precision of the text, and
    with the same state text as [v]; the filter and envelope state of [w]
    is cleared and its noise seed kept. *)
Theorem state_transfer (v w : vocoder_instance_t) :
  reachable v ->
  let w' := set_param w "state" (state_string v) in
  (bands w' = bands v /\
   freq_low w' = restored 1 (freq_low v) /\
   freq_high w' = restored 1 (freq_high v) /\
   attack_ms w' = restored 1 (attack_ms v) /\
   release_ms w' = restored 1 (release_ms v) /\
   mod_gain w' = restored 2 (mod_gain v) /\
   mix w' = restored 2 (mix v) /\
   carrier_mix w' = restored 2 (carrier_mix v)) /\
  state_string w' = state_string v /\
  filters_zero w' /\ noise_seed w' = noise_seed w.
Proof.
  intros Hr. pose proof (reachable_state_ok v Hr) as Hok. cbv zeta.
  rewrite set_param_state_eq.
  destruct (restore_fields_transfer v w Hok) as (F & S & _ & _ & _ & Sd).
  cbv zeta in F, S, Sd.
  set (u := restore_fields (state_string v) w) in *.
  assert (P : same_params u (recalc_bands (clear_filters u))).
  { unfold same_params. autorewrite with vocoder. repeat split. }
  split; [|split; [|split]].
  - destruct P as (E0 & E1 & E2 & E3 & E4 & E5 & E6 & E7).
    rewrite E0, E1, E2, E3, E4, E5, E6, E7. exact F.
  - rewrite (state_string_same_params u _ P). exact S.
  - apply recalc_bands_filters_zero, clear_filters_zero.
  - rewrite recalc_bands_noise_seed. exact Sd.
Qed.


(** Loading the same saved state twice is loading it once: the second
    [setParameter("state", ...)] with the state text of a reachable
    instance leaves the instance exactly as the first one left it. *)
Theorem state_load_idempotent (v w : vocoder_instance_t) :
  reachable v ->
  let s := state_string v in
  set_param (set_param w "state" s) "state" s = set_param w "state" s.
Proof.
  intros Hr. pose proof (reachable_state_ok v Hr) as Hok. cbv zeta.
  rewrite !set_param_state_eq.
  set (u1 := restore_fields (state_string v) w).
  set (w1 := recalc_bands (clear_filters u1)).
  destruct (restore_fields_transfer v w Hok) as (F1 & _). cbv zeta in F1.
  fold u1 in F1.
  destruct (restore_fields_transfer v w1 Hok) as (F2 & _ & _ & Fl & Co & Sd).
  cbv zeta in F2, Fl, Co, Sd.
  set (u2 := restore_fields (state_string v) w1) in *.
  assert (P : same_params u1 w1).
  { unfold w1, same_params. autorewrite with vocoder. repeat split. }
  assert (E : u2 = w1).
  { apply instance_ext; try assumption.
    destruct P as (E0 & E1 & E2 & E3 & E4 & E5 & E6 & E7).
    destruct F1 as (A0 & A1 & A2 & A3 & A4 & A5 & A6 & A7).
    destruct F2 as (B0 & B1 & B2 & B3 & B4 & B5 & B6 & B7).
    unfold same_params.
    rewrite E0, E1, E2, E3, E4, E5, E6, E7, A0, A1, A2, A3, A4, A5, A6, A7.
    repeat split; assumption. }
  rewrite E. unfold w1. apply reset_twice.
Qed.

End Load.

Lemma state_transfer_witness :
  let w := @set_param RefLibM.libm Sample.played "mix" "0.25" in
  let w' := @set_param RefLibM.libm w "state" (state_string Sample.fresh) in
  state_string w' = state_string Sample.fresh.
Proof.
  intros w.
  exact (proj1 (proj2 (@state_transfer RefLibM.libm Sample.fresh w
                         (@reach_create RefLibM.libm)))).
Defined.

Lemma state_load_idempotent_witness :
  let s := state_string Sample.fresh in
  @set_param RefLibM.libm (@set_param RefLibM.libm Sample.played "state" s)
    "state" s
  = @set_param RefLibM.libm Sample.played "state" s.
Proof.
  exact (@state_load_idempotent RefLibM.libm Sample.fresh Sample.played
           (@reach_create RefLibM.libm)).
Defined.

(** ** One parameter, read and written back *)

Lemma append_nil_string (s : string) : (s ++ "")%string = s.
Proof. induction s as [|c s IH]; cbn; [reflexivity|rewrite IH; reflexivity]. Qed.

(** The text that ["%.pf"] prints for the magnitude [k] units of [10^-p],
    with nothing after it, reads back as [k * 10^-p]. *)
Lemma atof_fixed_end (s : bool) (p : nat) (k : Z) :
  0 <= k ->
  atof (sign_string s ++ fixed_string p k) = f64_of_decimal s k (- Z.of_nat p).
Proof.
  intros Hk.
  assert (Hp : 0 < 10 ^ Z.of_nat p) by (apply Z.pow_pos_nonneg; lia).
  assert (Hq : 0 <= k / 10 ^ Z.of_nat p) by (apply Z.div_pos; lia).
  destruct (dec_string_spec (k / 10 ^ Z.of_nat p) Hq) as (w & Ew & Hw).
  set (body := fixed_string p k).
  assert (Eb : body = (digits_fixed (S w) (k / 10 ^ Z.of_nat p)
                       ++ String "."%char (digits_fixed p k ++ ""))%string).
  { unfold body, fixed_string. rewrite Ew, append_nil_string. reflexivity. }
  destruct (digits_fixed_head w (k / 10 ^ Z.of_nat p) "."%char
              (digits_fixed p k ++ "")%string ltac:(left; reflexivity))
    as (d & c2 & t' & Hd & Eh & H2).
  destruct (digit_head_facts d (String c2 t') Hd) as (F1 & F2 & F3).
  pose proof (strtod_hex_digits s d c2 t' Hd H2) as Fhex.
  rewrite <- Eh, <- Eb in F1, F2, F3, Fhex.
  assert (Fdec : strtod_decimal s body
                 = Some (f64_of_decimal s k (- Z.of_nat p))).
  { unfold strtod_decimal, read_mantissa. rewrite Eb.
    rewrite read_digits_fixed.
    rewrite read_digits_stop by tauto.
    rewrite read_digits_fixed.
    cbn [read_digits].
    rewrite (Z.mod_small (k / 10 ^ Z.of_nat p)) by lia.
    replace ((0 * 10 ^ Z.of_nat (S w) + k / 10 ^ Z.of_nat p) * 10 ^ Z.of_nat p
             + k mod 10 ^ Z.of_nat p)
      with k by (pose proof (Z.div_mod k (10 ^ Z.of_nat p) ltac:(lia)); lia).
    assert (Hcnt : (0 + Z.of_nat (S w) + (0 + Z.of_nat p) =? 0) = false)
      by (apply Z.eqb_neq; lia).
    rewrite Hcnt.
    change (read_exponent "e" "E" "") with 0.
    repeat f_equal; lia. }
  fold body. destruct s; cbn [sign_string append].
  - rewrite atof_minus, Fhex, Fdec. reflexivity.
  - unfold atof. rewrite F1, F3, Fhex, Fdec. reflexivity.
Qed.

(** A parameter in its range, printed alone and stored again through its
    clamp, becomes the value at the precision of the text and prints as
    before. *)
Lemma field_write_back (p : nat) (lo hi : float) (klo khi : Z) (bits : nat)
    (x : float) :
  field_table p lo hi klo khi bits = true ->
  field_ok lo hi x = true ->
  let y := clampf (f32_of_f64 (atof (fmt_f p x))) lo hi in
  y = restored p x /\ fmt_f p y = fmt_f p x /\ field_ok lo hi y = true.
Proof.
  intros Ht Hx y.
  unfold field_ok in Hx. apply orb_prop in Hx.
  destruct Hx as [Hn|Hr].
  - destruct x; try discriminate Hn.
    subst y. cbn [fmt_f].
    change (f32_of_f64 (atof "nan")) with S754_nan.
    rewrite clampf_nan. repeat split; reflexivity.
  - destruct (field_table_split p lo hi klo khi bits Ht)
      as (K0 & _ & _ & _ & _ & _ & Htab).
    destruct (in_range_decimal p lo hi klo khi bits x Ht Hr)
      as [[s ->]|(k & Hd & Hk)].
    + pose proof (atof_fixed_end s p 0 ltac:(lia)) as A.
      subst y. cbn [fmt_f]. rewrite A.
      change (f32_of_f64 (f64_of_decimal s 0 (- Z.of_nat p))) with (S754_zero s).
      rewrite (clampf_in_range lo hi (S754_zero s) Hr).
      repeat split; try reflexivity.
      unfold field_ok. rewrite Hr. apply orb_true_r.
    + pose proof (atof_fixed_end false p k ltac:(lia)) as A.
      destruct (Htab k Hk) as [Ry Dy].
      subst y. rewrite (fmt_f_decimal p x false k Hd), A.
      fold (reread p false k).
      rewrite (clampf_in_range lo hi _ Ry).
      split; [unfold restored; rewrite Hd; reflexivity|].
      split; [exact (fmt_f_decimal p _ false k Dy)|].
      unfold field_ok. rewrite Ry. apply orb_true_r.
Qed.

Lemma get_param_same_texts (v v' : vocoder_instance_t) (key : string)
    (buf_len : Z) :
  same_texts v v' -> get_param v' key buf_len = get_param v key buf_len.
Proof.
  intros (E0 & E1 & E2 & E3 & E4 & E5 & E6 & E7).
  unfold get_param, state_string.
  rewrite E0, E1, E2, E3, E4, E5, E6, E7. reflexivity.
Qed.

Lemma snprintf_whole (buf_len n : Z) (s t : string) :
  snprintf buf_len s = (Some t, n) -> n < buf_len < 2 ^ 64 -> t = s.
Proof.
  intros E Hn.
  assert (En : n = strlen s) by (unfold snprintf in E; congruence).
  rewrite snprintf_fits in E by lia. congruence.
Qed.

Lemma bands_write_back (n : Z) :
  n = 8 \/ n = 16 \/ n = 24 \/ n = 32 ->
  snap_bands (clampi (parsed_int (fmt_d n)) 8 32) = n.
Proof. intros [->|[->|[->| ->]]]; vm_compute; reflexivity. Qed.

Lemma set_freq_low_same (u : vocoder_instance_t) (y : float) :
  freq_low u = y -> set_freq_low u y = u.
Proof. intros <-. destruct u; reflexivity. Qed.

Lemma set_freq_high_same (u : vocoder_instance_t) (y : float) :
  freq_high u = y -> set_freq_high u y = u.
Proof. intros <-. destruct u; reflexivity. Qed.

Lemma set_attack_ms_same (u : vocoder_instance_t) (y : float) :
  attack_ms u = y -> set_attack_ms u y = u.
Proof. intros <-. destruct u; reflexivity. Qed.

Lemma set_release_ms_same (u : vocoder_instance_t) (y : float) :
  release_ms u = y -> set_release_ms u y = u.
Proof. intros <-. destruct u; reflexivity. Qed.

Ltac eval_keys_in G :=
  repeat match type of G with
    | context [String.eqb ?a ?b] =>
        let r := eval vm_compute in (String.eqb a b) in
        change (String.eqb a b) with r in G; cbv iota in G
    end.

Section WriteBack.
Context {M : LibM}.

(** Writing a parameter back.  When [getParameter] returned the whole text
    of one of the eight parameters of a reachable instance, giving that text
    to [setParameter] under the same key changes no answer of
    [getParameter], keeps the filter and envelope state and the noise seed,
    and a second such [setParameter] changes nothing at all. *)
Theorem param_write_back (v : vocoder_instance_t) (key : string)
    (buf_len n : Z) (t : string) :
  reachable v -> In key param_keys ->
  get_param v key buf_len = (Some t, n) -> n < buf_len < 2 ^ 64 ->
  let v' := set_param v key t in
  (forall k l, get_param v' k l = get_param v k l) /\
  same_filters v v' /\ noise_seed v' = noise_seed v /\
  set_param v' key t = v'.
Proof.
  intros Hr Hin G Hn.
  pose proof (reachable_state_ok v Hr) as Hok. apply state_ok_split in Hok.
  destruct Hok as (Hb & H1 & H2 & H3 & H4 & H5 & H6 & H7).
  unfold param_keys in Hin. cbn [In] in Hin.
  destruct Hin as [<-|[<-|[<-|[<-|[<-|[<-|[<-|[<-|[]]]]]]]]];
    unfold get_param in G; eval_keys_in G;
    apply snprintf_whole in G; try exact Hn; subst t;
    unfold set_param; eval_keys; cbv zeta.
  - fold (parsed_int (fmt_d (bands v))).
    rewrite (bands_write_back (bands v) Hb), Z.eqb_refl. cbn [negb].
    rewrite Z.eqb_refl. cbn [negb]. repeat split; reflexivity.
  - destruct (field_write_back 1 _ _ _ _ _ (freq_low v) table_freq_low H1)
      as (Ey & Fy & _). cbv zeta in Ey, Fy.
    set (y := clampf _ _ _) in *.
    assert (E : freq_low (recalc_bands (set_freq_low v y)) = y)
      by (autorewrite with vocoder; reflexivity).
    split; [|split; [|split]].
    + intros k l. apply get_param_same_texts. unfold same_texts.
      autorewrite with vocoder. cbn. rewrite Fy. repeat split.
    + exact (recalc_bands_same_filters (set_freq_low v y)).
    + autorewrite with vocoder. reflexivity.
    + rewrite (set_freq_low_same _ _ E). apply recalc_twice.
  - destruct (field_write_back 1 _ _ _ _ _ (freq_high v) table_freq_high H2)
      as (Ey & Fy & _). cbv zeta in Ey, Fy.
    set (y := clampf _ _ _) in *.
    assert (E : freq_high (recalc_bands (set_freq_high v y)) = y)
      by (autorewrite with vocoder; reflexivity).
    split; [|split; [|split]].
    + intros k l. apply get_param_same_texts. unfold same_texts.
      autorewrite with vocoder. cbn. rewrite Fy. repeat split.
    + exact (recalc_bands_same_filters (set_freq_high v y)).
    + autorewrite with vocoder. reflexivity.
    + rewrite (set_freq_high_same _ _ E). apply recalc_twice.
  - destruct (field_write_back 1 _ _ _ _ _ (attack_ms v) table_attack H3)
      as (Ey & Fy & _). cbv zeta in Ey, Fy.
    set (y := clampf _ _ _) in *.
    assert (E : attack_ms (recalc_bands (set_attack_ms v y)) = y)
      by (autorewrite with vocoder; reflexivity).
    split; [|split; [|split]].
    + intros k l. apply get_param_same_texts. unfold same_texts.
      autorewrite with vocoder. cbn. rewrite Fy. repeat split.
    + exact (recalc_bands_same_filters (set_attack_ms v y)).
    + autorewrite with vocoder. reflexivity.
    + rewrite (set_attack_ms_same _ _ E). apply recalc_twice.
  - destruct (field_write_back 1 _ _ _ _ _ (release_ms v) table_release H4)
      as (Ey & Fy & _). cbv zeta in Ey, Fy.
    set (y := clampf _ _ _) in *.
    assert (E : release_ms (recalc_bands (set_release_ms v y)) = y)
      by (autorewrite with vocoder; reflexivity).
    split; [|split; [|split]].
    + intros k l. apply get_param_same_texts. unfold same_texts.
      autorewrite with vocoder. cbn. rewrite Fy. repeat split.
    + exact (recalc_bands_same_filters (set_release_ms v y)).
    + autorewrite with vocoder. reflexivity.
    + rewrite (set_release_ms_same _ _ E). apply recalc_twice.
  - destruct (field_write_back 2 _ _ _ _ _ (mod_gain v) table_mod_gain H5)
      as (Ey & Fy & _). cbv zeta in Ey, Fy.
    set (y := clampf _ _ _) in *.
    split; [|split; [|split]].
    + intros k l. apply get_param_same_texts. unfold same_texts.
      cbn. rewrite Fy. repeat split.
    + destruct v; repeat split.
    + destruct v; reflexivity.
    + destruct v; reflexivity.
  - destruct (field_write_back 2 _ _ _ _ _ (mix v) table_mix H6)
      as (Ey & Fy & _). cbv zeta in Ey, Fy.
    set (y := clampf _ _ _) in *.
    split; [|split; [|split]].
    + intros k l. apply get_param_same_texts. unfold same_texts.
      cbn. rewrite Fy. repeat split.
    + destruct v; repeat split.
    + destruct v; reflexivity.
    + destruct v; reflexivity.
  - destruct (field_write_back 2 _ _ _ _ _ (carrier_mix v) table_mix H7)
      as (Ey & Fy & _). cbv zeta in Ey, Fy.
    set (y := clampf _ _ _) in *.
    split; [|split; [|split]].
    + intros k l. apply get_param_same_texts. unfold same_texts.
      cbn. rewrite Fy. repeat split.
    + destruct v; repeat split.
    + destruct v; reflexivity.
    + destruct v; reflexivity.
Qed.
End WriteBack.

Lemma param_write_back_witness :
  get_param Sample.played "freq_high" 16 = (Some "8000.0"%string, 6) /\
  let v' := @set_param RefLibM.libm Sample.played "freq_high" "8000.0" in
  (forall k l, get_param v' k l = get_param Sample.played k l) /\
  @set_param RefLibM.libm v' "freq_high" "8000.0" = v'.
Proof.
  assert (Hr : @reachable RefLibM.libm Sample.played).
  { apply (@reach_process_block RefLibM.libm Sample.fresh Sample.played
             (Some Sample.host) Sample.carrier 2 (@reach_create RefLibM.libm)).
    vm_compute. reflexivity. }
  assert (Hin : In "freq_high"%string param_keys)
    by (unfold param_keys; cbn [In]; tauto).
  assert (G : get_param Sample.played "freq_high" 16
              = (Some "8000.0"%string, 6)) by (vm_compute; reflexivity).
  assert (Hn : 6 < 16 < 2 ^ 64) by (split; reflexivity).
  split; [exact G|].
  pose proof (@param_write_back RefLibM.libm Sample.played "freq_high" 16 6
                "8000.0" Hr Hin G Hn) as (A & _ & _ & B).
  split; [exact A|exact B].
Defined.

(** ** What every reachable instance satisfies *)

(** Whatever calls have been made since the instance was created, the
    band count is 8, 16, 24 or 32 and each float parameter lies between the
    bounds of its clamp or is a NaN; with a math library that returns
    well-formed floats, the gains, the envelope coefficients and every
    filter and envelope state are well-formed floats too. *)
Theorem reachable_invariant (M : LibM) (v : vocoder_instance_t) :
  reachable v ->
  In (bands v) [8; 16; 24; 32] /\
  field_ok (f32_of_Z 80) (f32_of_Z 500) (freq_low v) = true /\
  field_ok (f32_of_Z 2000) (f32_of_Z 12000) (freq_high v) = true /\
  field_ok (f32_lit 1 10) (f32_of_Z 50) (attack_ms v) = true /\
  field_ok (f32_of_Z 5) (f32_of_Z 500) (release_ms v) = true /\
  field_ok f_zero (f32_of_Z 3) (mod_gain v) = true /\
  field_ok f_zero f_one (mix v) = true /\
  field_ok f_zero f_one (carrier_mix v) = true /\
  (libm_valid M -> valid_instance v = true).
Proof.
  intros Hr. pose proof (reachable_state_ok v Hr) as Hok.
  apply state_ok_split in Hok.
  destruct Hok as (Hb & H1 & H2 & H3 & H4 & H5 & H6 & H7).
  split; [cbn [In]; destruct Hb as [E|[E|[E|E]]]; rewrite E; tauto|].
  repeat (split; [assumption|]).
  intros HM. exact (reachable_valid_instance HM v Hr).
Qed.

Lemma reachable_invariant_witness :
  let v := @set_param RefLibM.libm Sample.played "mix" "nan" in
  In (bands v) [8; 16; 24; 32] /\
  field_ok f_zero f_one (mix v) = true /\ valid_instance v = true.
Proof.
  assert (Hr : @reachable RefLibM.libm Sample.played).
  { apply (@reach_process_block RefLibM.libm Sample.fresh Sample.played
             (Some Sample.host) Sample.carrier 2 (@reach_create RefLibM.libm)).
    vm_compute. reflexivity. }
  pose proof (@reachable_invariant RefLibM.libm _
                (@reach_set_param RefLibM.libm Sample.played "mix" "nan" Hr))
    as (A & _ & _ & _ & _ & _ & B & _ & C).
  cbv zeta. split; [exact A|]. split; [exact B|exact (C ref_libm_valid)].
Defined.

(** ** The length of the state text *)

Lemma length_append_string (a b : string) :
  String.length (a ++ b) = (String.length a + String.length b)%nat.
Proof. induction a as [|c a IH]; cbn; [reflexivity|rewrite IH; reflexivity]. Qed.

Lemma digits_fixed_length (w : nat) :
  forall n : Z, String.length (digits_fixed w n) = w.
Proof.
  induction w as [|w IH]; intros n; [reflexivity|].
  cbn [digits_fixed]. rewrite length_append_string, IH. cbn. lia.
Qed.

Lemma ndigits_upper (fuel : nat) :
  forall (n : nat) (q : Z),
    0 <= q < 10 ^ Z.of_nat (S n) -> (ndigits fuel q <= S n)%nat.
Proof.
  induction fuel as [|fuel IH]; intros n q Hq; [cbn; lia|].
  cbn [ndigits]. destruct (Z.ltb_spec q 10) as [Hlt|Hge]; [lia|].
  destruct n as [|n]; [change (10 ^ Z.of_nat 1) with 10 in Hq; lia|].
  apply le_n_S, IH.
  rewrite Nat2Z.inj_succ, Z.pow_succ_r in Hq by lia.
  split; [apply Z.div_pos; lia|].
  apply Z.div_lt_upper_bound; lia.
Qed.

Lemma fixed_string_length (p n : nat) (k : Z) :
  0 <= k < 10 ^ Z.of_nat (p + S n) ->
  (String.length (fixed_string p k) <= S n + 1 + p)%nat.
Proof.
  intros Hk. unfold fixed_string, dec_string.
  rewrite length_append_string, digits_fixed_length.
  cbn [String.length]. rewrite digits_fixed_length.
  assert (Hp : 0 < 10 ^ Z.of_nat p) by (apply Z.pow_pos_nonneg; lia).
  assert (Hq : 0 <= k / 10 ^ Z.of_nat p < 10 ^ Z.of_nat (S n)).
  { split; [apply Z.div_pos; lia|].
    apply Z.div_lt_upper_bound; [lia|].
    rewrite <- Z.pow_add_r by lia.
    replace (Z.of_nat p + Z.of_nat (S n)) with (Z.of_nat (p + S n)) by lia.
    lia. }
  pose proof (ndigits_upper (Z.to_nat (Z.log2 (k / 10 ^ Z.of_nat p))) n _ Hq).
  lia.
Qed.

(** A parameter in its range prints in at most [L] characters, for any [L]
    that holds the text of a NaN, of a negative zero and of the upper
    bound. *)
Lemma fmt_f_length (p : nat) (lo hi : float) (klo khi : Z) (bits n L : nat)
    (x : float) :
  field_table p lo hi klo khi bits = true ->
  field_ok lo hi x = true ->
  khi < 10 ^ Z.of_nat (p + S n) ->
  (3 + p <= L)%nat -> (S n + 1 + p <= L)%nat ->
  (String.length (fmt_f p x) <= L)%nat.
Proof.
  intros Ht Hx Hk H3 HL.
  unfold field_ok in Hx. apply orb_prop in Hx.
  destruct Hx as [Hn|Hr].
  - destruct x; try discriminate Hn. cbn. lia.
  - destruct (field_table_split p lo hi klo khi bits Ht) as (K0 & _).
    destruct (in_range_decimal p lo hi klo khi bits x Ht Hr)
      as [[s ->]|(k & Hd & Hkk)].
    + cbn [fmt_f]. rewrite length_append_string.
      assert (H0 : 0 <= 0 < 10 ^ Z.of_nat (p + 1))
        by (split; [lia|apply Z.pow_pos_nonneg; lia]).
      pose proof (fixed_string_length p 0 0 H0).
      destruct s; cbn [sign_string String.length]; lia.
    + rewrite (fmt_f_decimal p x false k Hd), length_append_string.
      pose proof (fixed_string_length p n k ltac:(lia)).
      cbn [sign_string String.length]. lia.
Qed.

Ltac eval_lengths :=
  repeat match goal with
    | |- context [String.length (json_text ?s)] =>
        let r := eval vm_compute in (String.length (json_text s)) in
        change (String.length (json_text s)) with r
    end.

Lemma state_ok_length (v : vocoder_instance_t) :
  state_ok v = true -> strlen (state_string v) <= 128.
Proof.
  intros Hok. apply state_ok_split in Hok.
  destruct Hok as (Hb & H1 & H2 & H3 & H4 & H5 & H6 & H7).
  pose proof (fmt_f_length 1 _ _ _ _ _ 2 5 _ table_freq_low H1
                ltac:(reflexivity) ltac:(lia) ltac:(lia)) as L1.
  pose proof (fmt_f_length 1 _ _ _ _ _ 4 7 _ table_freq_high H2
                ltac:(reflexivity) ltac:(lia) ltac:(lia)) as L2.
  pose proof (fmt_f_length 1 _ _ _ _ _ 1 4 _ table_attack H3
                ltac:(reflexivity) ltac:(lia) ltac:(lia)) as L3.
  pose proof (fmt_f_length 1 _ _ _ _ _ 2 5 _ table_release H4
                ltac:(reflexivity) ltac:(lia) ltac:(lia)) as L4.
  pose proof (fmt_f_length 2 _ _ _ _ _ 0 5 _ table_mod_gain H5
                ltac:(reflexivity) ltac:(lia) ltac:(lia)) as L5.
  pose proof (fmt_f_length 2 _ _ _ _ _ 0 5 _ table_mix H6
                ltac:(reflexivity) ltac:(lia) ltac:(lia)) as L6.
  pose proof (fmt_f_length 2 _ _ _ _ _ 0 5 _ table_mix H7
                ltac:(reflexivity) ltac:(lia) ltac:(lia)) as L7.
  assert (L0 : (String.length (fmt_d (bands v)) <= 2)%nat)
    by (destruct Hb as [->|[->|[->| ->]]]; vm_compute; lia).
  unfold strlen, state_string.
  rewrite !length_append_string. eval_lengths.
  change (String.length "}") with 1%nat. lia.
Qed.

Section Length.
Context {M : LibM}.

(** The state always fits 129 bytes.  For a reachable instance the state
    text has at most 128 characters, so [getParameter("state", ...)] with a
    buffer of more than 128 bytes stores the whole text and returns its
    length. *)
Theorem state_text_fits (v : vocoder_instance_t) (buf_len : Z) :
  reachable v -> 128 < buf_len < 2 ^ 64 ->
  strlen (state_string v) <= 128 /\
  get_param v "state" buf_len = (Some (state_string v), strlen (state_string v)).
Proof.
  intros Hr Hn.
  pose proof (state_ok_length v (reachable_state_ok v Hr)) as L.
  split; [exact L|].
  unfold get_param. eval_keys. apply snprintf_fits. lia.
Qed.
End Length.

Lemma state_text_fits_witness :
  let w := @set_param RefLibM.libm Sample.fresh "state"
             (json_text "{'bands':32,'freq_low':500,'freq_high':12000,'attack':50,'release':500,'mod_gain':-0,'mix':-0,'carrier_mix':-0}") in
  get_param w "state" 129 = (Some (state_string w), 128).
Proof.
  intros w.
  assert (Hr : @reachable RefLibM.libm w)
    by (apply reach_set_param, reach_create).
  assert (Hn : 128 < 129 < 2 ^ 64) by (split; reflexivity).
  destruct (@state_text_fits RefLibM.libm w 129 Hr Hn) as [_ G].
  assert (E : strlen (state_string w) = 128) by (vm_compute; reflexivity).
  rewrite E in G. exact G.
Defined.

(** ** The order of two [setParameter] calls *)

Lemma fill_over {A : Type} (g g' : Z -> A) (k : nat) (i : Z) (l : list A) :
  0 <= i -> fill k i g (fill k i g' l) = fill k i g l.
Proof.
  intros Hi. apply list_eq. intros j.
  rewrite (fill_lookup g k i (fill k i g' l)) by exact Hi.
  rewrite fill_length. rewrite (fill_lookup g' k i l j Hi).
  rewrite (fill_lookup g k i l j Hi).
  destruct ((Z.to_nat i <=? j)%nat && (j <? Z.to_nat i + k)%nat
            && (j <? length l)%nat); reflexivity.
Qed.

Ltac recalc_normal :=
  unfold recalc_bands; rewrite ?recalc_loop_fill;
  cbn [bands freq_low freq_high attack_ms release_ms mod_gain mix carrier_mix
       band_f band_q att_coeff rel_coeff mod_svf_l mod_svf_r car_svf_l
       car_svf_r mod_env_l mod_env_r noise_seed set_coeffs set_freq_low
       set_freq_high set_attack_ms set_release_ms set_mod_gain set_mix
       set_carrier_mix];
  rewrite ?fill_over by lia; reflexivity.

Section Commute.
Context {M : LibM}.

Lemma set_param_freq_low_eq (v : vocoder_instance_t) (val : string) :
  set_param v "freq_low" val
  = recalc_bands (set_freq_low v (clampf (f32_of_f64 (atof val)) (f32_of_Z 80) (f32_of_Z 500))).
Proof. reflexivity. Qed.

Lemma set_param_freq_high_eq (v : vocoder_instance_t) (val : string) :
  set_param v "freq_high" val
  = recalc_bands
      (set_freq_high v (clampf (f32_of_f64 (atof val)) (f32_of_Z 2000) (f32_of_Z 12000))).
Proof. reflexivity. Qed.

Lemma set_param_attack_eq (v : vocoder_instance_t) (val : string) :
  set_param v "attack" val
  = recalc_bands (set_attack_ms v (clampf (f32_of_f64 (atof val)) (f32_lit 1 10) (f32_of_Z 50))).
Proof. reflexivity. Qed.

Lemma set_param_release_eq (v : vocoder_instance_t) (val : string) :
  set_param v "release" val
  = recalc_bands (set_release_ms v (clampf (f32_of_f64 (atof val)) (f32_of_Z 5) (f32_of_Z 500))).
Proof. reflexivity. Qed.

Lemma set_param_mod_gain_eq (v : vocoder_instance_t) (val : string) :
  set_param v "mod_gain" val
  = set_mod_gain v (clampf (f32_of_f64 (atof val)) f_zero (f32_of_Z 3)).
Proof. reflexivity. Qed.

Lemma set_param_mix_eq (v : vocoder_instance_t) (val : string) :
  set_param v "mix" val
  = set_mix v (clampf (f32_of_f64 (atof val)) f_zero f_one).
Proof. reflexivity. Qed.

Lemma set_param_carrier_mix_eq (v : vocoder_instance_t) (val : string) :
  set_param v "carrier_mix" val
  = set_carrier_mix v (clampf (f32_of_f64 (atof val)) f_zero f_one).
Proof. reflexivity. Qed.

Lemma set_param_key (key : string) :
  key <> "state"%string -> key <> "bands"%string ->
  (key = "freq_low" \/ key = "freq_high" \/ key = "attack" \/ key = "release" \/
   key = "mod_gain" \/ key = "mix" \/ key = "carrier_mix")%string \/
  forall (v : vocoder_instance_t) (val : string), set_param v key val = v.
Proof.
  intros Hs Hb.
  destruct (String.eqb_spec key "freq_low"); [tauto|].
  destruct (String.eqb_spec key "freq_high"); [tauto|].
  destruct (String.eqb_spec key "attack"); [tauto|].
  destruct (String.eqb_spec key "release"); [tauto|].
  destruct (String.eqb_spec key "mod_gain"); [tauto|].
  destruct (String.eqb_spec key "mix"); [tauto|].
  destruct (String.eqb_spec key "carrier_mix"); [tauto|].
  right. intros v val. unfold set_param.
  repeat match goal with
    | H : key <> ?s |- _ =>
        apply String.eqb_neq in H; rewrite H; clear H
    end.
  reflexivity.
Qed.

(** Two [setParameter] calls with different keys, neither of them [bands]
    or [state], can be made in either order: the instance that results is
    the same, coefficients and filter state included. *)
Theorem set_param_commute (v : vocoder_instance_t) (k1 k2 a b : string) :
  k1 <> k2 ->
  ~ In k1 ["state"; "bands"]%string -> ~ In k2 ["state"; "bands"]%string ->
  set_param (set_param v k1 a) k2 b = set_param (set_param v k2 b) k1 a.
Proof.
  intros Hne N1 N2. cbn [In] in N1, N2.
  destruct (set_param_key k1 ltac:(intros ->; tauto) ltac:(intros ->; tauto))
    as [K1|U1];
  destruct (set_param_key k2 ltac:(intros ->; tauto) ltac:(intros ->; tauto))
    as [K2|U2].
  - destruct K1 as [->|[->|[->|[->|[->|[->| ->]]]]]];
    destruct K2 as [->|[->|[->|[->|[->|[->| ->]]]]]];
      try (exfalso; apply Hne; reflexivity);
      rewrite ?set_param_freq_low_eq, ?set_param_freq_high_eq,
        ?set_param_attack_eq, ?set_param_release_eq, ?set_param_mod_gain_eq,
        ?set_param_mix_eq, ?set_param_carrier_mix_eq;
      repeat match goal with
        | |- context [clampf ?x ?lo ?hi] => generalize (clampf x lo hi); intro
        end;
      destruct v; recalc_normal.
  - rewrite !U2. reflexivity.
  - rewrite !U1. reflexivity.
  - rewrite !U1, !U2. reflexivity.
Qed.
End Commute.

Lemma set_param_commute_witness :
  @set_param RefLibM.libm
    (@set_param RefLibM.libm Sample.played "freq_low" "200") "attack" "10"
  = @set_param RefLibM.libm
      (@set_param RefLibM.libm Sample.played "attack" "10") "freq_low" "200".
Proof.
  apply (@set_param_commute RefLibM.libm Sample.played "freq_low" "attack"
           "200" "10").
  - discriminate.
  - cbn [In]. intros [H|[H|[]]]; discriminate H.
  - cbn [In]. intros [H|[H|[]]]; discriminate H.
Defined.

Lemma mono_block_witness :
  let h := {| mapped_memory :=
                replicate 2304 0 ++ [255; 127; 255; 127; 0; 128; 0; 128];
              audio_in_offset := 2304 |} in
  let out :=
    snd (v2_process_block (Some h) (Some Sample.fresh)
           [30000; 30000; -20000; -20000] 2) in
  out !! 1%nat = out !! 0%nat /\ out !! 3%nat = out !! 2%nat.
Proof.
  intros h.
  assert (Hin : forall i : Z, 0 <= i < 2 ->
            [30000; 30000; -20000; -20000] !! Z.to_nat (i * 2 + 1)
            = [30000; 30000; -20000; -20000] !! Z.to_nat (i * 2) /\
            mic_in h (i * 2 + 1) = mic_in h (i * 2)).
  { intros i Hi. assert (E : i = 0 \/ i = 1) by lia.
    destruct E as [-> | ->]; split; vm_compute; reflexivity. }
  pose proof (proj1 (mono_block h Sample.fresh [30000; 30000; -20000; -20000] 2
                       ltac:(lia) ltac:(cbn; lia)
                       ltac:(repeat split) Hin)) as H.
  split; [exact (H 0 ltac:(lia))|exact (H 1 ltac:(lia))].
Defined.

(** The block of the example above: both channels of the host input hold
    32767 and then -32768, and the two frames come back as 175 and -221 on
    both channels.  On a carrier whose channels differ, and on an instance
    whose channels are in different states, the channels come back
    different. *)
Example mono_block_values :
  let h := {| mapped_memory :=
                replicate 2304 0 ++ [255; 127; 255; 127; 0; 128; 0; 128];
              audio_in_offset := 2304 |} in
  snd (v2_process_block (Some h) (Some Sample.fresh)
         [30000; 30000; -20000; -20000] 2) = [175; 175; -221; -221] /\
  snd (v2_process_block (Some h) (Some Sample.fresh)
         [30000; -30000; -20000; 20000] 2) = [175; -173; -221; 224] /\
  snd (v2_process_block (Some h) (Some Sample.played)
         [30000; 30000; -20000; -20000] 2) = [477; 420; -841; -69].
Proof. vm_compute. repeat split. Qed.

(** ** Dry signal path, frame by frame *)

Lemma mix_sample_not_finite (out car : float) (s : bool) :
  is_finite out = false ->
  mix_sample out car (S754_zero s) (fsub f_one (S754_zero s)) = 0.
Proof.
  intros Hf. unfold mix_sample.
  assert (E : fmul out (S754_zero s) = S754_nan)
    by (destruct out; try discriminate Hf; reflexivity).
  rewrite E. reflexivity.
Qed.

(** C3, as the code has it.  With [mix] set to 0, every frame of the block
    is settled on its own, and each channel of it on its own: where the
    wet sum of the frame is finite, [processBlock] writes back the carrier
    input sample scaled by 32767/32768 and truncated toward zero ([c - 1]
    for a positive sample [c], [c + 1] for a negative one, 0 for 0),
    whatever the modulator content, the other parameters and the other
    frames are; where the wet sum is infinite or a NaN it writes 0.
    Samples behind the block stay. *)
Theorem process_block_mix_zero :
  forall (h : host_api_v1_t) (v : vocoder_instance_t) (audio : list Z)
         (frames : Z) (s : bool),
    mix v = S754_zero s ->
    0 <= frames -> 2 * frames <= Z.of_nat (length audio) ->
    Forall int16 audio ->
    let out := snd (v2_process_block (Some h) (Some v) audio frames) in
    length out = length audio /\
    length (block_trace h v audio frames) = Z.to_nat frames /\
    (forall (m : nat) (fr : frame_t) (cl cr : Z),
       block_trace h v audio frames !! m = Some fr ->
       audio !! (2 * m)%nat = Some cl ->
       audio !! (2 * m + 1)%nat = Some cr ->
       out !! (2 * m)%nat
       = Some (if is_finite (fr_out_l fr) then requantize cl else 0) /\
       out !! (2 * m + 1)%nat
       = Some (if is_finite (fr_out_r fr) then requantize cr else 0)) /\
    (forall (j : nat) (c : Z),
       audio !! j = Some c ->
       (2 * frames <= Z.of_nat j -> out !! j = Some c) /\
       requantize c = c - Z.sgn c).
Proof.
  intros h v audio frames s Hmix Hfr Hlen Hall out.
  subst out. unfold v2_process_block, block_trace. rewrite Hmix.
  pose proof (frame_loop_lookup h (bands v) (att_coeff v) (rel_coeff v)
                (mod_gain v) (S754_zero s) (fsub f_one (S754_zero s))
                (carrier_mix v) audio (Z.to_nat frames) 0 v audio
                ltac:(lia) eq_refl ltac:(reflexivity)) as H.
  destruct (frame_loop _ _ _ _ _ _ _ _ _ _ _ _) as [v' out].
  cbn [snd] in *. destruct H as (L & _ & After & At).
  assert (Hint : forall j c, audio !! j = Some c -> int16 c).
  { intros j c Hj. rewrite Forall_forall in Hall. apply Hall.
    apply list_elem_of_lookup. exists j. exact Hj. }
  split; [exact L|]. split; [apply frame_trace_length|]. split.
  - intros m fr cl cr Hfrm Hl Hr.
    assert (Hrl : (2 * m + 1 < length audio)%nat)
      by (apply lookup_lt_is_Some; exists cr; exact Hr).
    destruct (frame_trace_carrier _ _ _ _ _ _ _ _ 0 _ _ _ ltac:(lia) Hfrm)
      as [Cl Cr].
    destruct (At m fr Hfrm) as [Al Ar].
    { change (Z.to_nat (0 * 2)) with 0%nat. lia. }
    change (Z.to_nat (0 * 2)) with 0%nat in Al, Ar, Cl, Cr.
    rewrite !Nat.add_0_l in Al, Ar, Cl, Cr.
    rewrite Hl in Cl. rewrite Hr in Cr. cbn [default] in Cl, Cr.
    rewrite Al, Ar, Cl, Cr. split; f_equal.
    + destruct (is_finite (fr_out_l fr)) eqn:F.
      * apply mix_sample_mix_zero; [exact F|exact (Hint _ _ Hl)].
      * apply mix_sample_not_finite. exact F.
    + destruct (is_finite (fr_out_r fr)) eqn:F.
      * apply mix_sample_mix_zero; [exact F|exact (Hint _ _ Hr)].
      * apply mix_sample_not_finite. exact F.
  - intros j c Hj. split.
    + intros Hge. rewrite After by (cbn; lia). exact Hj.
    + apply requantize_int16. exact (Hint _ _ Hj).
Qed.

Lemma process_block_mix_zero_witness :
  let h := {| mapped_memory :=
                replicate 2304 0
                ++ [0; 0; 0; 0; 0; 0; 0; 0; 0; 64; 0; 192; 255; 127; 0; 128];
              audio_in_offset := 2304 |} in
  let v := @set_param RefLibM.libm
             (@set_param RefLibM.libm Sample.fresh "mix" "0") "attack" "nan" in
  let audio := [1000; -1000; 2000; -2000; 3000; -3000; 4000; -4000] in
  let out := snd (v2_process_block (Some h) (Some v) audio 4) in
  wet_finite (block_trace h v audio 4) = false /\
  out !! 2%nat = Some (requantize 2000) /\
  out !! 3%nat = Some (requantize (-2000)) /\
  out !! 4%nat = Some 0 /\ out !! 5%nat = Some 0.
Proof.
  intros h v audio out.
  assert (Hmix : mix v = S754_zero false) by (vm_compute; reflexivity).
  assert (Hall : Forall int16 audio)
    by (repeat constructor; unfold int16; lia).
  assert (Hw : wet_finite (block_trace h v audio 4) = false)
    by (vm_compute; reflexivity).
  assert (F1 : match block_trace h v audio 4 !! 1%nat with
               | Some fr => is_finite (fr_out_l fr) && is_finite (fr_out_r fr)
               | None => false
               end = true) by (vm_compute; reflexivity).
  assert (F2 : match block_trace h v audio 4 !! 2%nat with
               | Some fr =>
                   negb (is_finite (fr_out_l fr))
                   && negb (is_finite (fr_out_r fr))
               | None => false
               end = true) by (vm_compute; reflexivity).
  destruct (process_block_mix_zero h v audio 4 false Hmix ltac:(lia)
              ltac:(cbn; lia) Hall) as (_ & _ & At & _).
  fold out in At.
  destruct (block_trace h v audio 4 !! 1%nat) as [fr1|] eqn:E1;
    [|discriminate F1].
  destruct (block_trace h v audio 4 !! 2%nat) as [fr2|] eqn:E2;
    [|discriminate F2].
  apply andb_prop in F1. destruct F1 as [F1l F1r].
  apply andb_prop in F2. destruct F2 as [F2l F2r].
  apply negb_true_iff in F2l, F2r.
  destruct (At 1%nat fr1 2000 (-2000) E1 eq_refl eq_refl) as [A1 B1].
  destruct (At 2%nat fr2 3000 (-3000) E2 eq_refl eq_refl) as [A2 B2].
  rewrite F1l in A1. rewrite F1r in B1. rewrite F2l in A2. rewrite F2r in B2.
  split; [exact Hw|]. repeat split; assumption.
Defined.

(** ** The coefficients after a recomputation *)

Section Current.
Context {M : LibM}.

Lemma recalc_bands_current (u : vocoder_instance_t) :
  coeffs_current (recalc_bands u) /\
  length (band_f (recalc_bands u)) = length (band_f u) /\
  length (band_q (recalc_bands u)) = length (band_q u).
Proof.
  unfold coeffs_current. autorewrite with vocoder.
  unfold recalc_bands. rewrite recalc_loop_fill.
  cbn [band_f band_q att_coeff rel_coeff set_coeffs]. rewrite !fill_length.
  split; [|split; reflexivity]. split; [|split; [|split; reflexivity]].
  - intros j Hj Lf. rewrite fill_lookup by lia.
    change (Z.to_nat 0) with 0%nat.
    destruct (Nat.leb_spec 0 j), (Nat.ltb_spec j (0 + Z.to_nat (bands u))),
             (Nat.ltb_spec j (length (band_f u))); try lia.
    reflexivity.
  - intros j Hj Lq. rewrite fill_lookup by lia.
    change (Z.to_nat 0) with 0%nat.
    destruct (Nat.leb_spec 0 j), (Nat.ltb_spec j (0 + Z.to_nat (bands u))),
             (Nat.ltb_spec j (length (band_q u))); try lia.
    reflexivity.
Qed.
End Current.

(** C1, as the code has it.  A [setParameter] with key [bands] that changes
    the band count, and every [setParameter] with key [state], leave all
    four filter-state arrays and both envelope arrays at zero.  A
    [setParameter] with key [freq_low] or [freq_high] stores the clamped
    value, recomputes the coefficients (every band below the band count
    gets the frequency coefficient and the reciprocal Q that the stored
    parameters give, and the two envelope coefficients are those of the
    attack and release times) and leaves the filter and envelope state as
    it was. *)
Theorem set_param_reset_policy :
  forall (M : LibM) (v : vocoder_instance_t) (val : string),
    (bands (set_param v "bands" val) <> bands v ->
     filters_zero (set_param v "bands" val)) /\
    filters_zero (set_param v "state" val) /\
    (let v' := set_param v "freq_low" val in
     freq_low v'
     = clampf (f32_of_f64 (atof val)) (f32_of_Z 80) (f32_of_Z 500) /\
     coeffs_current v' /\ same_filters v v' /\
     length (band_f v') = length (band_f v) /\
     length (band_q v') = length (band_q v)) /\
    (let v' := set_param v "freq_high" val in
     freq_high v'
     = clampf (f32_of_f64 (atof val)) (f32_of_Z 2000) (f32_of_Z 12000) /\
     coeffs_current v' /\ same_filters v v' /\
     length (band_f v') = length (band_f v) /\
     length (band_q v') = length (band_q v)).
Proof.
  intros M v val. split; [|split; [|split]].
  - apply set_param_bands_zero.
  - apply set_param_state_zero.
  - cbv zeta. rewrite set_param_freq_low_eq.
    destruct (recalc_bands_current
                (set_freq_low v (clampf (f32_of_f64 (atof val))
                                   (f32_of_Z 80) (f32_of_Z 500))))
      as (C & Lf & Lq).
    split; [autorewrite with vocoder; reflexivity|].
    split; [exact C|]. split; [|split; [exact Lf|exact Lq]].
    exact (recalc_bands_same_filters (set_freq_low v _)).
  - cbv zeta. rewrite set_param_freq_high_eq.
    destruct (recalc_bands_current
                (set_freq_high v (clampf (f32_of_f64 (atof val))
                                    (f32_of_Z 2000) (f32_of_Z 12000))))
      as (C & Lf & Lq).
    split; [autorewrite with vocoder; reflexivity|].
    split; [exact C|]. split; [|split; [exact Lf|exact Lq]].
    exact (recalc_bands_same_filters (set_freq_high v _)).
Qed.

Lemma set_param_reset_policy_witness :
  bands (@set_param RefLibM.libm Sample.played "bands" "24") <> bands Sample.played /\
  filters_zero (@set_param RefLibM.libm Sample.played "bands" "24").
Proof.
  assert (H : bands (@set_param RefLibM.libm Sample.played "bands" "24")
              <> bands Sample.played) by (vm_compute; discriminate).
  split; [exact H|].
  exact (proj1 (set_param_reset_policy RefLibM.libm Sample.played "24") H).
Defined.

(** ** Where [strstr] finds a key *)

Lemma prefix_split (n h : string) :
  String.prefix n h = true -> exists post : string, h = (n ++ post)%string.
Proof.
  revert h. induction n as [|a n IH]; intros h H.
  - exists h. reflexivity.
  - destruct h as [|b h]; [discriminate H|].
    cbn [String.prefix] in H.
    destruct (ascii_dec a b) as [->|N]; [|discriminate H].
    destruct (IH h H) as [post ->]. exists post. reflexivity.
Qed.

Lemma strstr_absent (n h : string) : absent n h -> strstr h n = None.
Proof.
  unfold absent. induction h as [|c h IH]; intros Ha.
  - cbn [strstr]. destruct (String.prefix n "") eqn:P; [|reflexivity].
    destruct (prefix_split _ _ P) as [post E].
    exfalso. apply (Ha ""%string post). exact E.
  - rewrite strstr_cons.
    destruct (String.prefix n (String c h)) eqn:P.
    + destruct (prefix_split _ _ P) as [post E].
      exfalso. apply (Ha ""%string post). exact E.
    + apply IH. intros pre post E. apply (Ha (String c pre) post).
      rewrite E. reflexivity.
Qed.

Lemma strstr_first (n post : string) :
  forall pre h : string,
    first_at n h pre post -> strstr h n = Some (n ++ post)%string.
Proof.
  induction pre as [|c pre IH]; intros h [E Hmin]; subst h.
  - change ("" ++ n ++ post)%string with (n ++ post)%string.
    apply strstr_found.
  - cbn [append]. rewrite strstr_cons.
    destruct (String.prefix n (String c (pre ++ n ++ post))) eqn:P.
    + destruct (prefix_split _ _ P) as [post' E'].
      pose proof (Hmin ""%string post' E') as Hl. cbn in Hl. lia.
    + apply IH. split; [reflexivity|].
      intros pre' post' E'.
      pose proof (Hmin (String c pre') post') as Hl.
      cbn [append String.length] in Hl. rewrite E' in Hl.
      specialize (Hl eq_refl). lia.
Qed.

Lemma strstr_occurrence (n post : string) :
  forall pre : string, strstr (pre ++ n ++ post) n <> None.
Proof.
  induction pre as [|c pre IH].
  - change ("" ++ n ++ post)%string with (n ++ post)%string.
    rewrite strstr_found. discriminate.
  - cbn [append]. rewrite strstr_cons.
    destruct (String.prefix n (String c (pre ++ n ++ post)));
      [discriminate|exact IH].
Qed.

Lemma strstr_none_absent (n h : string) : strstr h n = None -> absent n h.
Proof.
  intros H pre post E. subst h. exact (strstr_occurrence n post pre H).
Qed.

Lemma strstr_earliest (n : string) :
  forall h r : string,
    strstr h n = Some r ->
    forall pre' post' : string,
      h = (pre' ++ n ++ post')%string ->
      (String.length (n ++ post') <= String.length r)%nat.
Proof.
  induction h as [|c h IH]; intros r Hr pre' post' E.
  - cbn [strstr] in Hr.
    destruct (String.prefix n ""); [|discriminate Hr].
    injection Hr as <-.
    destruct pre'; [|discriminate E]. cbn [append] in E. rewrite <- E.
    reflexivity.
  - rewrite strstr_cons in Hr.
    destruct (String.prefix n (String c h)) eqn:P.
    + injection Hr as <-. rewrite E, !length_append_string. lia.
    + destruct pre' as [|c' pre'].
      * cbn [append] in E. rewrite E, prefix_append in P. discriminate P.
      * cbn [append] in E. injection E as _ E.
        exact (IH r Hr pre' post' E).
Qed.

Lemma strstr_some_first (n h pre post : string) :
  h = (pre ++ n ++ post)%string ->
  strstr h n = Some (n ++ post)%string ->
  first_at n h pre post.
Proof.
  intros -> H. split; [reflexivity|]. intros pre' post' E.
  pose proof (strstr_earliest n _ _ H pre' post' E) as L.
  apply (f_equal String.length) in E.
  repeat rewrite length_append_string in E.
  repeat rewrite length_append_string in L. lia.
Qed.

Lemma json_find_absent (val key : string) :
  absent (json_search key) val -> json_find val key = None.
Proof.
  intros Ha. unfold json_find. rewrite (strstr_absent _ _ Ha). reflexivity.
Qed.

Lemma json_find_first (val key pre post : string) :
  first_at (json_search key) val pre post ->
  json_find val key = Some (skip_blank post).
Proof.
  intros Hf. unfold json_find. rewrite (strstr_first _ _ _ _ Hf).
  rewrite drop_append. reflexivity.
Qed.

(** ** Reading a number after a key *)

Lemma skip_space_skip_blank (s : string) :
  skip_space (skip_blank s) = skip_space s.
Proof.
  induction s as [|c s IH]; [reflexivity|].
  cbn [skip_blank].
  destruct ((code c =? 32) || (code c =? 9)) eqn:B; [|reflexivity].
  rewrite IH. cbn [skip_space]. unfold isspace.
  apply orb_prop in B. destruct B as [B|B]; apply Z.eqb_eq in B; rewrite B;
    reflexivity.
Qed.

Lemma skip_space_blanks (ws t : string) :
  blanks ws = true -> skip_space (ws ++ t) = skip_space t.
Proof.
  unfold blanks. induction ws as [|c ws IH]; intros H; [reflexivity|].
  cbn [all_chars] in H. apply andb_prop in H. destruct H as [B H].
  cbn [append skip_space]. unfold isspace.
  apply orb_prop in B. destruct B as [B|B]; apply Z.eqb_eq in B; rewrite B;
    cbn; apply IH; exact H.
Qed.

Lemma atof_skip_blank (s : string) : atof (skip_blank s) = atof s.
Proof. unfold atof. rewrite skip_space_skip_blank. reflexivity. Qed.

Lemma atoi_skip_blank (s : string) : atoi (skip_blank s) = atoi s.
Proof. unfold atoi. rewrite skip_space_skip_blank. reflexivity. Qed.

Lemma atof_blanks (ws t : string) :
  blanks ws = true -> atof (ws ++ t) = atof t.
Proof. intros H. unfold atof. rewrite (skip_space_blanks ws t H). reflexivity. Qed.

Lemma atoi_blanks (ws t : string) :
  blanks ws = true -> atoi (ws ++ t) = atoi t.
Proof. intros H. unfold atoi. rewrite (skip_space_blanks ws t H). reflexivity. Qed.

Lemma read_digits_end (rest : string) (acc cnt : Z) :
  number_end rest = true ->
  read_digits 10 digit_of rest acc cnt = (acc, cnt, rest).
Proof.
  destruct rest as [|c r]; [reflexivity|].
  cbn [number_end read_digits].
  destruct (digit_of c); [discriminate|reflexivity].
Qed.

Lemma number_end_chars (c : ascii) (r : string) :
  number_end (String c r) = true ->
  digit_of c = None /\ Ascii.eqb c "." = false /\ Ascii.eqb c "e" = false /\
  Ascii.eqb c "E" = false /\ Ascii.eqb c "x" = false /\ Ascii.eqb c "X" = false.
Proof.
  cbn [number_end]. destruct (digit_of c); [discriminate|].
  intros H. apply negb_true_iff in H.
  repeat (apply orb_false_elim in H; destruct H as [H ?]).
  repeat split; assumption.
Qed.

Lemma read_exponent_end (rest : string) :
  number_end rest = true -> read_exponent "e" "E" rest = 0.
Proof.
  destruct rest as [|c r]; [reflexivity|]. intros H.
  destruct (number_end_chars c r H) as (_ & _ & E1 & E2 & _).
  cbn [read_exponent]. rewrite E1, E2. reflexivity.
Qed.

Lemma tolower_x (c : ascii) :
  Ascii.eqb c "x" = false -> Ascii.eqb c "X" = false ->
  Ascii.eqb (tolower c) "x" = false.
Proof.
  destruct c as [[] [] [] [] [] [] [] []]; intros H1 H2;
    first [reflexivity | discriminate H1 | discriminate H2].
Qed.

Lemma read_mantissa_integer (w : nat) (n : Z) (rest : string) :
  number_end rest = true ->
  read_mantissa 10 digit_of (digits_fixed w n ++ rest)
  = (n mod 10 ^ Z.of_nat w, Z.of_nat w, 0, rest).
Proof.
  intros H. unfold read_mantissa.
  rewrite read_digits_fixed, (read_digits_end rest _ _ H).
  replace (0 * 10 ^ Z.of_nat w + n mod 10 ^ Z.of_nat w)
    with (n mod 10 ^ Z.of_nat w) by lia.
  replace (0 + Z.of_nat w) with (Z.of_nat w) by lia.
  destruct rest as [|c r]; [reflexivity|].
  destruct (number_end_chars c r H) as (_ & P & _).
  destruct c as [[] [] [] [] [] [] [] []]; first [reflexivity|discriminate P].
Qed.

Lemma read_mantissa_fixed (w p : nat) (q k : Z) (rest : string) :
  number_end rest = true ->
  read_mantissa 10 digit_of
    (digits_fixed w q ++ String "." (digits_fixed p k ++ rest))
  = ((q mod 10 ^ Z.of_nat w) * 10 ^ Z.of_nat p + k mod 10 ^ Z.of_nat p,
     Z.of_nat w + Z.of_nat p, Z.of_nat p, rest).
Proof.
  intros H. unfold read_mantissa.
  rewrite read_digits_fixed.
  rewrite read_digits_stop by tauto.
  rewrite read_digits_fixed, (read_digits_end rest _ _ H).
  repeat f_equal; lia.
Qed.

Lemma digits_head (w : nat) :
  forall (n : Z) (Y : string),
    exists (d : Z) (t : string),
      0 <= d < 10 /\
      (digits_fixed (S w) n ++ Y)%string = String (digit_char d) t /\
      (t = Y \/ exists (d2 : Z) (t2 : string),
                  0 <= d2 < 10 /\ t = String (digit_char d2) t2).
Proof.
  induction w as [|w IH]; intros n Y.
  - exists (n mod 10), Y. split; [apply Z.mod_pos_bound; lia|].
    split; [reflexivity|left; reflexivity].
  - destruct (IH (n / 10) (String (digit_char (n mod 10)) Y))
      as (d & t & Hd & E & Ht).
    exists d, t. split; [exact Hd|]. split.
    + change (digits_fixed (S (S w)) n)
        with (digits_fixed (S w) (n / 10)
              ++ String (digit_char (n mod 10)) "")%string.
      rewrite append_assoc_string. exact E.
    + right. destruct Ht as [->|Ht]; [|exact Ht].
      exists (n mod 10), Y. split; [apply Z.mod_pos_bound; lia|reflexivity].
Qed.

Lemma strtod_hex_digit (sg : bool) (d : Z) (t : string) :
  0 <= d < 10 ->
  (t = EmptyString \/
   exists (c : ascii) (r : string),
     t = String c r /\ Ascii.eqb (tolower c) "x" = false) ->
  strtod_hex sg (String (digit_char d) t) = None.
Proof.
  intros H [->|(c & r & -> & E)].
  - digit_cases d H; reflexivity.
  - digit_cases d H; try reflexivity.
    change (digit_char 0) with "0"%char. cbn [strtod_hex]. rewrite E.
    reflexivity.
Qed.

Lemma digit_not_x (d : Z) :
  0 <= d < 10 -> Ascii.eqb (tolower (digit_char d)) "x" = false.
Proof. intros H. digit_cases d H; reflexivity. Qed.

Lemma number_end_hex (Y : string) :
  number_end Y = true \/ (exists r, Y = String "." r) ->
  Y = EmptyString \/
  exists (c : ascii) (r : string),
    Y = String c r /\ Ascii.eqb (tolower c) "x" = false.
Proof.
  intros [H|[r ->]].
  - destruct Y as [|c r]; [left; reflexivity|right].
    destruct (number_end_chars c r H) as (_ & _ & _ & _ & X1 & X2).
    exists c, r. split; [reflexivity|apply tolower_x; assumption].
  - right. exists "."%char, r. split; reflexivity.
Qed.

(** The digits of a number, followed by what ends it or by a point: not a
    hexadecimal constant, and a text that starts with a digit. *)
Lemma digits_not_hex (sg : bool) (w : nat) (n : Z) (Y : string) :
  number_end Y = true \/ (exists r, Y = String "." r) ->
  strtod_hex sg (digits_fixed (S w) n ++ Y) = None /\
  exists (d : Z) (t : string),
    0 <= d < 10 /\ (digits_fixed (S w) n ++ Y)%string = String (digit_char d) t.
Proof.
  intros HY. destruct (digits_head w n Y) as (d & t & Hd & E & Ht).
  split; [|exists d, t; split; assumption].
  rewrite E. apply strtod_hex_digit; [exact Hd|].
  destruct Ht as [->|(d2 & t2 & Hd2 & ->)].
  - apply number_end_hex. exact HY.
  - right. exists (digit_char d2), t2. split; [reflexivity|].
    apply digit_not_x. exact Hd2.
Qed.

Lemma strtod_decimal_text (sg : bool) (p : nat) (k : Z) (rest : string) :
  0 <= k -> number_end rest = true ->
  let body := (match p with
               | O => dec_string k
               | S _ => fixed_string p k
               end ++ rest)%string in
  strtod_hex sg body = None /\
  strtod_decimal sg body = Some (f64_of_decimal sg k (- Z.of_nat p)) /\
  exists (d : Z) (t : string), 0 <= d < 10 /\ body = String (digit_char d) t.
Proof.
  intros Hk He. destruct p as [|p'].
  - destruct (dec_string_spec k Hk) as (w & Ew & Hw). cbv zeta. rewrite Ew.
    destruct (digits_not_hex sg w k rest (or_introl He)) as [Hx Hd].
    split; [exact Hx|]. split; [|exact Hd].
    unfold strtod_decimal. rewrite (read_mantissa_integer _ _ _ He).
    assert (Hcnt : (Z.of_nat (S w) =? 0) = false) by (apply Z.eqb_neq; lia).
    rewrite Hcnt, (read_exponent_end rest He), (Z.mod_small k) by lia.
    reflexivity.
  - set (p := S p').
    assert (Hp : 0 < 10 ^ Z.of_nat p) by (apply Z.pow_pos_nonneg; lia).
    assert (Hq : 0 <= k / 10 ^ Z.of_nat p) by (apply Z.div_pos; lia).
    destruct (dec_string_spec (k / 10 ^ Z.of_nat p) Hq) as (w & Ew & Hw).
    cbv zeta. unfold fixed_string. rewrite Ew, append_assoc_string.
    change ((String "." (digits_fixed p k) ++ rest)%string)
      with (String "." (digits_fixed p k ++ rest)).
    destruct (digits_not_hex sg w (k / 10 ^ Z.of_nat p)
                (String "." (digits_fixed p k ++ rest))
                (or_intror (ex_intro _ _ eq_refl))) as [Hx Hd].
    split; [exact Hx|]. split; [|exact Hd].
    unfold strtod_decimal. rewrite (read_mantissa_fixed _ _ _ _ _ He).
    assert (Hcnt : (Z.of_nat (S w) + Z.of_nat p =? 0) = false)
      by (apply Z.eqb_neq; lia).
    rewrite Hcnt, (read_exponent_end rest He).
    rewrite (Z.mod_small (k / 10 ^ Z.of_nat p)) by lia.
    replace (k / 10 ^ Z.of_nat p * 10 ^ Z.of_nat p + k mod 10 ^ Z.of_nat p)
      with k by (pose proof (Z.div_mod k (10 ^ Z.of_nat p) ltac:(lia)); lia).
    reflexivity.
Qed.

(** A decimal number, followed by what ends it, reads as the [double]
    nearest to it. *)
Lemma atof_decimal_text (s : bool) (p : nat) (k : Z) (rest : string) :
  0 <= k -> number_end rest = true ->
  atof (decimal_text s p k ++ rest) = f64_of_decimal s k (- Z.of_nat p).
Proof.
  intros Hk He. unfold decimal_text. rewrite append_assoc_string.
  destruct (strtod_decimal_text s p k rest Hk He)
    as (Hx & Hd & d & t & Hdig & E).
  cbv zeta in Hx, Hd, E.
  set (body := (match p with
                | O => dec_string k
                | S _ => fixed_string p k
                end ++ rest)%string) in *.
  destruct s; cbn [sign_string append].
  - rewrite atof_minus, Hx, Hd. reflexivity.
  - destruct (digit_head_facts d t Hdig) as (F1 & _ & F3).
    rewrite <- E in F1, F3. unfold atof. rewrite F1, F3, Hx, Hd. reflexivity.
Qed.

(** An integer below [2^31], followed by what ends it, reads as itself. *)
Lemma atoi_decimal_text (s : bool) (n : Z) (rest : string) :
  0 <= n < 2 ^ 31 -> number_end rest = true ->
  atoi (decimal_text s 0 n ++ rest) = cond_Zopp s n.
Proof.
  intros Hn He. unfold decimal_text. rewrite append_assoc_string.
  destruct (dec_string_spec n ltac:(lia)) as (w & Ew & Hw). rewrite Ew.
  destruct (digits_head w n rest) as (d & t & Hdig & E & _).
  assert (R : read_digits 10 digit_of (digits_fixed (S w) n ++ rest) 0 0
              = (n, Z.of_nat (S w), rest)).
  { rewrite read_digits_fixed, (read_digits_end rest _ _ He).
    rewrite (Z.mod_small n) by lia. repeat f_equal; lia. }
  assert (W : wrap_signed 32
                (Z.max (- 2 ^ 63) (Z.min (2 ^ 63 - 1) (cond_Zopp s n)))
              = cond_Zopp s n).
  { assert (B : - 2 ^ 31 < cond_Zopp s n < 2 ^ 31)
      by (destruct s; cbn [cond_Zopp]; lia).
    change (2 ^ 31) with 2147483648 in B.
    unfold wrap_signed. change (2 ^ 63) with 9223372036854775808.
    change (2 ^ (32 - 1)) with 2147483648. change (2 ^ 32) with 4294967296.
    rewrite Z.max_r, Z.min_r by lia. rewrite Z.mod_small by lia. lia. }
  destruct s; cbn [sign_string append].
  - unfold atoi.
    change (skip_space (String "-" (digits_fixed (S w) n ++ rest)))
      with (String "-" (digits_fixed (S w) n ++ rest)).
    cbn [read_sign]. rewrite R. exact W.
  - destruct (digit_head_facts d t Hdig) as (F1 & _ & F3).
    rewrite <- E in F1, F3. unfold atoi. rewrite F1, F3, R. exact W.
Qed.

(** ** The fields of a state value *)

Lemma float_field_cases (val key : string) (lo hi x0 y : float) :
  y = match json_get_float val key with
      | Some fv => clampf fv lo hi
      | None => x0
      end ->
  (absent (json_search key) val -> y = x0) /\
  (forall pre post : string,
     first_at (json_search key) val pre post ->
     y = clampf (f32_of_f64 (atof post)) lo hi /\
     forall (ws : string) (s : bool) (p : nat) (k : Z) (rest : string),
       post = (ws ++ decimal_text s p k ++ rest)%string ->
       blanks ws = true -> 0 <= k -> number_end rest = true ->
       y = clampf (reread p s k) lo hi).
Proof.
  intros Hy. unfold json_get_float in Hy. split.
  - intros Ha. rewrite (json_find_absent val key Ha) in Hy. exact Hy.
  - intros pre post Hf. rewrite (json_find_first val key pre post Hf) in Hy.
    rewrite atof_skip_blank in Hy. split; [exact Hy|].
    intros ws s p k rest -> Hw Hk He. rewrite Hy.
    rewrite (atof_blanks ws _ Hw), (atof_decimal_text s p k rest Hk He).
    reflexivity.
Qed.

Lemma int_field_cases (val key : string) (n0 y : Z) :
  y = match json_get_int val key with
      | Some iv => snap_bands (clampi iv 8 32)
      | None => n0
      end ->
  (absent (json_search key) val -> y = n0) /\
  (forall pre post : string,
     first_at (json_search key) val pre post ->
     y = snap_bands (clampi (atoi post) 8 32) /\
     forall (ws : string) (s : bool) (n : Z) (rest : string),
       post = (ws ++ decimal_text s 0 n ++ rest)%string ->
       blanks ws = true -> 0 <= n < 2 ^ 31 -> number_end rest = true ->
       y = snap_bands (clampi (cond_Zopp s n) 8 32)).
Proof.
  intros Hy. unfold json_get_int in Hy. split.
  - intros Ha. rewrite (json_find_absent val key Ha) in Hy. exact Hy.
  - intros pre post Hf. rewrite (json_find_first val key pre post Hf) in Hy.
    rewrite atoi_skip_blank in Hy. split; [exact Hy|].
    intros ws s n rest -> Hw Hn He. rewrite Hy.
    rewrite (atoi_blanks ws _ Hw), (atoi_decimal_text s n rest Hn He).
    reflexivity.
Qed.

(** C6.  [setParameter("state", value)] settles every field on its own,
    by the first place at which the value holds the key between double
    quotes and followed by a colon.  A field whose key the value does not
    hold stays as it was.  A field whose key is followed by a decimal
    number becomes that number, clamped to the range of the field
    (snapped, for [bands]); in general it becomes the clamp of what
    [atof] (for [bands], [atoi]) reads behind the key and the blanks after
    it, which is 0 where no number starts.  None of this depends on what
    else the value holds before or behind the field: other fields may be
    missing or garbled, and the value may be cut off.  In every case the
    call ends with the filter and envelope state at zero and with the
    coefficients that the parameters now stored give. *)
Theorem set_param_state_partial :
  forall (M : LibM) (v : vocoder_instance_t) (val : string),
    let v' := set_param v "state" val in
    ((absent (json_search "bands") val -> bands v' = bands v) /\
     (forall pre post : string,
        first_at (json_search "bands") val pre post ->
        bands v' = snap_bands (clampi (atoi post) 8 32) /\
        forall (ws : string) (s : bool) (n : Z) (rest : string),
          post = (ws ++ decimal_text s 0 n ++ rest)%string ->
          blanks ws = true -> 0 <= n < 2 ^ 31 -> number_end rest = true ->
          bands v' = snap_bands (clampi (cond_Zopp s n) 8 32))) /\
    (forall (key : string) (get : vocoder_instance_t -> float)
            (lo hi : float),
       In (key, get, lo, hi) float_fields ->
       (absent (json_search key) val -> get v' = get v) /\
       (forall pre post : string,
          first_at (json_search key) val pre post ->
          get v' = clampf (f32_of_f64 (atof post)) lo hi /\
          forall (ws : string) (s : bool) (p : nat) (k : Z) (rest : string),
            post = (ws ++ decimal_text s p k ++ rest)%string ->
            blanks ws = true -> 0 <= k -> number_end rest = true ->
            get v' = clampf (reread p s k) lo hi)) /\
    filters_zero v' /\ coeffs_current v' /\ noise_seed v' = noise_seed v.
Proof.
  intros M v val v'.
  destruct (restore_fields_spec v val)
    as (A & B1 & B2 & B3 & B4 & B5 & B6 & B7 & _ & _ & Sd).
  cbv zeta in A, B1, B2, B3, B4, B5, B6, B7, Sd.
  assert (Ev : v' = recalc_bands (clear_filters (restore_fields val v)))
    by apply set_param_state_eq.
  set (u := restore_fields val v) in *.
  assert (P : same_params u v').
  { rewrite Ev. unfold same_params. autorewrite with vocoder. repeat split. }
  destruct P as (E0 & E1 & E2 & E3 & E4 & E5 & E6 & E7).
  rewrite <- E0 in A. rewrite <- E1 in B1. rewrite <- E2 in B2.
  rewrite <- E3 in B3. rewrite <- E4 in B4. rewrite <- E5 in B5.
  rewrite <- E6 in B6. rewrite <- E7 in B7.
  split; [exact (int_field_cases val "bands" (bands v) (bands v') A)|].
  split; [|split; [|split]].
  - intros key get lo hi Hin. unfold float_fields in Hin. cbn [In] in Hin.
    destruct Hin as [H|[H|[H|[H|[H|[H|[H|[]]]]]]]];
      injection H as <- <- <- <-; apply float_field_cases; assumption.
  - apply set_param_state_zero.
  - rewrite Ev. apply recalc_bands_current.
  - rewrite Ev. autorewrite with vocoder. exact Sd.
Qed.

Lemma set_param_state_partial_witness :
  let val :=
    json_text "{'bands':22,'freq_low':oops,'mix' : 3,'mod_gain':  2.50,'rel" in
  let v' := @set_param RefLibM.libm Sample.played "state" val in
  bands v' = 24 /\
  mod_gain v' = clampf (reread 2 false 250) f_zero (f32_of_Z 3) /\
  freq_low v' = f32_of_Z 80 /\
  mix v' = mix Sample.played /\ release_ms v' = release_ms Sample.played.
Proof.
  intros val v'.
  destruct (set_param_state_partial RefLibM.libm Sample.played val)
    as ((_ & Hb) & Hf & _).
  fold v' in Hb, Hf.
  assert (Fb : first_at (json_search "bands") val "{"
                 (json_text "22,'freq_low':oops,'mix' : 3,'mod_gain':  2.50,'rel"))
    by (apply strstr_some_first; vm_compute; reflexivity).
  assert (Fg : first_at (json_search "mod_gain") val
                 (json_text "{'bands':22,'freq_low':oops,'mix' : 3,")
                 (json_text "  2.50,'rel"))
    by (apply strstr_some_first; vm_compute; reflexivity).
  assert (Fl : first_at (json_search "freq_low") val
                 (json_text "{'bands':22,")
                 (json_text "oops,'mix' : 3,'mod_gain':  2.50,'rel"))
    by (apply strstr_some_first; vm_compute; reflexivity).
  assert (Am : absent (json_search "mix") val)
    by (apply strstr_none_absent; vm_compute; reflexivity).
  assert (Ar : absent (json_search "release") val)
    by (apply strstr_none_absent; vm_compute; reflexivity).
  split; [|split; [|split; [|split]]].
  - destruct (Hb _ _ Fb) as [_ Hn].
    exact (Hn ""%string false 22
             (json_text ",'freq_low':oops,'mix' : 3,'mod_gain':  2.50,'rel")
             eq_refl eq_refl ltac:(lia) eq_refl).
  - destruct (Hf "mod_gain"%string mod_gain f_zero (f32_of_Z 3)
                ltac:(unfold float_fields; cbn [In]; tauto)) as [_ Hp].
    destruct (Hp _ _ Fg) as [_ Hn].
    exact (Hn "  "%string false 2%nat 250 (json_text ",'rel")
             eq_refl eq_refl ltac:(lia) eq_refl).
  - destruct (Hf "freq_low"%string freq_low (f32_of_Z 80) (f32_of_Z 500)
                ltac:(unfold float_fields; cbn [In]; tauto)) as [_ Hp].
    destruct (Hp _ _ Fl) as [Hv _]. rewrite Hv. vm_compute. reflexivity.
  - destruct (Hf "mix"%string mix f_zero f_one
                ltac:(unfold float_fields; cbn [In]; tauto)) as [Ha _].
    exact (Ha Am).
  - destruct (Hf "release"%string release_ms (f32_of_Z 5) (f32_of_Z 500)
                ltac:(unfold float_fields; cbn [In]; tauto)) as [Ha _].
    exact (Ha Ar).
Defined.
